(** * Recurrent subnetwork engine of RETURNN ([returnn/tf/layers/rec.py])

    A shallow embedding of the control logic of [_SubnetworkRecCell],
    [_TemplateLayer] and [ChoiceLayer]: template nodes and their
    dependency lists, the partition of the layers into those computed
    before, inside and after the step loop, the reconstruction loop of the
    template builder, the step loop with its accumulators, and the
    combination of pruned sources of a choice. *)

From stdpp Require Import gmap strings list fin_maps pretty sorting.
From Stdlib Require Import Ascii ZArith Lia.

Local Open Scope string_scope.
Local Open Scope list_scope.
Local Open Scope nat_scope.

(** ** Exceptions

    Python code fails by raising; the embedding returns [Raise e].
    [OutOfFuel] is not a Python exception: it marks a recursion bound of the
    embedding.  [_move_outside_loop] and the step loop compute their own
    bounds, and the lemmas [move_outside_loop_no_fuel] and [run_loop_returns]
    show that these are never reached. *)

Inductive exn : Type :=
| KeyError (key : string)
| AssertionError (msg : string)
| NetworkConstructionDependencyLoopException
| OutOfFuel.

Inductive result (A : Type) : Type :=
| Ok (a : A)
| Raise (e : exn).

Arguments Ok {A} a.
Arguments Raise {A} e.

Definition result_bind {A B : Type} (m : result A) (k : A → result B) : result B :=
  match m with
  | Ok a => k a
  | Raise e => Raise e
  end.

Notation "'do' x <- m ; k" := (result_bind m (fun x => k))
  (at level 10, x name, m at level 100, k at level 200).

(** ** Layer names *)

Module LayerName.

(** ['/' in name] *)
Fixpoint has_slash (name : string) : bool :=
  match name with
  | EmptyString => false
  | String c rest => if Ascii.eqb c "/"%char then true else has_slash rest
  end.

(** [name.split('/')[0]] *)
Fixpoint split_head (name : string) : string :=
  match name with
  | EmptyString => EmptyString
  | String c rest => if Ascii.eqb c "/"%char then EmptyString else String c (split_head rest)
  end.

(** [name == "data" or name.startswith("data:")] *)
Definition is_data (name : string) : bool :=
  String.eqb name "data" || String.prefix "data:" name.

Lemma split_head_no_slash name : has_slash (split_head name) = false.
Proof.
  induction name as [|c rest IH]; simpl; [done|].
  destruct (Ascii.eqb c "/"%char) eqn:E; simpl; [done|]. by rewrite E.
Qed.

Lemma split_head_id name : has_slash name = false → split_head name = name.
Proof.
  induction name as [|c rest IH]; simpl; [done|].
  destruct (Ascii.eqb c "/"%char); [done|]. intros H. by rewrite IH.
Qed.

End LayerName.

(** ** Template layers and their dependency lists ([_TemplateLayer]) *)

(** An entry of [layer.dependencies]: either a [_TemplateLayer] of this
    subnetwork, or a real layer of the base network.  Template layers are
    identified by their name: [visit] below asserts
    [self.layer_data_templates[layer.name] is layer]. *)
Inductive Dep : Type :=
| TemplateDep (name : string)
| RealDep (name : string).

Global Instance Dep_eq_dec : EqDecision Dep.
Proof. solve_decision. Defined.

Record TemplateLayer : Type := mkTemplateLayer {
  dependencies : list Dep;
  cur_frame_dependencies : list Dep;
  prev_frame_dependencies : list Dep;
  search_choices : bool;  (* truth value of [layer.search_choices] *)
  collocate_with : list string;
}.

(** [_TemplateLayer.__init__]: empty dependency lists, no search choices. *)
Definition new_template : TemplateLayer :=
  {| dependencies := []; cur_frame_dependencies := [];
     prev_frame_dependencies := []; search_choices := false;
     collocate_with := [] |}.

(** [if x not in l: l.append(x)] *)
Definition append_if_new (x : Dep) (l : list Dep) : list Dep :=
  if decide (x ∈ l) then l else l ++ [x].

(** [_TemplateLayer.add_dependency(layer, is_prev_time_frame)].  The
    [assert isinstance(layer, _TemplateLayer)] of the previous-frame branch
    runs after [self.dependencies] was extended. *)
Definition add_dependency (self : TemplateLayer) (layer : Dep) (is_prev_time_frame : bool)
  : result TemplateLayer :=
  let deps := append_if_new layer (dependencies self) in
  if is_prev_time_frame then
    match layer with
    | RealDep _ => Raise (AssertionError "isinstance(layer, _TemplateLayer)")
    | TemplateDep _ =>
        Ok {| dependencies := deps;
              cur_frame_dependencies := cur_frame_dependencies self;
              prev_frame_dependencies := append_if_new layer (prev_frame_dependencies self);
              search_choices := search_choices self;
              collocate_with := collocate_with self |}
    end
  else
    Ok {| dependencies := deps;
          cur_frame_dependencies := append_if_new layer (cur_frame_dependencies self);
          prev_frame_dependencies := prev_frame_dependencies self;
          search_choices := search_choices self;
          collocate_with := collocate_with self |}.

(** A template that received the given [add_dependency] calls in order
    (template references only). *)
Fixpoint with_dependencies (calls : list (string * bool)) (self : TemplateLayer) : TemplateLayer :=
  match calls with
  | [] => self
  | (name, is_prev) :: rest =>
      match add_dependency self (TemplateDep name) is_prev with
      | Ok self' => with_dependencies rest self'
      | Raise _ => self
      end
  end.

(** *** What [add_dependency] keeps *)

(** The three dependency lists of a template agree: none has a repeated
    entry, [dependencies] holds the entries of the two other lists and no
    others, and a previous-frame dependency is a template. *)
Record consistent (self : TemplateLayer) : Prop := {
  deps_nodup : NoDup (dependencies self);
  cur_nodup : NoDup (cur_frame_dependencies self);
  prev_nodup : NoDup (prev_frame_dependencies self);
  deps_union : ∀ d, d ∈ dependencies self ↔
                    d ∈ cur_frame_dependencies self ∨ d ∈ prev_frame_dependencies self;
  prev_templates : ∀ d, d ∈ prev_frame_dependencies self → ∃ name, d = TemplateDep name;
}.

Lemma append_if_new_elem x d (l : list Dep) :
  d ∈ append_if_new x l ↔ d = x ∨ d ∈ l.
Proof.
  unfold append_if_new. destruct (decide (x ∈ l)) as [Hin|Hnew].
  - split; [by right|]. by intros [->|?].
  - rewrite elem_of_app, list_elem_of_singleton. tauto.
Qed.

Lemma append_if_new_nodup x (l : list Dep) : NoDup l → NoDup (append_if_new x l).
Proof.
  unfold append_if_new. intros Hnd. destruct (decide (x ∈ l)) as [Hin|Hnew]; [done|].
  apply NoDup_app. split_and!; [done| |apply NoDup_singleton].
  intros y Hy Hy'. apply list_elem_of_singleton in Hy'. by subst.
Qed.

Lemma append_if_new_prefix x (l : list Dep) : l `prefix_of` append_if_new x l.
Proof.
  unfold append_if_new. destruct (decide (x ∈ l)); [done|]. by apply prefix_app_r.
Qed.

Lemma append_if_new_again x (l : list Dep) :
  append_if_new x (append_if_new x l) = append_if_new x l.
Proof.
  unfold append_if_new at 1.
  destruct (decide (x ∈ append_if_new x l)) as [|Hnot]; [done|].
  exfalso. apply Hnot, append_if_new_elem. by left.
Qed.

Lemma new_template_consistent : consistent new_template.
Proof.
  split; simpl; try apply NoDup_nil_2.
  - intros d. split; [intros H|intros [H|H]]; by apply elem_of_nil in H.
  - intros d H. by apply elem_of_nil in H.
Qed.

(** X6: A successful [add_dependency] keeps the three lists consistent, keeps
    the entries that were there at their positions, records the layer in the
    list of its frame, and a second call with the same arguments changes
    nothing. *)
Theorem add_dependency_keeps_consistent self layer is_prev_time_frame self' :
  consistent self →
  add_dependency self layer is_prev_time_frame = Ok self' →
  consistent self'
  ∧ dependencies self `prefix_of` dependencies self'
  ∧ layer ∈ dependencies self'
  ∧ layer ∈ (if is_prev_time_frame then prev_frame_dependencies self'
             else cur_frame_dependencies self')
  ∧ add_dependency self' layer is_prev_time_frame = Ok self'.
Proof.
  intros [Hd Hc Hp Hu Ht]. unfold add_dependency.
  destruct is_prev_time_frame; [destruct layer as [name|name]; [|done]|];
    intros [= <-]; simpl; rewrite !append_if_new_again;
    (split_and!; [split; simpl| | | |done]);
    auto using append_if_new_nodup, append_if_new_prefix;
    try (apply append_if_new_elem; by left).
  - intros d. rewrite !append_if_new_elem, Hu. tauto.
  - intros d Hin. apply append_if_new_elem in Hin as [->|Hin]; [by eexists|auto].
  - intros d. rewrite !append_if_new_elem, Hu. tauto.
Qed.

Lemma add_dependency_keeps_consistent_witness :
  ∃ self', add_dependency new_template (TemplateDep "s") true = Ok self'
           ∧ consistent self'
           ∧ TemplateDep "s" ∈ prev_frame_dependencies self'.
Proof.
  eexists. split; [reflexivity|].
  destruct (add_dependency_keeps_consistent new_template (TemplateDep "s") true _
              new_template_consistent eq_refl) as (Hc & _ & _ & Hin & _).
  split; [exact Hc|exact Hin].
Defined.

(** ** Moving layers out of the loop ([_SubnetworkRecCell._move_outside_loop]) *)

Module MoveOutsideLoop.
Import LayerName.

Record partition : Type := mkPartition {
  layers_in_loop : list string;
  input_layers_moved_out : list string;
  output_layers_moved_out : list string;
}.

Section WithTemplates.

(** [self.layer_data_templates] and [self.parent_net.search_flag]. *)
Variable layer_data_templates : gmap string TemplateLayer.
Variable search_flag : bool.

(** The template object registered under a name.  Every name the
    functions below look up was put in the list by [visit], which found
    it in [layer_data_templates]; the default is never used
    (see [visited_spec]). *)
Definition template (name : string) : TemplateLayer :=
  default new_template (layer_data_templates !! name).

(** [visit(deps)]: depth-first collection of the template layers reachable
    through [layer.dependencies].  [fuel] bounds the nesting depth of the
    recursive calls. *)
Fixpoint visit (fuel : nat) (deps : list Dep) (layers_in_loop : list string)
  : result (list string) :=
  match fuel with
  | 0 => Raise OutOfFuel
  | S fuel' =>
      (fix for_layer (deps : list Dep) (layers_in_loop : list string) : result (list string) :=
         match deps with
         | [] => Ok layers_in_loop
         | RealDep _ :: rest => for_layer rest layers_in_loop
         | TemplateDep name :: rest =>
             if is_data name then for_layer rest layers_in_loop
             else
               match layer_data_templates !! name with
               | None => Raise (KeyError name)
               | Some layer =>
                   if decide (name ∈ layers_in_loop) then for_layer rest layers_in_loop
                   else
                     match visit fuel' (dependencies layer) (layers_in_loop ++ [name]) with
                     | Ok layers_in_loop' => for_layer rest layers_in_loop'
                     | Raise e => Raise e
                     end
               end
         end) deps layers_in_loop
  end.

(** [[self.layer_data_templates[name] for name in needed_outputs]] *)
Fixpoint lookup_all (names : list string) : result (list Dep) :=
  match names with
  | [] => Ok []
  | name :: rest =>
      match layer_data_templates !! name with
      | None => Raise (KeyError name)
      | Some _ => do deps <- lookup_all rest; Ok (TemplateDep name :: deps)
      end
  end.

(** The [for other_layer in layers_in_loop] loop of [output_can_move_out]. *)
Fixpoint output_used_check (name : string) (layer : TemplateLayer)
    (others : list string) : bool :=
  match others with
  | [] => true
  | other_layer :: rest =>
      if decide (TemplateDep name ∈ dependencies (template other_layer)) then false
      else if decide (other_layer ∈ collocate_with layer) then false
      else output_used_check name layer rest
  end.

Fixpoint output_can_move_out_rec (fuel : nat) (layers_in_loop : list string)
    (name : string) : result bool :=
  let layer := template name in
  if String.eqb name "end" then Ok false
  else if search_flag && search_choices layer then Ok false
  else if has_slash name then
    let root_layer_name := split_head name in
    match layer_data_templates !! root_layer_name with
    | None => Raise (AssertionError "Root layer not found for sub-layer")
    | Some _ =>
        match fuel with
        | 0 => Raise OutOfFuel
        | S fuel' => output_can_move_out_rec fuel' layers_in_loop root_layer_name
        end
    end
  else Ok (output_used_check name layer layers_in_loop).

(** A sub-layer recurses once, into its root, whose name has no ['/']. *)
Definition output_can_move_out := output_can_move_out_rec 1.

(** The [for other_layer in layers_in_loop] loop of [input_can_move_out]. *)
Fixpoint input_deps_check (layer : TemplateLayer) (others : list string) : bool :=
  match others with
  | [] => true
  | other_layer :: rest =>
      if decide (TemplateDep other_layer ∈ dependencies layer) then false
      else if decide (other_layer ∈ collocate_with layer) then false
      else input_deps_check layer rest
  end.

Fixpoint input_can_move_out_rec (fuel : nat) (layers_in_loop : list string)
    (name : string) : result bool :=
  let layer := template name in
  if String.eqb name ":i" || String.eqb name "end" then Ok false
  else if search_flag && search_choices layer then Ok false
  else if has_slash name then
    let root_layer_name := split_head name in
    match layer_data_templates !! root_layer_name with
    | None => Raise (AssertionError "Root layer not found for sub-layer")
    | Some _ =>
        match fuel with
        | 0 => Raise OutOfFuel
        | S fuel' => input_can_move_out_rec fuel' layers_in_loop root_layer_name
        end
    end
  else Ok (input_deps_check layer layers_in_loop).

Definition input_can_move_out := input_can_move_out_rec 1.

(** [find_output_layer_to_move_out] / [find_input_layer_to_move_out]:
    the first layer of [layers_in_loop] that can move. *)
Fixpoint find_first (can_move_out : string → result bool) (candidates : list string)
  : result (option string) :=
  match candidates with
  | [] => Ok None
  | layer :: rest =>
      do b <- can_move_out layer;
      if b then Ok (Some layer) else find_first can_move_out rest
  end.

Definition find_output_layer_to_move_out (layers_in_loop : list string) :=
  find_first (output_can_move_out layers_in_loop) layers_in_loop.

Definition find_input_layer_to_move_out (layers_in_loop : list string) :=
  find_first (input_can_move_out layers_in_loop) layers_in_loop.

(** [list.remove(x)]: drops the first occurrence. *)
Fixpoint list_remove_first (x : string) (l : list string) : list string :=
  match l with
  | [] => []
  | y :: rest => if decide (x = y) then rest else y :: list_remove_first x rest
  end.

Definition output_move_out (st : partition) (layer : string) : partition :=
  {| layers_in_loop := list_remove_first layer (layers_in_loop st);
     input_layers_moved_out := input_layers_moved_out st;
     output_layers_moved_out := output_layers_moved_out st ++ [layer] |}.

Definition input_move_out (st : partition) (layer : string) : partition :=
  {| layers_in_loop := list_remove_first layer (layers_in_loop st);
     input_layers_moved_out := input_layers_moved_out st ++ [layer];
     output_layers_moved_out := output_layers_moved_out st |}.

(** First [while True]: move as many output layers as possible. *)
Fixpoint move_outputs (fuel : nat) (st : partition) : result partition :=
  match fuel with
  | 0 => Raise OutOfFuel
  | S fuel' =>
      do output_layer <- find_output_layer_to_move_out (layers_in_loop st);
      match output_layer with
      | Some layer => move_outputs fuel' (output_move_out st layer)
      | None => Ok st
      end
  end.

(** Second [while True]: one output move and one input move per round. *)
Fixpoint move_both (fuel : nat) (st : partition) : result partition :=
  match fuel with
  | 0 => Raise OutOfFuel
  | S fuel' =>
      do output_layer <- find_output_layer_to_move_out (layers_in_loop st);
      let st1 := match output_layer with
                 | Some layer => output_move_out st layer
                 | None => st
                 end in
      do input_layer <- find_input_layer_to_move_out (layers_in_loop st1);
      let st2 := match input_layer with
                 | Some layer => input_move_out st1 layer
                 | None => st1
                 end in
      match output_layer, input_layer with
      | None, None => Ok st2
      | _, _ => move_both fuel' st2
      end
  end.

(** The layers collected by [visit] from the needed outputs. *)
Definition visited (needed_outputs : list string) : result (list string) :=
  do deps <- lookup_all needed_outputs;
  visit (S (size layer_data_templates)) deps [].

Definition _move_outside_loop (needed_outputs : list string) : result partition :=
  do layers_in_loop <- visited needed_outputs;
  let st := {| layers_in_loop := layers_in_loop;
               input_layers_moved_out := [];
               output_layers_moved_out := [] |} in
  do st1 <- move_outputs (S (length layers_in_loop)) st;
  move_both (S (length (MoveOutsideLoop.layers_in_loop st1))) st1.

(** *** The dependency graph that [visit] walks *)

(** [edge a b]: the template [a] lists the template [b] (not a data
    layer) in [dependencies]. *)
Definition edge (a b : string) : Prop :=
  ∃ layer, layer_data_templates !! a = Some layer
           ∧ TemplateDep b ∈ dependencies layer ∧ is_data b = false.

Inductive reachable (roots : list Dep) : string → Prop :=
| reachable_root name :
    TemplateDep name ∈ roots → is_data name = false → reachable roots name
| reachable_step a b :
    reachable roots a → edge a b → reachable roots b.

Lemma reachable_via roots a layer m :
  reachable roots a → layer_data_templates !! a = Some layer →
  reachable (dependencies layer) m → reachable roots m.
Proof.
  intros Ha Hl Hm. induction Hm as [name Hin Hd | x y _ IH He].
  - eapply reachable_step; [exact Ha|]. by exists layer.
  - eapply reachable_step; [exact IH | exact He].
Qed.

Lemma reachable_mono roots roots' m :
  (∀ d, d ∈ roots → d ∈ roots') → reachable roots m → reachable roots' m.
Proof.
  intros Hsub Hm. induction Hm as [name Hin Hd | x y _ IH He].
  - apply reachable_root; auto.
  - eapply reachable_step; eauto.
Qed.

(** *** Unfolding [visit] *)

Lemma visit_nil fuel acc : visit (S fuel) [] acc = Ok acc.
Proof. reflexivity. Qed.

Lemma visit_real fuel name rest acc :
  visit (S fuel) (RealDep name :: rest) acc = visit (S fuel) rest acc.
Proof. reflexivity. Qed.

Lemma visit_template fuel name rest acc :
  visit (S fuel) (TemplateDep name :: rest) acc =
  if is_data name then visit (S fuel) rest acc
  else match layer_data_templates !! name with
       | None => Raise (KeyError name)
       | Some layer =>
           if decide (name ∈ acc) then visit (S fuel) rest acc
           else match visit fuel (dependencies layer) (acc ++ [name]) with
                | Ok acc' => visit (S fuel) rest acc'
                | Raise e => Raise e
                end
       end.
Proof. reflexivity. Qed.

(** What a successful [visit] guarantees about the list it returns. *)
Record visit_post (deps : list Dep) (acc acc' : list string) : Prop := {
  vp_extends : ∃ ext, acc' = acc ++ ext;
  vp_nodup : NoDup acc → NoDup acc';
  vp_sound : ∀ m, m ∈ acc' → m ∈ acc ∨
               (reachable deps m ∧ is_Some (layer_data_templates !! m));
  vp_roots : ∀ name, TemplateDep name ∈ deps → is_data name = false → name ∈ acc';
  vp_closed : ∀ m b, m ∈ acc' → m ∉ acc → edge m b → b ∈ acc';
}.

Lemma visit_post_nil acc : visit_post [] acc acc.
Proof.
  split.
  - exists []. by rewrite app_nil_r.
  - done.
  - auto.
  - intros name H. by apply elem_of_nil in H.
  - intros m b H1 H2. done.
Qed.

Lemma visit_post_skip d deps acc acc' :
  (∀ name, d = TemplateDep name → is_data name = false → name ∈ acc) →
  visit_post deps acc acc' → visit_post (d :: deps) acc acc'.
Proof.
  intros Hd [Hext Hnd Hsound Hroots Hclosed]. split; auto.
  - intros m Hm. destruct (Hsound m Hm) as [?|[Hr Hs]]; [by left|right].
    split; [|done]. eapply reachable_mono; [|exact Hr]. intros; by right.
  - intros name Hin Hdata. apply elem_of_cons in Hin as [E|Hin]; [|by auto].
    destruct Hext as [ext ->]. apply elem_of_app. left. by apply Hd.
Qed.

Lemma visit_post_step name layer deps acc acc1 acc' :
  layer_data_templates !! name = Some layer → is_data name = false →
  name ∉ acc →
  visit_post (dependencies layer) (acc ++ [name]) acc1 →
  visit_post deps acc1 acc' →
  visit_post (TemplateDep name :: deps) acc acc'.
Proof.
  intros Hl Hdata Hnew [[e1 E1] Hnd1 Hs1 Hr1 Hc1] [[e2 E2] Hnd2 Hs2 Hr2 Hc2].
  assert (Hroot : reachable (TemplateDep name :: deps) name)
    by (apply reachable_root; [by left|done]).
  split.
  - exists ([name] ++ e1 ++ e2). subst. by rewrite <- !app_assoc.
  - intros Hnd. apply Hnd2, Hnd1. apply NoDup_app. split_and!; [done| |apply NoDup_singleton].
    intros x Hx Hx'. apply list_elem_of_singleton in Hx'. by subst.
  - intros m Hm. destruct (Hs2 m Hm) as [Hm1|[Hr Hs]].
    + destruct (Hs1 m Hm1) as [Hm0|[Hr Hs]].
      * apply elem_of_app in Hm0 as [?|Hm0]; [by left|].
        apply list_elem_of_singleton in Hm0 as ->. right. by split; [|eexists].
      * right. split; [|done]. by eapply reachable_via.
    + right. split; [|done]. eapply reachable_mono; [|exact Hr]. intros; by right.
  - intros n Hin Hd. apply elem_of_cons in Hin as [E|Hin]; [|by auto].
    injection E as ->. subst. rewrite !elem_of_app. left. left. right. by left.
  - intros m b Hm Hnot He.
    destruct (decide (m ∈ acc1)) as [Hm1|Hm1]; [|by eauto].
    assert (b ∈ acc1) as Hb; [|subst acc'; apply elem_of_app; by left].
    destruct (decide (m = name)) as [->|Hne].
    + destruct He as (layer' & Hl' & Hin & Hd). rewrite Hl in Hl'. injection Hl' as <-.
      by apply Hr1.
    + apply (Hc1 m b Hm1); [|done]. rewrite elem_of_app, list_elem_of_singleton. tauto.
Qed.

Lemma visit_ok fuel deps acc acc' :
  visit fuel deps acc = Ok acc' → visit_post deps acc acc'.
Proof.
  revert deps acc acc'. induction fuel as [|fuel IHf]; [done|].
  induction deps as [|[name|name] rest IHd]; intros acc acc'.
  - rewrite visit_nil. intros [= <-]. apply visit_post_nil.
  - rewrite visit_template. destruct (is_data name) eqn:Hdata.
    { intros H. apply visit_post_skip; [|by apply IHd]. intros ? [= <-]. congruence. }
    destruct (layer_data_templates !! name) as [layer|] eqn:Hl; [|done].
    destruct (decide (name ∈ acc)) as [Hin|Hnew].
    { intros H. apply visit_post_skip; [|by apply IHd]. by intros ? [= <-]. }
    destruct (visit fuel (dependencies layer) (acc ++ [name])) as [acc1|] eqn:Hv; [|done].
    intros H. eapply visit_post_step; eauto.
  - rewrite visit_real. intros H. apply visit_post_skip; [done|by apply IHd].
Qed.

(** *** The recursion bound of [visit] is never reached *)

Lemma length_le_templates (acc : list string) :
  NoDup acc → (∀ m, m ∈ acc → is_Some (layer_data_templates !! m)) →
  length acc ≤ size layer_data_templates.
Proof.
  intros Hnd Hsub.
  rewrite <- (size_list_to_set (C := gset string) acc) by done.
  rewrite <- (size_dom (D := gset string) layer_data_templates).
  apply subseteq_size. intros m Hm. apply elem_of_list_to_set in Hm.
  apply elem_of_dom. auto.
Qed.

Lemma visit_post_in_templates deps acc acc' :
  visit_post deps acc acc' →
  (∀ m, m ∈ acc → is_Some (layer_data_templates !! m)) →
  ∀ m, m ∈ acc' → is_Some (layer_data_templates !! m).
Proof.
  intros Hp Hacc m Hm. destruct (vp_sound _ _ _ Hp m Hm) as [?|[_ ?]]; auto.
Qed.

Lemma visit_enough_fuel fuel deps acc :
  NoDup acc → (∀ m, m ∈ acc → is_Some (layer_data_templates !! m)) →
  size layer_data_templates < fuel + length acc →
  visit fuel deps acc ≠ Raise OutOfFuel.
Proof.
  revert deps acc. induction fuel as [|fuel IHf].
  { intros deps acc Hnd Hsub Hlt. pose proof (length_le_templates acc Hnd Hsub). lia. }
  induction deps as [|[name|name] rest IHd]; intros acc Hnd Hsub Hlt.
  - by rewrite visit_nil.
  - rewrite visit_template. destruct (is_data name); [by apply IHd|].
    destruct (layer_data_templates !! name) as [layer|] eqn:Hl; [|done].
    destruct (decide (name ∈ acc)) as [Hin|Hnew]; [by apply IHd|].
    assert (NoDup (acc ++ [name])) as Hnd1.
    { apply NoDup_app. split_and!; [done| |apply NoDup_singleton].
      intros x Hx Hx'. apply list_elem_of_singleton in Hx'. by subst. }
    assert (∀ m, m ∈ acc ++ [name] → is_Some (layer_data_templates !! m)) as Hsub1.
    { intros m Hm. apply elem_of_app in Hm as [?|Hm]; [by auto|].
      apply list_elem_of_singleton in Hm as ->. by eexists. }
    destruct (visit fuel (dependencies layer) (acc ++ [name])) as [acc1|e] eqn:Hv.
    + pose proof (visit_ok _ _ _ _ Hv) as Hp.
      apply IHd.
      * by apply (vp_nodup _ _ _ Hp).
      * by eapply visit_post_in_templates.
      * destruct (vp_extends _ _ _ Hp) as [ext ->]. rewrite !length_app in *. lia.
    + intros [= ->]. revert Hv. apply IHf; [done..|].
      rewrite length_app. simpl. lia.
  - rewrite visit_real. by apply IHd.
Qed.

(** *** The list collected from the needed outputs *)

Lemma lookup_all_ok names deps :
  lookup_all names = Ok deps → deps = TemplateDep <$> names.
Proof.
  revert deps. induction names as [|name rest IH]; intros deps; simpl.
  - by intros [= <-].
  - destruct (layer_data_templates !! name); [|done].
    destruct (lookup_all rest) as [deps'|]; simpl; [|done].
    intros [= <-]. by rewrite (IH deps').
Qed.

Lemma lookup_all_no_fuel names : lookup_all names ≠ Raise OutOfFuel.
Proof.
  induction names as [|name rest IH]; simpl; [done|].
  destruct (layer_data_templates !! name); [|done].
  destruct (lookup_all rest) as [deps'|e]; simpl; [done|]. congruence.
Qed.

(** The names reachable from the needed outputs through
    [layer.dependencies], data layers left out. *)
Definition reachable_from (needed_outputs : list string) : string → Prop :=
  reachable (TemplateDep <$> needed_outputs).

Lemma reachable_closed roots (l : list string) :
  (∀ name, TemplateDep name ∈ roots → is_data name = false → name ∈ l) →
  (∀ m b, m ∈ l → edge m b → b ∈ l) →
  ∀ m, reachable roots m → m ∈ l.
Proof.
  intros Hroots Hclosed m Hm. induction Hm; eauto.
Qed.

Lemma visited_spec needed_outputs l :
  visited needed_outputs = Ok l →
  NoDup l ∧ (∀ m, m ∈ l ↔ reachable_from needed_outputs m)
  ∧ (∀ m, m ∈ l → is_Some (layer_data_templates !! m)).
Proof.
  unfold visited. destruct (lookup_all needed_outputs) as [deps|] eqn:Hd;
    cbn [result_bind]; [|done].
  apply lookup_all_ok in Hd as ->. intros Hv. apply visit_ok in Hv as Hp.
  split_and!.
  - apply (vp_nodup _ _ _ Hp). constructor.
  - intros m. split.
    + intros Hm. destruct (vp_sound _ _ _ Hp m Hm) as [Hm'|[? _]]; [|done].
      by apply elem_of_nil in Hm'.
    + apply reachable_closed; [apply (vp_roots _ _ _ Hp)|].
      intros x b Hx. apply (vp_closed _ _ _ Hp); [done|]. apply not_elem_of_nil.
  - eapply visit_post_in_templates; [exact Hp|]. intros m Hm. by apply elem_of_nil in Hm.
Qed.

Lemma visited_no_fuel needed_outputs : visited needed_outputs ≠ Raise OutOfFuel.
Proof.
  unfold visited. destruct (lookup_all needed_outputs) as [deps|e] eqn:Hd;
    cbn [result_bind].
  - apply visit_enough_fuel; [constructor| |simpl; lia].
    intros m Hm. by apply elem_of_nil in Hm.
  - intros [= ->]. by apply lookup_all_no_fuel in Hd.
Qed.

(** *** The two move conditions *)

(** The root layer that decides for a sub-layer; the layer itself
    otherwise. *)
Definition root (name : string) : string :=
  if has_slash name then split_head name else name.

Definition excluded_output (name : string) : bool :=
  String.eqb name "end" || (search_flag && search_choices (template name)).

Definition excluded_input (name : string) : bool :=
  (String.eqb name ":i" || String.eqb name "end")
  || (search_flag && search_choices (template name)).

Lemma root_no_slash name : has_slash (root name) = false.
Proof.
  unfold root. destruct (has_slash name) eqn:E; [apply split_head_no_slash|done].
Qed.

Lemma output_used_check_true name layer others :
  output_used_check name layer others = true ↔
  ∀ o, o ∈ others →
       (TemplateDep name ∉ dependencies (template o)) ∧ (o ∉ collocate_with layer).
Proof.
  induction others as [|o rest IH]; simpl.
  - split; [|done]. intros _ o Ho. by apply elem_of_nil in Ho.
  - destruct (decide (TemplateDep name ∈ dependencies (template o))) as [Hd|Hd].
    { split; [done|]. intros H. destruct (H o) as [H1 _]; [by left|done]. }
    destruct (decide (o ∈ collocate_with layer)) as [Hc|Hc].
    { split; [done|]. intros H. destruct (H o) as [_ H2]; [by left|done]. }
    rewrite IH. split.
    + intros H x Hx. apply elem_of_cons in Hx as [->|Hx]; auto.
    + intros H x Hx. apply H. by right.
Qed.

Lemma input_deps_check_true layer others :
  input_deps_check layer others = true ↔
  ∀ o, o ∈ others →
       (TemplateDep o ∉ dependencies layer) ∧ (o ∉ collocate_with layer).
Proof.
  induction others as [|o rest IH]; simpl.
  - split; [|done]. intros _ o Ho. by apply elem_of_nil in Ho.
  - destruct (decide (TemplateDep o ∈ dependencies layer)) as [Hd|Hd].
    { split; [done|]. intros H. destruct (H o) as [H1 _]; [by left|done]. }
    destruct (decide (o ∈ collocate_with layer)) as [Hc|Hc].
    { split; [done|]. intros H. destruct (H o) as [_ H2]; [by left|done]. }
    rewrite IH. split.
    + intros H x Hx. apply elem_of_cons in Hx as [->|Hx]; auto.
    + intros H x Hx. apply H. by right.
Qed.

Lemma output_can_move_out_rec_S fuel loop name :
  output_can_move_out_rec (S fuel) loop name =
  if String.eqb name "end" then Ok false
  else if search_flag && search_choices (template name) then Ok false
  else if has_slash name then
    match layer_data_templates !! split_head name with
    | None => Raise (AssertionError "Root layer not found for sub-layer")
    | Some _ => output_can_move_out_rec fuel loop (split_head name)
    end
  else Ok (output_used_check name (template name) loop).
Proof. reflexivity. Qed.

Lemma input_can_move_out_rec_S fuel loop name :
  input_can_move_out_rec (S fuel) loop name =
  if String.eqb name ":i" || String.eqb name "end" then Ok false
  else if search_flag && search_choices (template name) then Ok false
  else if has_slash name then
    match layer_data_templates !! split_head name with
    | None => Raise (AssertionError "Root layer not found for sub-layer")
    | Some _ => input_can_move_out_rec fuel loop (split_head name)
    end
  else Ok (input_deps_check (template name) loop).
Proof. reflexivity. Qed.

Lemma output_can_move_out_plain fuel loop name :
  has_slash name = false →
  output_can_move_out_rec fuel loop name =
  Ok (negb (excluded_output name) && output_used_check name (template name) loop).
Proof.
  intros Hs. unfold excluded_output.
  destruct fuel; simpl; rewrite Hs;
    destruct (String.eqb name "end"); simpl; try done;
    by destruct (search_flag && search_choices (template name)).
Qed.

Lemma input_can_move_out_plain fuel loop name :
  has_slash name = false →
  input_can_move_out_rec fuel loop name =
  Ok (negb (excluded_input name) && input_deps_check (template name) loop).
Proof.
  intros Hs. unfold excluded_input.
  destruct fuel; simpl; rewrite Hs;
    destruct (String.eqb name ":i" || String.eqb name "end"); simpl; try done;
    by destruct (search_flag && search_choices (template name)).
Qed.

Lemma output_can_move_out_sub loop name :
  has_slash name = true →
  output_can_move_out loop name =
  if excluded_output name then Ok false
  else match layer_data_templates !! split_head name with
       | None => Raise (AssertionError "Root layer not found for sub-layer")
       | Some _ =>
           Ok (negb (excluded_output (split_head name))
               && output_used_check (split_head name) (template (split_head name)) loop)
       end.
Proof.
  intros Hs. unfold output_can_move_out, excluded_output at 1.
  rewrite output_can_move_out_rec_S, Hs.
  destruct (String.eqb name "end"); cbn [orb]; [done|].
  destruct (search_flag && search_choices (template name)); [done|].
  destruct (layer_data_templates !! split_head name); [|done].
  apply output_can_move_out_plain, split_head_no_slash.
Qed.

Lemma input_can_move_out_sub loop name :
  has_slash name = true →
  input_can_move_out loop name =
  if excluded_input name then Ok false
  else match layer_data_templates !! split_head name with
       | None => Raise (AssertionError "Root layer not found for sub-layer")
       | Some _ =>
           Ok (negb (excluded_input (split_head name))
               && input_deps_check (template (split_head name)) loop)
       end.
Proof.
  intros Hs. unfold input_can_move_out, excluded_input at 1.
  rewrite input_can_move_out_rec_S, Hs.
  destruct (String.eqb name ":i" || String.eqb name "end"); cbn [orb]; [done|].
  destruct (search_flag && search_choices (template name)); [done|].
  destruct (layer_data_templates !! split_head name); [|done].
  apply input_can_move_out_plain, split_head_no_slash.
Qed.

(** A layer that may leave on the output side is not excluded, and no
    layer in the loop lists its root among its dependencies. *)
Lemma output_can_move_out_true loop name :
  output_can_move_out loop name = Ok true →
  excluded_output name = false
  ∧ ∀ o, o ∈ loop → TemplateDep (root name) ∉ dependencies (template o).
Proof.
  unfold root. destruct (has_slash name) eqn:Hs.
  - rewrite output_can_move_out_sub by done.
    destruct (excluded_output name); [done|].
    destruct (layer_data_templates !! split_head name); [|done].
    intros [= H]. apply andb_prop in H as [_ H].
    split; [done|]. intros o Ho. by apply (proj1 (output_used_check_true _ _ _) H).
  - unfold output_can_move_out. rewrite output_can_move_out_plain by done.
    intros [= H]. apply andb_prop in H as [H1 H].
    split; [by apply negb_true_iff|].
    intros o Ho. by apply (proj1 (output_used_check_true _ _ _) H).
Qed.

(** A layer that may leave on the input side is not excluded, and its
    root lists no layer of the loop among its dependencies. *)
Lemma input_can_move_out_true loop name :
  input_can_move_out loop name = Ok true →
  excluded_input name = false
  ∧ ∀ o, o ∈ loop → TemplateDep o ∉ dependencies (template (root name)).
Proof.
  unfold root. destruct (has_slash name) eqn:Hs.
  - rewrite input_can_move_out_sub by done.
    destruct (excluded_input name); [done|].
    destruct (layer_data_templates !! split_head name); [|done].
    intros [= H]. apply andb_prop in H as [_ H].
    split; [done|]. intros o Ho. by apply (proj1 (input_deps_check_true _ _) H).
  - unfold input_can_move_out. rewrite input_can_move_out_plain by done.
    intros [= H]. apply andb_prop in H as [H1 H].
    split; [by apply negb_true_iff|].
    intros o Ho. by apply (proj1 (input_deps_check_true _ _) H).
Qed.

Lemma output_can_move_out_no_fuel loop name :
  output_can_move_out loop name ≠ Raise OutOfFuel.
Proof.
  destruct (has_slash name) eqn:Hs.
  - rewrite output_can_move_out_sub by done.
    destruct (excluded_output name); [done|].
    by destruct (layer_data_templates !! split_head name).
  - unfold output_can_move_out. by rewrite output_can_move_out_plain.
Qed.

Lemma input_can_move_out_no_fuel loop name :
  input_can_move_out loop name ≠ Raise OutOfFuel.
Proof.
  destruct (has_slash name) eqn:Hs.
  - rewrite input_can_move_out_sub by done.
    destruct (excluded_input name); [done|].
    by destruct (layer_data_templates !! split_head name).
  - unfold input_can_move_out. by rewrite input_can_move_out_plain.
Qed.

(** *** Searching and removing *)

Lemma find_first_some can_move candidates layer :
  find_first can_move candidates = Ok (Some layer) →
  layer ∈ candidates ∧ can_move layer = Ok true.
Proof.
  induction candidates as [|c rest IH]; simpl; [done|].
  destruct (can_move c) as [[|]|] eqn:Hc; simpl; [| |done].
  - intros [= <-]. split; [by left|done].
  - intros H. destruct (IH H). split; [by right|done].
Qed.

Lemma find_first_none can_move candidates :
  find_first can_move candidates = Ok None →
  ∀ layer, layer ∈ candidates → can_move layer = Ok false.
Proof.
  induction candidates as [|c rest IH]; simpl.
  - intros _ layer H. by apply elem_of_nil in H.
  - destruct (can_move c) as [[|]|] eqn:Hc; simpl; [done| |done].
    intros H layer Hl. apply elem_of_cons in Hl as [->|Hl]; auto.
Qed.

Lemma find_first_no_fuel can_move candidates :
  (∀ layer, can_move layer ≠ Raise OutOfFuel) →
  find_first can_move candidates ≠ Raise OutOfFuel.
Proof.
  intros Hc. induction candidates as [|c rest IH]; simpl; [done|].
  destruct (can_move c) as [[|]|e] eqn:E; simpl; [done|done|].
  intros [= ->]. by apply (Hc c).
Qed.

Lemma list_remove_first_perm x (l : list string) :
  x ∈ l → l ≡ₚ x :: list_remove_first x l.
Proof.
  induction l as [|y rest IH]; simpl.
  - intros H. by apply elem_of_nil in H.
  - intros H. destruct (decide (x = y)) as [->|Hne]; [done|].
    apply elem_of_cons in H as [?|H]; [done|].
    rewrite (IH H) at 1. apply Permutation_swap.
Qed.

Lemma list_remove_first_subset x (l : list string) y :
  y ∈ list_remove_first x l → y ∈ l.
Proof.
  induction l as [|z rest IH]; simpl; [done|].
  destruct (decide (x = z)) as [->|Hne]; [by right|].
  intros H. apply elem_of_cons in H as [->|H]; [by left|right; auto].
Qed.

Lemma list_remove_first_length x (l : list string) :
  x ∈ l → S (length (list_remove_first x l)) = length l.
Proof.
  intros H. by rewrite (Permutation_length (list_remove_first_perm x l H)).
Qed.

(** *** Invariant of the two [while] loops *)

Record move_inv (collected : list string) (st : partition) : Prop := {
  inv_perm :
    layers_in_loop st ++ input_layers_moved_out st ++ output_layers_moved_out st
    ≡ₚ collected;
  inv_input : ∀ p o,
    p ∈ input_layers_moved_out st → o ∈ layers_in_loop st →
    TemplateDep o ∉ dependencies (template (root p));
  inv_output : ∀ q o,
    q ∈ output_layers_moved_out st → o ∈ layers_in_loop st →
    TemplateDep (root q) ∉ dependencies (template o);
  inv_input_excluded : ∀ p,
    p ∈ input_layers_moved_out st → excluded_input p = false;
  inv_output_excluded : ∀ q,
    q ∈ output_layers_moved_out st → excluded_output q = false;
}.

Lemma move_inv_init collected :
  move_inv collected {| layers_in_loop := collected;
                        input_layers_moved_out := [];
                        output_layers_moved_out := [] |}.
Proof.
  split; simpl; try (intros ? ? H; by apply elem_of_nil in H);
    try (intros ? H; by apply elem_of_nil in H).
  by rewrite app_nil_r.
Qed.

Lemma move_inv_output collected st layer :
  move_inv collected st →
  find_output_layer_to_move_out (layers_in_loop st) = Ok (Some layer) →
  move_inv collected (output_move_out st layer).
Proof.
  intros [Hperm Hin Hout Hein Heout] Hfind.
  apply find_first_some in Hfind as [Hl Hcan].
  apply output_can_move_out_true in Hcan as [Hex Hdeps].
  split; simpl.
  - rewrite <- Hperm. rewrite (list_remove_first_perm layer (layers_in_loop st) Hl) at 2.
    rewrite !app_assoc. rewrite <- Permutation_cons_append. simpl.
    by rewrite Permutation_middle.
  - intros p o Hp Ho. apply Hin; [done|]. by eapply list_remove_first_subset.
  - intros q o Hq Ho. apply list_remove_first_subset in Ho.
    apply elem_of_app in Hq as [Hq|Hq]; [by apply Hout|].
    apply list_elem_of_singleton in Hq as ->. by apply Hdeps.
  - done.
  - intros q Hq. apply elem_of_app in Hq as [Hq|Hq]; [by apply Heout|].
    by apply list_elem_of_singleton in Hq as ->.
Qed.

Lemma move_inv_input collected st layer :
  move_inv collected st →
  find_input_layer_to_move_out (layers_in_loop st) = Ok (Some layer) →
  move_inv collected (input_move_out st layer).
Proof.
  intros [Hperm Hin Hout Hein Heout] Hfind.
  apply find_first_some in Hfind as [Hl Hcan].
  apply input_can_move_out_true in Hcan as [Hex Hdeps].
  split; simpl.
  - rewrite <- Hperm. rewrite (list_remove_first_perm layer (layers_in_loop st) Hl) at 2.
    rewrite <- (app_assoc (input_layers_moved_out st)). simpl.
    rewrite (app_assoc _ (input_layers_moved_out st)).
    rewrite <- Permutation_middle. by rewrite <- app_assoc.
  - intros p o Hp Ho. apply list_remove_first_subset in Ho.
    apply elem_of_app in Hp as [Hp|Hp]; [by apply Hin|].
    apply list_elem_of_singleton in Hp as ->. by apply Hdeps.
  - intros q o Hq Ho. apply Hout; [done|]. by eapply list_remove_first_subset.
  - intros q Hq. apply elem_of_app in Hq as [Hq|Hq]; [by apply Hein|].
    by apply list_elem_of_singleton in Hq as ->.
  - done.
Qed.

Lemma move_outputs_inv collected fuel st st' :
  move_outputs fuel st = Ok st' → move_inv collected st → move_inv collected st'.
Proof.
  revert st. induction fuel as [|fuel IH]; intros st; simpl; [done|].
  destruct (find_output_layer_to_move_out (layers_in_loop st)) as [[layer|]|] eqn:Hf;
    simpl; [| |done].
  - intros H Hinv. apply (IH _ H). by apply move_inv_output.
  - by intros [= <-].
Qed.

(** When the second loop stops, neither search finds a layer. *)
Lemma move_both_inv collected fuel st st' :
  move_both fuel st = Ok st' → move_inv collected st →
  move_inv collected st'
  ∧ find_output_layer_to_move_out (layers_in_loop st') = Ok None
  ∧ find_input_layer_to_move_out (layers_in_loop st') = Ok None.
Proof.
  revert st. induction fuel as [|fuel IH]; intros st; simpl; [done|].
  destruct (find_output_layer_to_move_out (layers_in_loop st)) as [[lo|]|] eqn:Hfo;
    cbn [result_bind]; [| |done].
  - destruct (find_input_layer_to_move_out (layers_in_loop (output_move_out st lo)))
      as [[li|]|] eqn:Hfi; cbn [result_bind]; [| |done].
    + intros H Hinv. apply (IH _ H). apply move_inv_input; [|done].
      by apply move_inv_output.
    + intros H Hinv. apply (IH _ H). by apply move_inv_output.
  - destruct (find_input_layer_to_move_out (layers_in_loop st))
      as [[li|]|] eqn:Hfi; cbn [result_bind]; [| |done].
    + intros H Hinv. apply (IH _ H). by apply move_inv_input.
    + by intros [= <-] Hinv.
Qed.

(** *** The recursion bounds of the loops are never reached *)

Lemma move_outputs_no_fuel fuel st :
  length (layers_in_loop st) < fuel → move_outputs fuel st ≠ Raise OutOfFuel.
Proof.
  revert st. induction fuel as [|fuel IH]; intros st Hlt; simpl; [lia|].
  destruct (find_output_layer_to_move_out (layers_in_loop st)) as [[layer|]|e] eqn:Hf;
    cbn [result_bind]; [|done|].
  - apply IH. simpl. apply find_first_some in Hf as [Hl _].
    pose proof (list_remove_first_length _ _ Hl). lia.
  - intros [= ->]. revert Hf.
    apply find_first_no_fuel, output_can_move_out_no_fuel.
Qed.

Lemma move_both_no_fuel fuel st :
  length (layers_in_loop st) < fuel → move_both fuel st ≠ Raise OutOfFuel.
Proof.
  revert st. induction fuel as [|fuel IH]; intros st Hlt; simpl; [lia|].
  destruct (find_output_layer_to_move_out (layers_in_loop st)) as [[lo|]|e] eqn:Hfo;
    cbn [result_bind].
  - apply find_first_some in Hfo as [Hlo _].
    pose proof (list_remove_first_length _ _ Hlo) as Hlen.
    destruct (find_input_layer_to_move_out (layers_in_loop (output_move_out st lo)))
      as [[li|]|e] eqn:Hfi; cbn [result_bind].
    + apply IH. simpl. apply find_first_some in Hfi as [Hli _]. simpl in Hli.
      pose proof (list_remove_first_length _ _ Hli). lia.
    + apply IH. simpl. lia.
    + intros [= ->]. revert Hfi.
      apply find_first_no_fuel, input_can_move_out_no_fuel.
  - destruct (find_input_layer_to_move_out (layers_in_loop st))
      as [[li|]|e] eqn:Hfi; cbn [result_bind].
    + apply IH. simpl. apply find_first_some in Hfi as [Hli _].
      pose proof (list_remove_first_length _ _ Hli). lia.
    + done.
    + intros [= ->]. revert Hfi.
      apply find_first_no_fuel, input_can_move_out_no_fuel.
  - intros [= ->]. revert Hfo.
    apply find_first_no_fuel, output_can_move_out_no_fuel.
Qed.

(** The embedding of [_move_outside_loop] never stops for lack of fuel:
    it returns the partition or a Python exception. *)
Lemma move_outside_loop_no_fuel needed_outputs :
  _move_outside_loop needed_outputs ≠ Raise OutOfFuel.
Proof.
  unfold _move_outside_loop.
  destruct (visited needed_outputs) as [collected|e] eqn:Hv; cbn [result_bind].
  - match goal with |- context [move_outputs ?f ?s] =>
      destruct (move_outputs f s) as [st1|e] eqn:H1 end; cbn [result_bind].
    + apply move_both_no_fuel. lia.
    + intros [= ->]. revert H1. apply move_outputs_no_fuel. simpl. lia.
  - intros [= ->]. by apply visited_no_fuel in Hv.
Qed.

(** Everything the theorems about the final partition need. *)
Lemma move_outside_loop_inv needed_outputs st :
  _move_outside_loop needed_outputs = Ok st →
  ∃ collected,
    visited needed_outputs = Ok collected
    ∧ move_inv collected st
    ∧ find_output_layer_to_move_out (layers_in_loop st) = Ok None
    ∧ find_input_layer_to_move_out (layers_in_loop st) = Ok None.
Proof.
  unfold _move_outside_loop.
  destruct (visited needed_outputs) as [collected|e] eqn:Hv; cbn [result_bind]; [|done].
  match goal with |- context [move_outputs ?f ?s] =>
    destruct (move_outputs f s) as [st1|e] eqn:H1 end; cbn [result_bind]; [|done].
  intros H2. exists collected. split; [done|].
  eapply move_both_inv; [exact H2|].
  eapply move_outputs_inv; [exact H1|]. apply move_inv_init.
Qed.

(** *** The final partition *)

(** [add_dependency] records a dependency of either kind in
    [self.dependencies]. *)
Lemma add_dependency_in_dependencies self layer is_prev self' :
  add_dependency self layer is_prev = Ok self' → layer ∈ dependencies self'.
Proof.
  unfold add_dependency.
  assert (layer ∈ append_if_new layer (dependencies self)) as Hin.
  { unfold append_if_new. destruct (decide (layer ∈ dependencies self)); [done|].
    apply elem_of_app. right. by left. }
  destruct is_prev; [destruct layer; [|done]|]; by intros [= <-].
Qed.

(** The layers reachable from the needed outputs are split into the three
    lists without repetition; the root of a layer moved out on the input
    side depends on no layer left in the loop, and no layer left in the loop
    depends on the root of a layer moved out on the output side. *)
Theorem partition_of_reachable_layers needed_outputs st :
  _move_outside_loop needed_outputs = Ok st →
  NoDup (layers_in_loop st ++ input_layers_moved_out st ++ output_layers_moved_out st)
  ∧ (∀ name, reachable_from needed_outputs name ↔
             name ∈ layers_in_loop st ∨ name ∈ input_layers_moved_out st
             ∨ name ∈ output_layers_moved_out st)
  ∧ (∀ p o, p ∈ input_layers_moved_out st → o ∈ layers_in_loop st →
            TemplateDep o ∉ dependencies (template (root p)))
  ∧ (∀ q o, q ∈ output_layers_moved_out st → o ∈ layers_in_loop st →
            TemplateDep (root q) ∉ dependencies (template o)).
Proof.
  intros H. apply move_outside_loop_inv in H as (collected & Hv & Hinv & _ & _).
  apply visited_spec in Hv as (Hnd & Hreach & _).
  destruct Hinv as [Hperm Hin Hout _ _]. split_and!; [|intros name|done|done].
  - by rewrite Hperm.
  - rewrite <- Hreach, <- Hperm, !elem_of_app. tauto.
Qed.

(** When the templates follow the conventions of the sub-layer branch of
    [GetLayer.__call__] (a sub-layer carries no dependencies, and a layer
    that lists a sub-layer lists its root too), the two conditions hold for
    the layers themselves and their current-frame dependencies. *)
Lemma partition_with_registered_roots needed_outputs st :
  (∀ name layer d, layer_data_templates !! name = Some layer →
     d ∈ cur_frame_dependencies layer → d ∈ dependencies layer) →
  (∀ name layer, layer_data_templates !! name = Some layer →
     has_slash name = true → dependencies layer = []) →
  (∀ name layer sub, layer_data_templates !! name = Some layer →
     TemplateDep sub ∈ dependencies layer → has_slash sub = true →
     TemplateDep (split_head sub) ∈ dependencies layer) →
  _move_outside_loop needed_outputs = Ok st →
  (∀ p o, p ∈ input_layers_moved_out st → o ∈ layers_in_loop st →
     TemplateDep o ∉ cur_frame_dependencies (template p))
  ∧ (∀ q o, q ∈ output_layers_moved_out st → o ∈ layers_in_loop st →
     TemplateDep q ∉ cur_frame_dependencies (template o)).
Proof.
  intros Hcur Hsub Hroot H.
  apply partition_of_reachable_layers in H as (_ & _ & Hin & Hout).
  assert (∀ name d, d ∈ cur_frame_dependencies (template name) →
                    d ∈ dependencies (template name)) as Hcur'.
  { intros name d. unfold template.
    destruct (layer_data_templates !! name) as [layer|] eqn:Hl; simpl; [by eapply Hcur|].
    intros Hd. by apply elem_of_nil in Hd. }
  split.
  - intros p o Hp Ho Hd. apply Hcur' in Hd. specialize (Hin p o Hp Ho).
    unfold root in Hin. destruct (has_slash p) eqn:Hs; [|done].
    unfold template in Hd.
    destruct (layer_data_templates !! p) as [layer|] eqn:Hl; simpl in Hd.
    + rewrite (Hsub p layer Hl Hs) in Hd. by apply elem_of_nil in Hd.
    + by apply elem_of_nil in Hd.
  - intros q o Hq Ho Hd. apply Hcur' in Hd. specialize (Hout q o Hq Ho).
    unfold root in Hout. destruct (has_slash q) eqn:Hs; [|done].
    apply Hout. unfold template in *.
    destruct (layer_data_templates !! o) as [layer|] eqn:Hl; simpl in *.
    + by eapply Hroot.
    + by apply elem_of_nil in Hd.
Qed.


(** C4 (amended): the input-side condition looks at [layer.dependencies],
    which holds the dependencies of both kinds.  A layer that is not a
    sub-layer satisfies it exactly when it is not excluded (":i", "end",
    search choices under search) and no layer still in the loop is among
    its dependencies or named in its [collocate_with]; when the iteration
    stops, no layer left in the loop satisfies it; no layer moved out on the
    input side has (through its root, for a sub-layer) a dependency of
    either kind on a layer left in the loop; and a previous-frame
    dependency registered by [add_dependency] is such a dependency. *)
Theorem input_side_condition_uses_all_dependencies needed_outputs st :
  _move_outside_loop needed_outputs = Ok st →
  (∀ name, has_slash name = false →
     (input_can_move_out (layers_in_loop st) name = Ok true ↔
      excluded_input name = false
      ∧ ∀ o, o ∈ layers_in_loop st →
             (TemplateDep o ∉ dependencies (template name))
             ∧ (o ∉ collocate_with (template name))))
  ∧ (∀ name, name ∈ layers_in_loop st →
       input_can_move_out (layers_in_loop st) name = Ok false)
  ∧ (∀ p o, p ∈ input_layers_moved_out st → o ∈ layers_in_loop st →
       TemplateDep o ∉ dependencies (template (root p)))
  ∧ (∀ self layer self', add_dependency self layer true = Ok self' →
       layer ∈ dependencies self').
Proof.
  intros H. apply move_outside_loop_inv in H as (collected & _ & Hinv & _ & Hnone).
  split_and!.
  - intros name Hs. unfold input_can_move_out.
    rewrite input_can_move_out_plain by done.
    rewrite <- input_deps_check_true. split.
    + intros [= Hb]. apply andb_prop in Hb as [Hb ?]. by apply negb_true_iff in Hb.
    + intros [-> ->]. done.
  - by apply find_first_none.
  - apply (inv_input _ _ Hinv).
  - intros self layer self'. apply add_dependency_in_dependencies.
Qed.

(** *** [_input_layer_used_inside_loop], and more on the final partition *)

(** [_input_layer_used_inside_loop(layer_name)]: whether a template that
    is in neither moved-out list has the layer among its dependencies.  The
    loop runs over all of [self.layer_data_templates.values()]; the name of a
    template is the key it is registered under. *)
Definition _input_layer_used_inside_loop (st : partition) (layer_name : string)
  : result bool :=
  match layer_data_templates !! layer_name with
  | None => Raise (KeyError layer_name)
  | Some _ =>
      Ok (existsb
            (fun item : string * TemplateLayer =>
               if decide (item.1 ∈ input_layers_moved_out st) then false
               else if decide (item.1 ∈ output_layers_moved_out st) then false
               else bool_decide (TemplateDep layer_name ∈ dependencies item.2))
            (map_to_list layer_data_templates))
  end.

(** *** Properties kept by every move *)

Lemma move_outputs_preserve (P : partition → Prop) fuel st st' :
  (∀ s l, P s → find_output_layer_to_move_out (layers_in_loop s) = Ok (Some l) → P (output_move_out s l)) →
  move_outputs fuel st = Ok st' → P st → P st'.
Proof.
  intros Hout. revert st. induction fuel as [|fuel IH]; intros st; simpl; [done|].
  destruct (find_output_layer_to_move_out (layers_in_loop st)) as [[layer|]|] eqn:Hf; simpl; [| |done].
  - intros H HP. apply (IH _ H). by apply Hout.
  - by intros [= <-].
Qed.

Lemma move_both_preserve (P : partition → Prop) fuel st st' :
  (∀ s l, P s → find_output_layer_to_move_out (layers_in_loop s) = Ok (Some l) → P (output_move_out s l)) →
  (∀ s l, P s → find_input_layer_to_move_out (layers_in_loop s) = Ok (Some l) → P (input_move_out s l)) →
  move_both fuel st = Ok st' → P st → P st'.
Proof.
  intros Hout Hin. revert st. induction fuel as [|fuel IH]; intros st; simpl; [done|].
  destruct (find_output_layer_to_move_out (layers_in_loop st)) as [[lo|]|] eqn:Hfo;
    cbn [result_bind]; [| |done].
  - destruct (find_input_layer_to_move_out (layers_in_loop (output_move_out st lo)))
      as [[li|]|] eqn:Hfi; cbn [result_bind]; [| |done].
    + intros H HP. apply (IH _ H). apply Hin; [|done]. by apply Hout.
    + intros H HP. apply (IH _ H). by apply Hout.
  - destruct (find_input_layer_to_move_out (layers_in_loop st)) as [[li|]|] eqn:Hfi;
      cbn [result_bind]; [| |done].
    + intros H HP. apply (IH _ H). by apply Hin.
    + by intros [= <-] HP.
Qed.

(** A property of the partition that holds when all collected layers are
    in the loop and that every move keeps holds for the result. *)
Lemma move_outside_loop_preserve (P : partition → Prop) needed_outputs st :
  (∀ s l, P s → find_output_layer_to_move_out (layers_in_loop s) = Ok (Some l) → P (output_move_out s l)) →
  (∀ s l, P s → find_input_layer_to_move_out (layers_in_loop s) = Ok (Some l) → P (input_move_out s l)) →
  (∀ collected, visited needed_outputs = Ok collected →
     P {| layers_in_loop := collected;
          input_layers_moved_out := [];
          output_layers_moved_out := [] |}) →
  _move_outside_loop needed_outputs = Ok st → P st.
Proof.
  intros Hout Hin Hinit. unfold _move_outside_loop.
  destruct (visited needed_outputs) as [collected|e] eqn:Hv;
    cbn [result_bind]; [|done].
  match goal with |- context [move_outputs ?f ?s] =>
    destruct (move_outputs f s) as [st1|e] eqn:H1 end;
    cbn [result_bind]; [|done].
  intros H2. eapply move_both_preserve; [exact Hout|exact Hin|exact H2|].
  eapply move_outputs_preserve; [exact Hout|exact H1|]. by apply Hinit.
Qed.

Lemma list_remove_first_other x y (l : list string) :
  y ∈ l → y ≠ x → y ∈ list_remove_first x l.
Proof.
  induction l as [|z rest IH]; simpl; [done|].
  intros Hy Hne. destruct (decide (x = z)) as [->|Hxz].
  - apply elem_of_cons in Hy as [->|Hy]; done.
  - apply elem_of_cons in Hy as [->|Hy]; [by left|right; auto].
Qed.

(** The invariant of [MoveOutsideLoop] together with the moved layer. *)
Definition moves_inv (collected : list string) (P : partition → Prop) (st : partition) : Prop :=
  move_inv collected st ∧ P st.

Lemma move_outside_loop_preserve_inv (P : partition → Prop) needed_outputs st :
  (∀ collected s l, move_inv collected s → P s →
     l ∈ layers_in_loop s →
     output_can_move_out (layers_in_loop s) l = Ok true →
     P (output_move_out s l)) →
  (∀ collected s l, move_inv collected s → P s →
     l ∈ layers_in_loop s →
     input_can_move_out (layers_in_loop s) l = Ok true →
     P (input_move_out s l)) →
  (∀ collected, visited needed_outputs = Ok collected →
     P {| layers_in_loop := collected;
          input_layers_moved_out := [];
          output_layers_moved_out := [] |}) →
  _move_outside_loop needed_outputs = Ok st → P st.
Proof.
  intros Hout Hin Hinit H.
  destruct (move_outside_loop_inv _ _ H) as (collected & Hv & _).
  enough (moves_inv collected P st) as [_ ?]; [done|].
  revert H. apply move_outside_loop_preserve.
  - intros s l [Hinv HP] Hf. split; [by apply move_inv_output|].
    apply find_first_some in Hf as [Hl Hcan]. by eapply Hout.
  - intros s l [Hinv HP] Hf. split; [by apply move_inv_input|].
    apply find_first_some in Hf as [Hl Hcan]. by eapply Hin.
  - intros c Hc. rewrite Hv in Hc. injection Hc as <-.
    split; [apply move_inv_init|by apply Hinit].
Qed.

(** *** Layers on a dependency cycle *)

Definition closed_group (group : list string) : Prop :=
  ∀ name, name ∈ group →
    has_slash name = false
    ∧ (∃ next, next ∈ group ∧ TemplateDep next ∈ dependencies (template name))
    ∧ (∃ prev, prev ∈ group ∧ TemplateDep name ∈ dependencies (template prev)).

(** X1: A group of layers (not sub-layers) in which every layer depends on a
    layer of the group and is a dependency of a layer of the group, in the
    current or the previous frame, never leaves the loop: a dependency cycle,
    or a layer that reads its own previous frame. *)
Theorem dependency_cycle_stays_in_loop needed_outputs st group :
  _move_outside_loop needed_outputs = Ok st →
  closed_group group →
  (∀ name, name ∈ group → reachable_from needed_outputs name) →
  ∀ name, name ∈ group →
    name ∈ layers_in_loop st
    ∧ (name ∉ input_layers_moved_out st)
    ∧ (name ∉ output_layers_moved_out st).
Proof.
  intros H Hgroup Hreach.
  assert (∀ name, name ∈ group → name ∈ layers_in_loop st) as Hloop.
  { revert H.
    apply (move_outside_loop_preserve_inv
             (fun s => ∀ name, name ∈ group → name ∈ layers_in_loop s)).
    - intros collected s l _ HP Hl Hcan name Hn. simpl.
      apply list_remove_first_other; [by apply HP|]. intros ->.
      apply output_can_move_out_true in Hcan as [_ Hdeps].
      destruct (Hgroup l Hn) as (Hs & _ & prev & Hprev & Hd).
      apply (Hdeps prev (HP prev Hprev)). unfold root. by rewrite Hs.
    - intros collected s l _ HP Hl Hcan name Hn. simpl.
      apply list_remove_first_other; [by apply HP|]. intros ->.
      apply input_can_move_out_true in Hcan as [_ Hdeps].
      destruct (Hgroup l Hn) as (Hs & (next & Hnext & Hd) & _).
      apply (Hdeps next (HP next Hnext)). unfold root. by rewrite Hs.
    - intros collected Hv name Hn. simpl.
      apply visited_spec in Hv as (_ & Hcoll & _). apply Hcoll. by apply Hreach. }
  intros name Hn. specialize (Hloop name Hn).
  apply partition_of_reachable_layers in H as (Hnd & _).
  apply NoDup_app in Hnd as (_ & Hdisj & _).
  specialize (Hdisj name Hloop). rewrite elem_of_app in Hdisj. tauto.
Qed.

(** *** Layers before the loop never read layers after it *)

(** No layer moved out on the input side lists a layer moved out on the
    output side (sub-layers apart). *)
Definition input_reads_no_output (st : partition) : Prop :=
  ∀ p q, p ∈ input_layers_moved_out st → q ∈ output_layers_moved_out st →
    has_slash p = false → has_slash q = false →
    TemplateDep q ∉ dependencies (template p).

Lemma move_outside_loop_input_reads_no_output needed_outputs st :
  _move_outside_loop needed_outputs = Ok st → input_reads_no_output st.
Proof.
  apply (move_outside_loop_preserve_inv input_reads_no_output).
  - intros collected s l Hinv HP Hl Hcan p q Hp Hq Hsp Hsq. simpl in *.
    apply elem_of_app in Hq as [Hq|Hq]; [by apply HP|].
    apply list_elem_of_singleton in Hq as ->.
    pose proof (inv_input _ _ Hinv p l Hp Hl) as Hd.
    unfold root in Hd. by rewrite Hsp in Hd.
  - intros collected s l Hinv HP Hl Hcan p q Hp Hq Hsp Hsq. simpl in *.
    apply elem_of_app in Hp as [Hp|Hp]; [by apply HP|].
    apply list_elem_of_singleton in Hp as ->.
    pose proof (inv_output _ _ Hinv q l Hq Hl) as Hd.
    unfold root in Hd. by rewrite Hsq in Hd.
  - intros collected _ p q Hp. by apply elem_of_nil in Hp.
Qed.

(** X2: The layers before the loop are closed under dependencies and the
    layers after the loop under dependents: a template (no data layer, no
    sub-layer) that a layer of [input_layers_moved_out] lists is in
    [input_layers_moved_out] itself, and a layer among those collected that
    lists a layer of [output_layers_moved_out] is in
    [output_layers_moved_out] itself. *)
Theorem moved_out_layers_closed needed_outputs st :
  _move_outside_loop needed_outputs = Ok st →
  (∀ p d, p ∈ input_layers_moved_out st → has_slash p = false →
     TemplateDep d ∈ dependencies (template p) →
     is_data d = false → has_slash d = false →
     d ∈ input_layers_moved_out st)
  ∧ (∀ q o, q ∈ output_layers_moved_out st → has_slash q = false →
       reachable_from needed_outputs o → has_slash o = false →
       TemplateDep q ∈ dependencies (template o) →
       o ∈ output_layers_moved_out st).
Proof.
  intros H.
  pose proof (move_outside_loop_input_reads_no_output _ _ H) as Hio.
  destruct (move_outside_loop_inv _ _ H) as (collected & Hv & Hinv & _).
  apply visited_spec in Hv as (_ & Hcoll & Hkeys).
  destruct (partition_of_reachable_layers _ _ H) as (_ & Hreach & Hin & Hout).
  split.
  - intros p d Hp Hsp Hd Hdata Hsd.
    assert (reachable_from needed_outputs p) as Hrp.
    { apply (proj2 (Hreach p)). right. by left. }
    assert (reachable_from needed_outputs d) as Hrd.
    { eapply reachable_step; [exact Hrp|].
      destruct (Hkeys p) as [layer Hl]; [by apply Hcoll|].
      exists layer. unfold template in Hd. rewrite Hl in Hd. done. }
    apply Hreach in Hrd as [Hd'|[Hd'|Hd']]; [|done|].
    + exfalso. apply (Hin p d Hp Hd'). unfold root. by rewrite Hsp.
    + exfalso. by apply (Hio p d Hp Hd').
  - intros q o Hq Hsq Hro Hso Hd.
    apply Hreach in Hro as [Ho|[Ho|Ho]]; [| |done].
    + exfalso. apply (Hout q o Hq Ho). unfold root. by rewrite Hsq.
    + exfalso. by apply (Hio o q Ho Hq).
Qed.

(** *** The order of the moved-out lists *)

(** Each layer of the list is listed by none of the layers after it
    (through its root, for a sub-layer). *)
Fixpoint consumers_first (out : list string) : Prop :=
  match out with
  | [] => True
  | b :: rest =>
      (∀ a, a ∈ rest → TemplateDep (root b) ∉ dependencies (template a))
      ∧ consumers_first rest
  end.

(** Each layer of the list lists (through its root) neither itself nor a
    layer after it. *)
Fixpoint producers_first (inp : list string) : Prop :=
  match inp with
  | [] => True
  | b :: rest =>
      (∀ a, a ∈ b :: rest → TemplateDep a ∉ dependencies (template (root b)))
      ∧ producers_first rest
  end.

Lemma consumers_first_snoc out x :
  consumers_first (out ++ [x]) ↔
  consumers_first out
  ∧ ∀ b, b ∈ out → TemplateDep (root b) ∉ dependencies (template x).
Proof.
  induction out as [|b rest IH]; simpl.
  - split; intros _; split; try done; intros b Hb; by apply elem_of_nil in Hb.
  - rewrite IH. split.
    + intros (Hb & Hrest & Hx). split_and!.
      * intros a Ha. apply Hb. apply elem_of_app. by left.
      * done.
      * intros c Hc. apply elem_of_cons in Hc as [->|Hc]; [|by apply Hx].
        apply Hb. apply elem_of_app. right. by left.
    + intros ((Hb & Hrest) & Hx). split_and!.
      * intros a Ha. apply elem_of_app in Ha as [Ha|Ha]; [by apply Hb|].
        apply list_elem_of_singleton in Ha as ->. apply Hx. by left.
      * done.
      * intros c Hc. apply Hx. by right.
Qed.

Lemma producers_first_snoc inp x :
  producers_first (inp ++ [x]) ↔
  producers_first inp
  ∧ (∀ b, b ∈ inp → TemplateDep x ∉ dependencies (template (root b)))
  ∧ (TemplateDep x ∉ dependencies (template (root x))).
Proof.
  induction inp as [|b rest IH]; simpl.
  - split.
    + intros [Hx _]. split_and!; [done| |apply Hx; by left].
      intros b Hb. by apply elem_of_nil in Hb.
    + intros (_ & _ & Hx). split; [|done]. intros a Ha.
      by apply list_elem_of_singleton in Ha as ->.
  - rewrite IH. split.
    + intros (Hb & Hrest & Hx & Hxx). split_and!.
      * intros a Ha. apply Hb. rewrite app_comm_cons. apply elem_of_app. by left.
      * done.
      * intros c Hc. apply elem_of_cons in Hc as [->|Hc]; [|by apply Hx].
        apply Hb. right. apply elem_of_app. right. by left.
      * done.
    + intros ((Hb & Hrest) & Hx & Hxx). split_and!.
      * intros a Ha. rewrite app_comm_cons in Ha.
        apply elem_of_app in Ha as [Ha|Ha]; [by apply Hb|].
        apply list_elem_of_singleton in Ha as ->. apply Hx. by left.
      * done.
      * intros c Hc. apply Hx. by right.
      * done.
Qed.

Lemma consumers_first_lookup out i j a b :
  consumers_first out → out !! i = Some a → out !! j = Some b → j < i →
  TemplateDep (root b) ∉ dependencies (template a).
Proof.
  revert i j. induction out as [|c rest IH]; intros i j; [done|].
  simpl. intros [Hc Hrest] Hi Hj Hlt.
  destruct i as [|i]; [lia|]. simpl in Hi.
  destruct j as [|j]; simpl in Hj.
  - injection Hj as ->. apply Hc. by eapply list_elem_of_lookup_2.
  - eapply IH; eauto. lia.
Qed.

Lemma producers_first_lookup inp i j a b :
  producers_first inp → inp !! i = Some a → inp !! j = Some b → i ≤ j →
  TemplateDep b ∉ dependencies (template (root a)).
Proof.
  revert i j. induction inp as [|c rest IH]; intros i j; [done|].
  simpl. intros [Hc Hrest] Hi Hj Hle.
  destruct i as [|i]; simpl in Hi.
  - injection Hi as ->. apply Hc. by eapply list_elem_of_lookup_2.
  - destruct j as [|j]; [lia|]. simpl in Hj. eapply IH; eauto. lia.
Qed.

(** X3: [output_layers_moved_out] lists consumers before producers and
    [input_layers_moved_out] producers before consumers: a layer after the
    loop that lists (the root of) another layer after the loop comes before
    it, and a layer before the loop whose root lists another layer before
    the loop comes after it. *)
Theorem moved_out_lists_in_dependency_order needed_outputs st :
  _move_outside_loop needed_outputs = Ok st →
  (∀ i j a b, output_layers_moved_out st !! i = Some a →
     output_layers_moved_out st !! j = Some b →
     TemplateDep (root b) ∈ dependencies (template a) → i < j)
  ∧ (∀ i j a b, input_layers_moved_out st !! i = Some a →
       input_layers_moved_out st !! j = Some b →
       TemplateDep b ∈ dependencies (template (root a)) → j < i).
Proof.
  intros H.
  assert (consumers_first (output_layers_moved_out st)
          ∧ (∀ q, q ∈ output_layers_moved_out st →
               TemplateDep (root q) ∉ dependencies (template q))
          ∧ producers_first (input_layers_moved_out st)) as (Hc & Hself & Hp).
  { revert H.
    apply (move_outside_loop_preserve_inv
             (fun s => consumers_first (output_layers_moved_out s)
                       ∧ (∀ q, q ∈ output_layers_moved_out s →
                            TemplateDep (root q) ∉ dependencies (template q))
                       ∧ producers_first (input_layers_moved_out s))).
    - intros collected s l Hinv (Hc & Hself & Hp) Hl Hcan. simpl.
      apply output_can_move_out_true in Hcan as [_ Hdeps].
      split_and!; [|intros q Hq|done].
      + apply consumers_first_snoc. split; [done|].
        intros b Hb. by apply (inv_output _ _ Hinv).
      + apply elem_of_app in Hq as [Hq|Hq]; [by apply Hself|].
        apply list_elem_of_singleton in Hq as ->. by apply Hdeps.
    - intros collected s l Hinv (Hc & Hself & Hp) Hl Hcan. simpl.
      apply input_can_move_out_true in Hcan as [_ Hdeps].
      split_and!; [done|done|].
      apply producers_first_snoc. split_and!; [done| |by apply Hdeps].
      intros b Hb. by apply (inv_input _ _ Hinv).
    - intros collected _. simpl. split_and!; [done| |done].
      intros q Hq. by apply elem_of_nil in Hq. }
  split.
  - intros i j a b Hi Hj Hd.
    destruct (decide (i < j)) as [|Hge]; [done|]. exfalso.
    destruct (decide (i = j)) as [->|Hne].
    + rewrite Hi in Hj. injection Hj as ->.
      apply (Hself b); [|done]. by eapply list_elem_of_lookup_2.
    + apply (consumers_first_lookup _ i j a b Hc Hi Hj); [lia|done].
  - intros i j a b Hi Hj Hd.
    destruct (decide (j < i)) as [|Hge]; [done|]. exfalso.
    apply (producers_first_lookup _ i j a b Hp Hi Hj); [lia|done].
Qed.

(** *** The moved-out inputs that the loop reads *)

(** X4: After [_move_outside_loop] has returned, [_input_layer_used_inside_loop]
    returns [True], and raises nothing, for every layer of
    [input_layers_moved_out] that a layer of [layers_in_loop] lists among its
    dependencies. *)
Theorem input_read_in_loop_is_used needed_outputs st p o :
  _move_outside_loop needed_outputs = Ok st →
  p ∈ input_layers_moved_out st →
  o ∈ layers_in_loop st →
  TemplateDep p ∈ dependencies (template o) →
  _input_layer_used_inside_loop st p = Ok true.
Proof.
  intros H Hp Ho Hd.
  destruct (move_outside_loop_inv _ _ H) as (collected & Hv & Hinv & _).
  apply visited_spec in Hv as (_ & Hcoll & Hkeys).
  destruct (partition_of_reachable_layers _ _ H) as (Hnd & Hreach & _).
  unfold _input_layer_used_inside_loop.
  destruct (Hkeys p) as [layer_p Hlp].
  { apply Hcoll, (proj2 (Hreach p)). right. by left. }
  destruct (Hkeys o) as [layer_o Hlo].
  { apply Hcoll, (proj2 (Hreach o)). by left. }
  rewrite Hlp. f_equal. apply existsb_exists. exists (o, layer_o). split.
  - apply list_elem_of_In, elem_of_map_to_list. exact Hlo.
  - apply NoDup_app in Hnd as (_ & Hdisj & _). specialize (Hdisj o Ho).
    rewrite elem_of_app in Hdisj. simpl.
    destruct (decide (o ∈ input_layers_moved_out st)); [tauto|].
    destruct (decide (o ∈ output_layers_moved_out st)); [tauto|].
    apply bool_decide_eq_true. unfold template in Hd.
    by rewrite Hlo in Hd.
Qed.

(** *** Template graphs on which [_move_outside_loop] does not raise *)

(** Every name that the function looks up is registered: the needed
    outputs, the templates listed as dependencies (data layers apart), and
    the root of every registered sub-layer. *)
Record well_formed (needed_outputs : list string) : Prop := {
  wf_needed : ∀ name, name ∈ needed_outputs → is_Some (layer_data_templates !! name);
  wf_deps : ∀ name layer d,
    layer_data_templates !! name = Some layer →
    TemplateDep d ∈ dependencies layer → is_data d = false →
    is_Some (layer_data_templates !! d);
  wf_roots : ∀ name,
    is_Some (layer_data_templates !! name) → has_slash name = true →
    is_Some (layer_data_templates !! split_head name);
}.

Lemma lookup_all_registered names :
  (∀ name, name ∈ names → is_Some (layer_data_templates !! name)) →
  lookup_all names = Ok (TemplateDep <$> names).
Proof.
  induction names as [|name rest IH]; intros Hk; simpl; [done|].
  destruct (Hk name) as [layer ->]; [by left|].
  rewrite IH; [done|]. intros n Hn. apply Hk. by right.
Qed.

Lemma visit_raises_no_key_error fuel deps acc e :
  (∀ name layer d,
     layer_data_templates !! name = Some layer →
     TemplateDep d ∈ dependencies layer → is_data d = false →
     is_Some (layer_data_templates !! d)) →
  (∀ d, TemplateDep d ∈ deps → is_data d = false → is_Some (layer_data_templates !! d)) →
  visit fuel deps acc = Raise e → e = OutOfFuel.
Proof.
  intros Hwf. revert deps acc. induction fuel as [|fuel IHf]; [by intros ? ? ? [= <-]|].
  induction deps as [|[name|name] rest IHd]; intros acc Hdeps.
  - by rewrite visit_nil.
  - assert (∀ d, TemplateDep d ∈ rest → is_data d = false →
                 is_Some (layer_data_templates !! d)) as Hrest.
    { intros d Hd. apply Hdeps. by right. }
    rewrite visit_template. destruct (is_data name) eqn:Hdata; [by apply IHd|].
    destruct (Hdeps name) as [layer Hl]; [by left|done|]. rewrite Hl.
    destruct (decide (name ∈ acc)); [by apply IHd|].
    destruct (visit fuel (dependencies layer) (acc ++ [name]))
      as [acc1|e1] eqn:Hv; [by apply IHd|].
    intros [= <-]. revert Hv. apply IHf. intros d Hd. by eapply Hwf.
  - rewrite visit_real. apply IHd. intros d Hd. apply Hdeps. by right.
Qed.

Lemma output_can_move_out_returns loop name :
  (∀ n, is_Some (layer_data_templates !! n) → has_slash n = true →
        is_Some (layer_data_templates !! split_head n)) →
  is_Some (layer_data_templates !! name) →
  ∃ b, output_can_move_out loop name = Ok b.
Proof.
  intros Hroots Hk. destruct (has_slash name) eqn:Hs.
  - rewrite output_can_move_out_sub by done.
    destruct (excluded_output name); [by eexists|].
    destruct (Hroots name Hk Hs) as [r ->]. by eexists.
  - unfold output_can_move_out. rewrite output_can_move_out_plain by done. by eexists.
Qed.

Lemma input_can_move_out_returns loop name :
  (∀ n, is_Some (layer_data_templates !! n) → has_slash n = true →
        is_Some (layer_data_templates !! split_head n)) →
  is_Some (layer_data_templates !! name) →
  ∃ b, input_can_move_out loop name = Ok b.
Proof.
  intros Hroots Hk. destruct (has_slash name) eqn:Hs.
  - rewrite input_can_move_out_sub by done.
    destruct (excluded_input name); [by eexists|].
    destruct (Hroots name Hk Hs) as [r ->]. by eexists.
  - unfold input_can_move_out. rewrite input_can_move_out_plain by done. by eexists.
Qed.

Lemma find_first_returns can_move (candidates : list string) :
  (∀ layer, layer ∈ candidates → ∃ b, can_move layer = Ok b) →
  ∃ r, find_first can_move candidates = Ok r.
Proof.
  induction candidates as [|c rest IH]; intros Hc; simpl; [by eexists|].
  destruct (Hc c) as [b ->]; [by left|]. simpl. destruct b; [by eexists|].
  apply IH. intros layer Hl. apply Hc. by right.
Qed.

(** The partition with all its layers registered. *)
Definition registered (collected : list string) (st : partition) : Prop :=
  move_inv collected st
  ∧ ∀ name, name ∈ layers_in_loop st → is_Some (layer_data_templates !! name).

Lemma registered_output_move collected st layer :
  registered collected st →
  find_output_layer_to_move_out (layers_in_loop st) = Ok (Some layer) →
  registered collected (output_move_out st layer).
Proof.
  intros [Hinv Hk] Hf. split; [by apply move_inv_output|].
  intros name Hn. simpl in Hn. apply Hk. by eapply list_remove_first_subset.
Qed.

Lemma registered_input_move collected st layer :
  registered collected st →
  find_input_layer_to_move_out (layers_in_loop st) = Ok (Some layer) →
  registered collected (input_move_out st layer).
Proof.
  intros [Hinv Hk] Hf. split; [by apply move_inv_input|].
  intros name Hn. simpl in Hn. apply Hk. by eapply list_remove_first_subset.
Qed.

Section Returns.

Hypothesis roots_registered :
  ∀ n, is_Some (layer_data_templates !! n) → has_slash n = true →
       is_Some (layer_data_templates !! split_head n).

Lemma find_output_layer_returns collected st :
  registered collected st → ∃ r, find_output_layer_to_move_out (layers_in_loop st) = Ok r.
Proof.
  intros [_ Hk]. unfold find_output_layer_to_move_out.
  apply find_first_returns. intros layer Hl.
  apply output_can_move_out_returns; auto.
Qed.

Lemma find_input_layer_returns collected st :
  registered collected st → ∃ r, find_input_layer_to_move_out (layers_in_loop st) = Ok r.
Proof.
  intros [_ Hk]. unfold find_input_layer_to_move_out.
  apply find_first_returns. intros layer Hl.
  apply input_can_move_out_returns; auto.
Qed.

Lemma move_outputs_returns collected fuel st :
  registered collected st → length (layers_in_loop st) < fuel →
  ∃ st', move_outputs fuel st = Ok st'
         ∧ registered collected st'.
Proof.
  revert st. induction fuel as [|fuel IH]; intros st Hreg Hlt; [lia|]. simpl.
  destruct (find_output_layer_returns _ _ Hreg) as [[layer|] Hf]; rewrite Hf; cbn [result_bind].
  - apply IH; [by apply registered_output_move|]. simpl.
    apply find_first_some in Hf as [Hl _].
    pose proof (list_remove_first_length _ _ Hl). lia.
  - by exists st.
Qed.

Lemma move_both_returns collected fuel st :
  registered collected st → length (layers_in_loop st) < fuel →
  ∃ st', move_both fuel st = Ok st'.
Proof.
  revert st. induction fuel as [|fuel IH]; intros st Hreg Hlt; [lia|]. simpl.
  destruct (find_output_layer_returns _ _ Hreg) as [[lo|] Hfo]; rewrite Hfo; cbn [result_bind].
  - pose proof (registered_output_move _ _ _ Hreg Hfo) as Hreg1.
    apply find_first_some in Hfo as [Hlo _].
    pose proof (list_remove_first_length _ _ Hlo) as Hlen.
    destruct (find_input_layer_returns _ _ Hreg1) as [[li|] Hfi]; rewrite Hfi; cbn [result_bind].
    + apply IH; [by apply registered_input_move|]. simpl.
      apply find_first_some in Hfi as [Hli _]. simpl in Hli.
      pose proof (list_remove_first_length _ _ Hli). lia.
    + apply IH; [done|]. simpl. lia.
  - destruct (find_input_layer_returns _ _ Hreg) as [[li|] Hfi]; rewrite Hfi; cbn [result_bind].
    + apply IH; [by apply registered_input_move|]. simpl.
      apply find_first_some in Hfi as [Hli _].
      pose proof (list_remove_first_length _ _ Hli). lia.
    + by exists st.
Qed.

End Returns.

(** X5: On a template graph in which every name resolves, [_move_outside_loop]
    raises nothing and returns a partition. *)
Theorem move_outside_loop_returns needed_outputs :
  well_formed needed_outputs →
  ∃ st, _move_outside_loop needed_outputs = Ok st.
Proof.
  intros [Hneeded Hdeps Hroots]. unfold _move_outside_loop.
  assert (∃ collected, visited needed_outputs = Ok collected)
    as [collected Hv].
  { destruct (visited needed_outputs) as [c|e] eqn:Hv; [by eexists|].
    exfalso. pose proof (visited_no_fuel needed_outputs) as Hnf.
    apply Hnf. rewrite Hv. f_equal. revert Hv. unfold visited.
    rewrite lookup_all_registered by done. cbn [result_bind].
    apply visit_raises_no_key_error; [done|].
    intros d Hd _. apply Hneeded. apply list_elem_of_fmap in Hd as (n & [= ->] & Hn). done. }
  rewrite Hv. cbn [result_bind].
  assert (registered collected {| layers_in_loop := collected;
                                  input_layers_moved_out := [];
                                  output_layers_moved_out := [] |}) as Hreg.
  { split; [apply move_inv_init|]. simpl.
    apply visited_spec in Hv as (_ & _ & Hk). exact Hk. }
  destruct (move_outputs_returns Hroots collected (S (length collected)) _ Hreg)
    as (st1 & -> & Hreg1); [simpl; lia|].
  cbn [result_bind]. eapply move_both_returns; [done|exact Hreg1|lia].
Qed.

End WithTemplates.

(** *** Concrete subnetworks *)

(** A plain recurrence: ["output"] reads ["s"], and ["s"] reads
    ["prev:output"]. *)
Definition recurrent_net : gmap string TemplateLayer :=
  list_to_map [
    ("output", with_dependencies [("s", false)] new_template);
    ("s", with_dependencies [("output", true)] new_template)].


(** The templates that [_construct_template] leaves for the net dict

      "choice": a layer with a sub-layer "out_0", reading "data:source";
      "output": reads "choice/out_0";   "end": reads "choice/out_0".

    ["output"] is constructed first and asks for ["choice/out_0"] first:
    [GetLayer.__call__] goes through the sub-layer branch, which registers
    the root ["choice"] and then the sub-layer as dependencies of
    ["output"].  When ["end"] asks for ["choice/out_0"], the name is already
    in [layer_data_templates] and initialized, so the call registers the
    sub-layer and returns before the sub-layer branch: ["end"] does not list
    ["choice"] (see [TemplateConstruction.sublayer_net_constructed]). *)
Definition sublayer_net : gmap string TemplateLayer :=
  list_to_map [
    ("output", with_dependencies [("choice", false); ("choice/out_0", false)] new_template);
    ("choice", with_dependencies [("data:source", false)] new_template);
    ("data:source", new_template);
    ("choice/out_0", new_template);
    ("end", with_dependencies [("choice/out_0", false)] new_template)].

(** C1 (failing input): on [sublayer_net] the sub-layer ["choice/out_0"]
    is moved out on the output side, by the eligibility of its root
    ["choice"], while ["end"], which has the sub-layer among its
    current-frame dependencies, stays in the loop: a layer of
    [output_layers_moved_out] is depended on by a layer of
    [layers_in_loop]. *)
Theorem sublayer_moved_out_but_needed_in_loop :
  _move_outside_loop sublayer_net false ["output"; "end"]
  = Ok {| layers_in_loop := ["end"];
          input_layers_moved_out := [];
          output_layers_moved_out := ["output"; "choice"; "choice/out_0"] |}
  ∧ cur_frame_dependencies (template sublayer_net "end") = [TemplateDep "choice/out_0"].
Proof. split; vm_compute; reflexivity. Qed.

(** The order in which the needed outputs are visited does not matter
    for that. *)
Lemma sublayer_moved_out_other_order :
  _move_outside_loop sublayer_net false ["end"; "output"]
  = Ok {| layers_in_loop := ["end"];
          input_layers_moved_out := [];
          output_layers_moved_out := ["output"; "choice/out_0"; "choice"] |}.
Proof. vm_compute; reflexivity. Qed.

(** C4 (counterexample): in [recurrent_net] the layer ["s"] is not
    excluded and has no current-frame dependency at all, its only dependency
    being ["prev:output"]; it is not moved out on the input side and stays
    in the loop. *)
Lemma only_prev_dependency_stays_in_loop :
  ∃ st, _move_outside_loop recurrent_net false ["output"] = Ok st
        ∧ "s" ∈ layers_in_loop st
        ∧ excluded_input recurrent_net false "s" = false
        ∧ has_slash "s" = false
        ∧ cur_frame_dependencies (template recurrent_net "s") = []
        ∧ prev_frame_dependencies (template recurrent_net "s") = [TemplateDep "output"]
        ∧ input_layers_moved_out st = [].
Proof.
  eexists. split; [vm_compute; reflexivity|].
  split_and!; try (vm_compute; reflexivity).
  simpl. apply elem_of_cons. right. by left.
Qed.

Lemma recurrent_net_partition :
  _move_outside_loop recurrent_net false ["output"]
  = Ok {| layers_in_loop := ["output"; "s"];
          input_layers_moved_out := [];
          output_layers_moved_out := [] |}.
Proof. vm_compute; reflexivity. Qed.


Lemma input_side_condition_uses_all_dependencies_witness :
  input_can_move_out recurrent_net false ["output"; "s"] "s" = Ok false.
Proof.
  apply (proj1 (proj2 (input_side_condition_uses_all_dependencies
           recurrent_net false ["output"]
           {| layers_in_loop := ["output"; "s"];
              input_layers_moved_out := [];
              output_layers_moved_out := [] |}
           recurrent_net_partition)) "s").
  simpl. apply elem_of_cons. right. by left.
Defined.


(** *** A decoder with an encoder projection before the loop

    ["s"] reads its own previous frame and ["enc_key"], which is computed
    from ["encoder_proj"] and that from the input; ["output"] reads ["prob"],
    which reads ["s"]. *)
Definition decoder_net : gmap string TemplateLayer :=
  list_to_map [
    ("output", with_dependencies [("prob", false)] new_template);
    ("prob", with_dependencies [("s", false)] new_template);
    ("s", with_dependencies [("s", true); ("enc_key", false)] new_template);
    ("enc_key", with_dependencies [("encoder_proj", false)] new_template);
    ("encoder_proj", with_dependencies [("data:source", false)] new_template);
    ("data:source", new_template)].

Definition decoder_partition : partition :=
  {| layers_in_loop := ["s"];
     input_layers_moved_out := ["encoder_proj"; "enc_key"];
     output_layers_moved_out := ["output"; "prob"] |}.

Lemma decoder_net_partition :
  _move_outside_loop decoder_net false ["output"] = Ok decoder_partition.
Proof. vm_compute; reflexivity. Qed.

Lemma decoder_net_items :
  map_to_list decoder_net ≡ₚ
  [("output", with_dependencies [("prob", false)] new_template);
   ("prob", with_dependencies [("s", false)] new_template);
   ("s", with_dependencies [("s", true); ("enc_key", false)] new_template);
   ("enc_key", with_dependencies [("encoder_proj", false)] new_template);
   ("encoder_proj", with_dependencies [("data:source", false)] new_template);
   ("data:source", new_template)].
Proof.
  unfold decoder_net. apply map_to_list_to_map.
  apply (bool_decide_unpack _). vm_compute. exact I.
Qed.

Lemma decoder_net_lookup name layer :
  decoder_net !! name = Some layer →
  (name, layer) ∈
  [("output", with_dependencies [("prob", false)] new_template);
   ("prob", with_dependencies [("s", false)] new_template);
   ("s", with_dependencies [("s", true); ("enc_key", false)] new_template);
   ("enc_key", with_dependencies [("encoder_proj", false)] new_template);
   ("encoder_proj", with_dependencies [("data:source", false)] new_template);
   ("data:source", new_template)].
Proof.
  intros H. apply elem_of_map_to_list in H. by rewrite decoder_net_items in H.
Qed.

Lemma decoder_net_well_formed : well_formed decoder_net ["output"].
Proof.
  split.
  - intros name Hn. apply list_elem_of_singleton in Hn as ->. by eexists.
  - intros name layer d Hl Hd Hdata. apply decoder_net_lookup in Hl.
    repeat (apply elem_of_cons in Hl as [[= -> ->]|Hl]);
      try (by apply elem_of_nil in Hl);
      vm_compute in Hd;
      repeat (apply elem_of_cons in Hd as [[= ->]|Hd]);
      try (by apply elem_of_nil in Hd); try done; by eexists.
  - intros name [layer Hl] Hs. apply decoder_net_lookup in Hl.
    repeat (apply elem_of_cons in Hl as [[= -> ->]|Hl]);
      try (by apply elem_of_nil in Hl); done.
Qed.

Lemma dependency_cycle_stays_in_loop_witness :
  "s" ∈ layers_in_loop decoder_partition
  ∧ ("s" ∉ input_layers_moved_out decoder_partition)
  ∧ ("s" ∉ output_layers_moved_out decoder_partition).
Proof.
  apply (dependency_cycle_stays_in_loop decoder_net false ["output"]
           decoder_partition ["s"] decoder_net_partition).
  - intros name Hn. apply list_elem_of_singleton in Hn as ->.
    split_and!; [reflexivity|exists "s"|exists "s"];
      (split; [by left|apply (bool_decide_unpack _); vm_compute; exact I]).
  - intros name Hn. apply list_elem_of_singleton in Hn as ->.
    apply (partition_of_reachable_layers decoder_net false ["output"]
             decoder_partition decoder_net_partition). left. by left.
  - by left.
Defined.

Lemma moved_out_layers_closed_witness :
  "encoder_proj" ∈ input_layers_moved_out decoder_partition
  ∧ "output" ∈ output_layers_moved_out decoder_partition.
Proof.
  destruct (moved_out_layers_closed decoder_net false ["output"]
              decoder_partition decoder_net_partition) as [Hin Hout].
  split.
  - apply (Hin "enc_key" "encoder_proj"); try reflexivity.
    + right. by left.
    + apply (bool_decide_unpack _); vm_compute; exact I.
  - apply (Hout "prob" "output"); try reflexivity.
    + right. by left.
    + apply reachable_root; [by left|reflexivity].
    + apply (bool_decide_unpack _); vm_compute; exact I.
Defined.

Lemma moved_out_lists_in_dependency_order_witness :
  output_layers_moved_out decoder_partition !! 0 = Some "output"
  ∧ output_layers_moved_out decoder_partition !! 1 = Some "prob"
  ∧ 0 < 1.
Proof.
  split_and!; [reflexivity..|].
  apply (proj1 (moved_out_lists_in_dependency_order decoder_net false ["output"]
                  decoder_partition decoder_net_partition) 0 1 "output" "prob");
    [reflexivity..|].
  apply (bool_decide_unpack _); vm_compute; exact I.
Defined.

Lemma input_read_in_loop_is_used_witness :
  _input_layer_used_inside_loop decoder_net decoder_partition "enc_key" = Ok true.
Proof.
  apply (input_read_in_loop_is_used decoder_net false ["output"]
           decoder_partition "enc_key" "s" decoder_net_partition).
  - right. by left.
  - by left.
  - apply (bool_decide_unpack _); vm_compute; exact I.
Defined.

Lemma move_outside_loop_returns_witness :
  ∃ st, _move_outside_loop decoder_net false ["output"] = Ok st.
Proof.
  exact (move_outside_loop_returns decoder_net false ["output"] decoder_net_well_formed).
Defined.

End MoveOutsideLoop.

(** ** Registering dependencies while templates are constructed
    ([GetLayer.__call__] in [_construct_template])

    Only the course without exceptions is embedded: the getter is the
    default one ([allow_uninitialized_template] and [reconstruct] false), the
    names are current-frame names of the subnetwork (no "prev:", no "base:"),
    and the first call of [construct_layer] succeeds.  The reconstruction
    loop repeats the same requests and [add_dependency] adds nothing twice, so
    the dependency lists are those of the first sweep. *)

Module TemplateConstruction.
Import LayerName.

Record ConstructCtx : Type := mkConstructCtx {
  layer_data_templates : gmap string TemplateLayer;
  initialized : gset string;          (* the templates with [is_initialized] *)
  layers : list string;               (* [ConstructCtx.layers], the top last *)
}.

Definition set_template (ctx : ConstructCtx) (name : string) (layer : TemplateLayer)
  : ConstructCtx :=
  {| layer_data_templates := <[name := layer]> (layer_data_templates ctx);
     initialized := initialized ctx;
     layers := layers ctx |}.

(** [if ConstructCtx.layers:
       ConstructCtx.layers[-1].add_dependency(layer_, is_prev_time_frame=False)] *)
Definition add_dependency_to_top (ctx : ConstructCtx) (name : string) : ConstructCtx :=
  match last (layers ctx) with
  | None => ctx
  | Some top =>
      match layer_data_templates ctx !! top with
      | None => ctx
      | Some layer =>
          match add_dependency layer (TemplateDep name) false with
          | Ok layer' => set_template ctx top layer'
          | Raise _ => ctx
          end
      end
  end.

Definition push (ctx : ConstructCtx) (name : string) : ConstructCtx :=
  {| layer_data_templates := layer_data_templates ctx;
     initialized := initialized ctx;
     layers := layers ctx ++ [name] |}.

(** The end of a construction: the layer is popped, and
    [add_templated_layer] has called [init]. *)
Definition pop_initialized (ctx : ConstructCtx) (name : string) : ConstructCtx :=
  {| layer_data_templates := layer_data_templates ctx;
     initialized := {[name]} ∪ initialized ctx;
     layers := removelast (layers ctx) |}.

Section Construct.

(** The "from" entries of the net dict. *)
Variable net_dict : gmap string (list string).

(** Modelled from the spec: [TFNetwork.construct_layer] is not among the
    sources.  For a layer of the net dict it asks [get_layer] for each name in
    the layer's "from" entry, in order, and then adds the layer; a data
    layer ("data", "data:...") has no definition in the net dict and reads
    nothing. *)
Definition sources_of (name : string) : result (list string) :=
  match net_dict !! name with
  | Some sources => Ok sources
  | None => if is_data name then Ok [] else Raise (KeyError name)
  end.

Fixpoint get_layer (fuel : nat) (name : string) (ctx : ConstructCtx) : result ConstructCtx :=
  match fuel with
  | 0 => Raise OutOfFuel
  | S fuel' =>
      let known := bool_decide (is_Some (layer_data_templates ctx !! name)) in
      let ctx1 := if known then add_dependency_to_top ctx name else ctx in
      if known && bool_decide (name ∈ initialized ctx) then
        (* [if not lself.reconstruct and layer_.is_initialized: return layer_] *)
        Ok ctx1
      else if has_slash name then
        (* [root_layer = lself.__call__(root_name)], then the sub-layer
           template, which carries no dependencies of its own *)
        do ctx2 <- get_layer fuel' (split_head name) ctx1;
        let sub_layer := default new_template (layer_data_templates ctx2 !! name) in
        let ctx3 := {| layer_data_templates :=
                         <[name := sub_layer]> (layer_data_templates ctx2);
                       initialized := {[name]} ∪ initialized ctx2;
                       layers := layers ctx2 |} in
        Ok (add_dependency_to_top ctx3 name)
      else if bool_decide (name ∈ layers ctx) then
        Raise NetworkConstructionDependencyLoopException
      else
        let ctx2 := if known then ctx1 else set_template ctx1 name new_template in
        let ctx3 := add_dependency_to_top ctx2 name in
        do sources <- sources_of name;
        do ctx4 <-
          (fix for_source (sources : list string) (ctx : ConstructCtx) : result ConstructCtx :=
             match sources with
             | [] => Ok ctx
             | source :: rest =>
                 do ctx' <- get_layer fuel' source ctx;
                 for_source rest ctx'
             end) sources (push ctx3 name);
        Ok (pop_initialized ctx4 name)
  end.

(** The first sweep of [_construct_template]: "output", then "end" if the
    net dict has it. *)
Definition construct_template (fuel : nat) : result ConstructCtx :=
  do ctx <- get_layer fuel "output"
              {| layer_data_templates := ∅; initialized := ∅; layers := [] |};
  if bool_decide (is_Some (net_dict !! "end")) then get_layer fuel "end" ctx
  else Ok ctx.

End Construct.

(** A layer with a sub-layer that two layers read. *)
Definition sublayer_net_dict : gmap string (list string) :=
  list_to_map [
    ("choice", ["data:source"]);
    ("output", ["choice/out_0"]);
    ("end", ["choice/out_0"])].

(** The construction leaves the templates of [MoveOutsideLoop.sublayer_net]:
    ["output"] lists the root and the sub-layer, ["end"] the sub-layer
    only. *)
Lemma sublayer_net_constructed :
  ∃ ctx, construct_template sublayer_net_dict 4 = Ok ctx
         ∧ layer_data_templates ctx = MoveOutsideLoop.sublayer_net
         ∧ layers ctx = [].
Proof. eexists. split_and!; vm_compute; reflexivity. Qed.

End TemplateConstruction.

(** ** Initialising a template layer ([_TemplateLayer.init]) *)

Module TemplateInit.

Section Init.

(** [Data], the descriptor of a layer output, and the keyword arguments of a
    layer, as far as [init] reads them. *)
Variable Data : Type.
Variable Kwargs : Type.
(** [if not output.size_placeholder: output.size_placeholder = {}] *)
Variable with_size_placeholder : Data → Data.
(** [kwargs.get("is_output_layer", None)], [kwargs.get("collocate_with", None)] *)
Variable get_is_output_layer : Kwargs → option bool.
Variable get_collocate_with : Kwargs → option (list string).
(** [self.network.search_flag] *)
Variable search_flag : bool.

(** A layer class: its [layer_class] name, whether it derives from
    [BaseChoiceLayer], and [cls_get_search_beam_size] applied to the stored
    arguments, which hold the descriptor under "output"; the class method
    may raise. *)
Record LayerClass : Type := mkLayerClass {
  class_name : string;
  is_choice_class : bool;
  cls_get_search_beam_size : Kwargs → Data → result (option Z);
}.

Record SearchChoices : Type := mkSearchChoices { beam_size : option Z }.

(** The attributes of a [_TemplateLayer] that [init] writes. *)
Record Template : Type := mkTemplate {
  is_prev_time_frame : bool;
  is_data_template : bool;
  is_initialized : bool;
  layer_class : string;
  output : Data;
  layer_class_type : option LayerClass;
  kwargs : option (Kwargs * Data);  (* the second component is [kwargs["output"]] *)
  _is_output_layer : option bool;
  search_choices : option SearchChoices;
  collocate_with : list string;
}.

(** [_TemplateLayer.__init__]: the dummy output, nothing initialized. *)
Definition fresh (dummy_initial_template_data : Data) : Template :=
  {| is_prev_time_frame := false; is_data_template := false;
     is_initialized := false; layer_class := ":uninitialized-template";
     output := dummy_initial_template_data; layer_class_type := None;
     kwargs := None; _is_output_layer := None; search_choices := None;
     collocate_with := [] |}.

(** [_get_search_choices_beam_size] and [_has_search_choices], evaluated
    with the class and the arguments that [init] has just stored. *)
Definition _get_search_choices_beam_size (cls : LayerClass) (kw : Kwargs) (out : Data)
  : result (option Z) :=
  if is_choice_class cls then cls_get_search_beam_size cls kw out
  else Raise (AssertionError "issubclass(layer_class, BaseChoiceLayer)").

Definition _has_search_choices (cls : LayerClass) (kw : Kwargs) (out : Data) : result bool :=
  if negb search_flag then Ok false
  else if is_choice_class cls then
    do beam_size <- _get_search_choices_beam_size cls kw out;
    Ok (match beam_size with Some _ => true | None => false end)
  else Ok false.

(** [init(output, layer_class, template_type, kwargs)].  The two flags
    are assigned before the [assert]; when it fails, nothing else changes.
    [is_initialized] is "set last, in case there are exceptions": when the
    class method raises, the attributes assigned until then keep their new
    values, and [search_choices], [collocate_with] and [is_initialized] their
    old ones. *)
Definition init (self : Template) (out : Data) (cls : LayerClass)
    (template_type : string) (kw : Kwargs) : Template * option exn :=
  let prev := String.eqb template_type "prev" in
  let data := String.eqb template_type "template" in
  if negb (prev || data) then
    ({| is_prev_time_frame := prev; is_data_template := data;
        is_initialized := is_initialized self; layer_class := layer_class self;
        output := output self; layer_class_type := layer_class_type self;
        kwargs := kwargs self; _is_output_layer := _is_output_layer self;
        search_choices := search_choices self;
        collocate_with := collocate_with self |},
     Some (AssertionError "self.is_prev_time_frame or self.is_data_template"))
  else
    let out' := with_size_placeholder out in
    let new_search_choices : result (option SearchChoices) :=
      do has_search_choices <- _has_search_choices cls kw out';
      if has_search_choices : bool then
        do beam_size <- _get_search_choices_beam_size cls kw out';
        Ok (Some {| beam_size := beam_size |})
      else Ok (search_choices self) in
    match new_search_choices with
    | Raise e =>
        ({| is_prev_time_frame := prev; is_data_template := data;
            is_initialized := is_initialized self;
            layer_class := ":" ++ template_type ++ ":" ++ class_name cls;
            output := out';
            layer_class_type := Some cls;
            kwargs := Some (kw, out');
            _is_output_layer := get_is_output_layer kw;
            search_choices := search_choices self;
            collocate_with := collocate_with self |},
         Some e)
    | Ok choices =>
        ({| is_prev_time_frame := prev; is_data_template := data;
            is_initialized := true;
            layer_class := ":" ++ template_type ++ ":" ++ class_name cls;
            output := out';
            layer_class_type := Some cls;
            kwargs := Some (kw, out');
            _is_output_layer := get_is_output_layer kw;
            search_choices := choices;
            collocate_with := default [] (get_collocate_with kw) |},
         None)
    end.

(** Whether the beam size of the class is asked for, and then found. *)
Definition beam_size_found (cls : LayerClass) (kw : Kwargs) (out : Data) : Prop :=
  search_flag = true → is_choice_class cls = true →
  ∃ beam_size, cls_get_search_beam_size cls kw out = Ok beam_size.

Lemma new_search_choices_returns self cls kw out :
  beam_size_found cls kw out ↔
  ∃ choices,
    (do has_search_choices <- _has_search_choices cls kw out;
     if has_search_choices : bool then
       do beam_size <- _get_search_choices_beam_size cls kw out;
       Ok (Some {| beam_size := beam_size |})
     else Ok (search_choices self)) = Ok choices.
Proof.
  unfold beam_size_found, _has_search_choices, _get_search_choices_beam_size.
  destruct search_flag; cbn [negb]; [|split; [by eexists|done]].
  destruct (is_choice_class cls); [|split; [by eexists|done]].
  destruct (cls_get_search_beam_size cls kw out) as [[beam_size|]|e]; cbn [result_bind].
  - split; [by eexists|]. intros _ _ _. by eexists.
  - split; [by eexists|]. intros _ _ _. by eexists.
  - split.
    + intros H. by destruct (H eq_refl eq_refl).
    + by intros [choices H].
Qed.

Lemma template_type_checked (template_type : string) :
  negb (String.eqb template_type "prev" || String.eqb template_type "template") = false
  ↔ template_type = "template" ∨ template_type = "prev".
Proof.
  destruct (String.eqb_spec template_type "prev") as [->|Hp]; [by split; [right|]|].
  destruct (String.eqb_spec template_type "template") as [->|Ht]; [by split; [left|]|].
  split; [done|]. by intros [|].
Qed.

(** C8 (amended): [init] has no guard on [is_initialized]: whether a call
    raises, and what, does not depend on the node it is called on.  The call
    succeeds exactly when the template type is "template" or "prev" and the
    class method [cls_get_search_beam_size], where [init] asks it (under
    search, for a choice class), returns.  A call that succeeds, also on a
    node that is already initialized, leaves the node initialized with the
    descriptor, class and arguments of this call; a call that raises leaves
    [is_initialized] as it was, and for another template type it raises the
    assertion error. *)
Theorem init_reinitializes_in_place self out cls template_type kw :
  (∀ self', snd (init self' out cls template_type kw) = snd (init self out cls template_type kw))
  ∧ (snd (init self out cls template_type kw) = None ↔
     (template_type = "template" ∨ template_type = "prev")
     ∧ beam_size_found cls kw (with_size_placeholder out))
  ∧ (snd (init self out cls template_type kw) = None →
     is_initialized (fst (init self out cls template_type kw)) = true
     ∧ output (fst (init self out cls template_type kw)) = with_size_placeholder out
     ∧ layer_class_type (fst (init self out cls template_type kw)) = Some cls
     ∧ kwargs (fst (init self out cls template_type kw))
       = Some (kw, with_size_placeholder out))
  ∧ (snd (init self out cls template_type kw) ≠ None →
     is_initialized (fst (init self out cls template_type kw)) = is_initialized self)
  ∧ (template_type ≠ "template" → template_type ≠ "prev" →
     snd (init self out cls template_type kw)
     = Some (AssertionError "self.is_prev_time_frame or self.is_data_template")).
Proof.
  split_and!.
  - intros self'. unfold init.
    destruct (negb _); [done|].
    unfold _has_search_choices, _get_search_choices_beam_size.
    destruct (negb search_flag); [done|].
    destruct (is_choice_class cls); [|done].
    by destruct (cls_get_search_beam_size cls kw (with_size_placeholder out)) as [[b|]|e].
  - rewrite (new_search_choices_returns self). unfold init.
    destruct (negb _) eqn:Hneg.
    + split; [done|]. intros [Ht _]. apply template_type_checked in Ht. congruence.
    + apply template_type_checked in Hneg.
      destruct (result_bind _ _) as [choices|e]; cbn [snd].
      * split; [|done]. intros _. split; [done|by eexists].
      * split; [done|]. by intros [_ [choices H]].
  - unfold init. destruct (negb _); [done|].
    by destruct (result_bind _ _) as [choices|e].
  - unfold init. destruct (negb _); [done|].
    by destruct (result_bind _ _) as [choices|e].
  - intros H1 H2. unfold init.
    destruct (negb _) eqn:Hneg; [done|]. apply template_type_checked in Hneg.
    by destruct Hneg.
Qed.

End Init.

(** C8 (counterexample): a node initialized with one descriptor is
    initialized again with another; the second call raises nothing and the
    node carries the second descriptor. *)
Lemma init_twice_succeeds :
  let cls := mkLayerClass nat unit "linear" false (fun _ _ => Ok None) in
  let init' := init nat unit id (fun _ => None) (fun _ => None) false in
  let first := init' (fresh nat unit 0) 1 cls "template" tt in
  let second := init' (fst first) 2 cls "template" tt in
  snd first = None ∧ is_initialized nat unit (fst first) = true
  ∧ snd second = None ∧ is_initialized nat unit (fst second) = true
  ∧ output nat unit (fst first) = 1 ∧ output nat unit (fst second) = 2.
Proof. vm_compute. done. Qed.

(** A choice class whose beam size lookup raises, under search: [init]
    raises on a fresh node as on an initialized one, and the node keeps its
    [is_initialized] while it carries the new descriptor. *)
Lemma init_raises_in_class_method :
  let linear := mkLayerClass nat unit "linear" false (fun _ _ => Ok None) in
  let choice := mkLayerClass nat unit "choice" true
                  (fun _ _ => Raise (AssertionError "len(sources) == 1")) in
  let init' := init nat unit id (fun _ => None) (fun _ => None) true in
  let first := init' (fresh nat unit 0) 1 linear "template" tt in
  let second := init' (fst first) 2 choice "template" tt in
  snd first = None
  ∧ snd second = Some (AssertionError "len(sources) == 1")
  ∧ snd (init' (fresh nat unit 0) 2 choice "template" tt)
    = Some (AssertionError "len(sources) == 1")
  ∧ is_initialized nat unit (fst second) = true
  ∧ output nat unit (fst second) = 2.
Proof. vm_compute. done. Qed.

Lemma init_reinitializes_in_place_witness :
  let cls := mkLayerClass nat unit "linear" false (fun _ _ => Ok None) in
  let init' := init nat unit id (fun _ => None) (fun _ => None) false in
  let first := fst (init' (fresh nat unit 0) 1 cls "template" tt) in
  snd (init' first 2 cls "template" tt) = None
  ∧ is_initialized nat unit (fst (init' first 2 cls "template" tt)) = true
  ∧ output nat unit (fst (init' first 2 cls "template" tt)) = 2.
Proof.
  intros cls init' first.
  destruct (init_reinitializes_in_place nat unit id (fun _ => None)
              (fun _ => None) false first 2 cls "template" tt)
    as (_ & Hiff & Hok & _).
  assert (snd (init' first 2 cls "template" tt) = None) as Hnone.
  { apply Hiff. split; [by left|]. intros Hsearch. discriminate Hsearch. }
  destruct (Hok Hnone) as (H1 & H2 & _).
  exact (conj Hnone (conj H1 H2)).
Defined.

End TemplateInit.

(** ** Constructing one template ([GetLayer.__call__], after the layer was
    put on the construction stack) *)

Module GetLayerCall.

(** The two getters handed to [construct_layer]: [default_get_layer] and
    [GetLayer(allow_uninitialized_template=True, ...)]. *)
Inductive getter : Type :=
| default_get_layer
| allow_uninitialized_get_layer.

(** How a call of [self.net.construct_layer] ends. *)
Inductive outcome : Type :=
| Constructed
| RaisedDependencyLoop   (* [NetworkConstructionDependencyLoopException] *)
| RaisedOther.           (* any other [Exception] *)

(** The calls of [construct_layer], in the order they are made. *)
Inductive attempt : Type :=
| Optimistic (get_layer : getter)   (* inside [for get_layer in get_layer_candidates] *)
| FullRecursive.                    (* under [if not default_success] *)

Inductive call_result : Type :=
| Returned (default_success : bool)
| Reraised (e : outcome)
| AssertNotInitialized.             (* [assert layer_.is_initialized] *)

Section Call.

(** Everything the construction reads and writes (templates, [ConstructCtx],
    the counters of the getters), and the operations on it that
    [__call__] uses. *)
Variable State : Type.
Variable is_initialized : State → bool.   (* [layer_.is_initialized] *)
Variable construct_layer : getter → State → State * outcome.
Variable collect_exception : State → State.
Variable set_most_recent : State → State.
Variable reset : State → State.           (* [default_get_layer.reset()] *)
Variable finally_pop : State → State.     (* the [finally] block *)
Variable add_uninitialized_count : State → State.

(** [lself.iterative_testing], [lself.reconstruct], and
    [name in self.net._construction_stack.layers]. *)
Variable iterative_testing : bool.
Variable reconstruct : bool.
Variable on_construction_stack : bool.

Definition get_layer_candidates : list getter :=
  if iterative_testing && negb on_construction_stack
  then [default_get_layer; allow_uninitialized_get_layer]
  else [].

Definition is_default (g : getter) : bool :=
  match g with default_get_layer => true | allow_uninitialized_get_layer => false end.

(** [for get_layer in get_layer_candidates: try: ... break
     except Exception: collect_exception(...)] *)
Fixpoint try_candidates (candidates : list getter) (s : State)
  : State * bool * list attempt :=
  match candidates with
  | [] => (s, false, [])
  | get_layer :: rest =>
      let '(s1, o) := construct_layer get_layer s in
      match o with
      | Constructed => (s1, is_default get_layer, [Optimistic get_layer])
      | _ =>
          let '(s2, default_success, trace) := try_candidates rest (collect_exception s1) in
          (s2, default_success, Optimistic get_layer :: trace)
      end
  end.

(** The end of [__call__]: [assert layer_.is_initialized], the counter, the
    return. *)
Definition finish (s : State) (default_success : bool) : State * call_result :=
  if is_initialized s then
    (if default_success then s else add_uninitialized_count s, Returned default_success)
  else (s, AssertNotInitialized).

Definition call (s : State) : State * call_result * list attempt :=
  let '(s1, default_success, trace) := try_candidates get_layer_candidates s in
  if default_success then
    let '(s2, r) := finish (finally_pop s1) true in (s2, r, trace)
  else
    let '(s2, o) := construct_layer default_get_layer (reset (set_most_recent s1)) in
    let trace' := trace ++ [FullRecursive] in
    match o with
    | Constructed =>
        let '(s3, r) := finish (finally_pop s2) true in (s3, r, trace')
    | RaisedDependencyLoop =>
        if is_initialized s2 && iterative_testing && negb reconstruct then
          let '(s3, r) := finish (finally_pop s2) false in (s3, r, trace')
        else (finally_pop s2, Reraised RaisedDependencyLoop, trace')
    | RaisedOther => (finally_pop s2, Reraised RaisedOther, trace')
    end.

Definition attempts (s : State) : list attempt := snd (call s).
Definition result_of (s : State) : call_result := snd (fst (call s)).

(** The state in which the full recursive attempt starts. *)
Definition before_full (s : State) : State :=
  reset (set_most_recent (fst (fst (try_candidates get_layer_candidates s)))).

(** The attempts made when both optimistic variants are tried. *)
Lemma try_candidates_two s :
  try_candidates [default_get_layer; allow_uninitialized_get_layer] s =
  let '(s1, o1) := construct_layer default_get_layer s in
  match o1 with
  | Constructed => (s1, true, [Optimistic default_get_layer])
  | _ =>
      let '(s2, o2) := construct_layer allow_uninitialized_get_layer (collect_exception s1) in
      match o2 with
      | Constructed =>
          (s2, false, [Optimistic default_get_layer;
                       Optimistic allow_uninitialized_get_layer])
      | _ =>
          (collect_exception s2, false,
           [Optimistic default_get_layer; Optimistic allow_uninitialized_get_layer])
      end
  end.
Proof.
  simpl. destruct (construct_layer default_get_layer s) as [s1 [| |]]; [done| |];
    by destruct (construct_layer allow_uninitialized_get_layer (collect_exception s1))
      as [s2 [| |]].
Qed.

Lemma attempts_iterative s :
  iterative_testing && negb on_construction_stack = true →
  attempts s =
  match snd (construct_layer default_get_layer s) with
  | Constructed => [Optimistic default_get_layer]
  | _ => [Optimistic default_get_layer; Optimistic allow_uninitialized_get_layer;
          FullRecursive]
  end.
Proof.
  intros Hc. unfold attempts, call, get_layer_candidates. rewrite Hc.
  rewrite try_candidates_two.
  destruct (construct_layer default_get_layer s) as [s1 o1]. simpl.
  destruct o1.
  - by destruct (finish (finally_pop s1) true).
  - destruct (construct_layer allow_uninitialized_get_layer (collect_exception s1))
      as [s2 o2].
    destruct o2; simpl;
      match goal with |- context [construct_layer default_get_layer ?x] =>
        destruct (construct_layer default_get_layer x) as [s3 [| |]] end; simpl;
      repeat match goal with
        | |- context [finish ?a ?b] => destruct (finish a b)
        | |- context [if ?c then _ else _] => destruct c
        end; done.
  - destruct (construct_layer allow_uninitialized_get_layer (collect_exception s1))
      as [s2 o2].
    destruct o2; simpl;
      match goal with |- context [construct_layer default_get_layer ?x] =>
        destruct (construct_layer default_get_layer x) as [s3 [| |]] end; simpl;
      repeat match goal with
        | |- context [finish ?a ?b] => destruct (finish a b)
        | |- context [if ?c then _ else _] => destruct c
        end; done.
Qed.

Lemma call_direct s :
  iterative_testing && negb on_construction_stack = false →
  call s =
  let '(s2, o) := construct_layer default_get_layer (reset (set_most_recent s)) in
  match o with
  | Constructed =>
      let '(s3, r) := finish (finally_pop s2) true in (s3, r, [FullRecursive])
  | RaisedDependencyLoop =>
      if is_initialized s2 && iterative_testing && negb reconstruct then
        let '(s3, r) := finish (finally_pop s2) false in (s3, r, [FullRecursive])
      else (finally_pop s2, Reraised RaisedDependencyLoop, [FullRecursive])
  | RaisedOther => (finally_pop s2, Reraised RaisedOther, [FullRecursive])
  end.
Proof.
  intros Hc. unfold call, get_layer_candidates. rewrite Hc. reflexivity.
Qed.

Lemma finish_not_reraised s b e : snd (finish s b) ≠ Reraised e.
Proof. unfold finish. by destruct (is_initialized s). Qed.

(** When the full recursive attempt is made and raises the dependency
    loop exception, the exception leaves [__call__] exactly when the
    condition of the [except] clause is false. *)
Lemma dependency_loop_reraised s :
  FullRecursive ∈ attempts s →
  snd (construct_layer default_get_layer (before_full s)) = RaisedDependencyLoop →
  (result_of s = Reraised RaisedDependencyLoop ↔
   is_initialized (fst (construct_layer default_get_layer (before_full s)))
   && iterative_testing && negb reconstruct = false).
Proof.
  unfold attempts, result_of, before_full, call.
  destruct (try_candidates get_layer_candidates s) as [[s1 ok] trace] eqn:Ht. simpl.
  destruct ok.
  - (* the default getter succeeded: no full attempt in the trace *)
    destruct (finish (finally_pop s1) true) as [s2 r] eqn:Hf. simpl.
    intros Hin. exfalso. revert Ht Hin. unfold get_layer_candidates.
    destruct (iterative_testing && negb on_construction_stack).
    + rewrite try_candidates_two.
      destruct (construct_layer default_get_layer s) as [? [| |]].
      * intros [= _ <-] Hin. by apply list_elem_of_singleton in Hin.
      * by destruct (construct_layer allow_uninitialized_get_layer _) as [? [| |]].
      * by destruct (construct_layer allow_uninitialized_get_layer _) as [? [| |]].
    + simpl. by intros [= <- <-].
  - destruct (construct_layer default_get_layer (reset (set_most_recent s1)))
      as [s2 o] eqn:Hfull. simpl. intros _ ->.
    destruct (is_initialized s2 && iterative_testing && negb reconstruct) eqn:Hc.
    + destruct (finish (finally_pop s2) false) as [s3 r] eqn:Hf. simpl.
      pose proof (finish_not_reraised (finally_pop s2) false RaisedDependencyLoop) as Hn.
      rewrite Hf in Hn. simpl in Hn. split; [done|congruence].
    + simpl. done.
Qed.

(** C6 (amended): with iterative testing on and the name not on the
    construction stack, the first attempt uses the default getter (no
    uninitialized templates) and, if it raises, is followed by one attempt
    that permits them; the full recursive construction is then made
    whenever the first attempt did not succeed, whatever the second attempt
    did.  Otherwise the full recursive construction is the only attempt.  A
    dependency loop raised by the full recursive attempt is suppressed
    exactly when the layer is initialized, iterative testing is on and no
    reconstruction is forced. *)
Theorem full_construction_after_failed_default s :
  (iterative_testing && negb on_construction_stack = true →
     (snd (construct_layer default_get_layer s) = Constructed →
        attempts s = [Optimistic default_get_layer])
     ∧ (snd (construct_layer default_get_layer s) ≠ Constructed →
        attempts s = [Optimistic default_get_layer;
                      Optimistic allow_uninitialized_get_layer; FullRecursive]))
  ∧ (iterative_testing && negb on_construction_stack = false →
     attempts s = [FullRecursive])
  ∧ (FullRecursive ∈ attempts s →
     snd (construct_layer default_get_layer (before_full s)) = RaisedDependencyLoop →
     (result_of s ≠ Reraised RaisedDependencyLoop ↔
      is_initialized (fst (construct_layer default_get_layer (before_full s))) = true
      ∧ iterative_testing = true ∧ reconstruct = false)).
Proof.
  split_and!.
  - intros Hc. rewrite (attempts_iterative s Hc).
    destruct (snd (construct_layer default_get_layer s)); split; done.
  - intros Hc. unfold attempts. rewrite (call_direct s Hc).
    destruct (construct_layer default_get_layer (reset (set_most_recent s))) as [s2 [| |]];
      simpl; repeat match goal with
        | |- context [finish ?a ?b] => destruct (finish a b)
        | |- context [if ?c then _ else _] => destruct c
        end; done.
  - intros Hin Hloop. rewrite (dependency_loop_reraised s Hin Hloop).
    rewrite not_false_iff_true, !andb_true_iff, negb_true_iff. tauto.
Qed.

End Call.

(** *** A layer that reads its own previous frame

    The first attempt fails while the layer is not initialized; the attempt
    that permits uninitialized templates initializes it; the default getter
    then succeeds. *)

Definition self_recurrent_construct (g : getter) (initialized : bool) : bool * outcome :=
  match g with
  | allow_uninitialized_get_layer => (true, Constructed)
  | default_get_layer =>
      if initialized then (true, Constructed) else (false, RaisedDependencyLoop)
  end.

Definition self_recurrent_attempts : list attempt :=
  attempts bool id self_recurrent_construct id id id id id true false false false.

(** C6 (counterexample): the second optimistic attempt succeeds, and the
    full recursive construction is made all the same. *)
Lemma full_construction_after_successful_retry :
  snd (self_recurrent_construct default_get_layer false) = RaisedDependencyLoop
  ∧ snd (self_recurrent_construct allow_uninitialized_get_layer false) = Constructed
  ∧ self_recurrent_attempts
    = [Optimistic default_get_layer; Optimistic allow_uninitialized_get_layer;
       FullRecursive].
Proof. vm_compute. done. Qed.

Lemma full_construction_after_failed_default_witness :
  self_recurrent_attempts
  = [Optimistic default_get_layer; Optimistic allow_uninitialized_get_layer;
     FullRecursive].
Proof.
  refine (proj2 (proj1 (full_construction_after_failed_default
            bool id self_recurrent_construct id id id id id true false false false)
            eq_refl) _).
  vm_compute. discriminate.
Defined.

End GetLayerCall.

(** ** Reconstructing the partially finished templates
    (the [while ConstructCtx.partially_finished] loop of
    [_construct_template]) *)

Module Reconstruct.

Section Loop.

(** The construction context: templates, [ConstructCtx], collected
    exceptions. *)
Variable Ctx : Type.
(** [ConstructCtx.partially_finished], by layer name. *)
Variable partially_finished : Ctx → list string.
Variable is_initialized : Ctx → string → bool.
(** One run of [for layer in ConstructCtx.partially_finished], which calls
    [direct_get_layer.construct(layer.name)] for each layer
    ([construct] catches every exception); the boolean is the truth value of
    [recent_changes] afterwards. *)
Variable reconstruct_pass : Ctx → Ctx * bool.

Inductive loop_result : Type :=
| Finished (ctx : Ctx) (loop_limit : Z)
| AssertInitialized (ctx : Ctx)    (* "Failed to initialize layers" *)
| AssertLoopLimit (ctx : Ctx)      (* "We keep iterating over the network template construction" *)
| NoFuel.                          (* bound of the embedding, not a Python outcome *)

Fixpoint reconstruct_loop (fuel : nat) (loop_limit : Z) (ctx : Ctx) : loop_result :=
  match fuel with
  | 0 => NoFuel
  | S fuel' =>
      match partially_finished ctx with
      | [] => Finished ctx loop_limit
      | _ :: _ =>
          let old_len := length (partially_finished ctx) in
          let '(ctx', recent_changes) := reconstruct_pass ctx in
          if length (partially_finished ctx') <? old_len then
            reconstruct_loop fuel' loop_limit ctx'
          else if (old_len <=? length (partially_finished ctx')) && negb recent_changes then
            if forallb (is_initialized ctx') (partially_finished ctx')
            then Finished ctx' loop_limit
            else AssertInitialized ctx'
          else
            let loop_limit' := (loop_limit - 1)%Z in
            if (loop_limit' <? 0)%Z then AssertLoopLimit ctx'
            else reconstruct_loop fuel' loop_limit' ctx'
      end
  end.

(** [loop_limit = len(ConstructCtx.partially_finished)] and the loop. *)
Definition reconstruct (fuel : nat) (ctx : Ctx) : loop_result :=
  reconstruct_loop fuel (Z.of_nat (length (partially_finished ctx))) ctx.

(** The course of the passes: the context after [k] passes, whether the
    pass made from a context shortens the list or changes a descriptor, and
    the number of passes among the first [n] that do not shorten the list. *)
Definition pass_ctx (ctx : Ctx) : Ctx := fst (reconstruct_pass ctx).


Definition shortens (ctx : Ctx) : bool :=
  length (partially_finished (pass_ctx ctx)) <? length (partially_finished ctx).

Definition changes (ctx : Ctx) : bool := snd (reconstruct_pass ctx).

Fixpoint charged (ctx : Ctx) (n : nat) : nat :=
  match n with
  | 0 => 0
  | S n' => (if shortens ctx then 0 else 1) + charged (pass_ctx ctx) n'
  end.

Lemma reconstruct_loop_S fuel loop_limit ctx :
  reconstruct_loop (S fuel) loop_limit ctx =
  match partially_finished ctx with
  | [] => Finished ctx loop_limit
  | _ :: _ =>
      let old_len := length (partially_finished ctx) in
      let '(ctx', recent_changes) := reconstruct_pass ctx in
      if length (partially_finished ctx') <? old_len then
        reconstruct_loop fuel loop_limit ctx'
      else if (old_len <=? length (partially_finished ctx')) && negb recent_changes then
        if forallb (is_initialized ctx') (partially_finished ctx')
        then Finished ctx' loop_limit
        else AssertInitialized ctx'
      else
        if (loop_limit - 1 <? 0)%Z then AssertLoopLimit ctx'
        else reconstruct_loop fuel (loop_limit - 1) ctx'
  end.
Proof. reflexivity. Qed.

Lemma reconstruct_loop_more_fuel fuel loop_limit ctx :
  reconstruct_loop fuel loop_limit ctx ≠ NoFuel →
  reconstruct_loop (S fuel) loop_limit ctx = reconstruct_loop fuel loop_limit ctx.
Proof.
  revert loop_limit ctx. induction fuel as [|fuel IH]; intros loop_limit ctx; [done|].
  rewrite (reconstruct_loop_S (S fuel)), (reconstruct_loop_S fuel).
  destruct (partially_finished ctx); [done|]. cbv zeta. intros H. revert H.
  destruct (reconstruct_pass ctx) as [ctx' changes].
  destruct (_ <? _); [by apply IH|].
  destruct (_ && _); [done|].
  destruct (_ <? _)%Z; [done|by apply IH].
Qed.

Lemma reconstruct_loop_fuel_le fuel fuel' loop_limit ctx :
  fuel ≤ fuel' → reconstruct_loop fuel loop_limit ctx ≠ NoFuel →
  reconstruct_loop fuel' loop_limit ctx = reconstruct_loop fuel loop_limit ctx.
Proof.
  induction 1 as [|fuel' Hle IH]; [done|]. intros H.
  rewrite reconstruct_loop_more_fuel; rewrite IH; done.
Qed.

Lemma reconstruct_loop_empty fuel loop_limit ctx :
  partially_finished ctx = [] →
  reconstruct_loop (S fuel) loop_limit ctx = Finished ctx loop_limit.
Proof. intros H. rewrite reconstruct_loop_S. by rewrite H. Qed.

Lemma reconstruct_loop_step fuel loop_limit ctx :
  partially_finished ctx ≠ [] →
  reconstruct_loop (S fuel) loop_limit ctx =
  let '(ctx', recent_changes) := reconstruct_pass ctx in
  if length (partially_finished ctx') <? length (partially_finished ctx) then
    reconstruct_loop fuel loop_limit ctx'
  else if (length (partially_finished ctx) <=? length (partially_finished ctx'))
          && negb recent_changes then
    if forallb (is_initialized ctx') (partially_finished ctx')
    then Finished ctx' loop_limit
    else AssertInitialized ctx'
  else
    if (loop_limit - 1 <? 0)%Z then AssertLoopLimit ctx'
    else reconstruct_loop fuel (loop_limit - 1) ctx'.
Proof.
  intros H. rewrite reconstruct_loop_S.
  by destruct (partially_finished ctx) eqn:Hpf.
Qed.

(** The loop ends: lexicographically, a pass lowers [loop_limit], or keeps
    it and shortens the list. *)
Lemma reconstruct_loop_terminates loop_limit ctx :
  (0 ≤ loop_limit)%Z → ∃ fuel, reconstruct_loop fuel loop_limit ctx ≠ NoFuel.
Proof.
  intros Hpos. remember (Z.to_nat loop_limit) as budget eqn:Hb.
  revert loop_limit Hpos Hb ctx.
  induction (lt_wf budget) as [budget _ IHb]. intros loop_limit Hpos Hb ctx.
  remember (length (partially_finished ctx)) as len eqn:Hlen. revert ctx Hlen.
  induction (lt_wf len) as [len _ IHl]. intros ctx ->.
  destruct (decide (partially_finished ctx = [])) as [Hpf|Hpf].
  { exists 1. by rewrite reconstruct_loop_empty. }
  destruct (reconstruct_pass ctx) as [ctx' changes] eqn:Hpass.
  destruct (length (partially_finished ctx') <? length (partially_finished ctx))
    eqn:Hshort.
  - apply Nat.ltb_lt in Hshort as Hlt.
    destruct (IHl _ Hlt ctx' eq_refl) as [fuel Hfuel].
    exists (S fuel). rewrite reconstruct_loop_step by done. by rewrite Hpass, Hshort.
  - destruct ((length (partially_finished ctx) <=? length (partially_finished ctx'))
              && negb changes) eqn:Hstop.
    + exists 1. rewrite reconstruct_loop_step by done. rewrite Hpass, Hshort, Hstop.
      by destruct (forallb _ _).
    + destruct (loop_limit - 1 <? 0)%Z eqn:Hlim.
      * exists 1. rewrite reconstruct_loop_step by done.
        by rewrite Hpass, Hshort, Hstop, Hlim.
      * apply Z.ltb_ge in Hlim as Hge.
        destruct (IHb (Z.to_nat (loop_limit - 1)) ltac:(lia) (loop_limit - 1)%Z
                    ltac:(lia) eq_refl ctx') as [fuel Hfuel].
        exists (S fuel). rewrite reconstruct_loop_step by done.
        by rewrite Hpass, Hshort, Hstop, Hlim.
Qed.

(** What a result means, whatever the fuel. *)
Lemma reconstruct_loop_finished fuel loop_limit ctx ctx' loop_limit' :
  reconstruct_loop fuel loop_limit ctx = Finished ctx' loop_limit' →
  (0 ≤ loop_limit)%Z →
  (0 ≤ loop_limit' ≤ loop_limit)%Z
  ∧ forallb (is_initialized ctx') (partially_finished ctx') = true.
Proof.
  revert loop_limit ctx. induction fuel as [|fuel IH]; intros loop_limit ctx; [done|].
  destruct (decide (partially_finished ctx = [])) as [Hpf|Hpf].
  { rewrite reconstruct_loop_empty by done.
    intros [= <- <-] Hpos. rewrite Hpf. split; [lia|done]. }
  rewrite reconstruct_loop_step by done.
  destruct (reconstruct_pass ctx) as [ctx1 changes].
  destruct (_ <? _); [by apply IH|].
  destruct (_ && _).
  { destruct (forallb (is_initialized ctx1) (partially_finished ctx1)) eqn:Hall; [|done].
    intros [= <- <-] Hpos. split; [lia|done]. }
  destruct (_ <? _)%Z eqn:Hlim; [done|]. apply Z.ltb_ge in Hlim.
  intros H Hpos. destruct (IH _ _ H) as [Hb Hall]; [lia|]. split; [lia|done].
Qed.





End Loop.

(** Two partially finished layers, each finished by one pass: the passes
    shorten the list and leave [loop_limit] at its initial value.  A pass
    that changes a descriptor without finishing a layer takes one from it;
    with a single layer the second such pass fails the assertion. *)
Lemma reconstruct_finishing_passes :
  reconstruct (list string) id (λ _ _, true) (λ ctx, (tail ctx, false)) 3
    ["choice/out_0"; "end"]
  = Finished (list string) [] 2.
Proof. vm_compute. reflexivity. Qed.

Lemma reconstruct_changing_passes :
  reconstruct (list string) id (λ _ _, true) (λ ctx, (ctx, true)) 5 ["end"]
  = AssertLoopLimit (list string) ["end"].
Proof. vm_compute. reflexivity. Qed.

(** Two layers that stay in the list while a number of passes change a
    descriptor: with two such passes the budget of 2 is used up and the
    pass without a change finishes the loop; a third such pass fails the
    assertion. *)
Definition example_pass (ctx : list string * nat) : (list string * nat) * bool :=
  match ctx.2 with
  | 0 => (ctx, false)
  | S changes_left => ((ctx.1, changes_left), true)
  end.

Lemma reconstruct_budget_used_up :
  reconstruct (list string * nat) fst (λ _ _, true) example_pass 4 (["output"; "end"], 2)
  = Finished (list string * nat) (["output"; "end"], 0) 0
  ∧ charged (list string * nat) fst example_pass (["output"; "end"], 2) 2 = 2
  ∧ reconstruct (list string * nat) fst (λ _ _, true) example_pass 4 (["output"; "end"], 3)
    = AssertLoopLimit (list string * nat) (["output"; "end"], 0).
Proof. vm_compute. done. Qed.


End Reconstruct.

(** ** The step loop ([cond], [body] and the accumulators of
    [_SubnetworkRecCell.get_output]) *)

Module StepLoop.

Local Open Scope Z_scope.

(** The loop counter is an [int32] tensor. *)
Definition int32_max : Z := 2 ^ 31 - 1.
Definition wrap32 (x : Z) : Z := (x + 2 ^ 31) mod 2 ^ 32 - 2 ^ 31.

Section Loop.

(** Values of tensors, the state carried from step to step
    ([prev_outputs], [prev_extra]), and what one construction of the
    subnetwork at step [i] makes available to the rest of [body]. *)
Variable Value : Type.
Variable NetVars : Type.
Variable Env : Type.

(** [self._construct(prev_outputs, prev_extra, i, ...)], given also the
    previous end flag. *)
Variable construct : Z → NetVars → option (list bool) → Env.
(** [(outputs_flat, extra_flat)] *)
Variable next_net_vars : Env → NetVars.
(** [self.net.layers["end"].output.placeholder] *)
Variable end_layer_output : Env → list bool.
(** [choices.translate_to_this_search_beam(prev_end_layer).output.placeholder]
    and [cur_end_layer.transform_func]: the previous flags and lengths,
    selected for the current beam. *)
Variable cur_end_layer_output : Env → list bool → list bool.
Variable transform_func : Env → list Z → list Z.

(** Known when the graph is built: the maximum of the fixed lengths
    ([max_seq_len] as it is set together with [have_known_seq_len], [None]
    when the length is not known), the length of the extern data that the
    loop reads ([common_data_len], [None] when it reads none),
    [rec_layer._max_seq_len], whether the end layer has search choices, and
    [rec_layer.include_eos]. *)
Variable max_seq_len : option Z.
Variable common_data_len : option Z.
Variable _max_seq_len : option Z.
Variable end_has_choices : bool.
Variable include_eos : bool.

(** A tensor of the loop body: its value at each step. *)
Definition Tensor : Type := Env → Value.

(** A [TensorArray], as the writes made to it, oldest first. *)
Definition TensorArray : Type := list (Z * Value).

Definition ta_write (ta : TensorArray) (index : Z) (value : Value) : TensorArray :=
  (ta ++ [(index, value)])%list.

(** *** [OutputToAccumulate] *)

Record OutputToAccumulate : Type := mkOutput {
  name : string;
  get : option Tensor;                 (* what [self.get()] returns *)
  get_returned_none : option bool;
}.

(** What [write_to_tensor_array] puts in the graph for one accumulator:
    the array handed in, or a write to it. *)
Inductive acc_update : Type :=
| Keep
| Write (value : Tensor).

Definition write_to_tensor_array (self : OutputToAccumulate)
  : result (OutputToAccumulate * acc_update) :=
  match get_returned_none self with
  | Some _ => Raise (AssertionError "self.get_returned_none is None")
  | None =>
      match get self with
      | None =>
          Ok ({| name := name self; get := get self; get_returned_none := Some true |}, Keep)
      | Some value =>
          Ok ({| name := name self; get := get self; get_returned_none := Some false |},
              Write value)
      end
  end.

Definition get_final_tensor_array (self : OutputToAccumulate) (ta : TensorArray)
  : result (option TensorArray) :=
  match get_returned_none self with
  | None => Raise (AssertionError "self.get_returned_none is not None")
  | Some true => Ok None
  | Some false => Ok (Some ta)
  end.

(** The list comprehension over [zip(acc_tas, outputs_to_accumulate)] when
    [body] is called to build the graph. *)
Fixpoint build_writes (outputs_to_accumulate : list OutputToAccumulate)
  : result (list OutputToAccumulate * list acc_update) :=
  match outputs_to_accumulate with
  | [] => Ok ([], [])
  | out :: rest =>
      do r <- write_to_tensor_array out;
      do rs <- build_writes rest;
      Ok (fst r :: fst rs, snd r :: snd rs)
  end.

(** *** The loop variables *)

Record LoopVars : Type := mkLoopVars {
  i : Z;
  net_vars : NetVars;
  acc_tas : list TensorArray;
  seq_len_info : option (list bool * list Z);   (* [(end_flag, dyn_seq_len)] *)
}.

(** [tf.reduce_any(tf.logical_not(end_flag))] *)
Definition any_not_ended (end_flag : list bool) : bool := existsb negb end_flag.

(** [have_known_seq_len] is set where [max_seq_len] is: [True] with the
    maximum of the fixed lengths, [False] with [None]. *)
Definition have_known_seq_len : bool :=
  match max_seq_len with
  | Some _ => true
  | None => false
  end.

(** [max_seq_len] as [cond] finds it, after the loop over the used data
    keys: [if max_seq_len is None: max_seq_len = common_data_len]. *)
Definition loop_max_seq_len : option Z :=
  match max_seq_len with
  | Some m => Some m
  | None => common_data_len
  end.

(** [cond].  [None] stands for the Python constant [True] that [res] holds
    before a tensor is combined into it. *)
Definition cond (vars : LoopVars) : result bool :=
  let res : option bool :=
    match loop_max_seq_len with
    | Some m => Some (i vars <? m)
    | None =>
        match _max_seq_len with
        | Some m => Some (i vars <? m)
        | None => None
        end
    end in
  match res with
  | None => Raise (AssertionError "specify max_seq_len")
  | Some res =>
      match seq_len_info vars with
      | None => Ok res
      | Some (end_flag, _) => Ok (res && any_not_ended end_flag)
      end
  end.

(** [dyn_seq_len += tf.where(flag, 0, 1)] *)
Definition count_not_ended (flags : list bool) (dyn_seq_len : list Z) : list Z :=
  zip_with (fun (flag : bool) len => len + (if flag then 0 else 1)) flags dyn_seq_len.

Definition apply_update (env : Env) (index : Z) (ta : TensorArray) (u : acc_update)
  : TensorArray :=
  match u with
  | Keep => ta
  | Write value => ta_write ta index (value env)
  end.

(** [body], with the writes that [build_writes] decided. *)
Definition body (writes : list acc_update) (vars : LoopVars) : LoopVars :=
  let env := construct (i vars) (net_vars vars) (fst <$> seq_len_info vars) in
  let seq_len_info' :=
    match seq_len_info vars with
    | None => None
    | Some (end_flag, dyn_seq_len) =>
        if end_has_choices then
          let cur_end := cur_end_layer_output env end_flag in
          let end_flag' := zip_with orb cur_end (end_layer_output env) in
          Some (end_flag',
                count_not_ended (if include_eos then cur_end else end_flag')
                  (transform_func env dyn_seq_len))
        else
          let end_flag' := zip_with orb end_flag (end_layer_output env) in
          Some (end_flag', count_not_ended end_flag' dyn_seq_len)
    end in
  {| i := wrap32 (i vars + 1);
     net_vars := next_net_vars env;
     acc_tas := zip_with (apply_update env (i vars)) (acc_tas vars) writes;
     seq_len_info := seq_len_info' |}.

(** [tf.while_loop(cond, body, loop_vars)]; the result carries the number
    of executed steps. *)
Fixpoint while_loop (fuel : nat) (writes : list acc_update) (vars : LoopVars)
  : result (nat * LoopVars) :=
  match fuel with
  | O => Raise OutOfFuel
  | S fuel' =>
      do continue <- cond vars;
      if continue : bool then
        do r <- while_loop fuel' writes (body writes vars);
        Ok (S (fst r), snd r)
      else Ok (O, vars)
  end.

(** The cap that [cond] compares the counter with. *)
Definition cap : option Z :=
  match loop_max_seq_len with
  | Some m => Some m
  | None => _max_seq_len
  end.

Definition loop_fuel : nat := S (Z.to_nat (default 0 cap)).

(** [get_final_tensor_array] over [zip(final_acc_tas, outputs_to_accumulate)] *)
Fixpoint final_acc_tas (outputs_to_accumulate : list OutputToAccumulate)
    (tas : list TensorArray) : result (list (string * option TensorArray)) :=
  match outputs_to_accumulate, tas with
  | out :: outs, ta :: tas' =>
      do final <- get_final_tensor_array out ta;
      do rest <- final_acc_tas outs tas';
      Ok ((name out, final) :: rest)
  | _, _ => Ok []
  end.

(** The loop of [get_output]: build the graph of [body], run the loop from
    [i = 0] with empty accumulators, collect the final arrays. *)
Definition init_loop_vars (outputs_to_accumulate : list OutputToAccumulate)
    (init_net_vars : NetVars) (end_layer_batch_dim : nat) : LoopVars :=
  {| i := 0; net_vars := init_net_vars;
     acc_tas := (fun _ => []) <$> outputs_to_accumulate;
     seq_len_info :=
       if have_known_seq_len then None
       else Some (replicate end_layer_batch_dim false,
                  replicate end_layer_batch_dim 0) |}.

Definition run_loop (outputs_to_accumulate : list OutputToAccumulate)
    (init_net_vars : NetVars) (end_layer_batch_dim : nat)
  : result (nat * LoopVars * list (string * option TensorArray)) :=
  do built <- build_writes outputs_to_accumulate;
  let init := init_loop_vars outputs_to_accumulate init_net_vars end_layer_batch_dim in
  do r <- while_loop loop_fuel (snd built) init;
  do finals <- final_acc_tas (fst built) (acc_tas (snd r));
  Ok (fst r, snd r, finals).

(** The loop variables after [k] steps, the environment of step [k], and
    the writes of a tensor during the first [n] steps. *)
Definition after (writes : list acc_update) (vars : LoopVars) (k : nat) : LoopVars :=
  Nat.iter k (body writes) vars.

Definition env_at (writes : list acc_update) (vars : LoopVars) (k : nat) : Env :=
  let v := after writes vars k in
  construct (i v) (net_vars v) (fst <$> seq_len_info v).


(** *** The condition and the counter *)

Lemma wrap32_id x : - 2 ^ 31 ≤ x ≤ int32_max → wrap32 x = x.
Proof.
  unfold wrap32, int32_max. intros H.
  rewrite Z.mod_small; lia.
Qed.

Lemma cond_with_cap c vars :
  cap = Some c →
  cond vars = Ok ((i vars <? c)
                  && match seq_len_info vars with
                     | None => true
                     | Some (end_flag, _) => any_not_ended end_flag
                     end).
Proof.
  unfold cap, cond. intros Hc.
  destruct loop_max_seq_len as [m|]; [injection Hc as ->|rewrite Hc];
    destruct (seq_len_info vars) as [[end_flag dyn]|]; by rewrite ?andb_true_r.
Qed.

Lemma after_succ writes vars k :
  after writes vars (S k) = after writes (body writes vars) k.
Proof. unfold after. by rewrite Nat.iter_succ_r. Qed.

(** With a cap that fits the counter, the loop runs until [cond] is false
    for the first time, and the counter counts the steps. *)
Lemma while_loop_runs c writes fuel vars :
  cap = Some c → c ≤ int32_max → 0 ≤ i vars →
  (Z.to_nat (c - i vars) < fuel)%nat →
  ∃ n, while_loop fuel writes vars = Ok (n, after writes vars n)
       ∧ cond (after writes vars n) = Ok false
       ∧ (∀ k, (k < n)%nat → cond (after writes vars k) = Ok true)
       ∧ (∀ k, (k ≤ n)%nat → i (after writes vars k) = i vars + Z.of_nat k)
       ∧ (n = O ∨ i vars + Z.of_nat n ≤ c).
Proof.
  intros Hc Hmax. revert vars. induction fuel as [|fuel IH]; intros vars Hi Hfuel; [lia|].
  simpl. destruct (cond vars) as [[|]|] eqn:Hcond; cbn [result_bind].
  - pose proof Hcond as Hlt. rewrite (cond_with_cap c vars Hc) in Hlt.
    injection Hlt as Hlt. apply andb_prop in Hlt as [Hlt _]. apply Z.ltb_lt in Hlt.
    assert (i (body writes vars) = i vars + 1) as Hi1.
    { simpl. apply wrap32_id. unfold int32_max in *. lia. }
    destruct (IH (body writes vars)) as (n & Hrun & Hstop & Hgo & Hcount & Hle);
      [lia|lia|].
    exists (S n). rewrite Hrun. cbn [result_bind fst snd]. rewrite after_succ.
    split_and!; [done|done| | |right; lia].
    + intros [|k] Hk; [exact Hcond|]. rewrite after_succ. apply Hgo. lia.
    + intros [|k] Hk; [simpl; lia|]. rewrite after_succ, Hcount by lia. lia.
  - exists O. split_and!; [done|done|lia| |by left].
    intros k Hk. assert (k = O) as -> by lia. simpl. lia.
  - rewrite (cond_with_cap c vars Hc) in Hcond. done.
Qed.

(** *** The accumulators *)

Definition flagged (out : OutputToAccumulate) : OutputToAccumulate :=
  {| name := name out; get := get out;
     get_returned_none := Some (match get out with None => true | Some _ => false end) |}.

Definition write_of (out : OutputToAccumulate) : acc_update :=
  match get out with None => Keep | Some value => Write value end.


Lemma get_final_tensor_array_flagged out ta :
  get_final_tensor_array (flagged out) ta =
  Ok (match get out with None => None | Some _ => Some ta end).
Proof. unfold get_final_tensor_array, flagged. simpl. by destruct (get out). Qed.

Lemma final_acc_tas_cons out outs ta tas :
  final_acc_tas (flagged <$> (out :: outs)) (ta :: tas) =
  do rest <- final_acc_tas (flagged <$> outs) tas;
  Ok ((name out, match get out with None => None | Some _ => Some ta end) :: rest).
Proof.
  rewrite fmap_cons. cbn [final_acc_tas]. by rewrite get_final_tensor_array_flagged.
Qed.



(** *** The loop as a whole *)

Definition end_flag_of (vars : LoopVars) : list bool :=
  match seq_len_info vars with
  | Some (end_flag, _) => end_flag
  | None => []
  end.

Lemma body_keeps_seq_len_info writes vars :
  is_Some (seq_len_info vars) → is_Some (seq_len_info (body writes vars)).
Proof.
  intros [[end_flag dyn] H]. unfold body. simpl. rewrite H.
  by destruct end_has_choices.
Qed.

Lemma after_keeps_seq_len_info writes vars k :
  is_Some (seq_len_info vars) → is_Some (seq_len_info (after writes vars k)).
Proof.
  intros H. induction k as [|k IH]; [done|].
  unfold after in *. rewrite Nat.iter_succ. by apply body_keeps_seq_len_info.
Qed.

Lemma cond_dynamic c vars :
  cap = Some c → is_Some (seq_len_info vars) →
  cond vars = Ok ((i vars <? c) && any_not_ended (end_flag_of vars)).
Proof.
  intros Hc [[end_flag dyn] H].
  rewrite (cond_with_cap c) by done.
  unfold end_flag_of. by rewrite H.
Qed.

Lemma init_loop_vars_dynamic outs nv batch :
  max_seq_len = None →
  seq_len_info (init_loop_vars outs nv batch)
  = Some (replicate batch false, replicate batch 0).
Proof. intros Hm. unfold init_loop_vars, have_known_seq_len. simpl. by rewrite Hm. Qed.

Lemma not_known_seq_len : have_known_seq_len = false → max_seq_len = None.
Proof. unfold have_known_seq_len. by destruct max_seq_len. Qed.

Lemma any_not_ended_true end_flag :
  any_not_ended end_flag = true ↔ false ∈ end_flag.
Proof.
  unfold any_not_ended. rewrite existsb_exists. split.
  - intros ([|] & Hin & Hb); [done|]. by apply list_elem_of_In.
  - intros Hin. exists false. split; [by apply list_elem_of_In|done].
Qed.

(** With a cap that fits the counter and fresh accumulator descriptions,
    [run_loop] returns. *)
Lemma run_loop_returns c outs nv batch :
  cap = Some c → c ≤ int32_max →
  (∀ out, out ∈ outs → get_returned_none out = None) →
  ∃ n final finals, run_loop outs nv batch = Ok (n, final, finals).
Proof.
  intros Hcap Hmax Hfresh. unfold run_loop.
  assert (build_writes outs = Ok (flagged <$> outs, write_of <$> outs)) as ->.
  { induction outs as [|out rest IH]; [done|]. simpl.
    unfold write_to_tensor_array. rewrite (Hfresh out) by by left.
    rewrite IH by (intros o Ho; apply Hfresh; by right).
    unfold flagged at 2, write_of at 2. by destruct (get out). }
  cbn [result_bind fst snd].
  destruct (while_loop_runs c (write_of <$> outs) loop_fuel
              (init_loop_vars outs nv batch) Hcap Hmax) as (n & -> & _).
  { done. }
  { unfold loop_fuel. rewrite Hcap. simpl. replace (c - 0) with c by lia. lia. }
  cbn [result_bind fst snd].
  assert (∀ tas, ∃ finals, final_acc_tas (flagged <$> outs) tas = Ok finals) as Hfin.
  { clear. induction outs as [|out rest IH]; intros tas; [by exists []|].
    destruct tas as [|ta tas]; [by exists []|].
    rewrite final_acc_tas_cons. destruct (IH tas) as [finals ->]. by eexists. }
  destruct (Hfin (acc_tas (after (write_of <$> outs) (init_loop_vars outs nv batch) n)))
    as [finals ->].
  by eexists _, _, _.
Qed.


(** *** The sequence lengths of a loop with a dynamic end *)

(** What the end layer gives for entry [b] of the batch at step [k] of the
    run that starts with [vars]. *)
Definition end_output (writes : list acc_update) (vars : LoopVars) (b k : nat) : bool :=
  default false (end_layer_output (env_at writes vars k) !! b).

(** The number of steps among the first [n] that come before the first one
    at which [ended] holds. *)
Fixpoint frames_before_end (ended : nat → bool) (n : nat) : nat :=
  match n with
  | O => O
  | S n' =>
      let m := frames_before_end ended n' in
      if (m =? n')%nat && negb (ended n') then S n' else m
  end.

Lemma frames_before_end_le ended n : (frames_before_end ended n ≤ n)%nat.
Proof.
  induction n as [|n IH]; simpl; [lia|].
  destruct (_ && _); lia.
Qed.

Lemma frames_before_end_spec ended n :
  (∀ k, (k < frames_before_end ended n)%nat → ended k = false)
  ∧ ((frames_before_end ended n < n)%nat → ended (frames_before_end ended n) = true).
Proof.
  induction n as [|n [IH1 IH2]]; simpl; [split; intros; lia|].
  pose proof (frames_before_end_le ended n) as Hle.
  destruct (frames_before_end ended n =? n)%nat eqn:E; simpl.
  - apply Nat.eqb_eq in E. destruct (ended n) eqn:En; simpl.
    + split; [done|]. intros _. by rewrite E.
    + split; [|lia]. intros k Hk. destruct (decide (k = n)) as [->|]; [done|].
      apply IH1. lia.
  - apply Nat.eqb_neq in E. split; [done|]. intros _. apply IH2. lia.
Qed.

Lemma after_S writes vars k :
  after writes vars (S k) = body writes (after writes vars k).
Proof. unfold after. by rewrite Nat.iter_succ. Qed.

(** The end flags and the lengths after [n] steps, when the end layer has
    no search choices. *)
Lemma seq_len_info_after outs nv batch writes n :
  max_seq_len = None → end_has_choices = false →
  (∀ env, length (end_layer_output env) = batch) →
  ∃ end_flag dyn_seq_len,
    seq_len_info (after writes (init_loop_vars outs nv batch) n)
    = Some (end_flag, dyn_seq_len)
    ∧ length end_flag = batch ∧ length dyn_seq_len = batch
    ∧ ∀ b, (b < batch)%nat →
        let m := frames_before_end (end_output writes (init_loop_vars outs nv batch) b) n in
        end_flag !! b = Some (bool_decide (m < n)%nat)
        ∧ dyn_seq_len !! b = Some (Z.of_nat m).
Proof.
  intros Hm Hc Hshape. set (init := init_loop_vars outs nv batch).
  induction n as [|n (end_flag & dyn & Hinfo & Hlf & Hld & IH)].
  - exists (replicate batch false), (replicate batch 0). split_and!.
    + by apply init_loop_vars_dynamic.
    + apply length_replicate.
    + apply length_replicate.
    + intros b Hb. simpl. split; by apply lookup_replicate_2.
  - rewrite after_S. unfold body at 1. cbn [seq_len_info].
    change (construct (i (after writes init n)) (net_vars (after writes init n))
              (fst <$> seq_len_info (after writes init n)))
      with (env_at writes init n).
    set (env := env_at writes init n). rewrite Hinfo, Hc.
    eexists _, _. split; [reflexivity|].
    assert (length (zip_with orb end_flag (end_layer_output env)) = batch) as Hlf'.
    { rewrite length_zip_with, Hlf, Hshape. lia. }
    split_and!; [done| |].
    { unfold count_not_ended. rewrite length_zip_with, Hlf', Hld. lia. }
    intros b Hb. destruct (IH b Hb) as [Hf Hl]. cbn zeta in *.
    set (m := frames_before_end (end_output writes init b) n) in *.
    pose proof (frames_before_end_le (end_output writes init b) n) as Hle. fold m in Hle.
    destruct (lookup_lt_is_Some_2 (end_layer_output env) b) as [e He];
      [rewrite Hshape; lia|].
    assert (end_output writes init b n = e) as Hend.
    { unfold end_output. fold env. by rewrite He. }
    assert (zip_with orb end_flag (end_layer_output env) !! b
            = Some (bool_decide (m < n)%nat || e)) as Hflag.
    { apply lookup_zip_with_Some. by eexists _, _. }
    cbn [frames_before_end]. fold m. rewrite Hend.
    assert ((if (m =? n)%nat && negb e then S n else m)
            = if bool_decide (m < n)%nat || e then m else S n) as ->.
    { destruct (decide (m < n)%nat) as [Hlt|Hge].
      - rewrite (bool_decide_eq_true_2 _ Hlt). simpl.
        destruct (m =? n)%nat eqn:E; [apply Nat.eqb_eq in E; lia|done].
      - rewrite (bool_decide_eq_false_2 _ Hge). simpl.
        assert (m = n) as -> by lia. rewrite Nat.eqb_refl. by destruct e. }
    split.
    + rewrite Hflag. f_equal.
      destruct (bool_decide (m < n)%nat || e) eqn:E.
      * symmetry. apply bool_decide_eq_true_2. lia.
      * symmetry. apply bool_decide_eq_false_2. lia.
    + unfold count_not_ended. apply lookup_zip_with_Some.
      eexists _, _. split; [|split; [exact Hflag|exact Hl]].
      destruct (decide (m < n)%nat) as [Hlt|Hge].
      * rewrite (bool_decide_eq_true_2 _ Hlt). simpl. lia.
      * rewrite (bool_decide_eq_false_2 _ Hge). simpl. destruct e; lia.
Qed.

Lemma frames_before_end_existsb ended n :
  bool_decide (frames_before_end ended n < n)%nat = existsb ended (seq 0 n).
Proof.
  induction n as [|n IH]; [done|].
  rewrite seq_S, existsb_app, <- IH. cbn [existsb frames_before_end Nat.add].
  rewrite orb_false_r.
  pose proof (frames_before_end_le ended n) as Hle.
  destruct (decide (frames_before_end ended n < n)%nat) as [Hlt|Hge].
  - rewrite (bool_decide_eq_true_2 _ Hlt).
    destruct (frames_before_end ended n =? n)%nat eqn:E; [apply Nat.eqb_eq in E; lia|].
    simpl. apply bool_decide_eq_true_2. lia.
  - rewrite (bool_decide_eq_false_2 _ Hge).
    assert (frames_before_end ended n = n) as -> by lia. rewrite Nat.eqb_refl.
    destruct (ended n); simpl.
    + apply bool_decide_eq_true_2. lia.
    + apply bool_decide_eq_false_2. lia.
Qed.

(** The end flags of the next step, from those of this step and the end
    layer. *)
Lemma end_flag_step writes vars :
  is_Some (seq_len_info vars) →
  end_flag_of (body writes vars)
  = zip_with orb
      (if end_has_choices
       then cur_end_layer_output
              (construct (i vars) (net_vars vars) (fst <$> seq_len_info vars))
              (end_flag_of vars)
       else end_flag_of vars)
      (end_layer_output (construct (i vars) (net_vars vars) (fst <$> seq_len_info vars))).
Proof.
  intros [[end_flag dyn] H]. unfold end_flag_of, body. cbn [seq_len_info].
  rewrite H. by destruct end_has_choices.
Qed.

(** C2: when the length is not known ([have_known_seq_len] is false, the
    end flags are loop variables) and the cap, which is the length of the
    extern data read in the loop or else the [max_seq_len] option of the
    layer, fits the counter: [cond] holds at a step exactly when the counter
    is below the cap and some hypothesis has not signalled the end.  The
    flags start unset, and a hypothesis has signalled the end after a step
    when it had before (for an end layer with search choices: when the
    hypothesis it continues had) or when the end layer gives [True] for it at
    this step; without search choices, that is when the end layer gave [True]
    for it at one of the steps so far.  The loop, started with [i = 0],
    returns after a number [n] of steps with the counter equal to [n]: at
    each step before [n] the counter was below the cap and some hypothesis had
    not ended, at [n] the cap is reached or all have ended, and [n] is at most
    the cap (zero for a cap that is not positive). *)
Theorem dynamic_loop_stops_at_end_or_cap c outs nv batch writes :
  have_known_seq_len = false → cap = Some c → c ≤ int32_max →
  (∀ vars, is_Some (seq_len_info vars) →
     (cond vars = Ok true ↔ i vars < c ∧ false ∈ end_flag_of vars)
     ∧ (cond vars = Ok false ↔ ¬ (i vars < c ∧ false ∈ end_flag_of vars)))
  ∧ end_flag_of (init_loop_vars outs nv batch) = replicate batch false
  ∧ (∀ k,
       end_flag_of (after writes (init_loop_vars outs nv batch) (S k))
       = zip_with orb
           (if end_has_choices
            then cur_end_layer_output (env_at writes (init_loop_vars outs nv batch) k)
                   (end_flag_of (after writes (init_loop_vars outs nv batch) k))
            else end_flag_of (after writes (init_loop_vars outs nv batch) k))
           (end_layer_output (env_at writes (init_loop_vars outs nv batch) k)))
  ∧ (end_has_choices = false → (∀ env, length (end_layer_output env) = batch) →
     ∀ k b, (b < batch)%nat →
       end_flag_of (after writes (init_loop_vars outs nv batch) k) !! b
       = Some (existsb (end_output writes (init_loop_vars outs nv batch) b) (seq 0 k)))
  ∧ ∃ n, while_loop loop_fuel writes (init_loop_vars outs nv batch)
         = Ok (n, after writes (init_loop_vars outs nv batch) n)
       ∧ i (after writes (init_loop_vars outs nv batch) n) = Z.of_nat n
       ∧ Z.of_nat n ≤ Z.max 0 c
       ∧ (∀ k, (k < n)%nat →
            Z.of_nat k < c
            ∧ false ∈ end_flag_of (after writes (init_loop_vars outs nv batch) k))
       ∧ (c ≤ Z.of_nat n
          ∨ false ∉ end_flag_of (after writes (init_loop_vars outs nv batch) n)).
Proof.
  intros Hm Hcap Hmax. apply not_known_seq_len in Hm.
  assert (∀ vars, is_Some (seq_len_info vars) →
     (cond vars = Ok true ↔ i vars < c ∧ false ∈ end_flag_of vars)
     ∧ (cond vars = Ok false ↔ ¬ (i vars < c ∧ false ∈ end_flag_of vars))) as Hcond.
  { intros vars Hs. rewrite (cond_dynamic c vars Hcap Hs).
    rewrite <- any_not_ended_true, <- Z.ltb_lt, <- andb_true_iff.
    destruct (_ && _); split; split; try done; try (by intros []); by intros [=]. }
  set (init := init_loop_vars outs nv batch).
  assert (is_Some (seq_len_info init)) as Hinit.
  { unfold init. rewrite init_loop_vars_dynamic by done. by eexists. }
  split_and!.
  - exact Hcond.
  - unfold end_flag_of, init. by rewrite init_loop_vars_dynamic.
  - intros k. rewrite after_S. apply end_flag_step. by apply after_keeps_seq_len_info.
  - intros Hc Hshape k b Hb.
    destruct (seq_len_info_after outs nv batch writes k Hm Hc Hshape)
      as (end_flag & dyn & Hinfo & _ & _ & Hk). fold init in Hinfo, Hk.
    destruct (Hk b Hb) as [Hf _]. cbn zeta in Hf.
    unfold end_flag_of. rewrite Hinfo, Hf. f_equal. apply frames_before_end_existsb.
  - destruct (while_loop_runs c writes loop_fuel init Hcap Hmax)
      as (n & Hrun & Hstop & Hgo & Hcount & Hle).
    { done. }
    { unfold loop_fuel. rewrite Hcap. simpl. replace (c - 0) with c by lia. lia. }
    exists n. split_and!.
    + done.
    + rewrite Hcount by lia. simpl. lia.
    + simpl in Hle. lia.
    + intros k Hk. specialize (Hgo k Hk).
      apply Hcond in Hgo; [|by apply after_keeps_seq_len_info].
      rewrite Hcount in Hgo by lia. simpl in Hgo. done.
    + apply Hcond in Hstop; [|by apply after_keeps_seq_len_info].
      rewrite Hcount in Hstop by lia. simpl in Hstop.
      destruct (decide (c ≤ Z.of_nat n)); [by left|right].
      intros Hin. apply Hstop. split; [lia|done].
Qed.

(** X7: When the length is dynamic and the end layer has no search choices,
    then after any number [n] of steps the end flag of an entry of the batch
    says whether the end layer gave [True] for it at one of these steps, and
    its length is the number of steps before the first such step (all [n] if
    there is none): the frame in which the end is signalled is not counted,
    a flag that was set stays set, and [include_eos] plays no role. *)
Theorem dynamic_seq_len_is_first_end outs nv batch writes n b :
  max_seq_len = None → end_has_choices = false →
  (∀ env, length (end_layer_output env) = batch) →
  (b < batch)%nat →
  ∃ end_flag dyn_seq_len (m : nat),
    seq_len_info (after writes (init_loop_vars outs nv batch) n)
    = Some (end_flag, dyn_seq_len)
    ∧ end_flag !! b = Some (bool_decide (m < n)%nat)
    ∧ dyn_seq_len !! b = Some (Z.of_nat m)
    ∧ (m ≤ n)%nat
    ∧ (∀ k, (k < m)%nat → end_output writes (init_loop_vars outs nv batch) b k = false)
    ∧ ((m < n)%nat → end_output writes (init_loop_vars outs nv batch) b m = true)
    ∧ (end_flag !! b = Some true →
       end_flag_of (after writes (init_loop_vars outs nv batch) (S n)) !! b = Some true).
Proof.
  intros Hm Hc Hshape Hb.
  destruct (seq_len_info_after outs nv batch writes n Hm Hc Hshape)
    as (end_flag & dyn & Hinfo & _ & _ & Hn).
  destruct (seq_len_info_after outs nv batch writes (S n) Hm Hc Hshape)
    as (end_flag' & dyn' & Hinfo' & _ & _ & Hn').
  destruct (Hn b Hb) as [Hf Hl]. destruct (Hn' b Hb) as [Hf' _]. cbn zeta in *.
  set (ended := end_output writes (init_loop_vars outs nv batch) b) in *.
  destruct (frames_before_end_spec ended n) as [Hbefore Hat].
  exists end_flag, dyn, (frames_before_end ended n).
  split_and!; try done; [apply frames_before_end_le|].
  rewrite Hf. intros [= Hlt]. apply bool_decide_eq_true in Hlt.
  unfold end_flag_of. rewrite Hinfo', Hf'. f_equal. apply bool_decide_eq_true_2.
  cbn [frames_before_end].
  destruct (frames_before_end ended n =? n)%nat eqn:E;
    [apply Nat.eqb_eq in E; lia|]. simpl. lia.
Qed.

(** X8: With a dynamic length ([have_known_seq_len] is false) and an end
    layer without search choices: when the loop over a batch that is not
    empty stops below the cap (the length of the extern data read in the
    loop, or else the [max_seq_len] option), that is because every entry has
    signalled its end, then it has run at least one step, every length is at
    most [n - 1] for the [n] steps run, and the longest length is [n - 1]:
    the last frame that was computed and accumulated lies beyond every
    sequence. *)
Theorem last_frame_beyond_every_length c outs nv batch writes n final :
  have_known_seq_len = false → cap = Some c → c ≤ int32_max →
  end_has_choices = false →
  (∀ env, length (end_layer_output env) = batch) →
  (0 < batch)%nat →
  while_loop loop_fuel writes (init_loop_vars outs nv batch) = Ok (n, final) →
  Z.of_nat n < c →
  ∃ end_flag dyn_seq_len,
    seq_len_info final = Some (end_flag, dyn_seq_len)
    ∧ (0 < n)%nat
    ∧ (∀ b len, dyn_seq_len !! b = Some len → 0 ≤ len ≤ Z.of_nat n - 1)
    ∧ (∃ b, dyn_seq_len !! b = Some (Z.of_nat n - 1)).
Proof.
  intros Hm Hcap Hmax Hc Hshape Hbatch Hrun Hlt. apply not_known_seq_len in Hm.
  set (init := init_loop_vars outs nv batch) in *.
  destruct (while_loop_runs c writes loop_fuel init Hcap Hmax)
    as (n' & Hrun' & Hstop & Hgo & Hcount & _).
  { done. }
  { unfold loop_fuel. rewrite Hcap. simpl. replace (c - 0) with c by lia. lia. }
  rewrite Hrun in Hrun'. injection Hrun' as <- ->.
  assert (∀ k, is_Some (seq_len_info (after writes init k))) as Hsome.
  { intros k. apply after_keeps_seq_len_info. unfold init.
    rewrite init_loop_vars_dynamic by done. by eexists. }
  destruct (seq_len_info_after outs nv batch writes n Hm Hc Hshape)
    as (end_flag & dyn & Hinfo & Hlf & Hld & Hn). fold init in Hinfo, Hn.
  (* at the end every flag is set *)
  rewrite (cond_dynamic c _ Hcap (Hsome n)) in Hstop.
  rewrite Hcount in Hstop by lia. injection Hstop as Hstop.
  apply andb_false_iff in Hstop as [Hstop|Hstop]; [apply Z.ltb_ge in Hstop; simpl in *; lia|].
  assert (∀ b, (b < batch)%nat →
               (frames_before_end (end_output writes init b) n < n)%nat) as Hall.
  { intros b Hb. destruct (Hn b Hb) as [Hf _]. cbn zeta in Hf.
    destruct (decide (frames_before_end (end_output writes init b) n < n)%nat)
      as [|Hge]; [done|]. exfalso.
    rewrite (bool_decide_eq_false_2 _ Hge) in Hf.
    assert (any_not_ended (end_flag_of (after writes init n)) = true) as Htrue.
    { apply any_not_ended_true. unfold end_flag_of. rewrite Hinfo.
      by eapply list_elem_of_lookup_2. }
    congruence. }
  assert (0 < n)%nat as Hpos.
  { specialize (Hall O Hbatch). lia. }
  exists end_flag, dyn. split_and!; [done|done| |].
  - intros b len Hlen.
    assert (b < batch)%nat as Hb.
    { rewrite <- Hld. by eapply lookup_lt_Some. }
    destruct (Hn b Hb) as [_ Hl]. cbn zeta in Hl. rewrite Hl in Hlen.
    injection Hlen as <-. specialize (Hall b Hb). lia.
  - (* before the last step some flag was not set *)
    destruct n as [|n]; [lia|].
    specialize (Hgo n ltac:(lia)).
    rewrite (cond_dynamic c _ Hcap (Hsome n)) in Hgo.
    injection Hgo as Hgo. apply andb_prop in Hgo as [_ Hgo].
    apply any_not_ended_true in Hgo.
    destruct (seq_len_info_after outs nv batch writes n Hm Hc Hshape)
      as (end_flag0 & dyn0 & Hinfo0 & Hlf0 & _ & Hn0). fold init in Hinfo0, Hn0.
    unfold end_flag_of in Hgo. rewrite Hinfo0 in Hgo.
    apply list_elem_of_lookup_1 in Hgo as [b Hb0].
    assert (b < batch)%nat as Hb.
    { rewrite <- Hlf0. by eapply lookup_lt_Some. }
    exists b. destruct (Hn b Hb) as [_ Hl]. cbn zeta in Hl. rewrite Hl. f_equal.
    destruct (Hn0 b Hb) as [Hf0 _]. cbn zeta in Hf0. rewrite Hf0 in Hb0.
    injection Hb0 as Hb0. apply bool_decide_eq_false in Hb0.
    pose proof (frames_before_end_le (end_output writes init b) n) as Hle.
    specialize (Hall b Hb). cbn [frames_before_end] in Hall |- *.
    destruct (_ && _); lia.
Qed.

End Loop.

(** *** A loop with a dynamic end

    A batch of two sequences; the end layer signals the end at every step
    from the fourth on (counter 3); the cap is 10.  One accumulated output
    has a value at each step, a second one has a getter that returns
    [None]. *)

Definition example_end_layer_output (env : Z) : list bool := [3 <=? env; 3 <=? env].

Definition example_outputs : list (OutputToAccumulate Z Z) :=
  [ {| name := "output_output"; get := Some (λ env : Z, 2 * env);
       get_returned_none := None |};
    {| name := "error_ce"; get := None; get_returned_none := None |} ].



(** The same net over extern data of length 3, without a [max_seq_len]
    option: the length of the data is the cap, and the loop stops there
    before the end layer signals the end. *)
Lemma example_run_data_cap :
  while_loop Z unit Z (λ i _ _, i) (λ _, tt) example_end_layer_output
    (λ _ end_flag, end_flag) (λ _ dyn_seq_len, dyn_seq_len)
    None (Some 3) None false false (loop_fuel None (Some 3) None)
    [Write Z Z (λ env : Z, 2 * env); Keep Z Z]
    (init_loop_vars Z unit Z None example_outputs tt 2)
  = Ok (3%nat,
        {| i := 3; net_vars := tt;
           acc_tas := [[(0, 0); (1, 2); (2, 4)]; []];
           seq_len_info := Some ([false; false], [3; 3]) |}).
Proof. vm_compute. reflexivity. Qed.

Lemma dynamic_loop_stops_at_end_or_cap_witness :
  (∀ k b, (b < 2)%nat →
     end_flag_of Z unit
       (after Z unit Z (λ i _ _, i) (λ _, tt) example_end_layer_output
          (λ _ end_flag, end_flag) (λ _ dyn_seq_len, dyn_seq_len)
          false false [Write Z Z (λ env : Z, 2 * env); Keep Z Z]
          (init_loop_vars Z unit Z None example_outputs tt 2) k) !! b
     = Some (existsb
               (end_output Z unit Z (λ i _ _, i) (λ _, tt) example_end_layer_output
                  (λ _ end_flag, end_flag) (λ _ dyn_seq_len, dyn_seq_len)
                  false false [Write Z Z (λ env : Z, 2 * env); Keep Z Z]
                  (init_loop_vars Z unit Z None example_outputs tt 2) b)
               (seq 0 k)))
  ∧ ∃ n, Z.of_nat n ≤ Z.max 0 10
       ∧ while_loop Z unit Z (λ i _ _, i) (λ _, tt) example_end_layer_output
           (λ _ end_flag, end_flag) (λ _ dyn_seq_len, dyn_seq_len)
           None None (Some 10) false false
           (loop_fuel None None (Some 10)) [Write Z Z (λ env : Z, 2 * env); Keep Z Z]
           (init_loop_vars Z unit Z None example_outputs tt 2)
         = Ok (n, after Z unit Z (λ i _ _, i) (λ _, tt) example_end_layer_output
                    (λ _ end_flag, end_flag) (λ _ dyn_seq_len, dyn_seq_len)
                    false false [Write Z Z (λ env : Z, 2 * env); Keep Z Z]
                    (init_loop_vars Z unit Z None example_outputs tt 2) n).
Proof.
  destruct (dynamic_loop_stops_at_end_or_cap Z unit Z (λ i _ _, i) (λ _, tt)
              example_end_layer_output (λ _ end_flag, end_flag)
              (λ _ dyn_seq_len, dyn_seq_len) None None (Some 10) false false
              10 example_outputs tt 2%nat [Write Z Z (λ env : Z, 2 * env); Keep Z Z]
              eq_refl eq_refl ltac:(unfold int32_max; lia))
    as (_ & _ & _ & Hflags & n & Hrun & _ & Hle & _).
  split.
  - exact (Hflags eq_refl (λ _, eq_refl)).
  - exists n. split; [exact Hle|exact Hrun].
Defined.


(** *** Two sequences that end at different steps

    The end layer signals the end of the first sequence from counter 1 on
    and of the second from counter 3 on; the cap is 10 and [include_eos] is
    set. *)

Definition staggered_end_layer_output (env : Z) : list bool := [1 <=? env; 3 <=? env].

Definition staggered_outputs : list (OutputToAccumulate Z Z) :=
  [ {| name := "output_output"; get := Some (λ env : Z, 2 * env);
       get_returned_none := None |} ].

Definition staggered_init : LoopVars Z unit :=
  init_loop_vars Z unit Z None staggered_outputs tt 2.

Lemma staggered_run_result :
  while_loop Z unit Z (λ i _ _, i) (λ _, tt) staggered_end_layer_output
    (λ _ end_flag, end_flag) (λ _ dyn_seq_len, dyn_seq_len)
    None None (Some 10) false true (loop_fuel None None (Some 10))
    [Write Z Z (λ env : Z, 2 * env)] staggered_init
  = Ok (4%nat,
        {| i := 4; net_vars := tt;
           acc_tas := [[(0, 0); (1, 2); (2, 4); (3, 6)]];
           seq_len_info := Some ([true; true], [1; 3]) |}).
Proof. vm_compute. reflexivity. Qed.

Lemma dynamic_seq_len_is_first_end_witness :
  ∃ end_flag dyn_seq_len (m : nat),
    seq_len_info Z unit
      (after Z unit Z (λ i _ _, i) (λ _, tt) staggered_end_layer_output
         (λ _ end_flag, end_flag) (λ _ dyn_seq_len, dyn_seq_len)
         false true [Write Z Z (λ env : Z, 2 * env)] staggered_init 4)
    = Some (end_flag, dyn_seq_len)
    ∧ end_flag !! 0%nat = Some (bool_decide (m < 4)%nat)
    ∧ dyn_seq_len !! 0%nat = Some (Z.of_nat m)
    ∧ (m ≤ 4)%nat.
Proof.
  destruct (dynamic_seq_len_is_first_end Z unit Z (λ i _ _, i) (λ _, tt)
              staggered_end_layer_output (λ _ end_flag, end_flag)
              (λ _ dyn_seq_len, dyn_seq_len) None false true
              staggered_outputs tt 2%nat [Write Z Z (λ env : Z, 2 * env)] 4%nat 0%nat
              eq_refl eq_refl (λ _, eq_refl) ltac:(lia))
    as (end_flag & dyn_seq_len & m & H1 & H2 & H3 & H4 & _).
  exists end_flag, dyn_seq_len, m. split_and!; assumption.
Defined.

Lemma last_frame_beyond_every_length_witness :
  ∃ end_flag dyn_seq_len,
    Some ([true; true], [1; 3]) = Some (end_flag, dyn_seq_len)
    ∧ (0 < 4)%nat
    ∧ ∃ b : nat, dyn_seq_len !! b = Some (Z.of_nat 4 - 1).
Proof.
  destruct (last_frame_beyond_every_length Z unit Z (λ i _ _, i) (λ _, tt)
              staggered_end_layer_output (λ _ end_flag, end_flag)
              (λ _ dyn_seq_len, dyn_seq_len) None None (Some 10) false true
              10 staggered_outputs tt 2%nat [Write Z Z (λ env : Z, 2 * env)] 4%nat _
              eq_refl eq_refl ltac:(unfold int32_max; lia) eq_refl (λ _, eq_refl)
              ltac:(lia) staggered_run_result ltac:(lia))
    as (end_flag & dyn_seq_len & H1 & H2 & _ & H3).
  exists end_flag, dyn_seq_len. split_and!; assumption.
Defined.

End StepLoop.

(** ** Where the sequence length comes from
    (the start of [_SubnetworkRecCell.get_output]) *)

Module SeqLenSetup.

Local Open Scope Z_scope.

(** What [get_output] reads to decide the length: the lengths of the input
    sequences ([rec_layer._get_input()], when [rec_layer.input_data] is set),
    [rec_layer.output.size_placeholder[0]] (when the size placeholder is not
    empty), whether the output template has search choices of this
    subnetwork, the lengths of [rec_layer.size_target] (when set), and
    whether there is a template named "end". *)
Record RecLayer : Type := mkRecLayer {
  input_seq_len : option (list Z);
  output_size_placeholder : option (list Z);
  output_template_search_choices : bool;
  size_target : option (list Z);
  end_in_layer_data_templates : bool;
}.

Inductive SeqLenInfo : Type :=
| KnownSeqLen (fixed_seq_len : list Z) (max_seq_len : Z)   (* [have_known_seq_len = True] *)
| DynamicSeqLen.                                           (* [max_seq_len = None] *)

(** [tf.reduce_max(fixed_seq_len)] *)
Definition reduce_max (l : list Z) : Z :=
  match l with
  | [] => - 2 ^ 31
  | x :: rest => fold_left Z.max rest x
  end.

Definition seq_len_info (rec_layer : RecLayer) : result SeqLenInfo :=
  let fixed_seq_len : option (list Z) :=
    match output_size_placeholder rec_layer with
    | Some size =>
        if negb (output_template_search_choices rec_layer) then Some size
        else size_target rec_layer
    | None => size_target rec_layer
    end in
  do fixed_seq_len <-
    match fixed_seq_len with
    | None =>
        if negb (end_in_layer_data_templates rec_layer) then
          match input_seq_len rec_layer with
          | None => Raise (AssertionError "length is not defined. provide an 'end' layer")
          | Some len => Ok (Some len)
          end
        else Ok None
    | Some len => Ok (Some len)
    end;
  match fixed_seq_len with
  | Some len => Ok (KnownSeqLen len (reduce_max len))
  | None =>
      if end_in_layer_data_templates rec_layer then Ok DynamicSeqLen
      else Raise (AssertionError "length not defined, provide 'end' layer")
  end.

(** [get_output]: the length is settled first; the accumulators, the loop
    variables and the loop come after it. *)
Definition get_output {A : Type} (rec_layer : RecLayer)
    (build_and_run_loop : SeqLenInfo → result A) : result A :=
  do info <- seq_len_info rec_layer;
  build_and_run_loop info.

(** C7: with no usable output size, no [size_target], no input sequence
    and no "end" template, [get_output] raises the assertion error "length
    is not defined. provide an 'end' layer", whatever would build and run
    the loop afterwards. *)
Theorem no_length_and_no_end_layer_fails {A : Type} rec_layer
    (build_and_run_loop : SeqLenInfo → result A) :
  output_size_placeholder rec_layer = None
  ∨ output_template_search_choices rec_layer = true →
  size_target rec_layer = None →
  input_seq_len rec_layer = None →
  end_in_layer_data_templates rec_layer = false →
  get_output rec_layer build_and_run_loop
  = Raise (AssertionError "length is not defined. provide an 'end' layer").
Proof.
  intros Hout Htarget Hinput Hend. unfold get_output, seq_len_info.
  rewrite Htarget, Hinput, Hend.
  destruct Hout as [-> | ->]; [done|].
  by destruct (output_size_placeholder rec_layer).
Qed.

(** In every other case the length is settled without an error. *)
Lemma seq_len_info_ok rec_layer :
  (output_size_placeholder rec_layer ≠ None
   ∧ output_template_search_choices rec_layer = false)
  ∨ size_target rec_layer ≠ None
  ∨ input_seq_len rec_layer ≠ None
  ∨ end_in_layer_data_templates rec_layer = true →
  ∃ info, seq_len_info rec_layer = Ok info.
Proof.
  unfold seq_len_info.
  destruct (output_size_placeholder rec_layer) as [size|],
    (output_template_search_choices rec_layer),
    (size_target rec_layer) as [target|],
    (end_in_layer_data_templates rec_layer),
    (input_seq_len rec_layer) as [len|]; simpl; intros H; try (by eexists);
    exfalso; destruct H as [[? ?]|[?|[?|?]]]; done.
Qed.

Lemma no_length_and_no_end_layer_fails_witness :
  get_output (mkRecLayer None None false None false)
    (λ _, Ok tt)
  = Raise (AssertionError "length is not defined. provide an 'end' layer").
Proof.
  apply (no_length_and_no_end_layer_fails
           (mkRecLayer None None false None false) (λ _, Ok tt));
    [left; reflexivity | reflexivity ..].
Defined.

End SeqLenSetup.

(** ** Combining pruned sources of a choice
    ([ChoiceLayer._prune_and_combine_sources] and
    [ChoiceLayer._get_combined_labels]) *)

Module ChoiceCombine.

(** A tensor of shape (rows, dim) is a list of rows; a row belongs to one
    incoming hypothesis (an entry of the batch-times-beam axis).  Labels and
    combination ids are indices, hence natural numbers. *)

Section Combine.

Variable Score : Type.
Variable add : Score → Score → Score.

(** [tf.nn.top_k(scores_in, k)] on one row: the [k] best scores and their
    indices in the row. *)
Variable top_k : nat → list Score → list Score * list nat.
Hypothesis top_k_length : ∀ k row,
  k ≤ length row → length (fst (top_k k row)) = k ∧ length (snd (top_k k row)) = k.
Hypothesis top_k_indices : ∀ k row p label score,
  snd (top_k k row) !! p = Some label → fst (top_k k row) !! p = Some score →
  row !! label = Some score.

(** The first loop: each source pruned on its own. *)
Definition prune (sources : list (list (list Score))) (beam_sizes : list nat)
  : list (list (list Score) * list (list nat)) :=
  zip_with (λ scores_in beam_size,
              ((λ row, fst (top_k beam_size row)) <$> scores_in,
               (λ row, snd (top_k beam_size row)) <$> scores_in))
    sources beam_sizes.

(** [combined_scores_dim *= beam_size], over [zip(sources, beam_sizes)]. *)
Definition combined_dim (sources : list (list (list Score))) (beam_sizes : list nat) : nat :=
  fold_left Nat.mul (snd <$> zip sources beam_sizes) 1.

(** One row of [combined_pruned_scores += expanded_pruned_scores]: the
    source added sits on a new innermost axis, so every entry accumulated so
    far meets every entry of the source. *)
Definition outer_add (combined_row source_row : list Score) : list Score :=
  flat_map (λ a, add a <$> source_row) combined_row.

(** The second loop; [None] while no source was added. *)
Definition combine (pruned_scores : list (list (list Score))) : option (list (list Score)) :=
  match pruned_scores with
  | [] => None
  | first :: rest => Some (fold_left (zip_with outer_add) rest first)
  end.

(** [tf.reshape(combined_pruned_scores, [batch_dim, combined_scores_dim])].
    In the representation by rows the source axes are merged already; the
    reshape only has to find the sizes it asks for. *)
Definition reshape (combined : option (list (list Score))) (batch_dim dim : nat)
  : result (list (list Score)) :=
  match combined with
  | None => Raise (AssertionError "reshape of None")
  | Some rows =>
      if decide (length rows = batch_dim ∧ Forall (λ row, length row = dim) rows)
      then Ok rows
      else Raise (AssertionError "reshape: sizes do not match")
  end.

Definition _prune_and_combine_sources (sources : list (list (list Score)))
    (beam_sizes : list nat) (batch_dim : nat)
  : result (list (list Score) * nat * list (list (list nat))) :=
  let pruned := prune sources beam_sizes in
  let combined_scores_dim := combined_dim sources beam_sizes in
  do flat <- reshape (combine (fst <$> pruned)) batch_dim combined_scores_dim;
  Ok (flat, combined_scores_dim, snd <$> pruned).

(** [select_src_beams(x, src_beams)]: the rows of [x] that the outgoing
    hypotheses come from; [src_rows] gives for each outgoing hypothesis the
    row of its incoming hypothesis. *)
Definition select_src_beams {A : Type} (x : list (list A)) (src_rows : list nat)
  : list (option (list A)) :=
  (λ r, x !! r) <$> src_rows.

(** The loop over [reversed(beam_sizes)]: [ids_ = combined_ids % beam_size;
    combined_ids //= beam_size; ids.append(ids_)]. *)
Fixpoint unravel_loop (reversed_beam_sizes : list nat) (combined_ids : list nat)
  : list (list nat) :=
  match reversed_beam_sizes with
  | [] => []
  | beam_size :: rest =>
      ((λ c, c mod beam_size) <$> combined_ids)
      :: unravel_loop rest ((λ c, c / beam_size) <$> combined_ids)
  end.

(** [batch_gather(x, ids)], squeezed: the entry [ids[h]] of row [h]. *)
Definition batch_gather {A : Type} (x : list (option (list A))) (ids : list nat)
  : list (option A) :=
  zip_with (λ row id, row ≫= (λ row, row !! id)) x ids.

Definition _get_combined_labels (combined_ids : list nat) (src_rows : list nat)
    (pruned_labels : list (list (list nat))) (beam_sizes : list nat)
  : list (list (option nat)) :=
  let pruned_labels_src_beam_selected :=
    (λ pruned_labels_, select_src_beams pruned_labels_ src_rows) <$> pruned_labels in
  let ids := reverse (unravel_loop (reverse beam_sizes) combined_ids) in
  zip_with batch_gather pruned_labels_src_beam_selected ids.

(** *** Flat indices *)

(** The flat index of the combination that takes entry [ids[j]] of source
    [j]; the last source is innermost. *)
Definition ravel (beam_sizes ids : list nat) : nat :=
  fold_left (λ acc bi, acc * fst bi + snd bi) (zip beam_sizes ids) 0.

(** [numpy.unravel_index] for one id: modulo and division, innermost
    (last) source first. *)
Fixpoint unravel_reversed (reversed_beam_sizes : list nat) (combined_id : nat) : list nat :=
  match reversed_beam_sizes with
  | [] => []
  | beam_size :: rest =>
      combined_id mod beam_size :: unravel_reversed rest (combined_id / beam_size)
  end.

Definition unravel (beam_sizes : list nat) (combined_id : nat) : list nat :=
  reverse (unravel_reversed (reverse beam_sizes) combined_id).

(** *** One row *)

Lemma outer_add_length (combined_row source_row : list Score) :
  length (outer_add combined_row source_row) = length combined_row * length source_row.
Proof.
  unfold outer_add. induction combined_row as [|a rest IH]; simpl; [done|].
  rewrite length_app, length_fmap, IH. done.
Qed.

Lemma outer_add_lookup (combined_row source_row : list Score) a j x y :
  combined_row !! a = Some x → source_row !! j = Some y →
  outer_add combined_row source_row !! (a * length source_row + j) = Some (add x y).
Proof.
  unfold outer_add. revert a. induction combined_row as [|z rest IH]; intros a; [done|].
  destruct a as [|a]; simpl.
  - intros [= ->] Hy. rewrite lookup_app_l.
    + by rewrite list_lookup_fmap, Hy.
    + rewrite length_fmap. by eapply lookup_lt_Some.
  - intros Hx Hy. rewrite lookup_app_r; rewrite length_fmap; [|lia].
    replace (length source_row + a * length source_row + j - length source_row)
      with (a * length source_row + j) by lia.
    by apply IH.
Qed.

(** *** The combined tensor *)

(** A pruned source: [batch_dim] rows of [beam_size] entries. *)
Definition pruned_shape (batch_dim : nat) (pruned : list (list Score)) (beam_size : nat)
  : Prop :=
  length pruned = batch_dim ∧ Forall (λ row, length row = beam_size) pruned.

Lemma zip_outer_add_shape batch_dim n (combined pruned : list (list Score)) beam_size :
  pruned_shape batch_dim combined n → pruned_shape batch_dim pruned beam_size →
  pruned_shape batch_dim (zip_with outer_add combined pruned) (n * beam_size).
Proof.
  intros [Hl1 Hr1] [Hl2 Hr2]. split.
  - rewrite length_zip_with. lia.
  - apply Forall_lookup. intros r row Hrow.
    apply lookup_zip_with_Some in Hrow as (row1 & row2 & -> & H1 & H2).
    rewrite outer_add_length.
    rewrite (proj1 (Forall_lookup _ _) Hr1 _ _ H1).
    by rewrite (proj1 (Forall_lookup _ _) Hr2 _ _ H2).
Qed.

Lemma fold_zip_outer_add_shape batch_dim (rest : list (list (list Score)))
    (beam_sizes : list nat) (combined : list (list Score)) n :
  pruned_shape batch_dim combined n →
  Forall2 (pruned_shape batch_dim) rest beam_sizes →
  pruned_shape batch_dim (fold_left (zip_with outer_add) rest combined)
    (fold_left Nat.mul beam_sizes n).
Proof.
  intros Hc H. revert combined n Hc.
  induction H as [|pruned beam_size rest beam_sizes Hp _ IH]; intros combined n Hc;
    simpl; [done|].
  apply IH. by apply zip_outer_add_shape.
Qed.

(** The entry of a row at the flat index of a combination is the sum of
    the chosen entries of the sources, added source after source. *)
Lemma fold_zip_outer_add_lookup batch_dim (rest : list (list (list Score)))
    (beam_sizes ids : list nat) (chosen : list Score)
    (combined : list (list Score)) r combined_row a x :
  Forall2 (pruned_shape batch_dim) rest beam_sizes →
  Forall3 (λ pruned j y, pruned !! r ≫= (λ row, row !! j) = Some y) rest ids chosen →
  combined !! r = Some combined_row → combined_row !! a = Some x →
  ∃ row, fold_left (zip_with outer_add) rest combined !! r = Some row
         ∧ row !! fold_left (λ acc bi, acc * fst bi + snd bi) (zip beam_sizes ids) a
           = Some (fold_left add chosen x).
Proof.
  intros Hshape H. revert beam_sizes Hshape combined combined_row a x.
  induction H as [|pruned j y rest ids chosen Hy _ IH];
    intros beam_sizes Hshape combined combined_row a x Hrow Hx.
  { apply Forall2_nil_inv_l in Hshape as ->. simpl. by exists combined_row. }
  apply Forall2_cons_inv_l in Hshape as (beam_size & beam_sizes' & [_ Hp] & Hshape & ->).
  destruct (pruned !! r) as [prow|] eqn:Hprow; [|done]. simpl in Hy.
  assert (length prow = beam_size) as Hlen
    by exact (proj1 (Forall_lookup _ _) Hp _ _ Hprow).
  simpl. eapply IH; [done| |].
  - apply lookup_zip_with_Some. by eexists _, _.
  - rewrite <- Hlen. by apply outer_add_lookup.
Qed.

(** *** Flat indices and their inverse *)

Lemma ravel_snoc beam_sizes ids beam_size j :
  length beam_sizes = length ids →
  ravel (beam_sizes ++ [beam_size]) (ids ++ [j]) = ravel beam_sizes ids * beam_size + j.
Proof.
  intros Hlen. unfold ravel. rewrite zip_with_app by done.
  by rewrite fold_left_app.
Qed.

Lemma unravel_snoc beam_sizes beam_size c :
  unravel (beam_sizes ++ [beam_size]) c
  = unravel beam_sizes (c / beam_size) ++ [c mod beam_size].
Proof.
  unfold unravel. rewrite reverse_app. simpl. by rewrite reverse_cons.
Qed.

Lemma unravel_ravel beam_sizes ids :
  Forall2 lt ids beam_sizes → unravel beam_sizes (ravel beam_sizes ids) = ids.
Proof.
  revert ids. induction beam_sizes as [|beam_size beam_sizes IH] using rev_ind;
    intros ids H.
  { by apply Forall2_nil_inv_r in H as ->. }
  apply Forall2_app_inv_r in H as (ids1 & ids2 & H1 & H2 & ->).
  apply Forall2_cons_inv_r in H2 as (j & ids3 & Hj & H3 & ->).
  apply Forall2_nil_inv_r in H3 as ->.
  rewrite ravel_snoc by (symmetry; by eapply Forall2_length).
  rewrite unravel_snoc.
  rewrite Nat.div_add_l by lia. rewrite Nat.div_small by done.
  rewrite Nat.add_0_r, IH by done.
  rewrite Nat.add_comm, Nat.Div0.mod_add, Nat.mod_small by done. done.
Qed.

Lemma ravel_lt beam_sizes ids :
  Forall2 lt ids beam_sizes → ravel beam_sizes ids < fold_left Nat.mul beam_sizes 1.
Proof.
  revert ids. induction beam_sizes as [|beam_size beam_sizes IH] using rev_ind;
    intros ids H.
  { apply Forall2_nil_inv_r in H as ->. unfold ravel. simpl. lia. }
  apply Forall2_app_inv_r in H as (ids1 & ids2 & H1 & H2 & ->).
  apply Forall2_cons_inv_r in H2 as (j & ids3 & Hj & H3 & ->).
  apply Forall2_nil_inv_r in H3 as ->.
  rewrite ravel_snoc by (symmetry; by eapply Forall2_length).
  rewrite fold_left_app. simpl. specialize (IH _ H1). nia.
Qed.

(** The loop over all hypotheses at once computes [unravel] for each. *)
Lemma unravel_loop_lookup reversed_beam_sizes combined_ids j h c :
  combined_ids !! h = Some c →
  unravel_loop reversed_beam_sizes combined_ids !! j ≫= (λ ids_, ids_ !! h)
  = unravel_reversed reversed_beam_sizes c !! j.
Proof.
  revert combined_ids j c.
  induction reversed_beam_sizes as [|beam_size rest IH]; intros combined_ids j c Hc;
    [done|].
  destruct j as [|j]; simpl.
  - by rewrite list_lookup_fmap, Hc.
  - apply IH. by rewrite list_lookup_fmap, Hc.
Qed.

Lemma unravel_loop_length reversed_beam_sizes combined_ids :
  length (unravel_loop reversed_beam_sizes combined_ids) = length reversed_beam_sizes.
Proof.
  revert combined_ids. induction reversed_beam_sizes as [|b rest IH]; intros cs;
    simpl; [done|]. by rewrite IH.
Qed.

Lemma unravel_reversed_length reversed_beam_sizes c :
  length (unravel_reversed reversed_beam_sizes c) = length reversed_beam_sizes.
Proof.
  revert c. induction reversed_beam_sizes as [|b rest IH]; intros c; simpl; [done|].
  by rewrite IH.
Qed.

Lemma ids_lookup beam_sizes combined_ids j h c id :
  combined_ids !! h = Some c → unravel beam_sizes c !! j = Some id →
  ∃ ids_, reverse (unravel_loop (reverse beam_sizes) combined_ids) !! j = Some ids_
          ∧ ids_ !! h = Some id.
Proof.
  intros Hc Hid. unfold unravel in Hid.
  assert (j < length beam_sizes) as Hj.
  { apply lookup_lt_Some in Hid.
    by rewrite length_reverse, unravel_reversed_length, length_reverse in Hid. }
  rewrite reverse_lookup in Hid
    by (by rewrite unravel_reversed_length, length_reverse).
  rewrite unravel_reversed_length in Hid.
  rewrite reverse_lookup by (by rewrite unravel_loop_length, length_reverse).
  rewrite unravel_loop_length.
  rewrite <- (unravel_loop_lookup _ combined_ids _ h c Hc) in Hid.
  destruct (unravel_loop (reverse beam_sizes) combined_ids
              !! (length (reverse beam_sizes) - S j)) as [ids_|]; [|done].
  by exists ids_.
Qed.

(** *** The two functions together *)

(** A source as the pruning expects it: [batch_dim] rows, each with at
    least [beam_size] scores. *)
Definition source_shape (batch_dim : nat) (scores_in : list (list Score)) (beam_size : nat)
  : Prop :=
  length scores_in = batch_dim ∧ Forall (λ row, beam_size ≤ length row) scores_in.

Lemma prune_scores_shape batch_dim sources beam_sizes :
  Forall2 (source_shape batch_dim) sources beam_sizes →
  Forall2 (pruned_shape batch_dim) (fst <$> prune sources beam_sizes) beam_sizes.
Proof.
  induction 1 as [|scores_in beam_size sources beam_sizes [Hlen Hrows] _ IH];
    [constructor|].
  unfold prune. simpl. constructor; [|exact IH]. split.
  - by rewrite length_fmap.
  - apply Forall_fmap. eapply Forall_impl; [exact Hrows|].
    intros row Hrow. simpl. by apply top_k_length.
Qed.

Lemma combined_dim_product (sources : list (list (list Score))) (beam_sizes : list nat) :
  length sources = length beam_sizes →
  combined_dim sources beam_sizes = fold_left Nat.mul beam_sizes 1.
Proof. intros H. unfold combined_dim. rewrite snd_zip by lia. done. Qed.

Definition sum_scores (chosen : list Score) : option Score :=
  match chosen with
  | [] => None
  | x :: rest => Some (fold_left add rest x)
  end.

(** The combined tensor: its shape, and its entry at the flat index of a
    combination of entries of the pruned sources. *)
Lemma prune_and_combine_entries sources beam_sizes batch_dim :
  sources ≠ [] →
  Forall2 (source_shape batch_dim) sources beam_sizes →
  ∃ flat,
    _prune_and_combine_sources sources beam_sizes batch_dim
    = Ok (flat, fold_left Nat.mul beam_sizes 1, snd <$> prune sources beam_sizes)
    ∧ length flat = batch_dim
    ∧ Forall (λ row, length row = fold_left Nat.mul beam_sizes 1) flat
    ∧ (∀ r ids chosen,
         Forall3 (λ pruned j y, pruned !! r ≫= (λ row, row !! j) = Some y)
           (fst <$> prune sources beam_sizes) ids chosen →
         ∃ row, flat !! r = Some row
                ∧ row !! ravel beam_sizes ids = sum_scores chosen).
Proof.
  intros Hne Hshape.
  pose proof (prune_scores_shape _ _ _ Hshape) as Hpruned.
  pose proof (Forall2_length _ _ _ Hshape) as Hlen.
  unfold _prune_and_combine_sources. rewrite combined_dim_product by done.
  destruct (fst <$> prune sources beam_sizes) as [|first rest] eqn:Hps.
  { apply Forall2_nil_inv_l in Hpruned. subst. by destruct sources. }
  apply Forall2_cons_inv_l in Hpruned as (b & bs & Hfirst & Hrest & ->).
  pose proof (fold_zip_outer_add_shape _ _ _ _ _ Hfirst Hrest) as [Hrows Hcols].
  assert (fold_left Nat.mul (b :: bs) 1 = fold_left Nat.mul bs b) as Hmul
    by (cbn [fold_left]; by rewrite Nat.mul_1_l).
  rewrite Hmul. unfold combine, reshape.
  destruct (decide _) as [_|Hno]; [|by destruct Hno].
  cbn [result_bind]. eexists. split; [reflexivity|].
  split_and!; [done|done|].
  intros r ids chosen H3.
  inversion H3 as [|pruned j y ps ids' chosen' Hy H3' ]; subst.
  destruct (first !! r) as [row0|] eqn:Hrow0; [|done]. simpl in Hy.
  destruct (fold_zip_outer_add_lookup _ _ _ _ _ _ _ _ _ _ Hrest H3' Hrow0 Hy)
    as (row & Hrow & Hentry).
  exists row. split; [done|]. unfold ravel. simpl. exact Hentry.
Qed.

(** The label that [_get_combined_labels] gives for source [j] and the
    outgoing hypothesis [h]. *)
Lemma combined_labels_lookup combined_ids src_rows pruned_labels beam_sizes
    j h labels_j c r id :
  pruned_labels !! j = Some labels_j →
  combined_ids !! h = Some c → src_rows !! h = Some r →
  unravel beam_sizes c !! j = Some id →
  ∃ out_j,
    _get_combined_labels combined_ids src_rows pruned_labels beam_sizes !! j = Some out_j
    ∧ out_j !! h = Some (labels_j !! r ≫= (λ row, row !! id)).
Proof.
  intros Hj Hc Hr Hid.
  destruct (ids_lookup _ _ _ _ _ _ Hc Hid) as (ids_ & Hids & Hh).
  unfold _get_combined_labels.
  eexists. split.
  - apply lookup_zip_with_Some. eexists _, _. split; [reflexivity|].
    split; [|exact Hids]. by rewrite list_lookup_fmap, Hj.
  - unfold batch_gather. apply lookup_zip_with_Some. eexists _, _.
    split; [reflexivity|]. split; [|exact Hh].
    unfold select_src_beams. by rewrite list_lookup_fmap, Hr.
Qed.

(** What a combination takes from the sources: for the row [r] and the
    positions [ids] in the pruned lists, the label and the score at each
    position; the score is the score of that label in the source. *)
Lemma chosen_exists batch_dim sources beam_sizes r ids :
  Forall2 (source_shape batch_dim) sources beam_sizes →
  r < batch_dim → Forall2 lt ids beam_sizes →
  ∃ labels scores,
    Forall3 (λ pruned id score, pruned !! r ≫= (λ row, row !! id) = Some score)
      (fst <$> prune sources beam_sizes) ids scores
    ∧ Forall3 (λ pruned_labels_ id label,
                 pruned_labels_ !! r ≫= (λ row, row !! id) = Some label)
        (snd <$> prune sources beam_sizes) ids labels
    ∧ (∀ j scores_in beam_size id label score,
         sources !! j = Some scores_in → beam_sizes !! j = Some beam_size →
         ids !! j = Some id → labels !! j = Some label → scores !! j = Some score →
         ∃ row, scores_in !! r = Some row
                ∧ snd (top_k beam_size row) !! id = Some label
                ∧ row !! label = Some score).
Proof.
  intros Hshape Hr. revert ids.
  induction Hshape as [|scores_in beam_size sources beam_sizes [Hlen Hrows] _ IH];
    intros ids Hids.
  { apply Forall2_nil_inv_r in Hids as ->. exists [], []. split_and!; [constructor..|].
    intros j ? ? ? ? ? Hj. done. }
  apply Forall2_cons_inv_r in Hids as (id & ids' & Hid & Hids & ->).
  destruct (IH ids' Hids) as (labels & scores & Hs & Hl & Hsrc).
  destruct (lookup_lt_is_Some_2 scores_in r) as [row Hrow]; [lia|].
  pose proof (proj1 (Forall_lookup _ _) Hrows _ _ Hrow) as Hk. cbv beta in Hk.
  destruct (top_k_length beam_size row Hk) as [Hlf Hls].
  destruct (lookup_lt_is_Some_2 (fst (top_k beam_size row)) id) as [score Hscore]; [lia|].
  destruct (lookup_lt_is_Some_2 (snd (top_k beam_size row)) id) as [label Hlabel]; [lia|].
  exists (label :: labels), (score :: scores). unfold prune. cbn [zip_with fmap list_fmap fst snd].
  split_and!.
  - constructor; [|exact Hs]. by rewrite list_lookup_fmap, Hrow.
  - constructor; [|exact Hl]. by rewrite list_lookup_fmap, Hrow.
  - intros [|j] scores_in' beam_size' id' label' score'; cbn [lookup list_lookup].
    + intros [= <-] [= <-] [= <-] [= <-] [= <-]. exists row. split_and!; [done|done|].
      by eapply top_k_indices.
    + apply Hsrc.
Qed.

(** C9: for sources of the expected shape, pruned to the beam sizes
    [b_1 .. b_n], [_prune_and_combine_sources] returns a tensor with one row
    per incoming hypothesis and [b_1 * ... * b_n] entries in every row (the
    dimension it reports), and as pruned labels the indices that [top_k]
    gives for each source.  Every combination, one position [ids[j]] below
    [b_j] in the pruned list of each source, has a flat index below the
    dimension, last source innermost, which unravels to the combination by
    modulo and division.  It takes from each source a label, the index that
    [top_k] gives at the position, and the score of that label in the source;
    the entry of the combined tensor at the flat index is the sum of these
    scores, and for an outgoing hypothesis with this combination id and
    this source row [_get_combined_labels] returns exactly these labels, one
    for each source. *)
Theorem combinations_and_labels sources beam_sizes batch_dim :
  sources ≠ [] →
  Forall2 (source_shape batch_dim) sources beam_sizes →
  ∃ flat,
    _prune_and_combine_sources sources beam_sizes batch_dim
    = Ok (flat, fold_left Nat.mul beam_sizes 1, snd <$> prune sources beam_sizes)
    ∧ length flat = batch_dim
    ∧ Forall (λ row, length row = fold_left Nat.mul beam_sizes 1) flat
    ∧ ∀ r ids, r < batch_dim → Forall2 lt ids beam_sizes →
        ravel beam_sizes ids < fold_left Nat.mul beam_sizes 1
        ∧ unravel beam_sizes (ravel beam_sizes ids) = ids
        ∧ ∃ labels scores,
            length labels = length sources ∧ length scores = length sources
            ∧ (∀ j scores_in beam_size id label score,
                 sources !! j = Some scores_in → beam_sizes !! j = Some beam_size →
                 ids !! j = Some id → labels !! j = Some label → scores !! j = Some score →
                 ∃ row, scores_in !! r = Some row
                        ∧ snd (top_k beam_size row) !! id = Some label
                        ∧ row !! label = Some score)
            ∧ (∃ row, flat !! r = Some row
                      ∧ row !! ravel beam_sizes ids = sum_scores scores)
            ∧ (∀ combined_ids src_rows h,
                 combined_ids !! h = Some (ravel beam_sizes ids) →
                 src_rows !! h = Some r →
                 (λ labels_ : list (option nat), labels_ !! h)
                 <$> _get_combined_labels combined_ids src_rows
                       (snd <$> prune sources beam_sizes) beam_sizes
                 = (λ label, Some (Some label)) <$> labels).
Proof.
  intros Hne Hshape.
  destruct (prune_and_combine_entries sources beam_sizes batch_dim Hne Hshape)
    as (flat & Hrun & Hrows & Hcols & Hentry).
  exists flat. split_and!; [done..|].
  intros r ids Hr Hids.
  split; [by apply ravel_lt|]. split; [by apply unravel_ravel|].
  destruct (chosen_exists batch_dim sources beam_sizes r ids Hshape Hr Hids)
    as (labels & scores & Hs & Hl & Hsrc).
  pose proof (Forall2_length _ _ _ Hshape) as Hlen.
  assert (length (prune sources beam_sizes) = length sources) as Hlp.
  { unfold prune. rewrite length_zip_with. lia. }
  exists labels, scores. split_and!.
  - rewrite <- (Forall3_length_lr _ _ _ _ Hl), length_fmap. done.
  - rewrite <- (Forall3_length_lr _ _ _ _ Hs), length_fmap. done.
  - exact Hsrc.
  - by apply Hentry.
  - intros combined_ids src_rows h Hc Hh.
    apply list_eq. intros j. rewrite !list_lookup_fmap.
    destruct (labels !! j) as [label|] eqn:Hlabel; cbn [fmap option_fmap option_map].
    + destruct (Forall3_lookup_r _ _ _ _ _ _ Hl Hlabel)
        as (labels_j & id & Hlj & Hid & Hlookup).
      destruct (combined_labels_lookup combined_ids src_rows
                  (snd <$> prune sources beam_sizes) beam_sizes j h labels_j
                  (ravel beam_sizes ids) r id Hlj Hc Hh) as (out_j & -> & Hout).
      { by rewrite unravel_ravel. }
      cbn [fmap option_fmap option_map]. by rewrite Hout, Hlookup.
    + apply lookup_ge_None_1 in Hlabel.
      rewrite <- (Forall3_length_lr _ _ _ _ Hl) in Hlabel.
      rewrite lookup_ge_None_2; [done|].
      unfold _get_combined_labels. rewrite length_zip_with, !length_fmap.
      rewrite length_fmap in Hlabel. lia.
Qed.

End Combine.

(** *** Two sources, pruned to 2 and to 3 *)

Local Open Scope Z_scope.

(** [tf.nn.top_k] on integer scores: best first, the lower index first
    among equal scores. *)
Fixpoint insert_by_score (x : Z * nat) (sorted : list (Z * nat)) : list (Z * nat) :=
  match sorted with
  | [] => [x]
  | y :: rest => if fst y <? fst x then x :: sorted else y :: insert_by_score x rest
  end.

Definition sort_by_score (row : list Z) : list (Z * nat) :=
  fold_left (λ sorted x, insert_by_score x sorted) (zip row (seq 0 (length row))) [].

Definition top_k_Z (k : nat) (row : list Z) : list Z * list nat :=
  (fst <$> take k (sort_by_score row), snd <$> take k (sort_by_score row)).

Lemma insert_by_score_length x sorted :
  length (insert_by_score x sorted) = S (length sorted).
Proof.
  induction sorted as [|y rest IH]; simpl; [done|].
  destruct (fst y <? fst x); simpl; by rewrite ?IH.
Qed.

Lemma sort_by_score_length row : length (sort_by_score row) = length row.
Proof.
  unfold sort_by_score.
  assert (∀ (l : list (Z * nat)) acc,
            length (fold_left (λ sorted x, insert_by_score x sorted) l acc)
            = (length l + length acc)%nat) as H.
  { induction l as [|x l IH]; intros acc; simpl; [done|].
    rewrite IH, insert_by_score_length. lia. }
  rewrite H, length_zip_with, length_seq. simpl. lia.
Qed.

Lemma top_k_Z_length k row :
  (k ≤ length row)%nat →
  length (fst (top_k_Z k row)) = k ∧ length (snd (top_k_Z k row)) = k.
Proof.
  intros Hk. unfold top_k_Z. simpl.
  rewrite !length_fmap, !length_take, sort_by_score_length. lia.
Qed.

Lemma insert_by_score_elem x y sorted :
  y ∈ insert_by_score x sorted → y = x ∨ y ∈ sorted.
Proof.
  induction sorted as [|z rest IH]; simpl.
  { intros H. apply list_elem_of_singleton in H. by left. }
  destruct (fst z <? fst x).
  - intros H. apply elem_of_cons in H as [->|H]; [by left|by right].
  - intros H. apply elem_of_cons in H as [->|H]; [right; by left|].
    destruct (IH H) as [->|Hin]; [by left|right; by right].
Qed.

Lemma sort_by_score_elem row x label :
  (x, label) ∈ sort_by_score row → row !! label = Some x.
Proof.
  unfold sort_by_score.
  assert (∀ (l acc : list (Z * nat)) y,
            y ∈ fold_left (λ sorted x, insert_by_score x sorted) l acc →
            y ∈ l ∨ y ∈ acc) as H.
  { induction l as [|z l IH]; intros acc y; simpl; [by right|].
    intros Hy. destruct (IH _ _ Hy) as [Hin|Hin]; [left; by right|].
    destruct (insert_by_score_elem _ _ _ Hin) as [->|Hacc]; [left; by left|by right]. }
  intros Hin. destruct (H _ _ _ Hin) as [Hzip|Hnil]; [|by apply elem_of_nil in Hnil].
  apply list_elem_of_lookup_1 in Hzip as [j Hj].
  apply lookup_zip_with_Some in Hj as (x' & label' & [= <- <-] & Hx & Hlabel).
  apply lookup_seq in Hlabel as [-> _]. done.
Qed.

Lemma top_k_Z_indices k row p label score :
  snd (top_k_Z k row) !! p = Some label → fst (top_k_Z k row) !! p = Some score →
  row !! label = Some score.
Proof.
  unfold top_k_Z. cbn [fst snd]. rewrite !list_lookup_fmap.
  destruct (take k (sort_by_score row) !! p) as [[x l]|] eqn:Hp; [|done].
  cbn. intros [= <-] [= <-]. apply sort_by_score_elem.
  apply list_elem_of_lookup_2 with p.
  apply lookup_take_Some in Hp. by destruct Hp.
Qed.

Definition example_sources : list (list (list Z)) :=
  [ [ [1; 5; 3; 2] ]; [ [10; 40; 20; 30; 0] ] ].

(** The six sums of a score among the best two of the first source and a
    score among the best three of the second. *)
Lemma example_combined :
  _prune_and_combine_sources Z Z.add top_k_Z example_sources [2; 3]%nat 1
  = Ok ([ [45; 35; 25; 43; 33; 23] ], 6%nat, [ [ [1; 2] ]; [ [1; 3; 2] ] ]%nat).
Proof. vm_compute. reflexivity. Qed.

(** The combinations 4 and 0, both extending row 0: 4 = 1 * 3 + 1 takes the
    second label kept of the first source and the second kept of the
    second. *)
Lemma example_labels :
  _get_combined_labels [4; 0]%nat [0; 0]%nat [ [ [1; 2] ]; [ [1; 3; 2] ] ]%nat [2; 3]%nat
  = [ [Some 2; Some 1]; [Some 3; Some 1] ]%nat.
Proof. vm_compute. reflexivity. Qed.

(** The combination 4 = 1 * 3 + 1 of row 0 takes position 1 of both pruned
    lists. *)
Lemma combinations_and_labels_witness :
  ∃ flat,
    _prune_and_combine_sources Z Z.add top_k_Z example_sources [2; 3]%nat 1
    = Ok (flat, 6%nat, [ [ [1; 2] ]; [ [1; 3; 2] ] ]%nat)
    ∧ Forall (λ row, length row = 6%nat) flat
    ∧ ∃ labels scores,
        (∃ row, flat !! 0%nat = Some row ∧ row !! 4%nat = sum_scores Z Z.add scores)
        ∧ (λ labels_ : list (option nat), labels_ !! 0%nat)
          <$> _get_combined_labels [4; 0]%nat [0; 0]%nat
                [ [ [1; 2] ]; [ [1; 3; 2] ] ]%nat [2; 3]%nat
          = (λ label, Some (Some label)) <$> labels.
Proof.
  destruct (combinations_and_labels Z Z.add top_k_Z top_k_Z_length top_k_Z_indices
              example_sources [2; 3]%nat 1%nat)
    as (flat & Hrun & _ & Hrows & Hcomb).
  - discriminate.
  - repeat constructor.
  - destruct (Hcomb 0%nat [1; 1]%nat ltac:(lia) ltac:(repeat constructor))
      as (_ & _ & labels & scores & _ & _ & _ & Hentry & Hlabels).
    exists flat. split; [exact Hrun|]. split; [exact Hrows|].
    exists labels, scores. split; [exact Hentry|].
    exact (Hlabels [4; 0]%nat [0; 0]%nat 0%nat eq_refl eq_refl).
Defined.

End ChoiceCombine.

(** ** The size of the cuDNN parameter buffer
    ([RecLayer._get_cudnn_param_size]) *)

Module CudnnParams.

Local Open Scope Z_scope.

Inductive error : Type :=
| KeyError (key : string)
| Exception (msg : string).

(** [{"unidirectional": 1, "bidirectional": 2}[direction]] *)
Definition dir_count (direction : string) : error + Z :=
  if String.eqb direction "unidirectional" then inr 1
  else if String.eqb direction "bidirectional" then inr 2
  else inl (KeyError direction).

(** [{"lstm": 3, "gru": 2}.get(rnn_mode, 0)] *)
Definition num_gates (rnn_mode : string) : Z :=
  if String.eqb rnn_mode "lstm" then 3
  else if String.eqb rnn_mode "gru" then 2
  else 0.

(** [_get_cudnn_param_size(num_units, input_size, num_layers, rnn_mode,
    input_mode, direction)]; the sizes are Python integers. *)
Definition _get_cudnn_param_size (num_units input_size num_layers : Z)
    (rnn_mode input_mode direction : string) : error + Z :=
  match dir_count direction with
  | inl e => inl e
  | inr dir_count =>
      let num_gates := num_gates rnn_mode in
      let first_layer : error + Z :=
        if String.eqb input_mode "linear_input"
           || (String.eqb input_mode "auto_select" && negb (num_units =? input_size))
        then inr ((input_size + num_units + 2) * num_units * (num_gates + 1) * dir_count)
        else if String.eqb input_mode "skip_input"
                || (String.eqb input_mode "auto_select" && (num_units =? input_size))
        then inr ((num_units + 2) * num_units * (num_gates + 1) * dir_count)
        else inl (Exception "invalid input_mode") in
      match first_layer with
      | inl e => inl e
      | inr size =>
          inr (size + (num_units * dir_count + num_units + 2) * num_units
                      * (num_gates + 1) * dir_count * (num_layers - 1))
      end
  end.

(** The defaults of the signature. *)
Definition default_size (num_units input_size : Z) : error + Z :=
  _get_cudnn_param_size num_units input_size 1 "lstm" "linear_input" "unidirectional".

(** The number of entries of the sixteen canonical tensors of a one-layer
    unidirectional LSTM that [convert_cudnn_canonical_to_lstm_block] reads:
    four input matrices [output_dim x input_dim], four recurrent matrices
    [output_dim x output_dim], and eight bias vectors. *)
Definition canonical_entries (output_dim input_dim : Z) : Z :=
  4 * (output_dim * input_dim) + 4 * (output_dim * output_dim) + 8 * output_dim.

Definition valid_input_mode (input_mode : string) : bool :=
  String.eqb input_mode "linear_input" || String.eqb input_mode "skip_input"
  || String.eqb input_mode "auto_select".

Definition valid_direction (direction : string) : bool :=
  String.eqb direction "unidirectional" || String.eqb direction "bidirectional".

(** X9: The function returns a size exactly for the two directions and the
    three input modes it knows; "auto_select" gives the size of
    "linear_input" when the two dimensions differ and that of "skip_input"
    when they agree; an input projection adds the entries of its matrices,
    one per gate and direction; and with the default arguments the size is
    the number of entries of the canonical tensors of a one-layer LSTM. *)
Theorem cudnn_param_size_cases num_units input_size num_layers rnn_mode input_mode direction :
  ((∃ size, _get_cudnn_param_size num_units input_size num_layers rnn_mode input_mode direction
            = inr size)
   ↔ valid_direction direction = true ∧ valid_input_mode input_mode = true)
  ∧ (valid_direction direction = false →
     _get_cudnn_param_size num_units input_size num_layers rnn_mode input_mode direction
     = inl (KeyError direction))
  ∧ _get_cudnn_param_size num_units input_size num_layers rnn_mode "auto_select" direction
    = _get_cudnn_param_size num_units input_size num_layers rnn_mode
        (if num_units =? input_size then "skip_input" else "linear_input") direction
  ∧ (∀ size_skip d,
       _get_cudnn_param_size num_units input_size num_layers rnn_mode "skip_input" direction
       = inr size_skip →
       dir_count direction = inr d →
       _get_cudnn_param_size num_units input_size num_layers rnn_mode "linear_input" direction
       = inr (size_skip + input_size * num_units * (num_gates rnn_mode + 1) * d))
  ∧ default_size num_units input_size = inr (canonical_entries num_units input_size).
Proof.
  unfold _get_cudnn_param_size, valid_direction, valid_input_mode, default_size,
    canonical_entries, dir_count.
  split_and!.
  - destruct (String.eqb direction "unidirectional"),
      (String.eqb direction "bidirectional"); cbn [orb];
      destruct (String.eqb input_mode "linear_input"),
        (String.eqb input_mode "skip_input"),
        (String.eqb input_mode "auto_select"), (num_units =? input_size);
      cbn; split; (try by intros [? [=]]); (try by intros [[=] ?]);
      (try by intros [? [=]]); try done; try (by intros _; eexists).
  - destruct (String.eqb direction "unidirectional"),
      (String.eqb direction "bidirectional"); cbn [orb]; done.
  - destruct (String.eqb direction "unidirectional"),
      (String.eqb direction "bidirectional"); try done;
      destruct (num_units =? input_size); done.
  - intros size_skip d.
    destruct (String.eqb direction "unidirectional"),
      (String.eqb direction "bidirectional"); try done;
      cbn; intros [= <-] [= <-]; f_equal; lia.
  - cbn. f_equal. lia.
Qed.

End CudnnParams.

(** ** Names of the dummy layers of [_tensor_from_layer_dict]
    ([returnn/tf/frontend_layers/make_layer.py]) *)

Module MakeLayer.

Section Names.

(** The name contexts that tensors refer to ([ref.raw_tensor], an
    [rfl.Layer]), compared as dictionary keys, with their [name]; and the
    layers of the dummy network. *)
Context {Ref : Type} `{Countable Ref}.
Variable ref_name : Ref → string.
Variable Layer : Type.
(** [InternalLayer(name=name, network=net, output=ref.copy_template())] *)
Variable internal_layer : string → Ref → Layer.

(** [net.layers] and the dictionary [ref_to_layer_name]. *)
Record Net : Type := mkNet {
  layers : gmap string Layer;
  ref_to_layer_name : gmap Ref string;
}.

(** [set(net.layers.keys()) | {"data"}] *)
Definition reserved_names (net : Net) : gset string := dom (layers net) ∪ {["data"]}.

(** [f"{name}_{i}"] *)
Definition numbered (name : string) (i : nat) : string := name +:+ "_" +:+ pretty i.

(** The [while True] loop of [_get_unique_name], from the counter [i]. *)
Fixpoint first_free (fuel : nat) (reserved : gset string) (name : string) (i : nat)
  : result string :=
  match fuel with
  | 0 => Raise OutOfFuel
  | S fuel' =>
      let name_ := numbered name i in
      if decide (name_ ∈ reserved) then first_free fuel' reserved name (S i)
      else Ok name_
  end.

(** [_get_unique_name(name)].  The loop is given one round more than there
    are reserved names. *)
Definition _get_unique_name (net : Net) (name : string) : result string :=
  let reserved := reserved_names net in
  if decide (name ∈ reserved) then first_free (S (size reserved)) reserved name 0
  else Ok name.

(** [_get_layer_name(ref)] *)
Definition _get_layer_name (net : Net) (ref : Ref) : result (string * Net) :=
  match ref_to_layer_name net !! ref with
  | Some name => Ok (name, net)
  | None =>
      do name <- _get_unique_name net (ref_name ref);
      if decide (name ∈ dom (layers net)) then
        Raise (AssertionError "name not in net.layers")
      else
        Ok (name, {| layers := <[name := internal_layer name ref]> (layers net);
                     ref_to_layer_name := <[ref := name]> (ref_to_layer_name net) |})
  end.

(** [nest.map_structure(_map_layer_dict_elem, layer_dict)], over the
    tensors of the layer dict in the order of the flattened structure. *)
Fixpoint map_layer_dict (refs : list Ref) (net : Net) : result (list string * Net) :=
  match refs with
  | [] => Ok ([], net)
  | ref :: rest =>
      do r <- _get_layer_name net ref;
      do rs <- map_layer_dict rest (snd r);
      Ok (fst r :: fst rs, snd rs)
  end.

(** The names that [_tensor_from_layer_dict] works with: those of the
    dummy source layers, and [out_name = _get_unique_name(layer.name)];
    [ref_to_layer_name] starts empty. *)
Definition layer_names (net_layers : gmap string Layer) (refs : list Ref)
    (layer_name : string) : result (list string * string * Net) :=
  do r <- map_layer_dict refs {| layers := net_layers; ref_to_layer_name := ∅ |};
  do out_name <- _get_unique_name (snd r) layer_name;
  Ok (fst r, out_name, snd r).

(** *** [_get_unique_name] *)

Lemma numbered_inj name : Inj eq eq (numbered name).
Proof.
  intros i j Hij. unfold numbered in Hij.
  apply String.app_inj in Hij. apply String.app_inj in Hij.
  by apply (inj pretty) in Hij.
Qed.

Lemma first_free_spec fuel reserved name i result :
  first_free fuel reserved name i = Ok result →
  ∃ j, i ≤ j ∧ result = numbered name j ∧ (result ∉ reserved)
       ∧ ∀ k, i ≤ k < j → numbered name k ∈ reserved.
Proof.
  revert i. induction fuel as [|fuel IH]; intros i; simpl; [done|].
  destruct (decide (numbered name i ∈ reserved)) as [Hin|Hfree].
  - intros Hr. destruct (IH _ Hr) as (j & Hj & -> & Hnot & Hbelow).
    exists j. split_and!; [lia|done|done|].
    intros k Hk. destruct (decide (k = i)) as [->|]; [done|]. apply Hbelow. lia.
  - intros [= <-]. exists i. split_and!; [lia|done|done|]. intros k Hk. lia.
Qed.

(** Among more numbered names than there are reserved ones, one is free. *)
Lemma first_free_returns fuel (reserved : gset string) name i taken :
  (∀ k, k < i → numbered name k ∈ taken) → taken ⊆ reserved →
  size taken = i → size reserved < fuel + i →
  ∃ result, first_free fuel reserved name i = Ok result.
Proof.
  revert i taken. induction fuel as [|fuel IH]; intros i taken Hbelow Hsub Hsize Hlt.
  { exfalso. apply subseteq_size in Hsub. lia. }
  simpl. destruct (decide (numbered name i ∈ reserved)) as [Hin|Hfree]; [|by eexists].
  assert (numbered name i ∉ taken) as Hnew.
  { intros Hi.
    assert (list_to_set (numbered name <$> seq 0 i) = taken) as Heq.
    { (* the numbered names below [i] are [i] elements of [taken] *)
      apply set_subseteq_size_eq.
      - intros x Hx. apply elem_of_list_to_set, list_elem_of_fmap in Hx as (k & -> & Hk).
        apply elem_of_seq in Hk. apply Hbelow. lia.
      - rewrite size_list_to_set.
        + rewrite length_fmap, length_seq. lia.
        + apply NoDup_fmap; [apply numbered_inj|apply NoDup_seq]. }
    rewrite <- Heq in Hi.
    apply elem_of_list_to_set, list_elem_of_fmap in Hi as (k & Hk & Hin').
    apply numbered_inj in Hk as <-. apply elem_of_seq in Hin'. lia. }
  apply (IH (S i) ({[numbered name i]} ∪ taken)).
  - intros k Hk. destruct (decide (k = i)) as [->|]; [set_solver|].
    apply elem_of_union_r, Hbelow. lia.
  - set_solver.
  - rewrite size_union by set_solver. rewrite size_singleton. lia.
  - lia.
Qed.

Lemma get_unique_name_spec net name :
  ∃ result, _get_unique_name net name = Ok result
    ∧ (result ∉ dom (layers net)) ∧ result ≠ "data"
    ∧ (name ∉ dom (layers net) → name ≠ "data" → result = name)
    ∧ (result = name
       ∨ ∃ i, result = numbered name i
              ∧ ∀ k, k < i → numbered name k ∈ reserved_names net).
Proof.
  unfold _get_unique_name.
  destruct (decide (name ∈ reserved_names net)) as [Hin|Hfree].
  - destruct (first_free_returns (S (size (reserved_names net))) (reserved_names net)
                name 0 ∅) as [result Hr]; [intros; lia|set_solver|done|lia|].
    exists result. split; [done|].
    apply first_free_spec in Hr as (j & _ & -> & Hnot & Hbelow).
    unfold reserved_names in Hnot. split_and!; [set_solver|set_solver| |].
    + intros H1 H2. exfalso. unfold reserved_names in Hin. set_solver.
    + right. exists j. split; [done|]. intros k Hk. apply Hbelow. lia.
  - exists name. unfold reserved_names in Hfree.
    split_and!; [done|set_solver|set_solver|done|by left].
Qed.

(** *** The dictionary of source layers *)

(** Every tensor seen so far has a layer of its own in the network, under
    a name that is not "data". *)
Record names_inv (net0_layers : gmap string Layer) (net : Net) : Prop := {
  inv_layers : ∀ ref name, ref_to_layer_name net !! ref = Some name →
                 name ∈ dom (layers net) ∧ name ≠ "data" ∧ name ∉ dom net0_layers;
  inv_inj : ∀ r1 r2 name, ref_to_layer_name net !! r1 = Some name →
              ref_to_layer_name net !! r2 = Some name → r1 = r2;
  inv_grows : dom net0_layers ⊆ dom (layers net);
}.

Lemma get_layer_name_spec net0_layers net ref :
  names_inv net0_layers net →
  ∃ name net', _get_layer_name net ref = Ok (name, net')
    ∧ names_inv net0_layers net'
    ∧ ref_to_layer_name net' !! ref = Some name
    ∧ (∀ r n, ref_to_layer_name net !! r = Some n → ref_to_layer_name net' !! r = Some n).
Proof.
  intros [Hl Hi Hg]. unfold _get_layer_name.
  destruct (ref_to_layer_name net !! ref) as [name|] eqn:Hm.
  { exists name, net. by split_and!. }
  destruct (get_unique_name_spec net (ref_name ref))
    as (name & -> & Hnew & Hdata & _). cbn [result_bind].
  destruct (decide (name ∈ dom (layers net))) as [|_]; [done|].
  eexists _, _. split; [reflexivity|]. split_and!.
  - split; simpl.
    + intros r n Hr. destruct (decide (r = ref)) as [->|Hne].
      * rewrite lookup_insert_eq in Hr. injection Hr as <-.
        split_and!; [set_solver|done|set_solver].
      * rewrite lookup_insert_ne in Hr by done.
        destruct (Hl r n Hr) as (? & ? & ?). split_and!; [set_solver|done|done].
    + intros r1 r2 n H1 H2.
      destruct (decide (r1 = ref)) as [->|Hne1], (decide (r2 = ref)) as [->|Hne2];
        try done.
      * rewrite lookup_insert_eq in H1. injection H1 as <-.
        rewrite lookup_insert_ne in H2 by done.
        destruct (Hl r2 name H2) as (? & _). done.
      * rewrite lookup_insert_eq in H2. injection H2 as <-.
        rewrite lookup_insert_ne in H1 by done.
        destruct (Hl r1 name H1) as (? & _). done.
      * rewrite lookup_insert_ne in H1, H2 by done. by eapply Hi.
    + set_solver.
  - simpl. by rewrite lookup_insert_eq.
  - simpl. intros r n Hr. rewrite lookup_insert_ne; [done|]. intros <-. congruence.
Qed.

Lemma map_layer_dict_spec net0_layers refs net :
  names_inv net0_layers net →
  ∃ names net', map_layer_dict refs net = Ok (names, net')
    ∧ names_inv net0_layers net'
    ∧ (∀ r n, ref_to_layer_name net !! r = Some n → ref_to_layer_name net' !! r = Some n)
    ∧ Forall2 (λ ref name, ref_to_layer_name net' !! ref = Some name) refs names.
Proof.
  revert net. induction refs as [|ref rest IH]; intros net Hinv; simpl.
  { exists [], net. by split_and!. }
  destruct (get_layer_name_spec _ net ref Hinv) as (name & net1 & -> & Hinv1 & Hl1 & Hk1).
  cbn [result_bind fst snd].
  destruct (IH net1 Hinv1) as (names & net' & -> & Hinv' & Hk' & Hall).
  cbn [result_bind fst snd]. eexists _, _. split; [reflexivity|].
  split_and!; [done|by auto|]. constructor; [by apply Hk'|done].
Qed.

(** X10: The names of [_tensor_from_layer_dict]: the function always finds
    them; there is one name per tensor of the layer dict, two tensors get the
    same name exactly when they refer to the same name context, and every one
    of these names is a layer of the dummy network; the name of the layer that
    is constructed differs from all of them, from "data" and from every layer
    name of the network; it is the name of the layer itself when that is free.
    So the assertion in [_get_layer_name] never fails and the net dict entry
    never hides a source. *)
Theorem layer_names_distinct net_layers refs layer_name :
  ∃ names out_name net,
    layer_names net_layers refs layer_name = Ok (names, out_name, net)
    ∧ length names = length refs
    ∧ (∀ i j r1 r2 n1 n2,
         refs !! i = Some r1 → refs !! j = Some r2 →
         names !! i = Some n1 → names !! j = Some n2 →
         (n1 = n2 ↔ r1 = r2))
    ∧ (∀ n, n ∈ names → n ∈ dom (layers net) ∧ n ≠ "data" ∧ n ∉ dom net_layers)
    ∧ (out_name ∉ names) ∧ out_name ≠ "data" ∧ (out_name ∉ dom (layers net))
    ∧ (layer_name ∉ dom (layers net) → layer_name ≠ "data" → out_name = layer_name).
Proof.
  unfold layer_names.
  assert (names_inv net_layers {| layers := net_layers; ref_to_layer_name := ∅ |}) as Hinv0.
  { split; simpl; [intros ? ? Hr|intros ? ? ? Hr|done]; by rewrite lookup_empty in Hr. }
  destruct (map_layer_dict_spec net_layers refs _ Hinv0)
    as (names & net & -> & [Hl Hi Hg] & _ & Hall). cbn [result_bind fst snd].
  destruct (get_unique_name_spec net layer_name) as (out_name & -> & Hnew & Hdata & Hsame & _).
  cbn [result_bind]. exists names, out_name, net. split; [done|].
  assert (∀ n, n ∈ names → ∃ r, ref_to_layer_name net !! r = Some n) as Hnames.
  { intros n Hn. apply list_elem_of_lookup_1 in Hn as [i Hi'].
    destruct (Forall2_lookup_r _ _ _ _ _ Hall Hi') as (r & _ & Hr). by exists r. }
  split_and!; try done.
  - symmetry. by eapply Forall2_length.
  - intros i j r1 r2 n1 n2 Hr1 Hr2 Hn1 Hn2.
    pose proof (Forall2_lookup_lr _ _ _ _ _ _ Hall Hr1 Hn1) as H1.
    pose proof (Forall2_lookup_lr _ _ _ _ _ _ Hall Hr2 Hn2) as H2.
    split.
    + intros Hn. subst n2. exact (Hi _ _ _ H1 H2).
    + intros Hr. subst r2. rewrite H1 in H2. by injection H2.
  - intros n Hn. destruct (Hnames n Hn) as [r Hr]. by eapply Hl.
  - intros Hn. destruct (Hnames _ Hn) as [r Hr]. destruct (Hl r _ Hr) as (? & _). done.
Qed.

End Names.

(** Two tensors of different name contexts that are both called "x", one
    of them used twice, and a tensor called "data", in a layer that is itself
    called "x". *)
Definition example_ref_name (ref : nat) : string :=
  match ref with
  | 0 | 1 => "x"
  | _ => "data"
  end.

Lemma example_layer_names :
  ∃ net, layer_names example_ref_name unit (λ _ _, tt) ∅ [0; 1; 0; 2] "x"
         = Ok (["x"; "x_0"; "x"; "data_0"], "x_1", net).
Proof. eexists. vm_compute. reflexivity. Qed.

End MakeLayer.

(** ** Dummy values for integer data
    ([_make_random_tf_tensor_for_returnn_data], the branch of integer data
    that is not sparse) *)

Module RandomTensor.

Local Open Scope Z_scope.

(** [abs(binascii.crc32(data.name.encode("utf8"))) % 21 + 3], from the
    checksum of the name. *)
Definition dummy_random_const (crc32 : Z) : Z := Z.abs crc32 mod 21 + 3.

(** [tf.clip_by_value(t, lo, hi)] *)
Definition clip_by_value (t lo hi : Z) : Z := Z.min (Z.max t lo) hi.

(** The entries of the tensor in row-major order, for [int32] data:
    [rnd_diff] is what [tf.random.uniform] drew, one value per entry, and the
    entry [k] of [tf.range(0, tf.size(rnd)) + 1] is [k + 1] in [int32]. *)
Definition random_int_tensor (crc32 : Z) (rnd_diff : list Z) : list Z :=
  let c := dummy_random_const crc32 in
  imap (λ (k : nat) (r : Z),
          let rnd_diff := r mod Z.min (StepLoop.wrap32 (Z.of_nat k + 1)) (c - 2) in
          clip_by_value (c - rnd_diff) 1 c)
       rnd_diff.

(** [tf.reduce_max] of a tensor that is not empty *)
Definition reduce_max (t : list Z) : option Z :=
  match t with
  | [] => None
  | x :: rest => Some (foldr Z.max x rest)
  end.

Lemma foldr_max_bounds (x : Z) (rest : list Z) hi :
  x = hi → Forall (λ y, y ≤ hi) rest → foldr Z.max x rest = hi.
Proof.
  intros -> Hall. induction Hall as [|y rest Hy _ IH]; simpl; [done|]. lia.
Qed.

(** X11: Whatever is drawn, every entry lies between 3 and the constant [c]
    computed from the name, which is between 3 and 23; the clipping changes
    nothing; the first entry is [c]; so the largest entry of a tensor that
    is not empty is [c]. *)
Theorem random_int_tensor_max crc32 rnd_diff :
  Z.of_nat (length rnd_diff) ≤ StepLoop.int32_max →
  let c := dummy_random_const crc32 in
  3 ≤ c ≤ 23
  ∧ length (random_int_tensor crc32 rnd_diff) = length rnd_diff
  ∧ (∀ (k : nat) r, rnd_diff !! k = Some r →
       ∃ v, random_int_tensor crc32 rnd_diff !! k = Some v
            ∧ v = c - r mod Z.min (Z.of_nat k + 1) (c - 2)
            ∧ 3 ≤ v ≤ c ∧ (k = 0%nat → v = c))
  ∧ (rnd_diff ≠ [] → reduce_max (random_int_tensor crc32 rnd_diff) = Some c).
Proof.
  intros Hsize c.
  assert (3 ≤ c ≤ 23) as Hc.
  { unfold c, dummy_random_const.
    pose proof (Z.mod_pos_bound (Z.abs crc32) 21 ltac:(lia)). lia. }
  assert (∀ (k : nat) r, rnd_diff !! k = Some r →
            ∃ v, random_int_tensor crc32 rnd_diff !! k = Some v
                 ∧ v = c - r mod Z.min (Z.of_nat k + 1) (c - 2)
                 ∧ 3 ≤ v ≤ c ∧ (k = 0%nat → v = c)) as Hentry.
  { intros k r Hr. unfold random_int_tensor. fold c.
    rewrite list_lookup_imap, Hr. simpl. eexists. split; [reflexivity|].
    apply lookup_lt_Some in Hr.
    rewrite StepLoop.wrap32_id by (unfold StepLoop.int32_max in *; lia).
    pose proof (Z.mod_pos_bound r (Z.min (Z.of_nat k + 1) (c - 2)) ltac:(lia)) as Hmod.
    unfold clip_by_value. split_and!; [lia|lia|lia|].
    intros ->. change (Z.of_nat 0 + 1) with 1 in *.
    replace (Z.min 1 (c - 2)) with 1 in * by lia.
    rewrite Z.mod_1_r in *. lia. }
  split_and!; [lia|lia| |done|].
  - unfold random_int_tensor. by rewrite length_imap.
  - intros Hne. destruct rnd_diff as [|r rest]; [done|].
    assert (length (random_int_tensor crc32 (r :: rest)) = length (r :: rest)) as Hlen.
    { unfold random_int_tensor. by rewrite length_imap. }
    remember (random_int_tensor crc32 (r :: rest)) as t eqn:Et.
    destruct t as [|x xs]; [done|].
    destruct (Hentry 0%nat r eq_refl) as (v & Hv & _ & _ & Hv0).
    specialize (Hv0 eq_refl). subst v. injection Hv as ->.
    simpl. f_equal. apply foldr_max_bounds; [done|].
    apply Forall_lookup. intros j y Hy.
    destruct (lookup_lt_is_Some_2 (r :: rest) (S j)) as [r' Hr'].
    { rewrite <- Hlen. simpl. apply lookup_lt_Some in Hy. lia. }
    destruct (Hentry (S j) r' Hr') as (v & Hv & _ & Hb & _).
    simpl in Hv. rewrite Hy in Hv. injection Hv as ->. lia.
Qed.

Lemma random_int_tensor_max_witness :
  random_int_tensor 907060870 [5; 1000; 7; 123456789] = [19; 19; 18; 18]
  ∧ reduce_max (random_int_tensor 907060870 [5; 1000; 7; 123456789]) = Some 19.
Proof.
  split; [vm_compute; reflexivity|].
  apply (random_int_tensor_max 907060870 [5; 1000; 7; 123456789]); [|done].
  unfold StepLoop.int32_max. simpl. lia.
Defined.

End RandomTensor.

(** ** The previous frame of a layer computed before the loop
    ([get_prev_layer] in [_construct_input_layers_moved_out] and
    [_construct_output_layers_moved_out], [get_input_moved_out] in
    [_construct]) *)

Module PrevFrame.

Local Open Scope Z_scope.

Section Shift.

(** One frame of a layer output, and what [concat_with_opt_broadcast] makes
    of the initial output when it puts it in front of the sequence
    ([allow_broadcast] is set for it). *)
Variable Frame : Type.
Variable broadcast : Frame → Frame.

(** [get_prev_layer]: the sequence of "prev:name" outside the loop, from
    the initial output and the time-major sequence of the layer:
    [concat([initial_wt, output.placeholder], axis=0)[:-1]]. *)
Definition get_prev_layer (initial : Frame) (output : list Frame) : list Frame :=
  removelast (broadcast initial :: output).

(** [ta.read(index)] of the tensor array unstacked from the sequence; no
    value outside of it. *)
Definition ta_read (ta : list Frame) (index : Z) : option Frame :=
  if index <? 0 then None else ta !! Z.to_nat index.

(** [get_input_moved_out(name)] at step [i] of the loop: the value of a
    layer computed before the loop, or of its previous frame for a name that
    starts with "prev:". *)
Definition get_input_moved_out (prev : bool) (initial : Frame) (ta : list Frame) (i : Z)
  : option Frame :=
  if prev then
    if i =? 0 then Some initial else ta_read ta (i - 1)
  else ta_read ta i.

Lemma get_prev_layer_take initial output :
  get_prev_layer initial output = take (length output) (broadcast initial :: output).
Proof. unfold get_prev_layer. by rewrite removelast_firstn_len. Qed.

(** X12: The sequence built outside the loop has the length of the sequence of
    the layer, and its frame [i] is what the loop reads for the previous
    frame at step [i]: the initial output (broadcast) at step 0 and the frame
    [i - 1] of the layer after it.  The last frame of the layer is in no
    previous frame. *)
Theorem prev_sequence_is_shifted initial output (i : nat) :
  (i < length output)%nat →
  length (get_prev_layer initial output) = length output
  ∧ get_prev_layer initial output !! i
    = (if (i =? 0)%nat then Some (broadcast initial)
       else get_input_moved_out true initial output (Z.of_nat i))
  ∧ get_input_moved_out true initial output (Z.of_nat i)
    = (if (i =? 0)%nat then Some initial
       else get_input_moved_out false initial output (Z.of_nat i - 1)).
Proof.
  intros Hi. rewrite get_prev_layer_take. split_and!.
  - rewrite length_take. simpl. lia.
  - rewrite lookup_take_lt by done.
    destruct i as [|i]; [done|]. unfold get_input_moved_out, ta_read.
    rewrite (proj2 (Z.eqb_neq _ _)) by lia.
    rewrite (proj2 (Z.ltb_ge _ _)) by lia.
    simpl. f_equal. lia.
  - unfold get_input_moved_out. destruct i as [|i]; [done|].
    by rewrite (proj2 (Z.eqb_neq _ _)) by lia.
Qed.

End Shift.

Lemma prev_sequence_is_shifted_witness :
  get_prev_layer Z (λ x, x) 0 [10; 20; 30] = [0; 10; 20]
  ∧ get_prev_layer Z (λ x, x) 0 [10; 20; 30] !! 2%nat
    = get_input_moved_out Z true 0 [10; 20; 30] 2.
Proof.
  split; [reflexivity|].
  apply (prev_sequence_is_shifted Z (λ x, x) 0 [10; 20; 30] 2). simpl. lia.
Defined.

End PrevFrame.

(** ** The initial state of a cell and the layers it depends on
    ([RnnCellLayer.transform_initial_state] and the [visit] of
    [RnnCellLayer.get_dep_layers]) *)

Module InitialState.

Section Resolve.

(** Layers, numbers ([int], [float]), the state of the network that
    [get_layer] works on, and what [get_layer] raises. *)
Variable Layer : Type.
Variable Number : Type.
Variable St : Type.
Variable Err : Type.
Variable get_layer : string → St → (Err + Layer) * St.

(** The values that "initial_state" is made of. *)
#[local] Unset Elimination Schemes.
Inductive value : Type :=
| Str (s : string)
| Num (n : Number)
| NoneV
| Seq (items : list value)                 (* a tuple or a list *)
| Dict (items : list (string * value))     (* a dict, in the order of its items *)
| LayerV (layer : Layer)                   (* a [LayerBase] *)
| Other.                                   (* any other object *)
#[local] Set Elimination Schemes.

Inductive error : Type :=
| GetLayerError (e : Err)
| Exception (msg : string).

(** Computations that change the network and may raise. *)
Definition M (A : Type) : Type := St → (error + A) * St.

Definition ret {A : Type} (a : A) : M A := λ s, (inr a, s).

Definition bind {A B : Type} (m : M A) (k : A → M B) : M B :=
  λ s, match m s with
       | (inl e, s') => (inl e, s')
       | (inr a, s') => k a s'
       end.

(** A list comprehension [[f(x) for x in items]]. *)
Definition for_each {A B : Type} (f : A → M B) : list A → M (list B) :=
  fix go (items : list A) : M (list B) :=
    match items with
    | [] => ret []
    | x :: rest => bind (f x) (λ x', bind (go rest) (λ rest', ret (x' :: rest')))
    end.

Definition call_get_layer (name : string) : M Layer :=
  λ s, match get_layer name s with
       | (inl e, s') => (inl (GetLayerError e), s')
       | (inr layer, s') => (inr layer, s')
       end.

(** [v in ["zeros", "ones", "var", "keep_over_epoch",
    "keep_over_epoch_no_init"]] *)
Definition is_keyword (v : string) : bool :=
  bool_decide (v ∈ ["zeros"; "ones"; "var"; "keep_over_epoch"; "keep_over_epoch_no_init"]).

(** [resolve(v)] of [transform_initial_state] *)
Fixpoint resolve (v : value) : M value :=
  match v with
  | Str s =>
      if is_keyword s then ret v
      else bind (call_get_layer s) (λ layer, ret (LayerV layer))
  | Seq items => bind (for_each resolve items) (λ items', ret (Seq items'))
  | Dict items =>
      bind (for_each (λ item : string * value,
                        bind (resolve item.2) (λ x', ret (item.1, x'))) items)
           (λ items', ret (Dict items'))
  | Num _ => ret v
  | NoneV => ret v
  | LayerV _ | Other => λ s, (inl (Exception "initial_state: invalid type"), s)
  end.

Definition transform_initial_state (initial_state : value) : M value :=
  resolve initial_state.

(** [for x in items: visit(x)], with the list [ls] that [visit] appends
    to. *)
Definition visit_each {A : Type} (visit : A → list Layer → result (list Layer))
  : list A → list Layer → result (list Layer) :=
  fix go (items : list A) (ls : list Layer) : result (list Layer) :=
    match items with
    | [] => Ok ls
    | x :: rest => do ls' <- visit x ls; go rest ls'
    end.

(** [visit(s)] of [get_dep_layers] *)
Fixpoint visit (s : value) (ls : list Layer) : result (list Layer) :=
  match s with
  | Seq items => visit_each visit items ls
  | Dict items => visit_each (λ item : string * value, visit item.2) items ls
  | LayerV layer => Ok (ls ++ [layer])
  | Str _ | Num _ | NoneV => Ok ls
  | Other => Raise (AssertionError "isinstance(s, (str, int, float, type(None)))")
  end.

(** [get_dep_layers], apart from the dependencies of the base class. *)
Definition initial_state_deps (initial_state : value) : result (list Layer) :=
  visit initial_state [].

(** The layer names in a value, in the order of [nest.flatten]. *)
Fixpoint layer_names (v : value) : list string :=
  match v with
  | Str s => if is_keyword s then [] else [s]
  | Seq items => flat_map layer_names items
  | Dict items => flat_map (λ item : string * value, layer_names item.2) items
  | _ => []
  end.

(** A value as a config gives it: strings, numbers, [None], and sequences
    and dicts of these. *)
Fixpoint from_config (v : value) : bool :=
  match v with
  | Str _ | Num _ | NoneV => true
  | Seq items => forallb from_config items
  | Dict items => forallb (λ item : string * value, from_config item.2) items
  | LayerV _ | Other => false
  end.

Definition fill_each {A : Type} (fill : A → list Layer → A * list Layer)
  : list A → list Layer → list A * list Layer :=
  fix go (items : list A) (layers : list Layer) : list A * list Layer :=
    match items with
    | [] => ([], layers)
    | x :: rest =>
        let rx := fill x layers in
        let rr := go rest rx.2 in
        (rx.1 :: rr.1, rr.2)
    end.

(** The value with each layer name replaced by a layer, the layers taken
    from the list in order; the layers left over are returned with it. *)
Fixpoint fill (v : value) (layers : list Layer) : value * list Layer :=
  match v with
  | Str s =>
      if is_keyword s then (v, layers)
      else match layers with
           | layer :: rest => (LayerV layer, rest)
           | [] => (v, [])
           end
  | Seq items =>
      let r := fill_each fill items layers in (Seq r.1, r.2)
  | Dict items =>
      let r := fill_each (λ (item : string * value) layers,
                            let rx := fill item.2 layers in ((item.1, rx.1), rx.2))
                 items layers in
      (Dict r.1, r.2)
  | _ => (v, layers)
  end.

(** [get_layer] for each name in turn. *)
Definition get_layers (names : list string) : M (list Layer) :=
  for_each call_get_layer names.

(** *** Induction over values *)

Lemma value_induction (P : value → Prop) :
  (∀ s, P (Str s)) → (∀ n, P (Num n)) → P NoneV →
  (∀ items, Forall P items → P (Seq items)) →
  (∀ items, Forall (λ item : string * value, P item.2) items → P (Dict items)) →
  (∀ layer, P (LayerV layer)) → P Other →
  ∀ v, P v.
Proof.
  intros HStr HNum HNone HSeq HDict HLayer HOther.
  fix IH 1.
  intros [s|n| |items|items|layer|];
    [apply HStr|apply HNum|apply HNone| | |apply HLayer|apply HOther].
  - apply HSeq. induction items as [|x rest IHl]; constructor; [apply IH|exact IHl].
  - apply HDict. induction items as [|[k x] rest IHl]; constructor; [apply IH|exact IHl].
Qed.

Lemma get_layers_app names1 names2 s :
  get_layers (names1 ++ names2) s =
  bind (get_layers names1) (λ l1, bind (get_layers names2) (λ l2, ret (l1 ++ l2))) s.
Proof.
  unfold get_layers.
  revert s. induction names1 as [|n rest IH]; intros s; simpl; unfold bind, ret in *.
  - destruct (for_each call_get_layer names2 s) as [[e|l] s']; done.
  - destruct (call_get_layer n s) as [[e|layer] s1]; [done|]. rewrite IH.
    destruct (for_each call_get_layer rest s1) as [[e|l1] s2]; [done|].
    destruct (for_each call_get_layer names2 s2) as [[e|l2] s3]; done.
Qed.

Lemma bind_raises {A B : Type} (m : M A) (k : A → M B) s e s' :
  m s = (inl e, s') → bind m k s = (inl e, s').
Proof. intros Hm. unfold bind. by rewrite Hm. Qed.

Lemma bind_returns {A B : Type} (m : M A) (k : A → M B) s a s' :
  m s = (inr a, s') → bind m k s = k a s'.
Proof. intros Hm. unfold bind. by rewrite Hm. Qed.

(** *** What [resolve] does, given the layers that [get_layer] returns *)

Section Spec.

Context {A : Type}.
Variable resolveA : A → M A.
Variable namesA : A → list string.
Variable fillA : A → list Layer → A * list Layer.
Variable visitA : A → list Layer → result (list Layer).

Definition spec (a : A) : Prop :=
  ∀ s,
    match get_layers (namesA a) s with
    | (inl e, s') => resolveA a s = (inl e, s')
    | (inr layers, s') =>
        ∀ more, resolveA a s = (inr (fillA a (layers ++ more)).1, s')
                ∧ (fillA a (layers ++ more)).2 = more
                ∧ ∀ ls, visitA (fillA a (layers ++ more)).1 ls = Ok (ls ++ layers)
    end.

End Spec.

Lemma spec_each {A : Type} (resolveA : A → M A) namesA fillA visitA (items : list A) :
  Forall (spec resolveA namesA fillA visitA) items →
  spec (for_each resolveA) (flat_map namesA) (fill_each fillA) (visit_each visitA) items.
Proof.
  intros Hall. induction Hall as [|x rest Hx _ IH]; intros s.
  { cbn. intros more. split_and!; [done|done|]. intros ls. by rewrite app_nil_r. }
  cbn [flat_map]. rewrite get_layers_app. specialize (Hx s).
  cbn [for_each fill_each visit_each]. unfold bind, ret in *.
  destruct (get_layers (namesA x) s) as [[e|lx] s1]; [by rewrite Hx|].
  specialize (IH s1). unfold bind, ret in *.
  destruct (get_layers (flat_map namesA rest) s1) as [[e|lr] s2].
  { destruct (Hx []) as (-> & _). by rewrite IH. }
  intros more. rewrite <- app_assoc.
  destruct (Hx (lr ++ more)) as (-> & Hfx & Hvx).
  destruct (IH more) as (Hrr & Hfr & Hvr). rewrite Hrr, Hfx.
  split_and!; [done|done|].
  intros ls. cbn [fst visit_each]. rewrite Hvx. cbn [result_bind]. rewrite Hvr.
  by rewrite app_assoc.
Qed.

Lemma spec_resolve v :
  from_config v = true → spec resolve layer_names fill visit v.
Proof.
  induction v as [s|n| |items IH|items IH|layer|] using value_induction; intros Hcfg.
  - intros s0. cbn [layer_names resolve fill visit]. destruct (is_keyword s).
    + cbn. intros more. split_and!; [done|done|]. intros ls. by rewrite app_nil_r.
    + cbn. unfold bind, ret. destruct (call_get_layer s s0) as [[e|layer] s1]; [done|].
      intros more. done.
  - intros s0. cbn. intros more. split_and!; [done|done|]. intros ls. by rewrite app_nil_r.
  - intros s0. cbn. intros more. split_and!; [done|done|]. intros ls. by rewrite app_nil_r.
  - cbn [from_config] in Hcfg.
    assert (Forall (spec resolve layer_names fill visit) items) as Hall.
    { apply Forall_forall. intros x Hx. apply (proj1 (Forall_forall _ _) IH x Hx).
      rewrite forallb_forall in Hcfg. apply Hcfg. by apply list_elem_of_In. }
    pose proof (spec_each _ _ _ _ _ Hall) as Hspec. intros s. specialize (Hspec s).
    cbn [layer_names resolve fill visit].
    destruct (get_layers (flat_map layer_names items) s) as [[e|layers] s'];
      [by apply bind_raises|].
    intros more. destruct (Hspec more) as (Hr & Hf & Hv).
    rewrite (bind_returns _ _ _ _ _ Hr). done.
  - cbn [from_config] in Hcfg.
    assert (Forall (spec (λ item : string * value,
                            bind (resolve item.2) (λ x', ret (item.1, x')))
                         (λ item, layer_names item.2)
                         (λ item layers,
                            let rx := fill item.2 layers in ((item.1, rx.1), rx.2))
                         (λ item, visit item.2)) items) as Hall.
    { apply Forall_forall. intros [k x] Hx.
      assert (spec resolve layer_names fill visit x) as Hsx.
      { apply (proj1 (Forall_forall _ _) IH (k, x) Hx).
        rewrite forallb_forall in Hcfg. apply (Hcfg (k, x)). by apply list_elem_of_In. }
      intros s. specialize (Hsx s). cbn [fst snd].
      destruct (get_layers (layer_names x) s) as [[e|layers] s']; [by apply bind_raises|].
      intros more. destruct (Hsx more) as (Hr & Hf & Hv).
      rewrite (bind_returns _ _ _ _ _ Hr). done. }
    pose proof (spec_each _ _ _ _ _ Hall) as Hspec. intros s. specialize (Hspec s).
    cbn [layer_names resolve fill visit].
    destruct (get_layers _ s) as [[e|layers] s']; [by apply bind_raises|].
    intros more. destruct (Hspec more) as (Hr & Hf & Hv).
    rewrite (bind_returns _ _ _ _ _ Hr). done.
  - done.
  - done.
Qed.

(** X13: On a value from a config, [transform_initial_state] calls [get_layer]
    for the layer names in it, once each and in the order of the flattened
    value, and for nothing else.  If one of the calls raises, so does
    [transform_initial_state], with the network as that call left it.
    Otherwise it returns the value with the layers in the places of their
    names, and the [visit] of [get_dep_layers] on this value raises nothing and
    finds exactly these layers, in this order. *)
Theorem resolved_layers_are_dependencies initial_state s :
  from_config initial_state = true →
  match get_layers (layer_names initial_state) s with
  | (inl e, s') => transform_initial_state initial_state s = (inl e, s')
  | (inr layers, s') =>
      transform_initial_state initial_state s = (inr (fill initial_state layers).1, s')
      ∧ initial_state_deps (fill initial_state layers).1 = Ok layers
  end.
Proof.
  intros Hcfg. pose proof (spec_resolve initial_state Hcfg s) as Hspec.
  unfold transform_initial_state, initial_state_deps.
  destruct (get_layers (layer_names initial_state) s) as [[e|layers] s']; [done|].
  destruct (Hspec []) as (Hr & _ & Hv). rewrite app_nil_r in *. split; [done|].
  by rewrite Hv.
Qed.

End Resolve.

(** An LSTM state given by a dict: the cell state from a layer, the hidden
    state zero.  Layers are numbered in the order in which [get_layer] makes
    them. *)
Definition example_get_layer (name : string) (made : list string)
  : (unit + nat) * list string :=
  (inr (length made), made ++ [name]).

Definition example_initial_state : value nat Z :=
  Dict nat Z [("c", Seq nat Z [Str nat Z "enc_state"; Str nat Z "zeros"]);
              ("h", Str nat Z "base:init_h")].

Lemma resolved_layers_are_dependencies_witness :
  transform_initial_state nat Z (list string) unit example_get_layer
    example_initial_state []
  = (inr (Dict nat Z [("c", Seq nat Z [LayerV nat Z 0; Str nat Z "zeros"]);
                      ("h", LayerV nat Z 1)]),
     ["enc_state"; "base:init_h"])
  ∧ initial_state_deps nat Z
      (Dict nat Z [("c", Seq nat Z [LayerV nat Z 0; Str nat Z "zeros"]);
                   ("h", LayerV nat Z 1)])
    = Ok [0; 1].
Proof.
  exact (resolved_layers_are_dependencies nat Z (list string) unit example_get_layer
           example_initial_state [] eq_refl).
Defined.

End InitialState.

(** ** Masked computation and its inverse
    ([MaskedComputationLayer] and [UnmaskLayer]) *)

Module Masking.

Local Open Scope Z_scope.

(** A time-major tensor of shape [[T,B]] (or [[T,B,D]], with the feature
    axis inside the entries) is the list of its [T] rows, a row the list of its
    [B] entries. *)
Definition entry {A : Type} (x : list (list A)) (t b : nat) : option A :=
  x !! t ≫= (λ row, row !! b).

Definition shaped {A : Type} (x : list (list A)) (T B : nat) : Prop :=
  length x = T ∧ Forall (λ row, length row = B) x.

(** [tf.cast(mask, tf.int32)] *)
Definition cast (m : bool) : Z := if m then 1 else 0.

(** [tf.cumsum(x, axis=0)] of an int32 tensor *)
Fixpoint cumsum_from (acc : list Z) (x : list (list Z)) : list (list Z) :=
  match x with
  | [] => []
  | row :: rest =>
      let acc' := zip_with (λ a v, StepLoop.wrap32 (a + v)) acc row in
      acc' :: cumsum_from acc' rest
  end.

Definition cumsum (x : list (list Z)) : list (list Z) :=
  match x with
  | [] => []
  | row :: rest => row :: cumsum_from row rest
  end.

(** [tf.gather_nd(params, nd_indices(idxs))] for one row of indices: the
    entry for batch entry [b] is [params[idxs[b], b]].  An index out of range
    is an error, as on CPU. *)
Fixpoint gather_row {A : Type} (params : list (list A)) (b : nat) (idxs : list Z)
  : option (list A) :=
  match idxs with
  | [] => Some []
  | k :: rest =>
      y ← (if k <? 0 then None else entry params (Z.to_nat k) b);
      ys ← gather_row params (S b) rest;
      Some (y :: ys)
  end.

(** The same for indices of shape [[T,B]]. *)
Definition gather_nd {A : Type} (params : list (list A)) (idxs : list (list Z))
  : option (list (list A)) :=
  mapM (gather_row params 0) idxs.

Section Unmask.

(** What a tensor holds for one time step and one batch entry. *)
Variable Frame : Type.

(** *** [UnmaskLayer] *)

(** Outside the loop: [src] is [[T',B]], [mask] is [[T,B]], [initial] is
    [[B]].
<<
idxs = tf.cumsum(tf.cast(mask_t, tf.int32), axis=mask_out.time_dim_axis)
src_t = concat_with_opt_broadcast([initial_wt, src.placeholder], ..., axis=0)
y = tf.gather_nd(src_t, nd_indices(idxs, batch_axis=src.batch_dim_axis))
>> *)
Definition unmask_outside (initial : list Frame) (src : list (list Frame))
    (mask : list (list bool)) : option (list (list Frame)) :=
  let idxs := cumsum (map (map cast) mask) in
  let src_t := initial :: src in
  gather_nd src_t idxs.

(** Inside the loop, for a source that was computed before the loop: one
    step, from the state ["t"] of the previous step and the mask [[B]] of
    this step, to the new state and the output.
<<
t = prev_t + tf.cast(mask_out.placeholder, tf.int32)
idxs_nd = nd_indices(tf.maximum(t, 0), ...)
y = tf.gather_nd(src.placeholder, idxs_nd)
y = where_bc(tf.equal(t, -1)[:, None], initial, y)
>> *)
Definition unmask_step (initial : list Frame) (src : list (list Frame))
    (prev_t : list Z) (mask : list bool) : option (list Z * list Frame) :=
  let t := zip_with (λ p m, StepLoop.wrap32 (p + cast m)) prev_t mask in
  y ← gather_row src 0 (Z.max 0 <$> t);
  Some (t, zip_with (λ '(tb, i) yb, if tb =? -1 then i else yb) (zip t initial) y).

(** The outputs of the steps of the loop, one per row of the mask. *)
Fixpoint unmask_loop (initial : list Frame) (src : list (list Frame))
    (prev_t : list Z) (mask : list (list bool)) : option (list (list Frame)) :=
  match mask with
  | [] => Some []
  | row :: rest =>
      r ← unmask_step initial src prev_t row;
      ys ← unmask_loop initial src r.1 rest;
      Some (r.2 :: ys)
  end.

(** [get_rec_initial_extra_outputs]: the state starts at [-1]. *)
Definition unmask_initial_t (batch_dim : nat) : list Z :=
  (λ z, z - 1) <$> replicate batch_dim 0.

Definition unmask_in_loop (batch_dim : nat) (initial : list Frame) (src : list (list Frame))
    (mask : list (list bool)) : option (list (list Frame)) :=
  unmask_loop initial src (unmask_initial_t batch_dim) mask.

(** One row: what the step of the loop gathers is what is gathered outside
    of the loop with the index one higher, from the source with the initial
    output in front. *)
Lemma unmask_row_agree (initial : list Frame) src T' B (t : list Z) b0 init_tail :
  shaped src T' B → (0 < T')%nat →
  Forall (λ tb, -1 ≤ tb) t →
  length init_tail = length t →
  (∀ i, init_tail !! i = initial !! (b0 + i)%nat) →
  (b0 + length t ≤ B)%nat →
  (y ← gather_row src b0 (Z.max 0 <$> t);
   Some (zip_with (λ '(tb, i) yb, if tb =? -1 then i else yb) (zip t init_tail) y))
  = gather_row (initial :: src) b0 (Z.succ <$> t).
Proof.
  intros [HT Hrows] HT'. revert b0 init_tail.
  induction t as [|tb t IH]; intros b0 init_tail Hlow Hlen Hinit Hb; [done|].
  destruct init_tail as [|i0 init_tail]; [done|].
  apply Forall_cons in Hlow as [Htb Hlow]. simpl in Hlen, Hb.
  pose proof (Hinit 0%nat) as Hi0. simpl in Hi0. rewrite Nat.add_0_r in Hi0.
  specialize (IH (S b0) init_tail Hlow ltac:(lia)).
  assert (∀ i, init_tail !! i = initial !! (S b0 + i)%nat) as Hinit'.
  { intros i. specialize (Hinit (S i)). simpl in Hinit. rewrite Hinit. f_equal. lia. }
  specialize (IH Hinit' ltac:(lia)).
  cbn [fmap list_fmap gather_row]. fold (fmap (M:=list) (Z.max 0)) (fmap (M:=list) Z.succ).
  rewrite (proj2 (Z.ltb_ge _ _)) by lia. rewrite (proj2 (Z.ltb_ge _ _)) by lia.
  destruct (decide (tb = -1)) as [->|Hne].
  - change (Z.to_nat (Z.max 0 (-1))) with 0%nat. change (Z.to_nat (Z.succ (-1))) with 0%nat.
    unfold entry at 2. simpl. rewrite <- Hi0. simpl.
    assert (is_Some (entry src 0 b0)) as [y Hy].
    { unfold entry. destruct src as [|row src]; [simpl in HT; lia|]. simpl.
      apply Forall_cons in Hrows as [Hrow _]. apply lookup_lt_is_Some. lia. }
    rewrite Hy. simpl. rewrite <- IH.
    destruct (gather_row src (S b0) (Z.max 0 <$> t)); done.
  - replace (Z.to_nat (Z.succ tb)) with (S (Z.to_nat (Z.max 0 tb))) by lia.
    unfold entry at 2. simpl. fold (entry src (Z.to_nat (Z.max 0 tb)) b0).
    destruct (entry src (Z.to_nat (Z.max 0 tb)) b0) as [y|]; [|done]. simpl.
    rewrite <- IH. destruct (gather_row src (S b0) (Z.max 0 <$> t)); [|done]. simpl.
    by rewrite (proj2 (Z.eqb_neq _ _)) by lia.
Qed.

(** The state of the loop and the running sum outside of it. *)
Lemma unmask_state_agree (t : list Z) (row : list bool) n :
  Forall (λ tb, -1 ≤ tb ≤ n - 1) t → n < StepLoop.int32_max →
  zip_with (λ a v, StepLoop.wrap32 (a + v)) (Z.succ <$> t) (cast <$> row)
  = Z.succ <$> zip_with (λ p m, StepLoop.wrap32 (p + cast m)) t row
  ∧ Forall (λ tb, -1 ≤ tb ≤ n) (zip_with (λ p m, StepLoop.wrap32 (p + cast m)) t row).
Proof.
  intros Ht Hn. revert row. induction Ht as [|tb t Htb _ IH]; intros [|m row]; try done.
  destruct (IH row) as [IH1 IH2]. rewrite !fmap_cons. cbn [zip_with]. rewrite IH1.
  assert (0 ≤ cast m ≤ 1) by (destruct m; simpl; lia).
  rewrite !StepLoop.wrap32_id by (unfold StepLoop.int32_max in *; lia).
  rewrite fmap_cons. split; [f_equal; lia|]. constructor; [lia|done].
Qed.

Lemma unmask_loop_agree (initial : list Frame) src T' B mask T (t : list Z) n :
  shaped src T' B → (0 < T')%nat → shaped mask T B →
  length initial = B → length t = B →
  Forall (λ tb, -1 ≤ tb ≤ n - 1) t → n + Z.of_nat T ≤ StepLoop.int32_max →
  unmask_loop initial src t mask
  = gather_nd (initial :: src) (cumsum_from (Z.succ <$> t) (map (map cast) mask)).
Proof.
  intros Hsrc HT' [HT Hrows] Hinit. revert T HT t n.
  induction Hrows as [|row mask Hrow _ IH]; intros T HT t n Ht Hlow Hn; [done|].
  simpl in HT. cbn [unmask_loop map cumsum_from gather_nd mapM]. unfold unmask_step.
  destruct (unmask_state_agree t row n Hlow ltac:(lia)) as [Hacc Hlow'].
  change (map cast row) with (cast <$> row). rewrite Hacc.
  set (t' := zip_with (λ p m, StepLoop.wrap32 (p + cast m)) t row) in *.
  assert (length t' = B) as Ht'.
  { unfold t'. rewrite length_zip_with. lia. }
  pose proof (unmask_row_agree initial src T' B t' 0 initial Hsrc HT') as Hr.
  rewrite <- Hr; [|by eapply Forall_impl; [exact Hlow'|]; simpl; lia|lia|done|simpl; lia].
  destruct (gather_row src 0 (Z.max 0 <$> t')) as [y|]; [|done]. cbn [mbind option_bind fst snd].
  rewrite (IH (T - 1)%nat ltac:(lia) t' (n + 1) Ht');
    [|by eapply Forall_impl; [exact Hlow'|]; simpl; lia|lia].
  done.
Qed.

Lemma cumsum_from_zero (x : list (list bool)) T B :
  shaped x T B →
  cumsum (map (map cast) x) = cumsum_from (replicate B 0) (map (map cast) x).
Proof.
  intros [_ Hrows]. destruct Hrows as [|row x Hrow _]; [done|].
  cbn [map cumsum cumsum_from].
  assert (zip_with (λ a v, StepLoop.wrap32 (a + v)) (replicate B 0) (map cast row)
          = map cast row) as ->; [|done].
  subst B. clear. induction row as [|m row IH]; [done|]. simpl. rewrite IH. f_equal.
  destruct m; done.
Qed.

End Unmask.

Arguments unmask_outside {Frame} initial src mask.
Arguments unmask_step {Frame} initial src prev_t mask.
Arguments unmask_loop {Frame} initial src prev_t mask.
Arguments unmask_in_loop {Frame} batch_dim initial src mask.

Lemma gather_row_intro {A : Type} (params : list (list A)) (idxs : list Z) (b0 : nat) ys :
  length ys = length idxs →
  (∀ i k, idxs !! i = Some k →
     0 ≤ k ∧ is_Some (ys !! i) ∧ entry params (Z.to_nat k) (b0 + i) = ys !! i) →
  gather_row params b0 idxs = Some ys.
Proof.
  revert b0 ys. induction idxs as [|k idxs IH]; intros b0 ys Hlen H.
  { by destruct ys. }
  destruct ys as [|y ys]; [done|]. simpl in Hlen.
  destruct (H 0%nat k eq_refl) as (Hk & _ & He). rewrite Nat.add_0_r in He. simpl in He.
  cbn [gather_row]. rewrite (proj2 (Z.ltb_ge _ _)) by lia. rewrite He. simpl.
  rewrite (IH (S b0) ys); [done|lia|].
  intros i k' Hk'. specialize (H (S i) k' Hk'). simpl in H.
  by replace (S b0 + i)%nat with (b0 + S i)%nat by lia.
Qed.

(** *** [MaskedComputationLayer] *)

(** [where_bc(condition, x, y)] with a scalar [y] *)
Definition where_bc_scalar {A : Type} (condition : list (list bool)) (x : list (list A)) (y : A)
  : list (list A) :=
  zip_with (zip_with (λ (c : bool) xv, if c then xv else y)) condition x.

(** [tf.reduce_max] of an int32 vector *)
Definition reduce_max (l : list Z) : Z := foldr Z.max (- 2 ^ 31) l.

(** [where_bc(condition, x, y)] for the batch entries of one step *)
Definition where_bc_step {A : Type} (condition : list bool) (x y : list A) : list A :=
  zip_with (λ (c : bool) (xy : A * A), if c then xy.1 else xy.2) condition (zip x y).

Section Masked.

Variable Frame : Type.

(** [tf.scatter_nd] starts from zeros and adds the updates. *)
Variable zero : Frame.
Variable add : Frame → Frame → Frame.
Hypothesis add_zero_l : ∀ x, add zero x = x.

(** Entry [(i, b)] of [tf.scatter_nd(nd_indices(idxs, batch_axis=1), updates,
    shape)]: the sum of the updates [(t, b)] with [idxs[t, b] = i]. *)
Definition scatter_entry (idxs : list (list Z)) (updates : list (list Frame)) (i b : nat)
  : Frame :=
  foldl (λ acc (r : list Z * list Frame),
           match r.1 !! b, r.2 !! b with
           | Some k, Some u => if k =? Z.of_nat i then add acc u else acc
           | _, _ => acc
           end)
        zero (zip idxs updates).

(** [tf.scatter_nd] for the shape [[n, B]]; an index out of range is an
    error, as on CPU. *)
Definition scatter_nd (idxs : list (list Z)) (updates : list (list Frame)) (n B : nat)
  : option (list (list Frame)) :=
  if forallb (forallb (λ k, (0 <=? k) && (k <? Z.of_nat n))) idxs
  then Some ((λ i, (λ b, scatter_entry idxs updates i b) <$> seq 0 B) <$> seq 0 n)
  else None.

(** [get_masked_layer(source)] outside of the loop, with what [__init__]
    computes from the mask before it, for no [masked_from]: the new sequence
    lengths and the masked source.  [mask] and [source] are [[T,B]],
    [sequence_mask] is [mask_data.get_sequence_mask()], [B] is the batch
    dimension in the shape of the source.
<<
mask_t = where_bc(mask_data.placeholder, mask_data.get_sequence_mask(), tf.convert_to_tensor(False))
idxs = tf.cumsum(tf.cast(mask_t, tf.int32), axis=0)
new_size = idxs[-1]
new_time = tf.reduce_max(new_size)
idxs = where_bc(mask_t, idxs - 1, new_time)
...
tmp_shape[0] = new_time + 1
res = tf.scatter_nd(nd_indices(idxs, batch_axis=1), source_data.placeholder, shape=tmp_shape)
res_data.size_placeholder[0] = new_size
res_data.placeholder = res[:new_time]
>> *)
Definition mask_in_seq (mask sequence_mask : list (list bool)) : list (list bool) :=
  zip_with (zip_with (λ (c : bool) xv, if c then xv else false)) mask sequence_mask.

Definition get_masked_layer (mask sequence_mask : list (list bool))
    (source : list (list Frame)) (B : nat) : option (list Z * list (list Frame)) :=
  let mask_t := mask_in_seq mask sequence_mask in
  let idxs := cumsum (map (map cast) mask_t) in
  new_size ← last idxs;
  let new_time := reduce_max new_size in
  let idxs := where_bc_scalar mask_t (map (map (λ k, StepLoop.wrap32 (k - 1))) idxs) new_time in
  let n := StepLoop.wrap32 (new_time + 1) in
  if n <? 0 then None
  else
    res ← scatter_nd idxs source (Z.to_nat n) B;
    Some (new_size, take (Z.to_nat new_time) res).

(** Inside the loop, with a unit that computes its output frame by frame:
    the output of one step is the output of the unit where the mask is set
    and the previous output elsewhere.
<<
self.output.placeholder = where_bc(condition=tf.reshape(mask_t, ...), x=self.output.placeholder, y=prev_out.placeholder)
self.rec_vars_outputs["_output"] = self.output.placeholder
>> *)
Variable unit : Frame → Frame.

Fixpoint masked_loop (prev_out : list Frame) (mask : list (list bool))
    (source : list (list Frame)) : list (list Frame) :=
  match mask, source with
  | mask_t :: mask', x :: source' =>
      let output := where_bc_step mask_t (unit <$> x) prev_out in
      output :: masked_loop output mask' source'
  | _, _ => []
  end.

(** *** The frames that a mask selects *)

(** Whether the mask is set for batch entry [b] in a row. *)
Definition set_at (row : list bool) (b : nat) : bool :=
  match row !! b with Some true => true | _ => false end.

(** The number of frames with the mask set, for batch entry [b]. *)
Fixpoint count (mask : list (list bool)) (b : nat) : nat :=
  match mask with
  | [] => 0
  | row :: rest => ((if set_at row b then 1 else 0) + count rest b)%nat
  end.

(** The frames of batch entry [b] with the mask set, in their order. *)
Fixpoint selected (mask : list (list bool)) (source : list (list Frame)) (b : nat)
  : list Frame :=
  match mask, source with
  | row :: mask', x :: source' =>
      match x !! b with
      | Some xb => if set_at row b then xb :: selected mask' source' b
                   else selected mask' source' b
      | None => selected mask' source' b
      end
  | _, _ => []
  end.

Lemma zip_with_shaped {A B' C : Type} (f : A → B' → C) x y (T B : nat) :
  shaped x T B → shaped y T B → shaped (zip_with (zip_with f) x y) T B.
Proof.
  intros [Hx Hxr] [Hy Hyr]. split; [rewrite length_zip_with; lia|].
  apply Forall_lookup. intros t row Ht.
  apply lookup_zip_with_Some in Ht as (xr & yr & -> & Hxt & Hyt).
  rewrite length_zip_with.
  rewrite (proj1 (Forall_lookup _ _) Hxr _ _ Hxt), (proj1 (Forall_lookup _ _) Hyr _ _ Hyt). lia.
Qed.

Lemma map_shaped {A C : Type} (f : A → C) x (T B : nat) :
  shaped x T B → shaped (map (map f) x) T B.
Proof.
  intros [Hx Hxr]. split; [by rewrite length_map|].
  apply Forall_lookup. intros t row Ht. change (map (map f) x) with (map f <$> x) in Ht.
  rewrite list_lookup_fmap in Ht. destruct (x !! t) as [xr|] eqn:E; [|done].
  injection Ht as <-. rewrite length_map. exact (proj1 (Forall_lookup _ _) Hxr _ _ E).
Qed.

Lemma shaped_entry {A : Type} (x : list (list A)) (T B t b : nat) :
  shaped x T B → (t < T)%nat → (b < B)%nat → is_Some (entry x t b).
Proof.
  intros [Hx Hxr] Ht Hb. unfold entry.
  destruct (lookup_lt_is_Some_2 x t ltac:(lia)) as [row Hrow]. rewrite Hrow. simpl.
  apply lookup_lt_is_Some. rewrite (proj1 (Forall_lookup _ _) Hxr _ _ Hrow). done.
Qed.

Lemma count_take_le mask b n : (count (take n mask) b ≤ count mask b)%nat.
Proof.
  revert n. induction mask as [|row mask IH]; intros [|n]; simpl; try lia.
  specialize (IH n). lia.
Qed.

Lemma count_take_set mask b t row :
  mask !! t = Some row →
  count (take (S t) mask) b = ((if set_at row b then 1 else 0) + count (take t mask) b)%nat.
Proof.
  revert t. induction mask as [|r mask IH]; intros [|t] Hrow; try done.
  - injection Hrow as ->. simpl. destruct mask; simpl; lia.
  - simpl in Hrow. specialize (IH t Hrow). cbn [take count] in *. lia.
Qed.

(** The running sum of a mask counts the frames with the mask set. *)
Lemma cumsum_from_entry (mask : list (list bool)) B acc (c0 t b : nat) :
  Forall (λ row, length row = B) mask →
  acc !! b = Some (Z.of_nat c0) →
  Z.of_nat c0 + Z.of_nat (length mask) ≤ StepLoop.int32_max →
  (t < length mask)%nat → (b < B)%nat →
  entry (cumsum_from acc (map (map cast) mask)) t b
  = Some (Z.of_nat (c0 + count (take (S t) mask) b)).
Proof.
  intros Hrows. revert acc c0 t.
  induction Hrows as [|row mask Hrow _ IH]; intros acc c0 t Hacc Hmax Ht Hb;
    [simpl in Ht; lia|].
  cbn [map cumsum_from]. simpl in Hmax.
  destruct (lookup_lt_is_Some_2 row b ltac:(lia)) as [m Hm].
  set (acc' := zip_with (λ a v, StepLoop.wrap32 (a + v)) acc (map cast row)).
  assert (acc' !! b = Some (Z.of_nat (c0 + (if set_at row b then 1 else 0)))) as Hacc'.
  { unfold acc'. apply lookup_zip_with_Some. eexists _, _. split; [|split; [exact Hacc|]].
    2: { change (map cast row) with (cast <$> row). by rewrite list_lookup_fmap, Hm. }
    unfold set_at. rewrite Hm.
    rewrite StepLoop.wrap32_id by (unfold StepLoop.int32_max in *; destruct m; simpl; lia).
    destruct m; simpl; lia. }
  cbn [take count].
  set (bit := if set_at row b then 1%nat else 0%nat) in *.
  assert (bit ≤ 1)%nat as Hbit by (unfold bit; destruct (set_at row b); lia).
  clearbody bit. destruct t as [|t].
  - unfold entry. simpl. rewrite Hacc'. f_equal. f_equal.
    destruct mask; simpl; lia.
  - unfold entry. simpl. fold (entry (cumsum_from acc' (map (map cast) mask)) t b).
    rewrite (IH acc' _ t Hacc'); [|lia|simpl in Ht; lia|done].
    f_equal. f_equal. cbn [take count]. lia.
Qed.

Lemma cumsum_entry (mask : list (list bool)) (T B t b : nat) :
  shaped mask T B → Z.of_nat T ≤ StepLoop.int32_max → (t < T)%nat → (b < B)%nat →
  entry (cumsum (map (map cast) mask)) t b = Some (Z.of_nat (count (take (S t) mask) b)).
Proof.
  intros Hmask HT Ht Hb. rewrite (cumsum_from_zero mask T B Hmask). destruct Hmask as [Hlen Hrows].
  rewrite (cumsum_from_entry mask B _ 0 t b Hrows); [done| |simpl; lia|lia|done].
  by apply lookup_replicate_2.
Qed.

Lemma cumsum_from_shaped acc (x : list (list Z)) (T B : nat) :
  length acc = B → shaped x T B → shaped (cumsum_from acc x) T B.
Proof.
  intros Hacc [Hlen Hrows]. revert T Hlen acc Hacc.
  induction Hrows as [|row x Hrow _ IH]; intros T Hlen acc Hacc; [done|].
  simpl in Hlen. cbn [cumsum_from].
  assert (length (zip_with (λ a v, StepLoop.wrap32 (a + v)) acc row) = B) as Hacc'.
  { rewrite length_zip_with. lia. }
  destruct (IH (T - 1)%nat ltac:(lia) _ Hacc') as [Hl Hr].
  split; [simpl; lia|]. by constructor.
Qed.

Lemma cumsum_shaped (mask : list (list bool)) (T B : nat) :
  shaped mask T B → shaped (cumsum (map (map cast) mask)) T B.
Proof.
  intros Hmask. rewrite (cumsum_from_zero mask T B Hmask).
  apply cumsum_from_shaped; [by rewrite length_replicate|by apply map_shaped].
Qed.

Lemma entry_zip_with {A B' C : Type} (f : A → B' → C) x y (t b : nat) :
  entry (zip_with (zip_with f) x y) t b
  = (a ← entry x t b; c ← entry y t b; Some (f a c)).
Proof.
  unfold entry. rewrite lookup_zip_with.
  destruct (x !! t) as [xr|]; [|done]. simpl.
  destruct (y !! t) as [yr|]; simpl; [|by destruct (xr !! b)].
  rewrite lookup_zip_with. done.
Qed.

Lemma entry_map {A C : Type} (f : A → C) x (t b : nat) :
  entry (map (map f) x) t b = f <$> entry x t b.
Proof.
  unfold entry. change (map (map f) x) with (map f <$> x). rewrite list_lookup_fmap.
  destruct (x !! t) as [xr|]; [|done]. simpl.
  change (map f xr) with (f <$> xr). by rewrite list_lookup_fmap.
Qed.

Lemma forallb_entries (P : Z → bool) (idxs : list (list Z)) :
  (∀ t b k, entry idxs t b = Some k → P k = true) →
  forallb (forallb P) idxs = true.
Proof.
  intros H. apply forallb_forall. intros row Hrow. apply forallb_forall. intros k Hk.
  apply list_elem_of_In, list_elem_of_lookup_1 in Hrow as [t Ht].
  apply list_elem_of_In, list_elem_of_lookup_1 in Hk as [b Hb].
  apply (H t b). unfold entry. by rewrite Ht.
Qed.

Lemma count_le_length mask b : (count mask b ≤ length mask)%nat.
Proof. induction mask as [|row mask IH]; simpl; [lia|]. destruct (set_at row b); lia. Qed.

Lemma reduce_max_upper (l : list Z) : Forall (λ x, x ≤ reduce_max l) l.
Proof.
  induction l as [|x l IH]; [done|]. unfold reduce_max in *. simpl. constructor; [lia|].
  eapply Forall_impl; [exact IH|]. simpl. lia.
Qed.

Lemma reduce_max_elem (l : list Z) :
  l ≠ [] → Forall (λ x, - 2 ^ 31 ≤ x) l → reduce_max l ∈ l.
Proof.
  intros Hne Hlow. induction Hlow as [|x l Hx Hl IH]; [done|]. unfold reduce_max in *. simpl.
  destruct l as [|y l]; [simpl; rewrite Z.max_l by lia; by left|].
  specialize (IH ltac:(done)).
  destruct (Z.max_spec x (foldr Z.max (- 2 ^ 31) (y :: l))) as [[_ ->]|[_ ->]];
    [by right|by left].
Qed.

Lemma length_selected mask (source : list (list Frame)) (B b : nat) :
  length source = length mask → Forall (λ row, length row = B) source → (b < B)%nat →
  length (selected mask source b) = count mask b.
Proof.
  intros Hlen Hrows Hb. revert mask Hlen.
  induction Hrows as [|x source Hx _ IH]; intros [|row mask] Hlen; try done.
  simpl in Hlen. cbn [selected count].
  destruct (lookup_lt_is_Some_2 x b ltac:(lia)) as [xb ->].
  destruct (set_at row b); simpl; rewrite IH by lia; done.
Qed.

(** One entry of the scattered tensor, for indices that follow the running
    count of the mask. *)
Lemma scatter_fold mask (idxs : list (list Z)) (source : list (list Frame))
    (B : nat) new_time (c0 i b : nat) acc :
  length idxs = length mask → length source = length mask →
  Forall (λ row, length row = B) source → (b < B)%nat →
  (∀ t row, mask !! t = Some row →
     entry idxs t b
     = Some (if set_at row b then Z.of_nat (c0 + count (take (S t) mask) b) - 1
             else new_time)) →
  Z.of_nat i < new_time →
  foldl (λ acc (r : list Z * list Frame),
           match r.1 !! b, r.2 !! b with
           | Some k, Some u => if k =? Z.of_nat i then add acc u else acc
           | _, _ => acc
           end)
        acc (zip idxs source)
  = if (i <? c0)%nat then acc
    else match selected mask source b !! (i - c0)%nat with
         | Some u => add acc u
         | None => acc
         end.
Proof.
  intros Hli Hls Hrows Hb Hidx Hi. revert idxs source c0 acc Hli Hls Hrows Hidx.
  induction mask as [|row mask IH]; intros idxs source c0 acc Hli Hls Hrows Hidx.
  { destruct idxs; [|done]. simpl. by destruct (i <? c0)%nat. }
  destruct idxs as [|irow idxs]; [done|]. destruct source as [|x source]; [done|].
  simpl in Hli, Hls. apply Forall_cons in Hrows as [Hx Hrows].
  destruct (lookup_lt_is_Some_2 x b ltac:(lia)) as [xb Hxb].
  pose proof (Hidx 0%nat row eq_refl) as H0. unfold entry in H0. simpl in H0.
  cbn [zip zip_with foldl fst snd selected]. rewrite Hxb, H0.
  assert (∀ c, (∀ t row', mask !! t = Some row' →
     entry idxs t b
     = Some (if set_at row' b
             then Z.of_nat (c0 + c + count (take (S t) mask) b) - 1
             else new_time)) →
     ∀ acc', foldl (λ acc (r : list Z * list Frame),
           match r.1 !! b, r.2 !! b with
           | Some k, Some u => if k =? Z.of_nat i then add acc u else acc
           | _, _ => acc
           end) acc' (zip idxs source)
     = if (i <? c0 + c)%nat then acc'
       else match selected mask source b !! (i - (c0 + c))%nat with
            | Some u => add acc' u
            | None => acc'
            end) as IH'.
  { intros c Hc acc'. apply IH; [lia|lia|done|done]. }
  assert (∀ t row', mask !! t = Some row' →
     entry idxs t b
     = Some (if set_at row' b
             then Z.of_nat (c0 + (if set_at row b then 1 else 0)
                            + count (take (S t) mask) b) - 1
             else new_time)) as Htail.
  { intros t row' Hrow'. specialize (Hidx (S t) row' Hrow').
    unfold entry in *. simpl in Hidx. rewrite Hidx.
    destruct (set_at row' b); [|done]. f_equal. destruct (set_at row b); simpl; lia. }
  destruct (set_at row b) eqn:Hset.
  - rewrite (IH' 1%nat Htail). clear IH' IH Htail Hidx.
    destruct (Z.eqb_spec (Z.of_nat (c0 + (1 + 0)) - 1) (Z.of_nat i)) as [Heq|Hne].
    + assert (i = c0) as -> by lia.
      rewrite (proj2 (Nat.ltb_lt _ _)) by lia. rewrite Nat.ltb_irrefl, Nat.sub_diag. done.
    + destruct (Nat.ltb_spec i c0) as [Hlt|Hge].
      * by rewrite (proj2 (Nat.ltb_lt _ _)) by lia.
      * rewrite (proj2 (Nat.ltb_ge _ _)) by lia.
        replace (i - c0)%nat with (S (i - (c0 + 1))) by lia. done.
  - rewrite (proj2 (Z.eqb_neq _ _)) by lia.
    rewrite (IH' 0%nat Htail). by rewrite Nat.add_0_r.
Qed.

Lemma last_cumsum (mask : list (list bool)) (T B : nat) :
  shaped mask T B → (0 < T)%nat → Z.of_nat T ≤ StepLoop.int32_max →
  ∃ new_size, last (cumsum (map (map cast) mask)) = Some new_size
    ∧ length new_size = B
    ∧ ∀ b, (b < B)%nat → new_size !! b = Some (Z.of_nat (count mask b)).
Proof.
  intros Hmask HT Hmax. destruct (cumsum_shaped mask T B Hmask) as [Hlen Hrows].
  rewrite last_lookup, Hlen.
  destruct (lookup_lt_is_Some_2 (cumsum (map (map cast) mask)) (pred T) ltac:(lia))
    as [new_size Hlast].
  exists new_size. split; [done|].
  split; [exact (proj1 (Forall_lookup _ _) Hrows _ _ Hlast)|].
  intros b Hb. pose proof (cumsum_entry mask T B (pred T) b Hmask Hmax ltac:(lia) Hb) as He.
  unfold entry in He. rewrite Hlast in He. simpl in He. rewrite He.
  rewrite take_ge; [done|]. destruct Hmask as [-> _]. lia.
Qed.

(** What [get_masked_layer] returns, entry by entry. *)
Lemma get_masked_layer_spec mask sequence_mask (source : list (list Frame)) (T B : nat) :
  shaped mask T B → shaped sequence_mask T B → shaped source T B →
  (0 < T)%nat → (0 < B)%nat → Z.of_nat T < StepLoop.int32_max →
  ∃ new_size placeholder (T' : nat),
    get_masked_layer mask sequence_mask source B = Some (new_size, placeholder)
    ∧ length new_size = B
    ∧ (∀ b, (b < B)%nat →
         new_size !! b = Some (Z.of_nat (count (mask_in_seq mask sequence_mask) b))
         ∧ (count (mask_in_seq mask sequence_mask) b ≤ T')%nat)
    ∧ (∃ b, (b < B)%nat ∧ count (mask_in_seq mask sequence_mask) b = T')
    ∧ shaped placeholder T' B
    ∧ ∀ b i, (b < B)%nat → (i < T')%nat →
        entry placeholder i b
        = Some (default zero (selected (mask_in_seq mask sequence_mask) source b !! i)).
Proof.
  intros Hmask Hseq Hsource HT HB Hmax. unfold get_masked_layer.
  set (mask_t := mask_in_seq mask sequence_mask).
  assert (shaped mask_t T B) as Hmt by (by apply zip_with_shaped).
  destruct (last_cumsum mask_t T B Hmt HT ltac:(lia)) as (new_size & -> & Hlen & Hsize).
  cbn [mbind option_bind].
  set (new_time := reduce_max new_size).
  (* the longest masked sequence *)
  assert (∃ b, (b < B)%nat ∧ new_time = Z.of_nat (count mask_t b)) as (bmax & Hbmax & Hnt).
  { assert (new_time ∈ new_size) as Hin.
    { apply reduce_max_elem; [by destruct new_size; [simpl in Hlen; lia|]|].
      apply Forall_lookup. intros b k Hk.
      rewrite (Hsize b) in Hk by (apply lookup_lt_Some in Hk; lia).
      injection Hk as <-. lia. }
    apply list_elem_of_lookup_1 in Hin as [b Hb]. exists b.
    assert (b < B)%nat as HbB by (apply lookup_lt_Some in Hb; lia).
    split; [done|]. rewrite (Hsize b HbB) in Hb. by injection Hb as <-. }
  assert (∀ b, (b < B)%nat → (count mask_t b ≤ count mask_t bmax)%nat) as Hle.
  { intros b Hb. pose proof (reduce_max_upper new_size) as Hup.
    pose proof (proj1 (Forall_lookup _ _) Hup b _ (Hsize b Hb)) as Hb'. simpl in Hb'.
    fold new_time in Hb'. lia. }
  set (T' := count mask_t bmax) in *.
  assert (T' ≤ T)%nat as HT'.
  { unfold T'. pose proof (count_le_length mask_t bmax). destruct Hmt as [<- _]. done. }
  rewrite Hnt. rewrite StepLoop.wrap32_id by (unfold StepLoop.int32_max in *; lia).
  rewrite (proj2 (Z.ltb_ge _ _)) by lia.
  replace (Z.to_nat (Z.of_nat T' + 1)) with (S T') by lia. rewrite Nat2Z.id.
  set (idxs := where_bc_scalar mask_t _ _).
  (* the indices *)
  assert (∀ t b row, mask_t !! t = Some row → (b < B)%nat →
            entry idxs t b
            = Some (if set_at row b then Z.of_nat (0 + count (take (S t) mask_t) b) - 1
                    else Z.of_nat T')) as Hidx.
  { intros t b row Hrow Hb. unfold idxs, where_bc_scalar.
    assert (t < T)%nat as Ht by (apply lookup_lt_Some in Hrow; destruct Hmt as [<- _]; done).
    rewrite entry_zip_with, entry_map, (cumsum_entry mask_t T B t b Hmt ltac:(lia) Ht Hb).
    destruct (shaped_entry mask_t T B t b Hmt Ht Hb) as [m Hm]. rewrite Hm. simpl.
    unfold entry in Hm. rewrite Hrow in Hm. simpl in Hm. unfold set_at. rewrite Hm.
    pose proof (count_take_le mask_t b (S t)). pose proof (Hle b Hb).
    destruct m; [|done].
    rewrite StepLoop.wrap32_id by (unfold StepLoop.int32_max in *; lia). done. }
  assert (shaped idxs T B) as Hidxs.
  { unfold idxs, where_bc_scalar. apply zip_with_shaped; [done|].
    apply map_shaped, cumsum_shaped. done. }
  unfold scatter_nd. rewrite forallb_entries.
  2: { intros t b k Hk.
       assert (t < T)%nat as Ht.
       { unfold entry in Hk. destruct (idxs !! t) eqn:E; [|done].
         apply lookup_lt_Some in E. destruct Hidxs as [<- _]. done. }
       assert (b < B)%nat as Hb.
       { unfold entry in Hk. destruct (idxs !! t) as [irow|] eqn:E; [|done]. simpl in Hk.
         apply lookup_lt_Some in Hk.
         rewrite (proj1 (Forall_lookup _ _) (proj2 Hidxs) _ _ E) in Hk. done. }
       destruct (lookup_lt_is_Some_2 mask_t t) as [row Hrow]; [by destruct Hmt as [-> _]|].
       rewrite (Hidx t b row Hrow Hb) in Hk. injection Hk as <-.
       pose proof (count_take_le mask_t b (S t)). pose proof (Hle b Hb).
       pose proof (count_take_set mask_t b t row Hrow) as Hcs.
       destruct (set_at row b); apply andb_true_iff; split;
         try apply Z.leb_le; try apply Z.ltb_lt; lia. }
  cbn [mbind option_bind]. eexists _, _, T'. split; [reflexivity|].
  split; [done|]. split; [intros b Hb; split; [by apply Hsize|by apply Hle]|].
  split; [by exists bmax|].
  split.
  { split.
    - rewrite length_take, length_fmap, length_seq. lia.
    - apply Forall_take, Forall_fmap, Forall_forall. intros i _. simpl.
      by rewrite length_fmap, length_seq. }
  intros b i Hb Hi. unfold entry. rewrite lookup_take_lt by done.
  rewrite list_lookup_fmap, lookup_seq_lt by lia. simpl.
  rewrite list_lookup_fmap, lookup_seq_lt by lia. simpl. f_equal.
  unfold scatter_entry.
  rewrite (scatter_fold mask_t idxs source B (Z.of_nat T') 0 i b zero).
  - simpl. rewrite Nat.sub_0_r.
    destruct (selected mask_t source b !! i); simpl; [apply add_zero_l|done].
  - destruct Hidxs as [-> _]. by destruct Hmt as [-> _].
  - destruct Hsource as [-> _]. by destruct Hmt as [-> _].
  - by destruct Hsource.
  - done.
  - intros t row Hrow. by apply Hidx.
  - lia.
Qed.

(** X14: The masked source holds, for every batch entry, the frames of the
    source for which the mask is set inside the sequence, in their order,
    and zeros after them; the new length of the entry is the number of these
    frames, and the new time dimension is the largest of these lengths. *)
Theorem masked_source_is_selected_frames mask sequence_mask source (T B : nat) :
  shaped mask T B → shaped sequence_mask T B → shaped source T B →
  (0 < T)%nat → (0 < B)%nat → Z.of_nat T < StepLoop.int32_max →
  ∃ new_size placeholder (T' : nat),
    get_masked_layer mask sequence_mask source B = Some (new_size, placeholder)
    ∧ shaped placeholder T' B
    ∧ T' = Z.to_nat (reduce_max new_size)
    ∧ ∀ b, (b < B)%nat →
        ∃ len : nat,
          new_size !! b = Some (Z.of_nat len) ∧ (len ≤ T')%nat
          ∧ len = count (mask_in_seq mask sequence_mask) b
          ∧ ∀ i, (i < T')%nat →
              entry placeholder i b
              = if (i <? len)%nat
                then selected (mask_in_seq mask sequence_mask) source b !! i
                else Some zero.
Proof.
  intros Hmask Hseq Hsource HT HB Hmax.
  destruct (get_masked_layer_spec mask sequence_mask source T B Hmask Hseq Hsource HT HB Hmax)
    as (new_size & placeholder & T' & Hget & Hlen & Hsize & (bmax & Hbmax & Hmaxlen) & Hsh & He).
  exists new_size, placeholder, T'. split; [done|]. split; [done|]. split.
  { pose proof (reduce_max_upper new_size) as Hup.
    assert (reduce_max new_size ∈ new_size) as Hin.
    { apply reduce_max_elem; [by destruct new_size; [simpl in Hlen; lia|]|].
      apply Forall_lookup. intros b k Hk.
      destruct (Hsize b) as [Hb _]; [apply lookup_lt_Some in Hk; lia|].
      rewrite Hb in Hk. injection Hk as <-. lia. }
    apply list_elem_of_lookup_1 in Hin as [b Hb].
    destruct (Hsize b) as [Hb' Hle]; [apply lookup_lt_Some in Hb; lia|].
    rewrite Hb' in Hb. injection Hb as Hb.
    destruct (Hsize bmax Hbmax) as [Hm _].
    pose proof (proj1 (Forall_lookup _ _) Hup _ _ Hm) as Hm'. simpl in Hm'. lia. }
  intros b Hb. destruct (Hsize b Hb) as [Hnb Hle].
  exists (count (mask_in_seq mask sequence_mask) b). split; [done|]. split; [done|].
  split; [done|]. intros i Hi. rewrite (He b i Hb Hi).
  assert (length (selected (mask_in_seq mask sequence_mask) source b)
          = count (mask_in_seq mask sequence_mask) b) as Hsel.
  { apply (length_selected _ _ B); [|by destruct Hsource|done].
    destruct Hsource as [-> _]. symmetry.
    by destruct (zip_with_shaped (λ (c : bool) xv, if c then xv else false) mask sequence_mask
                   T B Hmask Hseq). }
  destruct (Nat.ltb_spec i (count (mask_in_seq mask sequence_mask) b)) as [Hlt|Hge].
  - destruct (lookup_lt_is_Some_2 (selected (mask_in_seq mask sequence_mask) source b) i)
      as [u Hu]; [lia|]. by rewrite Hu.
  - rewrite lookup_ge_None_2 by lia. done.
Qed.

Lemma masked_loop_shaped prev_out mask source (T B : nat) :
  shaped mask T B → shaped source T B → length prev_out = B →
  shaped (masked_loop prev_out mask source) T B.
Proof.
  intros [Hlm Hm] [Hls Hs]. revert T Hlm source Hls Hs prev_out.
  induction Hm as [|mrow mask Hmrow _ IH]; intros T Hlm source Hls Hs prev_out Hp.
  { simpl in Hlm. subst T. by destruct source. }
  destruct source as [|x source]; [simpl in *; lia|].
  apply Forall_cons in Hs as [Hx Hs]. simpl in Hlm, Hls. cbn [masked_loop].
  assert (length (where_bc_step mrow (unit <$> x) prev_out) = B) as Hout.
  { unfold where_bc_step. rewrite length_zip_with, length_zip_with, length_fmap. lia. }
  destruct (IH (T - 1)%nat ltac:(lia) source ltac:(lia) Hs _ Hout) as [Hl Hr].
  split; [simpl; lia|by constructor].
Qed.

(** The output of a step of the loop is the output of the unit for the last
    frame with the mask set, or the initial output if there is none yet. *)
Lemma masked_loop_entry prev_out mask source (T B t b : nat) p :
  shaped mask T B → shaped source T B → prev_out !! b = Some p →
  (t < T)%nat → (b < B)%nat →
  entry (masked_loop prev_out mask source) t b
  = (p :: (unit <$> selected mask source b)) !! count (take (S t) mask) b.
Proof.
  intros [Hlm Hm] [Hls Hs]. revert T Hlm source Hls Hs prev_out p t.
  induction Hm as [|mrow mask Hmrow _ IH]; intros T Hlm source Hls Hs prev_out p t Hp Ht Hb.
  { simpl in Hlm. lia. }
  destruct source as [|x source]; [simpl in *; lia|].
  apply Forall_cons in Hs as [Hx Hs]. simpl in Hlm, Hls. cbn [masked_loop selected].
  destruct (lookup_lt_is_Some_2 x b ltac:(lia)) as [xb Hxb].
  destruct (lookup_lt_is_Some_2 mrow b ltac:(lia)) as [m Hm'].
  set (output := where_bc_step mrow (unit <$> x) prev_out).
  assert (output !! b = Some (if set_at mrow b then unit xb else p)) as Hout.
  { unfold output, where_bc_step. apply lookup_zip_with_Some.
    exists m, (unit xb, p). split; [|split; [done|]].
    - unfold set_at. rewrite Hm'. by destruct m.
    - apply lookup_zip_with_Some. exists (unit xb), p. split; [done|].
      split; [by rewrite list_lookup_fmap, Hxb|done]. }
  rewrite Hxb. destruct t as [|t].
  - unfold entry. simpl. rewrite Hout.
    replace (count (take 0 mask) b) with 0%nat by (by destruct mask).
    destruct (set_at mrow b); done.
  - unfold entry. simpl. fold (entry (masked_loop output mask source) t b).
    rewrite (IH (T - 1)%nat ltac:(lia) source ltac:(lia) Hs output _ t Hout ltac:(lia) Hb).
    destruct (set_at mrow b); done.
Qed.

(** X16: A masked computation with a unit that works frame by frame gives the
    same output inside the loop as moved out of it: masking the source,
    applying the unit to the masked sequence and undoing the masking outside
    of the loop gives the outputs of the steps of the loop. *)
Theorem masked_computation_moved_out_agrees mask sequence_mask source initial (T B : nat) :
  shaped mask T B → shaped sequence_mask T B → shaped source T B → length initial = B →
  (0 < T)%nat → (0 < B)%nat → Z.of_nat T < StepLoop.int32_max →
  mask_in_seq mask sequence_mask = mask →
  ∃ new_size placeholder,
    get_masked_layer mask sequence_mask source B = Some (new_size, placeholder)
    ∧ unmask_outside initial (map (map unit) placeholder) mask
      = Some (masked_loop initial mask source).
Proof.
  intros Hmask Hseq Hsource Hinit HT HB Hmax Hmt.
  destruct (get_masked_layer_spec mask sequence_mask source T B Hmask Hseq Hsource HT HB Hmax)
    as (new_size & placeholder & T' & Hget & Hlen & Hsize & _ & Hsh & He).
  rewrite Hmt in *. exists new_size, placeholder. split; [done|].
  unfold unmask_outside, gather_nd. apply mapM_Some.
  pose proof (cumsum_shaped mask T B Hmask) as [Hcl Hcr].
  pose proof (masked_loop_shaped initial mask source T B Hmask Hsource Hinit) as [Hyl Hyr].
  apply Forall2_same_length_lookup_2; [lia|]. intros t irow yrow Hirow Hyrow.
  assert (t < T)%nat as Ht by (apply lookup_lt_Some in Hirow; lia).
  apply gather_row_intro.
  { rewrite (proj1 (Forall_lookup _ _) Hcr _ _ Hirow).
    by rewrite (proj1 (Forall_lookup _ _) Hyr _ _ Hyrow). }
  intros b k Hk.
  assert (b < B)%nat as Hb.
  { apply lookup_lt_Some in Hk. by rewrite (proj1 (Forall_lookup _ _) Hcr _ _ Hirow) in Hk. }
  pose proof (cumsum_entry mask T B t b Hmask ltac:(lia) Ht Hb) as Hc.
  unfold entry in Hc. rewrite Hirow in Hc. simpl in Hc. rewrite Hk in Hc. injection Hc as ->.
  destruct (lookup_lt_is_Some_2 initial b ltac:(lia)) as [p Hp].
  pose proof (masked_loop_entry initial mask source T B t b p Hmask Hsource Hp Ht Hb) as Hy.
  unfold entry in Hy. rewrite Hyrow in Hy. simpl in Hy.
  split; [lia|]. split.
  { apply lookup_lt_is_Some. rewrite (proj1 (Forall_lookup _ _) Hyr _ _ Hyrow). done. }
  rewrite Hy, Nat2Z.id. simpl.
  pose proof (count_take_le mask b (S t)) as Hcle. destruct (Hsize b Hb) as [_ HleT'].
  destruct (count (take (S t) mask) b) as [|i] eqn:Ec.
  - unfold entry. simpl. done.
  - unfold entry. simpl. fold (entry (map (map unit) placeholder) i b).
    rewrite entry_map, (He b i Hb ltac:(lia)). simpl.
    rewrite list_lookup_fmap.
    assert (length (selected mask source b) = count mask b) as Hsel.
    { apply (length_selected _ _ B); [|by destruct Hsource|done].
      destruct Hsource as [-> _]. by destruct Hmask as [-> _]. }
    destruct (lookup_lt_is_Some_2 (selected mask source b) i ltac:(lia)) as [u ->]. done.
Qed.

Lemma gather_row_Some {A : Type} (params : list (list A)) (idxs : list Z) (b0 : nat) ys :
  gather_row params b0 idxs = Some ys →
  length ys = length idxs
  ∧ ∀ i k, idxs !! i = Some k → ys !! i = entry params (Z.to_nat k) (b0 + i).
Proof.
  revert b0 ys. induction idxs as [|k idxs IH]; intros b0 ys Hg.
  { injection Hg as <-. done. }
  cbn [gather_row] in Hg. destruct (k <? 0); [done|].
  destruct (entry params (Z.to_nat k) b0) as [y|] eqn:Ey; [|done]. simpl in Hg.
  destruct (gather_row params (S b0) idxs) as [ys'|] eqn:Eg; [|done]. injection Hg as <-.
  destruct (IH (S b0) ys' Eg) as [Hlen He]. split; [simpl; lia|].
  intros [|i] k' Hk'.
  - injection Hk' as <-. simpl. by rewrite Nat.add_0_r.
  - simpl in Hk'. simpl. rewrite (He i k' Hk'). f_equal. lia.
Qed.

Lemma gather_row_is_Some {A : Type} (params : list (list A)) (idxs : list Z) (b0 : nat) :
  (∀ i k, idxs !! i = Some k → 0 ≤ k ∧ is_Some (entry params (Z.to_nat k) (b0 + i))) →
  is_Some (gather_row params b0 idxs).
Proof.
  revert b0. induction idxs as [|k idxs IH]; intros b0 H; [by eexists|].
  destruct (H 0%nat k eq_refl) as [Hk [y Hy]]. rewrite Nat.add_0_r in Hy.
  destruct (IH (S b0)) as [ys Hys].
  { intros i k' Hk'. specialize (H (S i) k' Hk').
    by replace (S b0 + i)%nat with (b0 + S i)%nat by lia. }
  cbn [gather_row]. rewrite (proj2 (Z.ltb_ge _ _)) by lia. rewrite Hy. simpl. rewrite Hys.
  by eexists.
Qed.

(** What [UnmaskLayer] computes outside of the loop, entry by entry. *)
Lemma unmask_outside_spec (initial : list Frame) src mask (T T' B : nat) :
  shaped mask T B → shaped src T' B → length initial = B →
  Z.of_nat T ≤ StepLoop.int32_max →
  (∀ b, (b < B)%nat → (count mask b ≤ T')%nat) →
  ∃ y, unmask_outside initial src mask = Some y
    ∧ shaped y T B
    ∧ ∀ t b, (t < T)%nat → (b < B)%nat →
        is_Some (entry y t b)
        ∧ entry y t b = entry (initial :: src) (count (take (S t) mask) b) b.
Proof.
  intros Hmask Hsrc Hinit Hmax Hcount.
  pose proof (cumsum_shaped mask T B Hmask) as [Hcl Hcr].
  assert (shaped (initial :: src) (S T') B) as Hparams.
  { destruct Hsrc as [Hl Hr]. split; [simpl; lia|by constructor]. }
  assert (∀ t irow b k, cumsum (map (map cast) mask) !! t = Some irow → irow !! b = Some k →
            (t < T)%nat ∧ (b < B)%nat ∧ k = Z.of_nat (count (take (S t) mask) b)) as Hk.
  { intros t irow b k Hirow Hkb.
    assert (t < T)%nat as Ht by (apply lookup_lt_Some in Hirow; lia).
    assert (b < B)%nat as Hb.
    { apply lookup_lt_Some in Hkb. by rewrite (proj1 (Forall_lookup _ _) Hcr _ _ Hirow) in Hkb. }
    pose proof (cumsum_entry mask T B t b Hmask Hmax Ht Hb) as Hc.
    unfold entry in Hc. rewrite Hirow in Hc. simpl in Hc. rewrite Hkb in Hc.
    by injection Hc as ->. }
  destruct (mapM_is_Some_2 (gather_row (initial :: src) 0) (cumsum (map (map cast) mask)))
    as [y Hy].
  { apply Forall_lookup. intros t irow Hirow. simpl. apply gather_row_is_Some.
    intros b k Hkb. destruct (Hk t irow b k Hirow Hkb) as (Ht & Hb & ->).
    split; [lia|]. rewrite Nat2Z.id. simpl.
    apply (shaped_entry _ (S T') B); [done| |done].
    pose proof (count_take_le mask b (S t)). specialize (Hcount b Hb). lia. }
  exists y. split; [exact Hy|]. apply mapM_Some in Hy.
  assert (∀ t irow yrow, cumsum (map (map cast) mask) !! t = Some irow → y !! t = Some yrow →
            gather_row (initial :: src) 0 irow = Some yrow) as Hrows.
  { intros t irow yrow Hirow Hyrow.
    destruct (Forall2_lookup_l _ _ _ _ _ Hy Hirow) as (yrow' & Hy' & Hg). congruence. }
  assert (length y = T) as Hyl by (apply Forall2_length in Hy; lia).
  split.
  { split; [done|]. apply Forall_lookup. intros t yrow Hyrow.
    destruct (lookup_lt_is_Some_2 (cumsum (map (map cast) mask)) t) as [irow Hirow].
    { apply lookup_lt_Some in Hyrow. lia. }
    destruct (gather_row_Some _ _ _ _ (Hrows t irow yrow Hirow Hyrow)) as [-> _].
    exact (proj1 (Forall_lookup _ _) Hcr _ _ Hirow). }
  intros t b Ht Hb.
  destruct (lookup_lt_is_Some_2 (cumsum (map (map cast) mask)) t ltac:(lia)) as [irow Hirow].
  destruct (lookup_lt_is_Some_2 y t ltac:(lia)) as [yrow Hyrow].
  destruct (gather_row_Some _ _ _ _ (Hrows t irow yrow Hirow Hyrow)) as [Hlen He].
  destruct (lookup_lt_is_Some_2 irow b) as [k Hkb].
  { by rewrite (proj1 (Forall_lookup _ _) Hcr _ _ Hirow). }
  destruct (Hk t irow b k Hirow Hkb) as (_ & _ & ->).
  specialize (He b _ Hkb). rewrite Nat2Z.id in He. simpl in He.
  assert (entry y t b = entry (initial :: src) (count (take (S t) mask) b) b) as Hey.
  { unfold entry at 1. by rewrite Hyrow. }
  rewrite Hey. split; [|done].
  apply (shaped_entry _ (S T') B); [done| |done].
  pose proof (count_take_le mask b (S t)). specialize (Hcount b Hb). lia.
Qed.

(** X15: For a source that is not empty, [UnmaskLayer] gives the same inside
    the loop as outside of it: the outputs of the steps of the loop are the
    rows of the output computed outside, and the one raises when the other
    does.  When the source is long enough for the mask, neither raises, and
    the output for a frame is the frame of the source for the last frame with
    the mask set, or the initial output if there is none yet; so a frame
    without the mask repeats the output before it. *)
Theorem unmask_in_loop_is_unmask_outside (initial : list Frame) src mask (T T' B : nat) :
  shaped mask T B → shaped src T' B → length initial = B →
  (0 < T')%nat → Z.of_nat T ≤ StepLoop.int32_max →
  unmask_in_loop B initial src mask = unmask_outside initial src mask
  ∧ ((∀ b, (b < B)%nat → (count mask b ≤ T')%nat) →
     ∃ y, unmask_outside initial src mask = Some y
       ∧ shaped y T B
       ∧ ∀ t b, (t < T)%nat → (b < B)%nat →
           is_Some (entry y t b)
           ∧ entry y t b = entry (initial :: src) (count (take (S t) mask) b) b).
Proof.
  intros Hmask Hsrc Hinit HT' HT. split; [|by apply (unmask_outside_spec _ _ _ T T' B)].
  unfold unmask_in_loop, unmask_outside, unmask_initial_t.
  rewrite (cumsum_from_zero mask T B Hmask).
  assert (Z.succ <$> ((λ z, z - 1) <$> replicate B 0) = replicate B 0) as Hzero.
  { clear. induction B as [|B IH]; [done|]. cbn [replicate]. by rewrite !fmap_cons, IH. }
  rewrite (unmask_loop_agree _ initial src T' B mask T _ 0 Hsrc HT' Hmask Hinit).
  - by rewrite Hzero.
  - by rewrite length_fmap, length_replicate.
  - apply Forall_fmap, Forall_replicate. simpl. lia.
  - lia.
Qed.

End Masked.

(** A batch of two sequences of three frames; the mask selects two frames
    of the first and one of the second.  The unit adds 100. *)
Definition example_mask : list (list bool) :=
  [[true; false]; [false; false]; [true; true]].

Definition example_sequence_mask : list (list bool) :=
  [[true; true]; [true; true]; [true; true]].

Definition example_source : list (list Z) := [[10; 20]; [11; 21]; [12; 22]].

Definition example_initial : list Z := [1; 2].

Definition example_unit (x : Z) : Z := x + 100.

Lemma example_shaped {A : Type} (a b c d e f : A) : shaped [[a; b]; [c; d]; [e; f]] 3 2.
Proof. split; [done|]. repeat constructor. Qed.

Lemma example_masked :
  get_masked_layer Z 0 Z.add example_mask example_sequence_mask example_source 2
  = Some ([2; 1], [[10; 22]; [12; 0]])
  ∧ masked_loop Z example_unit example_initial example_mask example_source
    = [[110; 2]; [110; 2]; [112; 122]]
  ∧ unmask_outside example_initial [[110; 122]; [112; 100]] example_mask
    = Some [[110; 2]; [110; 2]; [112; 122]].
Proof. vm_compute. done. Qed.

Lemma masked_source_is_selected_frames_witness :
  ∃ new_size placeholder (T' : nat),
    get_masked_layer Z 0 Z.add example_mask example_sequence_mask example_source 2
    = Some (new_size, placeholder)
    ∧ shaped placeholder T' 2
    ∧ T' = Z.to_nat (reduce_max new_size)
    ∧ ∀ b, (b < 2)%nat →
        ∃ len : nat,
          new_size !! b = Some (Z.of_nat len) ∧ (len ≤ T')%nat
          ∧ len = count (mask_in_seq example_mask example_sequence_mask) b
          ∧ ∀ i, (i < T')%nat →
              entry placeholder i b
              = if (i <? len)%nat
                then selected Z (mask_in_seq example_mask example_sequence_mask)
                       example_source b !! i
                else Some 0.
Proof.
  apply (masked_source_is_selected_frames Z 0 Z.add Z.add_0_l
           example_mask example_sequence_mask example_source 3 2);
    [apply example_shaped|apply example_shaped|apply example_shaped|lia|lia|
     unfold StepLoop.int32_max; lia].
Defined.

Lemma masked_computation_moved_out_agrees_witness :
  ∃ new_size placeholder,
    get_masked_layer Z 0 Z.add example_mask example_sequence_mask example_source 2
    = Some (new_size, placeholder)
    ∧ unmask_outside example_initial (map (map example_unit) placeholder) example_mask
      = Some (masked_loop Z example_unit example_initial example_mask example_source).
Proof.
  apply (masked_computation_moved_out_agrees Z 0 Z.add Z.add_0_l example_unit
           example_mask example_sequence_mask example_source example_initial 3 2);
    [apply example_shaped|apply example_shaped|apply example_shaped|done|lia|lia|
     unfold StepLoop.int32_max; lia|done].
Defined.

Lemma unmask_in_loop_is_unmask_outside_witness :
  unmask_in_loop 2 example_initial [[110; 122]; [112; 100]] example_mask
  = unmask_outside example_initial [[110; 122]; [112; 100]] example_mask
  ∧ ∃ y, unmask_outside example_initial [[110; 122]; [112; 100]] example_mask = Some y
      ∧ shaped y 3 2
      ∧ ∀ t b, (t < 3)%nat → (b < 2)%nat →
          is_Some (entry y t b)
          ∧ entry y t b
            = entry (example_initial :: [[110; 122]; [112; 100]])
                (count (take (S t) example_mask) b) b.
Proof.
  destruct (unmask_in_loop_is_unmask_outside Z example_initial [[110; 122]; [112; 100]]
              example_mask 3 2 2) as [Hagree Hreturns];
    [apply example_shaped|split; [done|repeat constructor]|done|lia|
     unfold StepLoop.int32_max; lia|].
  split; [exact Hagree|]. apply Hreturns.
  intros [|[|b]] Hb; [vm_compute; lia|vm_compute; lia|lia].
Defined.

End Masking.

(** ** Relative positions ([RelativePositionalEncodingLayer.__init__]) *)

Module RelativePositions.

Import Masking.

Local Open Scope Z_scope.

(** [tf.range(length)] *)
Definition tf_range (length : nat) : list Z := Z.of_nat <$> seq 0 length.

(** [tf.tile(v, [multiples])] of a vector *)
Definition tile {A : Type} (v : list A) (multiples : nat) : list A :=
  concat (replicate multiples v).

(** [tf.reshape(flat, [rows, cols])] of a vector with [rows * cols]
    entries *)
Fixpoint reshape {A : Type} (rows cols : nat) (flat : list A) : list (list A) :=
  match rows with
  | O => []
  | S rows' => take cols flat :: reshape rows' cols (drop cols flat)
  end.

(** [tf.transpose] of a matrix *)
Fixpoint transpose {A : Type} (m : list (list A)) : list (list A) :=
  match m with
  | [] => []
  | row :: rest =>
      match rest with
      | [] => (λ x, [x]) <$> row
      | _ => zip_with cons row (transpose rest)
      end
  end.

(** [tf.gather(params, indices)] for a matrix of indices; an index out of
    range is an error, as on CPU. *)
Definition gather {A : Type} (params : list A) (indices : list (list Z))
  : option (list (list A)) :=
  mapM (mapM (λ k, if k <? 0 then None else params !! Z.to_nat k)) indices.

(** The input has a time axis of [length] frames.
<<
offset = 0
length = tf.shape(self.input_data.placeholder)[self.input_data.time_dim_axis]
range_vec = tf.range(length) - offset
range_mat = tf.reshape(tf.tile(range_vec, [length]), [length, length])
distance_mat = range_mat - tf.transpose(range_mat)  # [length,length]
>> *)
Definition distance_mat_with_time (length : nat) : list (list Z) :=
  let offset := 0 in
  let range_vec := (λ x, StepLoop.wrap32 (x - offset)) <$> tf_range length in
  let range_mat := reshape length length (tile range_vec length) in
  zip_with (zip_with (λ a b, StepLoop.wrap32 (a - b))) range_mat (transpose range_mat).

(** The input has no time axis: the layer is inside the loop, at step
    [step].
<<
offset = self.network.get_rec_step_index()
length = self.network.get_rec_step_index() + 1
range_vec = tf.range(length) - offset
distance_mat = tf.reshape(range_vec, [1, length])  # [1,length]
>> *)
Definition distance_mat_in_loop (step : nat) : list (list Z) :=
  let offset := Z.of_nat step in
  let length := S step in
  let range_vec := (λ x, StepLoop.wrap32 (x - offset)) <$> tf_range length in
  reshape 1 length range_vec.

(**
<<
distance_mat_clipped = tf.clip_by_value(distance_mat, -clipping, clipping)
position_info_indices = distance_mat_clipped + clipping  # [length|1,length]
encoding = tf.gather(encoding_matrix, position_info_indices)  # [length|1,length,n_out]
>> *)
Definition position_info_indices (distance_mat : list (list Z)) (clipping : Z)
  : list (list Z) :=
  map (map (λ d, StepLoop.wrap32 (RandomTensor.clip_by_value d (- clipping) clipping + clipping)))
      distance_mat.

Definition encoding {A : Type} (encoding_matrix : list A) (distance_mat : list (list Z))
    (clipping : Z) : option (list (list A)) :=
  gather encoding_matrix (position_info_indices distance_mat clipping).

(** The row of the encoding matrix for the frames [r] and [c]. *)
Definition relative_index (clipping : Z) (r c : nat) : Z :=
  Z.min (Z.max (Z.of_nat c - Z.of_nat r) (- clipping)) clipping + clipping.

Lemma reshape_tile {A : Type} (v : list A) (rows : nat) :
  reshape rows (length v) (tile v rows) = replicate rows v.
Proof.
  unfold tile. induction rows as [|rows IH]; [done|].
  cbn [replicate concat reshape]. by rewrite take_app_length, drop_app_length, IH.
Qed.

Lemma length_transpose {A : Type} (m : list (list A)) (B : nat) :
  m ≠ [] → Forall (λ row, length row = B) m → length (transpose m) = B.
Proof.
  intros Hne Hrows. induction Hrows as [|row rest Hrow Hrest IH]; [done|].
  cbn [transpose]. destruct rest as [|row' rest]; [by rewrite length_fmap|].
  rewrite length_zip_with, IH by done. lia.
Qed.

Lemma transpose_entry {A : Type} (m : list (list A)) (B t b : nat) :
  Forall (λ row, length row = B) m → (t < length m)%nat → (b < B)%nat →
  entry (transpose m) b t = entry m t b.
Proof.
  intros Hrows. revert t. induction Hrows as [|row rest Hrow Hrest IH]; intros t Ht Hb.
  { simpl in Ht. lia. }
  destruct (lookup_lt_is_Some_2 row b ltac:(lia)) as [x Hx].
  cbn [transpose]. destruct rest as [|row' rest].
  - destruct t as [|t]; [|simpl in Ht; lia].
    unfold entry. rewrite list_lookup_fmap, Hx. simpl. by rewrite Hx.
  - destruct (lookup_lt_is_Some_2 (transpose (row' :: rest)) b) as [col Hcol].
    { rewrite (length_transpose _ B); done. }
    unfold entry at 1. rewrite lookup_zip_with, Hx. cbn [mbind option_bind]. rewrite Hcol.
    cbn [mbind option_bind]. destruct t as [|t].
    + unfold entry. simpl. by rewrite Hx.
    + simpl. specialize (IH t ltac:(simpl in *; lia) Hb). unfold entry in IH at 1.
      rewrite Hcol in IH. simpl in IH. rewrite IH. done.
Qed.

Lemma tf_range_lookup (length c : nat) :
  (c < length)%nat → tf_range length !! c = Some (Z.of_nat c).
Proof. intros Hc. unfold tf_range. by rewrite list_lookup_fmap, lookup_seq_lt. Qed.

(** The distance matrix holds the column minus the row. *)
Lemma distance_mat_with_time_spec (length : nat) :
  Z.of_nat length ≤ StepLoop.int32_max →
  distance_mat_with_time length
  = (λ r, (λ c, Z.of_nat c - Z.of_nat r) <$> seq 0 length) <$> seq 0 length.
Proof.
  intros Hmax. unfold distance_mat_with_time.
  set (range_vec := (λ x, StepLoop.wrap32 (x - 0)) <$> tf_range length).
  assert (List.length range_vec = length) as Hlen.
  { unfold range_vec, tf_range. by rewrite !length_fmap, length_seq. }
  assert (∀ c, (c < length)%nat → range_vec !! c = Some (Z.of_nat c)) as Hvec.
  { intros c Hc. unfold range_vec. rewrite list_lookup_fmap, tf_range_lookup by done. simpl.
    rewrite StepLoop.wrap32_id by (unfold StepLoop.int32_max in *; lia). f_equal. lia. }
  pose proof (reshape_tile range_vec length) as Hmat. rewrite Hlen in Hmat. rewrite Hmat.
  assert (shaped (replicate length range_vec) length length) as Hsh.
  { split; [by rewrite length_replicate|]. by apply Forall_replicate. }
  apply list_eq. intros r. rewrite list_lookup_fmap.
  destruct (decide (r < length)%nat) as [Hr|Hr].
  2: { rewrite lookup_seq_ge by lia. simpl. apply lookup_ge_None_2.
       rewrite length_zip_with, length_replicate. lia. }
  rewrite lookup_seq_lt by done. simpl. rewrite lookup_zip_with.
  rewrite lookup_replicate_2 by done. cbn [mbind option_bind].
  destruct (lookup_lt_is_Some_2 (transpose (replicate length range_vec)) r) as [col Hcol].
  { rewrite (length_transpose _ length); [done| |by destruct Hsh].
    destruct length; [lia|done]. }
  rewrite Hcol. cbn [mbind option_bind]. f_equal.
  apply list_eq. intros c. rewrite lookup_zip_with, list_lookup_fmap.
  destruct (decide (c < length)%nat) as [Hc|Hc].
  2: { rewrite lookup_seq_ge by lia. rewrite (lookup_ge_None_2 range_vec c) by (rewrite Hlen; lia).
       done. }
  rewrite lookup_seq_lt by done. rewrite (Hvec c Hc). simpl.
  pose proof (transpose_entry (replicate length range_vec) length c r (proj2 Hsh)) as He.
  rewrite length_replicate in He. specialize (He Hc Hr). unfold entry in He.
  rewrite Hcol, lookup_replicate_2 in He by done. simpl in He. rewrite He, (Hvec r Hr). simpl.
  by rewrite StepLoop.wrap32_id by (unfold StepLoop.int32_max in *; lia).
Qed.

Lemma distance_mat_in_loop_spec (step : nat) :
  Z.of_nat step < StepLoop.int32_max →
  distance_mat_in_loop step = [(λ c, Z.of_nat c - Z.of_nat step) <$> seq 0 (S step)].
Proof.
  intros Hmax. unfold distance_mat_in_loop. cbn [reshape].
  rewrite take_ge by (unfold tf_range; rewrite !length_fmap, length_seq; lia).
  f_equal. unfold tf_range. rewrite <- list_fmap_compose. apply list_fmap_ext.
  intros k c Hc. apply lookup_seq in Hc as [-> Hc]. simpl.
  by rewrite StepLoop.wrap32_id by (unfold StepLoop.int32_max in *; lia).
Qed.

Lemma mapM_total {A B C : Type} (f : B → option C) (h : A → B) (g : A → C) (l : list A) :
  (∀ x, x ∈ l → f (h x) = Some (g x)) → mapM f (h <$> l) = Some (g <$> l).
Proof.
  intros H. apply mapM_Some. induction l as [|x l IH]; [constructor|].
  rewrite !fmap_cons. constructor; [apply H; by left|]. apply IH. intros y Hy. apply H. by right.
Qed.

(** X17: The indices never leave the encoding matrix, so [tf.gather] raises
    nothing; the encoding for the frames [r] and [c] is the row
    [clip(c - r) + clipping] of the matrix, one of its [2 * clipping + 1]
    rows; and what the layer computes inside the loop at step [i] is the row
    [i] of what it computes outside of the loop, up to the frame [i]. *)
Theorem relative_encoding_rows {A : Type} (encoding_matrix : list A) (clipping : Z)
    (length : nat) :
  0 ≤ clipping → 2 * clipping + 1 ≤ StepLoop.int32_max →
  List.length encoding_matrix = Z.to_nat (2 * clipping + 1) →
  Z.of_nat length ≤ StepLoop.int32_max →
  ∃ enc,
    encoding encoding_matrix (distance_mat_with_time length) clipping = Some enc
    ∧ shaped enc length length
    ∧ (∀ r c, (r < length)%nat → (c < length)%nat →
         0 ≤ relative_index clipping r c ≤ 2 * clipping
         ∧ is_Some (entry enc r c)
         ∧ entry enc r c = encoding_matrix !! Z.to_nat (relative_index clipping r c))
    ∧ (∀ i row, enc !! i = Some row →
         encoding encoding_matrix (distance_mat_in_loop i) clipping = Some [take (S i) row]).
Proof.
  intros Hclip Hclip' Hmat Hmax.
  destruct encoding_matrix as [|d0 rest] eqn:Em; [simpl in Hmat; lia|]. rewrite <- Em in *.
  set (g := λ k, default d0 (encoding_matrix !! Z.to_nat k)).
  set (idx := λ r c : nat, relative_index clipping r c).
  assert (∀ r c, 0 ≤ idx r c ≤ 2 * clipping) as Hrange.
  { intros r c. unfold idx, relative_index. lia. }
  assert (∀ r c, encoding_matrix !! Z.to_nat (idx r c) = Some (g (idx r c))) as Hg.
  { intros r c. unfold g. specialize (Hrange r c).
    destruct (lookup_lt_is_Some_2 encoding_matrix (Z.to_nat (idx r c)) ltac:(lia)) as [x ->].
    done. }
  assert (∀ rows : list nat, ∀ cols : nat → list nat,
            encoding encoding_matrix
              ((λ r, (λ c, Z.of_nat c - Z.of_nat r) <$> cols r) <$> rows) clipping
            = Some ((λ r, (λ c, g (idx r c)) <$> cols r) <$> rows)) as Henc.
  { intros rows cols. unfold encoding, gather, position_info_indices.
    change (map ?f ?l) with (f <$> l). rewrite <- list_fmap_compose.
    apply mapM_total. intros r _. unfold compose.
    change (map ?f ?l) with (f <$> l). rewrite <- list_fmap_compose.
    apply mapM_total. intros c _. unfold compose.
    unfold RandomTensor.clip_by_value. fold (relative_index clipping r c). fold (idx r c).
    specialize (Hrange r c).
    rewrite StepLoop.wrap32_id by (unfold StepLoop.int32_max in *; lia).
    rewrite (proj2 (Z.ltb_ge _ _)) by lia. apply Hg. }
  exists ((λ r, (λ c, g (idx r c)) <$> seq 0 length) <$> seq 0 length).
  split; [by rewrite distance_mat_with_time_spec, (Henc (seq 0 length) (λ _, seq 0 length))|].
  split.
  { split; [by rewrite length_fmap, length_seq|]. apply Forall_fmap, Forall_forall.
    intros r _. simpl. by rewrite length_fmap, length_seq. }
  split.
  { intros r c Hr Hc. split; [apply Hrange|]. unfold entry.
    rewrite list_lookup_fmap, lookup_seq_lt by done. simpl.
    rewrite list_lookup_fmap, lookup_seq_lt by done. simpl. rewrite Hg. split; [by eexists|done]. }
  intros i row Hrow. rewrite list_lookup_fmap in Hrow.
  destruct (decide (i < length)%nat) as [Hi|Hi]; [|by rewrite lookup_seq_ge in Hrow by lia].
  rewrite lookup_seq_lt in Hrow by done. simpl in Hrow. injection Hrow as <-.
  rewrite distance_mat_in_loop_spec by lia.
  change [(λ c, Z.of_nat c - Z.of_nat i) <$> seq 0 (S i)]
    with ((λ r, (λ c, Z.of_nat c - Z.of_nat r) <$> (λ _, seq 0 (S i)) r) <$> [i]).
  rewrite Henc. rewrite <- fmap_take, take_seq.
  replace (S i `min` length)%nat with (S i) by lia. done.
Qed.

(** Four frames and a clipping of one: only the sign of the distance is
    left. *)
Lemma relative_encoding_rows_witness :
  ∃ enc,
    encoding ["left"; "same"; "right"] (distance_mat_with_time 4) 1 = Some enc
    ∧ shaped enc 4 4
    ∧ (∀ r c, (r < 4)%nat → (c < 4)%nat →
         0 ≤ relative_index 1 r c ≤ 2 * 1
         ∧ is_Some (entry enc r c)
         ∧ entry enc r c = ["left"; "same"; "right"] !! Z.to_nat (relative_index 1 r c))
    ∧ (∀ i row, enc !! i = Some row →
         encoding ["left"; "same"; "right"] (distance_mat_in_loop i) 1
         = Some [take (S i) row]).
Proof.
  apply (relative_encoding_rows ["left"; "same"; "right"] 1 4);
    [lia|unfold StepLoop.int32_max; lia|done|unfold StepLoop.int32_max; lia].
Defined.

Lemma example_relative_encoding :
  encoding ["left"; "same"; "right"] (distance_mat_with_time 3) 1
  = Some [["same"; "right"; "right"]; ["left"; "same"; "right"]; ["left"; "left"; "same"]]
  ∧ encoding ["left"; "same"; "right"] (distance_mat_in_loop 2) 1
    = Some [["left"; "left"; "same"]].
Proof. vm_compute. done. Qed.

End RelativePositions.

(** ** From the canonical cuDNN parameters to the kernel of an LSTM block
    ([RecLayer.convert_cudnn_canonical_to_lstm_block]) *)

Module CudnnConvert.

Import Masking RelativePositions.

Section Convert.

(** The numbers in the tensors, and their sum. *)
Variable Num : Type.
Variable add : Num → Num → Num.

Inductive error : Type :=
| AssertionError
| ValueError.

(** A [numpy] array: a matrix as the list of its rows, a vector as the list
    of its entries. *)
Inductive ndarray : Type :=
| Matrix (rows : list (list Num))
| Vector (entries : list Num).

(** [numpy.reshape(a, [rows, cols])], from the entries of [a] in row-major
    order *)
Definition np_reshape (a : list Num) (rows cols : nat) : error + list (list Num) :=
  if (length a =? rows * cols)%nat then inr (reshape rows cols a) else inl ValueError.

(** [a + b] for two vectors, with broadcasting *)
Definition np_add (a b : list Num) : error + list Num :=
  if (length a =? length b)%nat then inr (zip_with add a b)
  else match a, b with
       | [x], _ => inr (add x <$> b)
       | _, [y] => inr ((λ x, add x y) <$> a)
       | _, _ => inl ValueError
       end.

(** [numpy.concatenate([a, b], axis=1)] for two matrices *)
Definition concatenate_1 (a b : list (list Num)) : error + list (list Num) :=
  if (length a =? length b)%nat then inr (zip_with app a b) else inl ValueError.

(** One of [weights_and_biases], for [i] in [range(4)]. *)
Definition weights_and_biases_at (values : nat → list Num) (output_dim input_dim i : nat)
  : error + (list (list Num) * list Num) :=
  match np_reshape (values i) output_dim input_dim with
  | inl e => inl e
  | inr input_weights =>
      match np_reshape (values (i + 4)) output_dim output_dim with
      | inl e => inl e
      | inr recurrent_weights =>
          match concatenate_1 input_weights recurrent_weights with
          | inl e => inl e
          | inr w =>
              match np_add (values (8 + i)) (values (8 + i + 4)) with
              | inl e => inl e
              | inr b => inr (w, b)
              end
          end
      end
  end.

(** [numpy.concatenate(ms, axis=0)] for matrices: the rows must have the
    same length. *)
Definition concatenate_0 (ms : list (list (list Num))) : error + list (list Num) :=
  let rows := concat ms in
  match rows with
  | [] => inr []
  | row :: _ =>
      if forallb (λ r, length r =? length row)%nat rows then inr rows else inl ValueError
  end.

(** [values[i]] is the tensor ["<prefix>cudnn/CudnnRNNParamsToCanonical:<i>"]
    of the reader, in row-major order; the tensors from 8 on are vectors (the
    function asserts this for the last one).  The result is the dict, with
    the keys [prefix + target + "kernel"] and [prefix + target + "bias"].
    In [numpy], the remainder and the quotient by zero are zero. *)
Definition convert_cudnn_canonical_to_lstm_block (values : nat → list Num)
    (prefix target : string) : error + gmap string ndarray :=
  let num_vars := 16 in
  let output_dim := length (values (num_vars - 1)) in
  let prod := length (values 0) in
  if negb ((if output_dim =? 0 then 0 else prod mod output_dim) =? 0)%nat
  then inl AssertionError
  else
    let input_dim := (if output_dim =? 0 then 0 else prod / output_dim)%nat in
    let wb := weights_and_biases_at values output_dim input_dim in
    match wb 0, wb 1, wb 2, wb 3 with
    | inr wb0, inr wb1, inr wb2, inr wb3 =>
        (* ifco order to icfo order *)
        let weights_and_biases := [wb0; wb2; wb1; wb3] in
        match concatenate_0 (fst <$> weights_and_biases) with
        | inl e => inl e
        | inr w =>
            let weights := transpose w in
            let biases := concat (snd <$> weights_and_biases) in
            inr (<[prefix +:+ target +:+ "bias" := Vector biases]>
                   {[prefix +:+ target +:+ "kernel" := Matrix weights]})
        end
    | inl e, _, _, _ | _, inl e, _, _ | _, _, inl e, _ | _, _, _, inl e => inl e
    end.

(** The canonical tensor of the gate at position [g] of the kernel: the
    kernel has the gates in the order i, c, f, o, the canonical tensors in
    the order i, f, c, o. *)
Definition cudnn_gate (g : nat) : nat :=
  match g with
  | 1 => 2
  | 2 => 1
  | _ => g
  end.

Lemma reshape_shaped {A : Type} (rows cols : nat) (flat : list A) :
  length flat = rows * cols → shaped (reshape rows cols flat) rows cols.
Proof.
  revert flat. induction rows as [|rows IH]; intros flat Hlen; [done|].
  cbn [reshape]. destruct (IH (drop cols flat)) as [Hl Hr]; [rewrite length_drop; lia|].
  split; [simpl; lia|]. constructor; [rewrite length_take; lia|done].
Qed.

Lemma reshape_entry {A : Type} (rows cols : nat) (flat : list A) (r c : nat) :
  length flat = rows * cols → r < rows → c < cols →
  entry (reshape rows cols flat) r c = flat !! (r * cols + c).
Proof.
  revert flat r. induction rows as [|rows IH]; intros flat r Hlen Hr Hc; [lia|].
  cbn [reshape]. destruct r as [|r].
  - unfold entry. simpl. by rewrite lookup_take_lt.
  - unfold entry. simpl. fold (entry (reshape rows cols (drop cols flat)) r c).
    rewrite IH; [|rewrite length_drop; lia|lia|done]. rewrite lookup_drop. f_equal. lia.
Qed.

Lemma transpose_shaped {A : Type} (m : list (list A)) (T B : nat) :
  shaped m T B → 0 < T → shaped (transpose m) B T.
Proof.
  intros [Hlen Hrows] HT. split.
  { apply length_transpose; [by destruct m; [simpl in Hlen; lia|]|done]. }
  revert T Hlen HT. induction Hrows as [|row rest Hrow Hrest IH]; intros T Hlen HT.
  { simpl in Hlen. lia. }
  cbn [transpose]. destruct rest as [|row' rest].
  - simpl in Hlen. subst T. apply Forall_fmap, Forall_forall. by intros x _.
  - simpl in Hlen. specialize (IH (T - 1) ltac:(simpl; lia) ltac:(simpl in *; lia)).
    apply Forall_lookup. intros b col Hcol.
    apply lookup_zip_with_Some in Hcol as (x & col' & -> & _ & Hcol').
    simpl. rewrite (proj1 (Forall_lookup _ _) IH _ _ Hcol'). lia.
Qed.

Lemma blocks_lookup {A : Type} (a b c d : list A) (n g o : nat) :
  length a = n → length b = n → length c = n → length d = n → g < 4 → o < n →
  concat [a; b; c; d] !! (g * n + o) = ([a; b; c; d] !! g) ≫= (λ block, block !! o).
Proof.
  intros Ha Hb Hc Hd Hg Ho. cbn [concat]. rewrite app_nil_r.
  destruct g as [|[|[|[|g]]]]; [| | | |lia]; simpl.
  - rewrite lookup_app_l by lia. done.
  - rewrite lookup_app_r by lia. rewrite lookup_app_l by lia. f_equal. lia.
  - rewrite lookup_app_r by lia. rewrite lookup_app_r by lia. rewrite lookup_app_l by lia.
    f_equal. lia.
  - rewrite lookup_app_r by lia. rewrite lookup_app_r by lia. rewrite lookup_app_r by lia.
    f_equal. lia.
Qed.

(** One gate: the input weights beside the recurrent weights. *)
Lemma weights_and_biases_at_spec (values : nat → list Num) (O I i : nat) :
  length (values i) = O * I → length (values (i + 4)) = O * O →
  length (values (8 + i)) = O → length (values (8 + i + 4)) = O →
  ∃ w b, weights_and_biases_at values O I i = inr (w, b)
    ∧ shaped w O (I + O)
    ∧ length b = O
    ∧ (∀ o r, o < O → r < I → entry w o r = values i !! (o * I + r))
    ∧ (∀ o r, o < O → r < O → entry w o (I + r) = values (i + 4) !! (o * O + r))
    ∧ (∀ o, o < O →
         b !! o = (x ← values (8 + i) !! o; y ← values (8 + i + 4) !! o; Some (add x y))).
Proof.
  intros Hw Hr Hb Hb'. unfold weights_and_biases_at, np_reshape, concatenate_1, np_add.
  rewrite Hw, Hr, Hb, Hb', !Nat.eqb_refl.
  destruct (reshape_shaped O I (values i) Hw) as [Hwl Hwr].
  destruct (reshape_shaped O O (values (i + 4)) Hr) as [Hrl Hrr].
  rewrite Hwl, Hrl, Nat.eqb_refl. eexists _, _. split; [reflexivity|].
  assert (∀ o, o < O → ∃ wrow rrow,
            reshape O I (values i) !! o = Some wrow ∧ length wrow = I
            ∧ reshape O O (values (i + 4)) !! o = Some rrow ∧ length rrow = O) as Hrows.
  { intros o Ho.
    destruct (lookup_lt_is_Some_2 (reshape O I (values i)) o ltac:(lia)) as [wrow Hwrow].
    destruct (lookup_lt_is_Some_2 (reshape O O (values (i + 4))) o ltac:(lia)) as [rrow Hrrow].
    exists wrow, rrow. split; [done|]. split; [exact (proj1 (Forall_lookup _ _) Hwr _ _ Hwrow)|].
    split; [done|exact (proj1 (Forall_lookup _ _) Hrr _ _ Hrrow)]. }
  split.
  { split; [rewrite length_zip_with; lia|]. apply Forall_lookup. intros o row Hrow.
    apply lookup_zip_with_Some in Hrow as (wrow & rrow & -> & Hwrow & Hrrow).
    rewrite length_app, (proj1 (Forall_lookup _ _) Hwr _ _ Hwrow),
      (proj1 (Forall_lookup _ _) Hrr _ _ Hrrow). done. }
  split; [rewrite length_zip_with; lia|].
  split; [|split].
  - intros o r Ho Hr'. destruct (Hrows o Ho) as (wrow & rrow & Hwrow & Hwlen & Hrrow & Hrlen).
    rewrite <- (reshape_entry O I (values i) o r Hw Ho Hr').
    unfold entry. rewrite lookup_zip_with, Hwrow, Hrrow. simpl.
    by rewrite lookup_app_l by lia.
  - intros o r Ho Hr'. destruct (Hrows o Ho) as (wrow & rrow & Hwrow & Hwlen & Hrrow & Hrlen).
    rewrite <- (reshape_entry O O (values (i + 4)) o r Hr Ho Hr').
    unfold entry. rewrite lookup_zip_with, Hwrow, Hrrow. simpl.
    rewrite lookup_app_r by lia. f_equal. lia.
  - intros o Ho. by rewrite lookup_zip_with.
Qed.

(** X18: The kernel is [(input_dim + output_dim) x (4 * output_dim)] with one
    block of columns per gate, in the order i, c, f, o: the column [o] of a
    block holds the row [o] of the input matrix of the gate, and under it the
    row [o] of its recurrent matrix.  The bias holds for each gate the sum of
    its two canonical biases.  So every canonical weight is at one place of
    the kernel, and the second and the third canonical gate change places. *)
Theorem kernel_layout (values : nat → list Num) (prefix target : string) (O I : nat) :
  0 < O →
  (∀ i, i < 4 → length (values i) = O * I) →
  (∀ i, i < 4 → length (values (i + 4)) = O * O) →
  (∀ i, i < 8 → length (values (8 + i)) = O) →
  ∃ d kernel bias,
    convert_cudnn_canonical_to_lstm_block values prefix target = inr d
    ∧ d !! (prefix +:+ target +:+ "kernel") = Some (Matrix kernel)
    ∧ d !! (prefix +:+ target +:+ "bias") = Some (Vector bias)
    ∧ size d = 2
    ∧ shaped kernel (I + O) (4 * O)
    ∧ length bias = 4 * O
    ∧ ∀ g o, g < 4 → o < O →
        (∀ r, r < I →
           is_Some (values (cudnn_gate g) !! (o * I + r))
           ∧ entry kernel r (g * O + o) = values (cudnn_gate g) !! (o * I + r))
        ∧ (∀ r, r < O →
             is_Some (values (cudnn_gate g + 4) !! (o * O + r))
             ∧ entry kernel (I + r) (g * O + o) = values (cudnn_gate g + 4) !! (o * O + r))
        ∧ ∃ x y, values (8 + cudnn_gate g) !! o = Some x
                 ∧ values (12 + cudnn_gate g) !! o = Some y
                 ∧ bias !! (g * O + o) = Some (add x y).
Proof.
  intros HO Hw Hr Hb. unfold convert_cudnn_canonical_to_lstm_block.
  change (16 - 1) with (8 + 7). rewrite (Hb 7 ltac:(lia)).
  pose proof (Hw 0 ltac:(lia)) as Hw0. rewrite Hw0.
  rewrite (proj2 (Nat.eqb_neq O 0)) by lia.
  replace (O * I) with (I * O) by lia. rewrite Nat.Div0.mod_mul, Nat.div_mul by lia.
  cbn [Nat.eqb negb].
  assert (∀ i, i < 4 → ∃ w b, weights_and_biases_at values O I i = inr (w, b)
    ∧ shaped w O (I + O)
    ∧ length b = O
    ∧ (∀ o r, o < O → r < I → entry w o r = values i !! (o * I + r))
    ∧ (∀ o r, o < O → r < O → entry w o (I + r) = values (i + 4) !! (o * O + r))
    ∧ (∀ o, o < O →
         b !! o = (x ← values (8 + i) !! o; y ← values (8 + i + 4) !! o; Some (add x y))))
    as Hwb.
  { intros i Hi. apply weights_and_biases_at_spec; [by apply Hw|by apply Hr|apply Hb; lia|].
    replace (8 + i + 4) with (8 + (i + 4)) by lia. apply Hb. lia. }
  destruct (Hwb 0 ltac:(lia)) as (w0 & b0 & -> & [Hl0 Hr0] & Hbl0 & Hi0 & Hrec0 & Hb0).
  destruct (Hwb 1 ltac:(lia)) as (w1 & b1 & -> & [Hl1 Hr1] & Hbl1 & Hi1 & Hrec1 & Hb1).
  destruct (Hwb 2 ltac:(lia)) as (w2 & b2 & -> & [Hl2 Hr2] & Hbl2 & Hi2 & Hrec2 & Hb2).
  destruct (Hwb 3 ltac:(lia)) as (w3 & b3 & -> & [Hl3 Hr3] & Hbl3 & Hi3 & Hrec3 & Hb3).
  clear Hwb. cbn [fmap list_fmap fst snd].
  set (w := concat [w0; w2; w1; w3]).
  assert (shaped w (4 * O) (I + O)) as Hsh.
  { unfold w. cbn [concat]. split; [rewrite !length_app; simpl; lia|].
    rewrite !Forall_app. split_and!; done. }
  assert (concatenate_0 [w0; w2; w1; w3] = inr w) as ->.
  { unfold concatenate_0. fold w. destruct w as [|row rows] eqn:Ew.
    { destruct Hsh as [Hlen _]. simpl in Hlen. lia. }
    rewrite (proj2 (forallb_forall _ _)); [done|].
    intros r Hin. apply list_elem_of_In in Hin. apply Nat.eqb_eq.
    destruct Hsh as [_ Hrows]. rewrite Forall_forall in Hrows.
    rewrite (Hrows r Hin). symmetry. apply Hrows. by left. }
  eexists _, (transpose w), (concat [b0; b2; b1; b3]). split; [reflexivity|].
  assert (prefix +:+ target +:+ "bias" ≠ prefix +:+ target +:+ "kernel") as Hkeys.
  { intros Heq. apply String.app_inj, String.app_inj in Heq. done. }
  split; [by rewrite lookup_insert_ne, lookup_singleton_eq|].
  split; [by rewrite lookup_insert_eq|].
  split.
  { rewrite map_size_insert_None; [by rewrite map_size_singleton|].
    by rewrite lookup_singleton_ne. }
  split; [apply transpose_shaped; [done|lia]|].
  split; [cbn [concat]; rewrite !length_app; simpl; lia|].
  intros g o Hg Ho.
  assert (∃ wg bg, [w0; w2; w1; w3] !! g = Some wg ∧ [b0; b2; b1; b3] !! g = Some bg
            ∧ (∀ r, r < I → entry wg o r = values (cudnn_gate g) !! (o * I + r))
            ∧ (∀ r, r < O →
                 entry wg o (I + r) = values (cudnn_gate g + 4) !! (o * O + r))
            ∧ bg !! o = (x ← values (8 + cudnn_gate g) !! o;
                         y ← values (8 + cudnn_gate g + 4) !! o; Some (add x y)))
    as (wg & bg & Hwg & Hbg & Hig & Hrg & Hbgo).
  { destruct g as [|[|[|[|g]]]]; [| | | |lia]; eexists _, _;
      (split; [reflexivity|]); (split; [reflexivity|]); simpl; split_and!; auto. }
  assert (∀ c, c < I + O → entry (transpose w) c (g * O + o) = entry wg o c) as Hentry.
  { intros c Hc. rewrite (transpose_entry w (I + O));
      [|by destruct Hsh|destruct Hsh as [-> _]; nia|done].
    unfold entry, w. rewrite (blocks_lookup w0 w2 w1 w3 O g o); try done.
    by rewrite Hwg. }
  split_and!.
  - intros r Hr'. split; [apply lookup_lt_is_Some; rewrite Hw by (destruct g as [|[|[|[|g]]]]; simpl; lia); nia|].
    rewrite Hentry by lia. by apply Hig.
  - intros r Hr'. split; [apply lookup_lt_is_Some; rewrite Hr by (destruct g as [|[|[|[|g]]]]; simpl; lia); nia|].
    rewrite Hentry by lia. by apply Hrg.
  - destruct (lookup_lt_is_Some_2 (values (8 + cudnn_gate g)) o) as [x Hx].
    { rewrite Hb by (destruct g as [|[|[|[|g]]]]; simpl; lia). done. }
    destruct (lookup_lt_is_Some_2 (values (12 + cudnn_gate g)) o) as [y Hy].
    { replace (12 + cudnn_gate g) with (8 + (cudnn_gate g + 4)) by lia.
      rewrite Hb by (destruct g as [|[|[|[|g]]]]; simpl; lia). done. }
    exists x, y. split; [done|]. split; [done|].
    replace (8 + cudnn_gate g + 4) with (12 + cudnn_gate g) in Hbgo by lia.
    rewrite Hx, Hy in Hbgo.
    rewrite (blocks_lookup b0 b2 b1 b3 O g o); try done. rewrite Hbg. exact Hbgo.
Qed.

End Convert.

(** An LSTM with two units and one input: the weight tensor [k] holds the
    numbers [10 k + 1, 10 k + 2, ...], the bias [k] the numbers [100 k] and
    [100 k + 1]. *)
Definition example_values (k : nat) : list Z :=
  if (k <? 4)%nat then [10 * Z.of_nat k + 1; 10 * Z.of_nat k + 2]%Z
  else if (k <? 8)%nat
       then [10 * Z.of_nat k + 1; 10 * Z.of_nat k + 2;
             10 * Z.of_nat k + 3; 10 * Z.of_nat k + 4]%Z
       else [100 * Z.of_nat k; 100 * Z.of_nat k + 1]%Z.

Lemma example_kernel :
  ∃ d,
    convert_cudnn_canonical_to_lstm_block Z Z.add example_values "layer2/rec/" "rnn/lstm_cell/"
    = inr d
    ∧ d !! "layer2/rec/rnn/lstm_cell/kernel"
      = Some (Matrix Z [[1; 2; 21; 22; 11; 12; 31; 32];
                        [41; 43; 61; 63; 51; 53; 71; 73];
                        [42; 44; 62; 64; 52; 54; 72; 74]]%Z)
    ∧ d !! "layer2/rec/rnn/lstm_cell/bias"
      = Some (Vector Z [2000; 2002; 2400; 2402; 2200; 2202; 2600; 2602]%Z).
Proof. eexists. split; [vm_compute; reflexivity|]. split; vm_compute; reflexivity. Qed.

Lemma kernel_layout_witness :
  ∃ d kernel bias,
    convert_cudnn_canonical_to_lstm_block Z Z.add example_values "layer2/rec/" "rnn/lstm_cell/"
    = inr d
    ∧ d !! ("layer2/rec/" +:+ "rnn/lstm_cell/" +:+ "kernel") = Some (Matrix Z kernel)
    ∧ d !! ("layer2/rec/" +:+ "rnn/lstm_cell/" +:+ "bias") = Some (Vector Z bias)
    ∧ size d = 2
    ∧ shaped kernel (1 + 2) (4 * 2)
    ∧ length bias = 4 * 2
    ∧ ∀ g o, g < 4 → o < 2 →
        (∀ r, r < 1 →
           is_Some (example_values (cudnn_gate g) !! (o * 1 + r))
           ∧ entry kernel r (g * 2 + o) = example_values (cudnn_gate g) !! (o * 1 + r))
        ∧ (∀ r, r < 2 →
             is_Some (example_values (cudnn_gate g + 4) !! (o * 2 + r))
             ∧ entry kernel (1 + r) (g * 2 + o)
               = example_values (cudnn_gate g + 4) !! (o * 2 + r))
        ∧ ∃ x y, example_values (8 + cudnn_gate g) !! o = Some x
                 ∧ example_values (12 + cudnn_gate g) !! o = Some y
                 ∧ bias !! (g * 2 + o) = Some (x + y)%Z.
Proof.
  apply (kernel_layout Z Z.add example_values "layer2/rec/" "rnn/lstm_cell/" 2 1); [lia| | |].
  - intros [|[|[|[|i]]]] Hi; [done|done|done|done|lia].
  - intros [|[|[|[|i]]]] Hi; [done|done|done|done|lia].
  - intros [|[|[|[|[|[|[|[|i]]]]]]]] Hi; [done|done|done|done|done|done|done|done|lia].
Defined.

End CudnnConvert.

(** ** The axes of the attention weights
    ([GenericAttentionLayer._weights_time_axis_to_reduce] and
    [GenericAttentionLayer._weights_remaining_axes]) *)

Module AttentionAxes.

Inductive error : Type :=
| AssertionError
| ValueError
| TypeError
| Exception (msg : string).

(** What the functions read from a [Data]: the axes that [get_axes] and
    [get_dynamic_axes] return, the special axes, the dimensions
    ([batch_shape], [None] for a dynamic one), whether there is a
    [size_placeholder]. *)
Record Data : Type := {
  axes_no_batch : list nat;           (* [get_axes(exclude_batch=True)] *)
  axes_no_batch_no_time : list nat;   (* [get_axes(exclude_batch=True, exclude_time=True)] *)
  dynamic_axes : list nat;            (* [get_dynamic_axes()] *)
  batch_dim_axis : option nat;
  time_dim_axis : option nat;
  feature_dim_axis : option nat;
  batch_shape : nat → option Z;
  has_size_placeholder : bool;
}.

(** [l.remove(x)]: the first occurrence is removed, [ValueError] if there is
    none. *)
Fixpoint list_remove (x : option nat) (l : list nat) : error + list nat :=
  match l with
  | [] => inl ValueError
  | y :: rest =>
      if decide (x = Some y) then inr rest
      else match list_remove x rest with
           | inl e => inl e
           | inr rest' => inr (y :: rest')
           end
  end.

(** [batch_shape[axis]]; [None] is no index. *)
Definition shape_at (d : Data) (axis : option nat) : error + option Z :=
  match axis with
  | Some a => inr (batch_shape d a)
  | None => inl TypeError
  end.

(** [axis in axes], for an axis that may be [None] *)
Definition in_axes (axis : option nat) (axes : list nat) : bool :=
  match axis with
  | Some a => bool_decide (a ∈ axes)
  | None => false
  end.

(** [_weights_time_axis_to_reduce(weights, base)]; [matches axis] is
    [weights.get_dim_tag(axis).is_equal(base_time_tag)]. *)
Definition _weights_time_axis_to_reduce (weights : Data) (matches : nat → bool)
  : error + option nat :=
  let dyn_axes := dynamic_axes weights in
  let time_in_dyn := in_axes (time_dim_axis weights) dyn_axes in
  if negb time_in_dyn then inr (time_dim_axis weights)
  else
    match dyn_axes with
    | [] => inl AssertionError
    | [a] =>
        if bool_decide (time_dim_axis weights = Some a) then inr (time_dim_axis weights)
        else inl AssertionError
    | _ =>
        if negb (has_size_placeholder weights) then
          (if time_in_dyn then inr (time_dim_axis weights) else inl AssertionError)
        else
          let matched_dyn_axes := filter (λ axis, matches axis = true) dyn_axes in
          if (1 <? length matched_dyn_axes)%nat then
            if in_axes (time_dim_axis weights) matched_dyn_axes
            then inr (time_dim_axis weights)
            else inr (last matched_dyn_axes)
          else
            match matched_dyn_axes with
            | [a] => inr (Some a)
            | _ => inl (Exception "no matching time axis found in weights")
            end
    end.

(** The state of the loop of [_weights_remaining_axes]. *)
Record loop_state : Type := {
  base_rem_axes : list nat;
  weights_rem_axes : list nat;
  weights_squeeze_axes : list nat;
  common_axes : list (option nat * option nat);
}.

(** One round of the loop, for [weights_rem_axis]. *)
Definition loop_body (base weights : Data) (auto_squeeze : bool) (st : loop_state)
    (weights_rem_axis : nat) : error + loop_state :=
  let squeeze (_ : unit) : error + loop_state :=
    if auto_squeeze && bool_decide (batch_shape weights weights_rem_axis = Some 1%Z) then
      match list_remove (Some weights_rem_axis) (weights_rem_axes st) with
      | inl e => inl e
      | inr rem =>
          inr {| base_rem_axes := base_rem_axes st;
                 weights_rem_axes := rem;
                 weights_squeeze_axes := weights_squeeze_axes st ++ [weights_rem_axis];
                 common_axes := common_axes st |}
      end
    else inr st in
  match last (base_rem_axes st) with
  | Some base_axis =>
      if bool_decide (batch_shape weights weights_rem_axis = batch_shape base base_axis) then
        match list_remove (Some weights_rem_axis) (weights_rem_axes st) with
        | inl e => inl e
        | inr rem =>
            inr {| base_rem_axes := removelast (base_rem_axes st);
                   weights_rem_axes := rem;
                   weights_squeeze_axes := weights_squeeze_axes st;
                   common_axes := common_axes st ++ [(Some weights_rem_axis, Some base_axis)] |}
        end
      else squeeze ()
  | None => squeeze ()
  end.

Fixpoint loop (base weights : Data) (auto_squeeze : bool) (st : loop_state)
    (todo : list nat) : error + loop_state :=
  match todo with
  | [] => inr st
  | weights_rem_axis :: rest =>
      match loop_body base weights auto_squeeze st weights_rem_axis with
      | inl e => inl e
      | inr st' => loop base weights auto_squeeze st' rest
      end
  end.

(** [_weights_remaining_axes(base, weights, auto_squeeze, exception_prefix)] *)
Definition _weights_remaining_axes (base weights : Data) (matches : nat → bool)
    (auto_squeeze : bool)
  : error + (list nat * list nat * list (option nat * option nat)) :=
  match list_remove (feature_dim_axis base) (axes_no_batch_no_time base) with
  | inl e => inl e
  | inr base_rem_axes0 =>
      match _weights_time_axis_to_reduce weights matches with
      | inl e => inl e
      | inr weights_axis_to_reduce =>
          match shape_at weights weights_axis_to_reduce, shape_at base (time_dim_axis base) with
          | inl e, _ => inl e
          | _, inl e => inl e
          | inr dw, inr db =>
              if negb (bool_decide (dw = db)) then inl AssertionError
              else
                match list_remove weights_axis_to_reduce (axes_no_batch weights) with
                | inl e => inl e
                | inr weights_rem_axes0 =>
                    let st0 := {| base_rem_axes := base_rem_axes0;
                                  weights_rem_axes := weights_rem_axes0;
                                  weights_squeeze_axes := [];
                                  common_axes :=
                                    [(batch_dim_axis weights, batch_dim_axis base)] |} in
                    match loop base weights auto_squeeze st0 (reverse weights_rem_axes0) with
                    | inl e => inl e
                    | inr st =>
                        if negb (bool_decide (base_rem_axes st = [])) then inl AssertionError
                        else inr (weights_rem_axes st, weights_squeeze_axes st, common_axes st)
                    end
                end
          end
      end
  end.

Lemma list_remove_perm (x : option nat) (l l' : list nat) :
  list_remove x l = inr l' → ∃ a, x = Some a ∧ l ≡ₚ a :: l'.
Proof.
  revert l'. induction l as [|y l IH]; intros l' H; [done|]. cbn [list_remove] in H.
  destruct (decide (x = Some y)) as [->|Hne].
  - injection H as <-. by exists y.
  - destruct (list_remove x l) as [e|rest]; [done|]. injection H as <-.
    destruct (IH rest eq_refl) as (a & -> & Hp). exists a. split; [done|].
    rewrite Hp. apply Permutation_swap.
Qed.

Definition as_common (pairs : list (nat * nat)) : list (option nat * option nat) :=
  (λ p, (Some p.1, Some p.2)) <$> pairs.

(** What a run of the loop adds to the three lists, and takes from the
    other two. *)
Lemma loop_spec (base weights : Data) (auto_squeeze : bool) (todo : list nat) st st' :
  loop base weights auto_squeeze st todo = inr st' →
  ∃ pairs squeezed,
    common_axes st' = common_axes st ++ as_common pairs
    ∧ weights_squeeze_axes st' = weights_squeeze_axes st ++ squeezed
    ∧ base_rem_axes st = base_rem_axes st' ++ reverse (snd <$> pairs)
    ∧ weights_rem_axes st ≡ₚ weights_rem_axes st' ++ squeezed ++ (fst <$> pairs)
    ∧ Forall (λ p, batch_shape weights p.1 = batch_shape base p.2) pairs
    ∧ Forall (λ a, batch_shape weights a = Some 1%Z) squeezed
    ∧ (auto_squeeze = false → squeezed = [])
    ∧ (fst <$> pairs) ++ squeezed ⊆ todo.
Proof.
  revert st. induction todo as [|a todo IH]; intros st Hloop.
  { injection Hloop as <-. exists [], []. rewrite !app_nil_r. split_and!; done. }
  cbn [loop] in Hloop.
  destruct (loop_body base weights auto_squeeze st a) as [e|st1] eqn:Hbody; [done|].
  destruct (IH st1 Hloop) as (pairs & squeezed & Hc & Hs & Hb & Hw & Hdims & Hones & Hauto & Hsub).
  clear IH Hloop. unfold loop_body in Hbody.
  assert ((if auto_squeeze && bool_decide (batch_shape weights a = Some 1%Z)
           then match list_remove (Some a) (weights_rem_axes st) with
                | inl e => inl e
                | inr rem =>
                    inr {| base_rem_axes := base_rem_axes st;
                           weights_rem_axes := rem;
                           weights_squeeze_axes := weights_squeeze_axes st ++ [a];
                           common_axes := common_axes st |}
                end
           else inr st) = inr st1 →
          ∃ pairs squeezed,
            common_axes st' = common_axes st ++ as_common pairs
            ∧ weights_squeeze_axes st' = weights_squeeze_axes st ++ squeezed
            ∧ base_rem_axes st = base_rem_axes st' ++ reverse (snd <$> pairs)
            ∧ weights_rem_axes st ≡ₚ weights_rem_axes st' ++ squeezed ++ (fst <$> pairs)
            ∧ Forall (λ p, batch_shape weights p.1 = batch_shape base p.2) pairs
            ∧ Forall (λ a, batch_shape weights a = Some 1%Z) squeezed
            ∧ (auto_squeeze = false → squeezed = [])
            ∧ (fst <$> pairs) ++ squeezed ⊆ a :: todo) as Hsqueeze.
  { intros H. destruct (auto_squeeze && bool_decide (batch_shape weights a = Some 1%Z)) eqn:Hcond.
    - apply andb_true_iff in Hcond as [Hauto' Hone]. apply bool_decide_eq_true in Hone.
      destruct (list_remove (Some a) (weights_rem_axes st)) as [e|rem] eqn:Hrem; [done|].
      injection H as <-. simpl in *.
      apply list_remove_perm in Hrem as (a' & [= <-] & Hperm).
      exists pairs, (a :: squeezed). split_and!; try done.
      + by rewrite Hs, <- app_assoc.
      + rewrite Hperm, Hw. simpl. apply Permutation_middle.
      + by constructor.
      + intros ->. done.
      + intros x Hx. apply elem_of_app in Hx as [Hx|Hx].
        * right. apply Hsub. apply elem_of_app. by left.
        * apply elem_of_cons in Hx as [->|Hx]; [by left|].
          right. apply Hsub. apply elem_of_app. by right.
    - injection H as <-. exists pairs, squeezed. split_and!; try done.
      intros x Hx. right. by apply Hsub. }
  destruct (last (base_rem_axes st)) as [base_axis|] eqn:Hlast; [|by apply Hsqueeze].
  destruct (bool_decide (batch_shape weights a = batch_shape base base_axis)) eqn:Hdim;
    [|by apply Hsqueeze].
  clear Hsqueeze. apply bool_decide_eq_true in Hdim.
  destruct (list_remove (Some a) (weights_rem_axes st)) as [e|rem] eqn:Hrem; [done|].
  injection Hbody as <-. simpl in *.
  apply list_remove_perm in Hrem as (a' & [= <-] & Hperm).
  exists ((a, base_axis) :: pairs), squeezed. split_and!; try done.
  - rewrite Hc, <- app_assoc. done.
  - apply last_Some in Hlast as [front Hfront]. rewrite Hfront in *.
    rewrite removelast_last in Hb. rewrite Hb. rewrite fmap_cons, reverse_cons.
    by rewrite <- app_assoc.
  - rewrite Hperm, Hw, fmap_cons. simpl.
    rewrite (Permutation_middle (weights_rem_axes st')).
    apply Permutation_app_head. by rewrite <- Permutation_middle.
  - by constructor.
  - intros x Hx. rewrite fmap_cons in Hx. simpl in Hx.
    apply elem_of_cons in Hx as [->|Hx]; [by left|]. right. by apply Hsub.
Qed.

Lemma time_axis_to_reduce_spec (weights : Data) (matches : nat → bool) axis :
  _weights_time_axis_to_reduce weights matches = inr axis →
  axis = time_dim_axis weights
  ∨ (∃ a, axis = Some a ∧ a ∈ dynamic_axes weights ∧ matches a = true
          ∧ in_axes (time_dim_axis weights) (filter (λ x, matches x = true) (dynamic_axes weights))
            = false).
Proof.
  unfold _weights_time_axis_to_reduce. intros H.
  destruct (negb (in_axes (time_dim_axis weights) (dynamic_axes weights))); [injection H as <-; by left|].
  destruct (dynamic_axes weights) as [|a [|b l]] eqn:Hdyn; [done| |].
  { destruct (bool_decide _); [injection H as <-; by left|done]. }
  rewrite <- Hdyn in *.
  destruct (negb (has_size_placeholder weights)).
  { destruct (in_axes _ _); [injection H as <-; by left|done]. }
  set (matched := filter (λ x, matches x = true) (dynamic_axes weights)) in *.
  destruct (1 <? length matched)%nat eqn:Hlen.
  - destruct (in_axes (time_dim_axis weights) matched) eqn:Hin; [injection H as <-; by left|].
    injection H as <-. destruct (last matched) as [x|] eqn:Hlast.
    + right. exists x. split; [done|].
      assert (x ∈ matched) as Hx.
      { apply last_Some in Hlast as [front ->]. apply elem_of_app. right. by left. }
      apply list_elem_of_filter in Hx as [Hm Hx]. done.
    + apply last_None in Hlast. rewrite Hlast in Hlen. done.
  - destruct matched as [|x [|y l']] eqn:Hm; [done| |done]. injection H as <-.
    destruct (in_axes (time_dim_axis weights) [x]) eqn:Hin.
    + left. destruct (time_dim_axis weights) as [t|]; [|done]. simpl in Hin.
      apply bool_decide_eq_true in Hin. apply list_elem_of_singleton in Hin. by subst.
    + right. exists x. assert (x ∈ matched) as Hx by (rewrite Hm; by left).
      unfold matched in Hx. apply list_elem_of_filter in Hx as [Hmx Hx]. done.
Qed.

(** X19: When [_weights_remaining_axes] returns, it has split the axes of the
    weights: every axis apart from the batch axis is the reduced axis, or one
    of the remaining axes, or a squeezed axis of dimension 1 (only with
    [auto_squeeze]), or the partner of a base axis of the same dimension, and
    it is only one of these.  Every base axis apart from batch, time and
    feature has exactly one partner; the pairs come after the pair of the
    batch axes, the base axes from the last to the first.  The reduced axis
    has the dimension of the time axis of the base, and it is the time axis
    of the weights or a dynamic axis with the time tag of the base. *)
Theorem weights_axes_partition (base weights : Data) (matches : nat → bool)
    (auto_squeeze : bool) remaining squeezed common :
  _weights_remaining_axes base weights matches auto_squeeze
  = inr (remaining, squeezed, common) →
  ∃ feature base_time reduce pairs,
    feature_dim_axis base = Some feature
    ∧ time_dim_axis base = Some base_time
    ∧ _weights_time_axis_to_reduce weights matches = inr (Some reduce)
    ∧ (time_dim_axis weights = Some reduce
       ∨ (reduce ∈ dynamic_axes weights ∧ matches reduce = true))
    ∧ batch_shape weights reduce = batch_shape base base_time
    ∧ common = (batch_dim_axis weights, batch_dim_axis base) :: as_common pairs
    ∧ axes_no_batch_no_time base ≡ₚ feature :: (snd <$> pairs)
    ∧ (∃ base_rest, list_remove (Some feature) (axes_no_batch_no_time base) = inr base_rest
                    ∧ snd <$> pairs = reverse base_rest)
    ∧ axes_no_batch weights ≡ₚ reduce :: remaining ++ squeezed ++ (fst <$> pairs)
    ∧ Forall (λ p, batch_shape weights p.1 = batch_shape base p.2) pairs
    ∧ Forall (λ a, batch_shape weights a = Some 1%Z) squeezed
    ∧ (auto_squeeze = false → squeezed = []).
Proof.
  unfold _weights_remaining_axes. intros H.
  destruct (list_remove (feature_dim_axis base) (axes_no_batch_no_time base))
    as [e|base0] eqn:Hbase; [done|].
  destruct (_weights_time_axis_to_reduce weights matches) as [e|axis] eqn:Haxis; [done|].
  destruct axis as [reduce|]; [|done]. cbn [shape_at] in H.
  destruct (time_dim_axis base) as [base_time|] eqn:Htime; [|done]. cbn [shape_at] in H.
  destruct (bool_decide (batch_shape weights reduce = batch_shape base base_time)) eqn:Hdim;
    [|done]. apply bool_decide_eq_true in Hdim. cbn [negb] in H.
  destruct (list_remove (Some reduce) (axes_no_batch weights)) as [e|weights0] eqn:Hweights;
    [done|].
  destruct (loop base weights auto_squeeze _ (reverse weights0)) as [e|st] eqn:Hloop; [done|].
  destruct (bool_decide (base_rem_axes st = [])) eqn:Hempty; [|done].
  apply bool_decide_eq_true in Hempty. injection H as <- <- <-.
  destruct (loop_spec _ _ _ _ _ _ Hloop)
    as (pairs & squeezed & Hc & Hs & Hb & Hw & Hdims & Hones & Hauto & _). simpl in *.
  rewrite Hempty in Hb. simpl in Hb.
  pose proof Hbase as Hbase'.
  apply list_remove_perm in Hbase as (feature & Hfeature & Hbperm).
  apply list_remove_perm in Hweights as (reduce' & [= <-] & Hwperm).
  exists feature, base_time, reduce, pairs. split_and!; try done.
  - apply time_axis_to_reduce_spec in Haxis as [Ht|(a & [= <-] & Ha & Hm & _)];
      [by left|by right].
  - rewrite Hbperm, Hb. by rewrite reverse_Permutation.
  - exists base0. rewrite <- Hfeature. split; [done|]. by rewrite Hb, reverse_involutive.
  - by rewrite Hwperm, Hw, Hs.
  - by rewrite Hs.
  - rewrite Hs. intros Ha. by rewrite (Hauto Ha).
Qed.

(** A base of shape [[B,T,8,D]] and weights of shape [[B,T,8,1]]: the axis
    of the heads is common, the last axis of the weights is squeezed. *)
Definition example_base : Data :=
  {| axes_no_batch := [1; 2; 3];
     axes_no_batch_no_time := [2; 3];
     dynamic_axes := [1];
     batch_dim_axis := Some 0;
     time_dim_axis := Some 1;
     feature_dim_axis := Some 3;
     batch_shape := λ a, match a with 2 => Some 8%Z | 3 => Some 512%Z | _ => None end;
     has_size_placeholder := true |}.

Definition example_weights : Data :=
  {| axes_no_batch := [1; 2; 3];
     axes_no_batch_no_time := [2; 3];
     dynamic_axes := [1];
     batch_dim_axis := Some 0;
     time_dim_axis := Some 1;
     feature_dim_axis := Some 3;
     batch_shape := λ a, match a with 2 => Some 8%Z | 3 => Some 1%Z | _ => None end;
     has_size_placeholder := true |}.

(** Weights of shape [[B,T,1]]: nothing matches the axis of the heads. *)
Definition example_weights_no_heads : Data :=
  {| axes_no_batch := [1; 2];
     axes_no_batch_no_time := [2];
     dynamic_axes := [1];
     batch_dim_axis := Some 0;
     time_dim_axis := Some 1;
     feature_dim_axis := Some 2;
     batch_shape := λ a, match a with 2 => Some 1%Z | _ => None end;
     has_size_placeholder := true |}.

Lemma example_axes :
  _weights_remaining_axes example_base example_weights (λ _, true) true
  = inr ([], [3], [(Some 0, Some 0); (Some 2, Some 2)])
  ∧ _weights_remaining_axes example_base example_weights (λ _, true) false
    = inr ([3], [], [(Some 0, Some 0); (Some 2, Some 2)])
  ∧ _weights_remaining_axes example_base example_weights_no_heads (λ _, true) true
    = inl AssertionError.
Proof. vm_compute. done. Qed.

Lemma weights_axes_partition_witness :
  ∃ feature base_time reduce pairs,
    feature_dim_axis example_base = Some feature
    ∧ time_dim_axis example_base = Some base_time
    ∧ _weights_time_axis_to_reduce example_weights (λ _, true) = inr (Some reduce)
    ∧ (time_dim_axis example_weights = Some reduce
       ∨ (reduce ∈ dynamic_axes example_weights ∧ true = true))
    ∧ batch_shape example_weights reduce = batch_shape example_base base_time
    ∧ [(Some 0, Some 0); (Some 2, Some 2)]
      = (batch_dim_axis example_weights, batch_dim_axis example_base) :: as_common pairs
    ∧ axes_no_batch_no_time example_base ≡ₚ feature :: (snd <$> pairs)
    ∧ (∃ base_rest,
         list_remove (Some feature) (axes_no_batch_no_time example_base) = inr base_rest
         ∧ snd <$> pairs = reverse base_rest)
    ∧ axes_no_batch example_weights ≡ₚ reduce :: [] ++ [3] ++ (fst <$> pairs)
    ∧ Forall (λ p, batch_shape example_weights p.1 = batch_shape example_base p.2) pairs
    ∧ Forall (λ a, batch_shape example_weights a = Some 1%Z) [3]
    ∧ (true = false → [3] = []).
Proof.
  apply (weights_axes_partition example_base example_weights (λ _, true) true
           [] [3] [(Some 0, Some 0); (Some 2, Some 2)]).
  vm_compute. reflexivity.
Defined.

End AttentionAxes.

(** ** The loop variables of the layers
    ([get_init_loop_vars], the packing and unpacking in [body] of
    [get_output], [get_layer_rec_var_from_loop_vars]) *)

Module LoopVars.

(** [sorted(keys)] *)
Definition sorted (keys : list string) : list string :=
  merge_sort (λ a b, Is_true (String.leb a b)) keys.

(** [sorted(d)], the sorted keys of a dict *)
Definition sorted_keys {A : Type} (d : gmap string A) : list string :=
  sorted (elements (dom d)).

(** [sorted_values_from_dict(d)]: the values in the order of the sorted
    keys *)
Definition sorted_values_from_dict {A : Type} (d : gmap string A) : list A :=
  omap (λ k, d !! k) (sorted_keys d).

(** [dict_zip(keys, values)] *)
Definition dict_zip {A : Type} (keys : list string) (values : list A)
  : result (gmap string A) :=
  if (length keys =? length values)%nat then Ok (list_to_map (zip keys values))
  else Raise (AssertionError "len(keys) == len(values)").

Lemma sorted_Permutation (keys : list string) : sorted keys ≡ₚ keys.
Proof. apply merge_sort_Permutation. Qed.

Lemma elem_of_sorted_keys {A : Type} (d : gmap string A) (k : string) :
  k ∈ sorted_keys d ↔ k ∈ dom d.
Proof. unfold sorted_keys. by rewrite sorted_Permutation, elem_of_elements. Qed.

Lemma NoDup_sorted_keys {A : Type} (d : gmap string A) : NoDup (sorted_keys d).
Proof. unfold sorted_keys. rewrite sorted_Permutation. apply NoDup_elements. Qed.

Lemma length_sorted_keys {A : Type} (d : gmap string A) : length (sorted_keys d) = size d.
Proof. unfold sorted_keys. rewrite sorted_Permutation. by rewrite <- size_dom. Qed.

Lemma omap_lookup_Forall2 {A : Type} (d : gmap string A) (keys : list string) :
  (∀ k, k ∈ keys → is_Some (d !! k)) →
  Forall2 (λ k v, d !! k = Some v) keys (omap (λ k, d !! k) keys).
Proof.
  induction keys as [|k keys IH]; intros H; [constructor|].
  destruct (H k) as [v Hv]; [by left|]. cbn [omap list_omap]. rewrite Hv.
  constructor; [done|]. apply IH. intros k' Hk'. apply H. by right.
Qed.

Lemma sorted_values_Forall2 {A : Type} (d : gmap string A) :
  Forall2 (λ k v, d !! k = Some v) (sorted_keys d) (sorted_values_from_dict d).
Proof.
  apply omap_lookup_Forall2. intros k Hk. apply elem_of_sorted_keys in Hk.
  by apply elem_of_dom.
Qed.

(** A dict is what [zip] makes of its keys and of its values in the order
    of the keys. *)
Lemma list_to_map_zip {A : Type} (d : gmap string A) (keys : list string) (values : list A) :
  NoDup keys → (∀ k, k ∈ keys ↔ k ∈ dom d) →
  Forall2 (λ k v, d !! k = Some v) keys values →
  list_to_map (zip keys values) = d.
Proof.
  intros Hnd Hdom Hall. apply map_eq. intros k.
  assert ((zip keys values).*1 = keys) as Hfst.
  { apply fst_zip. by rewrite (Forall2_length _ _ _ Hall). }
  destruct (decide (k ∈ keys)) as [Hin|Hnin].
  - apply list_elem_of_lookup_1 in Hin as [i Hi].
    destruct (Forall2_lookup_l _ _ _ _ _ Hall Hi) as (v & Hv & Hd). rewrite Hd.
    apply elem_of_list_to_map_1; [by rewrite Hfst|].
    apply list_elem_of_lookup_2 with i. apply lookup_zip_with_Some. by exists k, v.
  - rewrite (not_elem_of_list_to_map_1 _ k) by (by rewrite Hfst).
    symmetry. apply not_elem_of_dom. by rewrite <- Hdom.
Qed.

Lemma dict_zip_sorted_values {A : Type} (d initial : gmap string A) :
  dom d = dom initial →
  dict_zip (sorted_keys initial) (sorted_values_from_dict d) = Ok d.
Proof.
  intros Hdom. unfold dict_zip.
  assert (sorted_keys initial = sorted_keys d) as -> by (unfold sorted_keys; by rewrite Hdom).
  rewrite (Forall2_length _ _ _ (sorted_values_Forall2 d)), Nat.eqb_refl. f_equal.
  apply list_to_map_zip; [apply NoDup_sorted_keys|apply elem_of_sorted_keys|
                          apply sorted_values_Forall2].
Qed.

Section Cell.

Variable Tensor : Type.
(** [Data], the output of a layer: its descriptor with the tensor. *)
Variable Data : Type.

(** [layer.get_search_choices().owner], as far as [maybe_transform] reads
    it: the name of the layer and [RecLayer.is_prev_step_layer] of it. *)
Record Owner : Type := {
  owner_name : string;
  owner_is_prev_step_layer : bool;
}.

(** A layer of the net of one step: its output, its state
    [rec_vars_outputs], [RecLayer.is_prev_step_layer(layer)], and the owner
    of [layer.get_search_choices()] ([None] without search choices). *)
Record Layer : Type := {
  output : Data;
  rec_vars_outputs : gmap string Tensor;
  is_prev_step_layer : bool;
  get_search_choices : option Owner;
}.

(** What [translate_to_this_search_beam(layer)] returns: the layer that was
    passed in, or a new [SelectSearchSourcesLayer]. *)
Inductive translated : Type :=
| SameLayer
| SelectSearchSources (layer : Layer).

(** [self.parent_net.search_flag] *)
Variable search_flag : bool.
(** [cur.search_choices.translate_to_this_search_beam(layer)], for the
    layer [cur] of this frame that owns the search choices *)
Variable translate_to_this_search_beam : Layer → Layer → result translated.
(** [output.copy_compatible_to(self.layer_data_templates[k].output).placeholder] *)
Variable copy_compatible_to : Data → string → result Tensor.

(** What the cell knows when the loop is built. *)
Variable prev_layers_needed : gset string.
Variable layer_data_templates : gset string.
Variable input_layers_moved_out : list string.
Variable output_layers_moved_out : list string.
Variable _get_init_output : string → Tensor.
Variable _get_init_extra_outputs : string → gmap string Tensor.

Definition in_loop (k : string) : bool :=
  bool_decide (k ∉ input_layers_moved_out ++ output_layers_moved_out).

(** [self._initial_outputs] as [get_init_loop_vars] sets it. *)
Definition _initial_outputs : gmap string Tensor :=
  list_to_map ((λ k, (k, _get_init_output k))
               <$> filter (λ k, in_loop k = true) (sorted (elements prev_layers_needed))).

(** [self._initial_extra_outputs] as [get_init_loop_vars] sets it: the
    layers without extra outputs are left out. *)
Definition _initial_extra_outputs : gmap string (gmap string Tensor) :=
  filter (λ kv, kv.2 ≠ ∅)
    (list_to_map ((λ k, (k, _get_init_extra_outputs k))
                  <$> filter (λ k, in_loop k = true) (sorted (elements layer_data_templates)))).

(** [get_init_loop_vars()] *)
Definition get_init_loop_vars : list Tensor * list (list Tensor) :=
  (sorted_values_from_dict _initial_outputs,
   sorted_values_from_dict <$> sorted_values_from_dict _initial_extra_outputs).

(** [maybe_transform(layer)] in [body]: the layer that the next frame finds
    as "prev:...".  The cache of the transformed layers does not show: a
    layer is entered with the result that the call would give again.
<<
if not self.parent_net.search_flag:
  return layer
if layer in transformed_cache:
  return transformed_cache[layer]
assert not RecLayer.is_prev_step_layer(layer)  # this layer is from current frame
if not layer.get_search_choices():
  return layer
search_choices_layer = layer.get_search_choices().owner
if not RecLayer.is_prev_step_layer(search_choices_layer):
  return layer
assert search_choices_layer.name.startswith("prev:")
cur_frame_search_choices_layer = self.net.layers[search_choices_layer.name[len("prev:"):]]
assert not RecLayer.is_prev_step_layer(cur_frame_search_choices_layer)
transformed_layer = cur_frame_search_choices_layer.search_choices.translate_to_this_search_beam(layer)
assert transformed_layer != layer
transformed_cache[layer] = transformed_layer
return transformed_layer
>> *)
Definition maybe_transform (layers : gmap string Layer) (layer : Layer) : result Layer :=
  if negb search_flag then Ok layer
  else if is_prev_step_layer layer
  then Raise (AssertionError "not RecLayer.is_prev_step_layer(layer)")
  else
    match get_search_choices layer with
    | None => Ok layer
    | Some search_choices_layer =>
        if negb (owner_is_prev_step_layer search_choices_layer) then Ok layer
        else if negb (String.prefix "prev:" (owner_name search_choices_layer))
        then Raise (AssertionError "search_choices_layer.name.startswith(prev:)")
        else
          let cur_name :=
            String.substring 5 (String.length (owner_name search_choices_layer) - 5)
              (owner_name search_choices_layer) in
          match layers !! cur_name with
          | None => Raise (KeyError cur_name)
          | Some cur_frame_search_choices_layer =>
              if is_prev_step_layer cur_frame_search_choices_layer
              then Raise (AssertionError
                            "not RecLayer.is_prev_step_layer(cur_frame_search_choices_layer)")
              else
                do transformed_layer <-
                  translate_to_this_search_beam cur_frame_search_choices_layer layer;
                match transformed_layer with
                | SameLayer => Raise (AssertionError "transformed_layer != layer")
                | SelectSearchSources transformed_layer => Ok transformed_layer
                end
          end
    end.

(** The end of [body]: the loop variables for the next step, from the
    layers of this step.
<<
outputs_flat = [
  maybe_transform(self.net.layers[k]).output.copy_compatible_to(
    self.layer_data_templates[k].output).placeholder
  for k in sorted(self._initial_outputs)]
extra_flat = []
for k, v in sorted(self._initial_extra_outputs.items()):
  layer = maybe_transform(self.net.layers[k])
  assert set(layer.rec_vars_outputs.keys()) == set(v.keys())
  extra_flat.append(sorted_values_from_dict(layer.rec_vars_outputs))
net_vars = (outputs_flat, extra_flat)
>> *)
Fixpoint outputs_flat (layers : gmap string Layer) (keys : list string)
  : result (list Tensor) :=
  match keys with
  | [] => Ok []
  | k :: rest =>
      match layers !! k with
      | None => Raise (KeyError k)
      | Some layer =>
          do layer <- maybe_transform layers layer;
          if bool_decide (k ∈ layer_data_templates) then
            do placeholder <- copy_compatible_to (output layer) k;
            do flat <- outputs_flat layers rest;
            Ok (placeholder :: flat)
          else Raise (KeyError k)
      end
  end.

Fixpoint extra_flat (layers : gmap string Layer) (keys : list string)
  : result (list (list Tensor)) :=
  match keys with
  | [] => Ok []
  | k :: rest =>
      match layers !! k, _initial_extra_outputs !! k with
      | None, _ | _, None => Raise (KeyError k)
      | Some layer, Some v =>
          do layer <- maybe_transform layers layer;
          if bool_decide (dom (rec_vars_outputs layer) = dom v) then
            do flat <- extra_flat layers rest;
            Ok (sorted_values_from_dict (rec_vars_outputs layer) :: flat)
          else Raise (AssertionError "set(layer.rec_vars_outputs.keys()) == set(v.keys())")
      end
  end.

Definition next_net_vars (layers : gmap string Layer) : result (list Tensor * list (list Tensor)) :=
  do outputs <- outputs_flat layers (sorted_keys _initial_outputs);
  do extra <- extra_flat layers (sorted_keys _initial_extra_outputs);
  Ok (outputs, extra).

(** The start of [body]: the previous outputs and states, from the loop
    variables.
<<
prev_outputs_flat, prev_extra_flat = net_vars
assert len(prev_outputs_flat) == len(self._initial_outputs)
prev_outputs = {k: v for (k, v) in zip(sorted(self._initial_outputs), prev_outputs_flat)}
assert len(prev_extra_flat) == len(self._initial_extra_outputs)
prev_extra = {
  k: dict_zip(sorted(self._initial_extra_outputs[k]), v)
  for (k, v) in zip(sorted(self._initial_extra_outputs), prev_extra_flat)}
>> *)
Fixpoint prev_extra_from (acc : gmap string (gmap string Tensor)) (items : list (string * list Tensor))
  : result (gmap string (gmap string Tensor)) :=
  match items with
  | [] => Ok acc
  | (k, v) :: rest =>
      match _initial_extra_outputs !! k with
      | None => Raise (KeyError k)
      | Some initial =>
          do d <- dict_zip (sorted_keys initial) v;
          prev_extra_from (<[k := d]> acc) rest
      end
  end.

Definition unpack (net_vars : list Tensor * list (list Tensor)) : result (gmap string Tensor * gmap string (gmap string Tensor)) :=
  let '(prev_outputs_flat, prev_extra_flat) := net_vars in
  if negb (length prev_outputs_flat =? size _initial_outputs)%nat
  then Raise (AssertionError "len(prev_outputs_flat) == len(self._initial_outputs)")
  else
    let prev_outputs : gmap string Tensor :=
      list_to_map (zip (sorted_keys _initial_outputs) prev_outputs_flat) in
    if negb (length prev_extra_flat =? size _initial_extra_outputs)%nat
    then Raise (AssertionError "len(prev_extra_flat) == len(self._initial_extra_outputs)")
    else
      do prev_extra <- prev_extra_from ∅ (zip (sorted_keys _initial_extra_outputs) prev_extra_flat);
      Ok (prev_outputs, prev_extra).

(** [get_layer_rec_var_from_loop_vars(loop_vars, layer_name)], not for the
    final frame *)
Definition get_layer_rec_var_from_loop_vars (loop_vars : list Tensor * list (list Tensor)) (layer_name : string)
  : result (gmap string Tensor) :=
  do prev <- unpack loop_vars;
  match prev.2 !! layer_name with
  | Some rec_vars_outputs => Ok rec_vars_outputs
  | None => Raise (KeyError layer_name)
  end.

(** Unpacking what was packed from the states [target] of the layers. *)
Lemma prev_extra_from_spec (target : gmap string (gmap string Tensor)) (keys : list string)
    (flat : list (list Tensor)) (acc : gmap string (gmap string Tensor)) :
  Forall2 (λ k f, ∃ d v, target !! k = Some d ∧ _initial_extra_outputs !! k = Some v
                         ∧ dom d = dom v ∧ f = sorted_values_from_dict d) keys flat →
  ∃ prev_extra, prev_extra_from acc (zip keys flat) = Ok prev_extra
    ∧ ∀ k, prev_extra !! k = if decide (k ∈ keys) then target !! k else acc !! k.
Proof.
  intros Hall. revert acc. induction Hall as [|k f keys flat Hk _ IH]; intros acc.
  { exists acc. split; [done|]. intros k. destruct (decide (k ∈ [])) as [H|_]; [|done].
    by apply elem_of_nil in H. }
  destruct Hk as (d & v & Hd & Hv & Hdom & ->).
  destruct (IH (<[k := d]> acc)) as (prev_extra & Hprev & Hlookup).
  exists prev_extra. split.
  { cbn [zip zip_with prev_extra_from]. rewrite Hv.
    rewrite (dict_zip_sorted_values d v Hdom). cbn [result_bind]. exact Hprev. }
  intros k'. rewrite Hlookup.
  destruct (decide (k' ∈ keys)) as [Hin|Hnin].
  - rewrite decide_True; [done|by right].
  - destruct (decide (k' = k)) as [->|Hne].
    + rewrite decide_True by (by left). by rewrite lookup_insert_eq.
    + rewrite decide_False; [by rewrite lookup_insert_ne|].
      intros H. apply elem_of_cons in H as [H|H]; done.
Qed.

(** The layer that is carried to the next frame for the name [k], its
    output tensor and its state. *)
Definition carried_output (layers : gmap string Layer) (k : string) (v : Tensor) : Prop :=
  ∃ layer carried,
    layers !! k = Some layer ∧ maybe_transform layers layer = Ok carried
    ∧ k ∈ layer_data_templates ∧ copy_compatible_to (output carried) k = Ok v.

Definition carried_state (layers : gmap string Layer) (k : string) (d : gmap string Tensor)
  : Prop :=
  ∃ layer carried v,
    layers !! k = Some layer ∧ maybe_transform layers layer = Ok carried
    ∧ _initial_extra_outputs !! k = Some v
    ∧ dom (rec_vars_outputs carried) = dom v ∧ d = rec_vars_outputs carried.

Lemma outputs_flat_spec (layers : gmap string Layer) (keys : list string) flat :
  outputs_flat layers keys = Ok flat ↔ Forall2 (carried_output layers) keys flat.
Proof.
  revert flat. induction keys as [|k keys IH]; intros flat.
  { split; [intros [= <-]; constructor|]. intros H. by apply Forall2_nil_inv_l in H as ->. }
  cbn [outputs_flat]. split.
  - destruct (layers !! k) as [layer|] eqn:Hk; [|done].
    destruct (maybe_transform layers layer) as [carried|e] eqn:Hc; [|done].
    cbn [result_bind].
    destruct (bool_decide (k ∈ layer_data_templates)) eqn:Ht; [|done].
    apply bool_decide_eq_true in Ht.
    destruct (copy_compatible_to (output carried) k) as [v|e] eqn:Hv; [|done].
    cbn [result_bind].
    destruct (outputs_flat layers keys) as [flat'|e] eqn:Hflat; [|done].
    intros [= <-]. constructor; [by exists layer, carried|by apply IH].
  - intros H. apply Forall2_cons_inv_l in H as (v & flat' & Hk & Hrest & ->).
    destruct Hk as (layer & carried & -> & -> & Ht & Hv). cbn [result_bind].
    rewrite (bool_decide_eq_true_2 _ Ht), Hv. cbn [result_bind].
    by rewrite (proj2 (IH flat') Hrest).
Qed.

Lemma extra_flat_spec (layers : gmap string Layer) (keys : list string) flat :
  extra_flat layers keys = Ok flat ↔
  Forall2 (λ k f, ∃ d, carried_state layers k d ∧ f = sorted_values_from_dict d) keys flat.
Proof.
  revert flat. induction keys as [|k keys IH]; intros flat.
  { split; [intros [= <-]; constructor|]. intros H. by apply Forall2_nil_inv_l in H as ->. }
  cbn [extra_flat]. split.
  - destruct (layers !! k) as [layer|] eqn:Hk; [|done].
    destruct (_initial_extra_outputs !! k) as [v|] eqn:Hv; [|done].
    destruct (maybe_transform layers layer) as [carried|e] eqn:Hc; [|done].
    cbn [result_bind].
    destruct (bool_decide (dom (rec_vars_outputs carried) = dom v)) eqn:Hdom; [|done].
    apply bool_decide_eq_true in Hdom.
    destruct (extra_flat layers keys) as [flat'|e] eqn:Hflat; [|done].
    intros [= <-]. constructor; [|by apply IH].
    exists (rec_vars_outputs carried). split; [|done]. by exists layer, carried, v.
  - intros H. apply Forall2_cons_inv_l in H as (f & flat' & Hk & Hrest & ->).
    destruct Hk as (d & (layer & carried & v & -> & -> & -> & Hdom & ->) & ->).
    cbn [result_bind]. rewrite (bool_decide_eq_true_2 _ Hdom).
    by rewrite (proj2 (IH flat') Hrest).
Qed.

Lemma Forall2_total {A B : Type} (P : A → B → Prop) (l : list A) :
  (∀ x, x ∈ l → ∃ y, P x y) → ∃ k, Forall2 P l k.
Proof.
  induction l as [|x l IH]; intros H; [exists []; constructor|].
  destruct (H x) as [y Hy]; [by left|].
  destruct IH as [k Hk]; [intros x' Hx'; apply H; by right|].
  exists (y :: k). by constructor.
Qed.

Lemma substring_all (s : string) : String.substring 0 (String.length s) s = s.
Proof. induction s as [|c s IH]; [done|]. simpl. by rewrite IH. Qed.

(** [name.startswith(p)] and [name[len(p):]] *)
Lemma prefix_split (p name : string) :
  String.prefix p name = true →
  name = (p ++ String.substring (String.length p)
                 (String.length name - String.length p) name)%string.
Proof.
  revert name. induction p as [|a p IH]; intros name.
  { intros _. destruct name; simpl; [done|]. by rewrite substring_all. }
  destruct name as [|b name]; [done|].
  change (String.prefix (String a p) (String b name))
    with (if ascii_dec a b then String.prefix p name else false).
  destruct (ascii_dec a b) as [<-|]; [|done].
  intros H. apply IH in H. simpl. exact (f_equal (String a) H).
Qed.

Lemma prev_name_split (name : string) :
  String.prefix "prev:" name = true →
  name = ("prev:" ++ String.substring 5 (String.length name - 5) name)%string.
Proof. apply prefix_split. Qed.

(** X20: What a layer leaves at the end of a step is what the next step finds
    for it.  When the end of [body] packs the loop variables, the start of
    [body] unpacks them without an error: the previous output of every layer
    of [_initial_outputs] is the output of the layer carried for it, made
    compatible to its template; the previous state of every layer of
    [_initial_extra_outputs] is the state of the carried layer, key by key;
    no other layer has an entry.  The packing returns exactly when every such
    layer has a carried output, and a carried state with the keys of its
    initial state.  The layer carried for a layer of the net is what
    [maybe_transform] returns for it: without search the layer itself; under
    search the layer itself, or, for a layer whose search choices are those
    of a layer "prev:x" of the previous frame, the new layer that the choices
    of the layer "x" of this frame translate it to. *)
Theorem state_is_carried_to_next_step (layers : gmap string Layer) :
  (∀ net_vars, next_net_vars layers = Ok net_vars →
     ∃ prev_outputs prev_extra,
       unpack net_vars = Ok (prev_outputs, prev_extra)
       ∧ (∀ k, k ∈ dom _initial_outputs →
               ∃ v, carried_output layers k v ∧ prev_outputs !! k = Some v)
       ∧ (∀ k, k ∉ dom _initial_outputs → prev_outputs !! k = None)
       ∧ (∀ k, k ∈ dom _initial_extra_outputs →
               ∃ d, carried_state layers k d ∧ prev_extra !! k = Some d
                    ∧ get_layer_rec_var_from_loop_vars net_vars k = Ok d)
       ∧ (∀ k, k ∉ dom _initial_extra_outputs → prev_extra !! k = None))
  ∧ ((∃ net_vars, next_net_vars layers = Ok net_vars) ↔
     (∀ k, k ∈ dom _initial_outputs → ∃ v, carried_output layers k v)
     ∧ (∀ k, k ∈ dom _initial_extra_outputs → ∃ d, carried_state layers k d))
  ∧ (search_flag = false → ∀ layer, maybe_transform layers layer = Ok layer)
  ∧ (∀ layer carried, maybe_transform layers layer = Ok carried →
       carried = layer
       ∨ ∃ owner x cur,
           search_flag = true
           ∧ get_search_choices layer = Some owner
           ∧ owner_is_prev_step_layer owner = true
           ∧ owner_name owner = ("prev:" ++ x)%string
           ∧ layers !! x = Some cur ∧ is_prev_step_layer cur = false
           ∧ translate_to_this_search_beam cur layer = Ok (SelectSearchSources carried)).
Proof.
  split_and!.
  - intros [outputs extra] Hnext. unfold next_net_vars in Hnext.
    destruct (outputs_flat layers (sorted_keys _initial_outputs)) as [outputs'|e] eqn:Hout;
      [|done].
    destruct (extra_flat layers (sorted_keys _initial_extra_outputs)) as [extra'|e] eqn:Hext;
      [|done].
    injection Hnext as <- <-.
    apply outputs_flat_spec in Hout. apply extra_flat_spec in Hext.
    pose (target := omap (λ layer, match maybe_transform layers layer with
                                   | Ok carried => Some (rec_vars_outputs carried)
                                   | Raise _ => None
                                   end) layers).
    assert (Forall2 (λ k f, ∃ d v, target !! k = Some d ∧ _initial_extra_outputs !! k = Some v
                                   ∧ dom d = dom v ∧ f = sorted_values_from_dict d)
              (sorted_keys _initial_extra_outputs) extra') as Hext'.
    { eapply Forall2_impl; [exact Hext|].
      intros k f (d & (layer & carried & v & Hl & Hc & Hv & Hdom & ->) & ->).
      exists (rec_vars_outputs carried), v. split_and!; try done.
      unfold target. rewrite lookup_omap, Hl. simpl. by rewrite Hc. }
    destruct (prev_extra_from_spec _ _ _ ∅ Hext') as (prev_extra & Hprev & Hlookup).
    assert (unpack (outputs', extra')
            = Ok (list_to_map (zip (sorted_keys _initial_outputs) outputs'), prev_extra))
      as Hunpack.
    { unfold unpack.
      rewrite <- (Forall2_length _ _ _ Hout), <- (Forall2_length _ _ _ Hext).
      rewrite !length_sorted_keys, !Nat.eqb_refl. cbn [negb]. by rewrite Hprev. }
    assert (∀ k, k ∈ dom _initial_extra_outputs →
                 ∃ d, carried_state layers k d ∧ prev_extra !! k = Some d) as Hextra.
    { intros k Hk. apply elem_of_sorted_keys in Hk as Hin.
      apply list_elem_of_lookup_1 in Hin as [i Hi].
      destruct (Forall2_lookup_l _ _ _ _ _ Hext Hi)
        as (f & _ & d & Hstate & _).
      exists d. split; [done|]. rewrite Hlookup, decide_True by (by apply elem_of_sorted_keys).
      destruct Hstate as (layer & carried & v & Hl & Hc & _ & _ & ->).
      unfold target. rewrite lookup_omap, Hl. simpl. by rewrite Hc. }
    eexists _, prev_extra. split; [exact Hunpack|]. split_and!.
    + intros k Hin.
      apply elem_of_sorted_keys, list_elem_of_lookup_1 in Hin as [i Hi].
      destruct (Forall2_lookup_l _ _ _ _ _ Hout Hi) as (v & Hv & Hcarried).
      exists v. split; [done|]. apply elem_of_list_to_map_1.
      { rewrite fst_zip; [apply NoDup_sorted_keys|]. by rewrite (Forall2_length _ _ _ Hout). }
      apply list_elem_of_lookup_2 with i. apply lookup_zip_with_Some. by exists k, v.
    + intros k Hnin. apply not_elem_of_list_to_map_1.
      rewrite fst_zip by (by rewrite (Forall2_length _ _ _ Hout)).
      by rewrite elem_of_sorted_keys.
    + intros k Hk. destruct (Hextra k Hk) as (d & Hstate & Hd).
      exists d. split_and!; [done..|].
      unfold get_layer_rec_var_from_loop_vars. rewrite Hunpack.
      cbn [result_bind snd]. by rewrite Hd.
    + intros k Hk. rewrite Hlookup, decide_False; [done|].
      by rewrite elem_of_sorted_keys.
  - unfold next_net_vars. split.
    + intros [[outputs extra] Hnext].
      destruct (outputs_flat layers (sorted_keys _initial_outputs)) as [outputs'|e] eqn:Hout;
        [|done].
      destruct (extra_flat layers (sorted_keys _initial_extra_outputs)) as [extra'|e] eqn:Hext;
        [|done].
      apply outputs_flat_spec in Hout. apply extra_flat_spec in Hext. split.
      * intros k Hk. apply elem_of_sorted_keys, list_elem_of_lookup_1 in Hk as [i Hi].
        destruct (Forall2_lookup_l _ _ _ _ _ Hout Hi) as (v & _ & Hv). by exists v.
      * intros k Hk. apply elem_of_sorted_keys, list_elem_of_lookup_1 in Hk as [i Hi].
        destruct (Forall2_lookup_l _ _ _ _ _ Hext Hi) as (f & _ & d & Hd & _). by exists d.
    + intros [Hout Hext].
      destruct (Forall2_total (carried_output layers) (sorted_keys _initial_outputs))
        as [outputs Houtputs].
      { intros k Hk. apply Hout. by apply elem_of_sorted_keys. }
      destruct (Forall2_total
                  (λ k f, ∃ d, carried_state layers k d ∧ f = sorted_values_from_dict d)
                  (sorted_keys _initial_extra_outputs)) as [extra Hextra].
      { intros k Hk. destruct (Hext k) as [d Hd]; [by apply elem_of_sorted_keys|].
        by exists (sorted_values_from_dict d), d. }
      apply outputs_flat_spec in Houtputs. apply extra_flat_spec in Hextra.
      rewrite Houtputs, Hextra. by eexists.
  - intros Hsearch layer. unfold maybe_transform. by rewrite Hsearch.
  - intros layer carried. unfold maybe_transform.
    destruct search_flag; cbn [negb]; [|intros [= <-]; by left].
    destruct (is_prev_step_layer layer); [done|].
    destruct (get_search_choices layer) as [owner|] eqn:Howner; [|intros [= <-]; by left].
    destruct (owner_is_prev_step_layer owner) eqn:Hprev; cbn [negb];
      [|intros [= <-]; by left].
    destruct (String.prefix "prev:" (owner_name owner)) eqn:Hname; cbn [negb]; [|done].
    apply prev_name_split in Hname.
    destruct (layers !! _) as [cur|] eqn:Hcur; [|done].
    destruct (is_prev_step_layer cur) eqn:Hcur_prev; [done|].
    destruct (translate_to_this_search_beam cur layer) as [[|transformed]|e] eqn:Ht;
      cbn [result_bind]; [done| |done].
    intros [= <-]. right.
    by exists owner, (String.substring 5 (String.length (owner_name owner) - 5)
                        (owner_name owner)), cur.
Qed.

Lemma lookup_comprehension {A : Type} (f : string → A) (keys : list string) (k : string) :
  (list_to_map ((λ k, (k, f k)) <$> keys) : gmap string A) !! k
  = if decide (k ∈ keys) then Some (f k) else None.
Proof.
  induction keys as [|k' keys IH].
  { rewrite decide_False; [done|]. intros H. by apply elem_of_nil in H. }
  rewrite fmap_cons. cbn [list_to_map foldr]. destruct (decide (k = k')) as [->|Hne].
  - rewrite lookup_insert_eq. rewrite decide_True; [done|by left].
  - rewrite lookup_insert_ne by done. rewrite IH.
    destruct (decide (k ∈ keys)) as [Hin|Hnin].
    + rewrite decide_True; [done|by right].
    + rewrite decide_False; [done|]. intros H. apply elem_of_cons in H as [H|H]; done.
Qed.

Lemma initial_outputs_lookup (k : string) :
  _initial_outputs !! k
  = if decide (k ∈ prev_layers_needed
               ∧ (k ∉ input_layers_moved_out ++ output_layers_moved_out))
    then Some (_get_init_output k) else None.
Proof.
  unfold _initial_outputs. rewrite lookup_comprehension.
  destruct (decide (k ∈ filter _ _)) as [Hin|Hnin].
  - apply list_elem_of_filter in Hin as [Hloop Hin].
    rewrite sorted_Permutation, elem_of_elements in Hin.
    apply bool_decide_eq_true in Hloop. by rewrite decide_True.
  - rewrite decide_False; [done|]. intros [Hin Hloop]. apply Hnin.
    apply list_elem_of_filter. split; [by apply bool_decide_eq_true|].
    by rewrite sorted_Permutation, elem_of_elements.
Qed.

Lemma initial_extra_outputs_lookup (k : string) :
  _initial_extra_outputs !! k
  = if decide (k ∈ layer_data_templates
               ∧ (k ∉ input_layers_moved_out ++ output_layers_moved_out)
               ∧ _get_init_extra_outputs k ≠ ∅)
    then Some (_get_init_extra_outputs k) else None.
Proof.
  unfold _initial_extra_outputs.
  destruct (decide (k ∈ layer_data_templates
                    ∧ (k ∉ input_layers_moved_out ++ output_layers_moved_out)
                    ∧ _get_init_extra_outputs k ≠ ∅)) as [(Hin & Hloop & Hne)|Hnot].
  - apply map_lookup_filter_Some. split; [|done]. rewrite lookup_comprehension.
    rewrite decide_True; [done|]. apply list_elem_of_filter.
    split; [by apply bool_decide_eq_true|]. by rewrite sorted_Permutation, elem_of_elements.
  - apply map_lookup_filter_None. destruct (decide (_get_init_extra_outputs k = ∅)) as [He|Hne].
    + right. intros v Hv. rewrite lookup_comprehension in Hv.
      destruct (decide (k ∈ filter _ _)); [|done]. injection Hv as <-. simpl. tauto.
    + left. rewrite lookup_comprehension. rewrite decide_False; [done|]. intros Hin.
      apply list_elem_of_filter in Hin as [Hloop Hin].
      rewrite sorted_Permutation, elem_of_elements in Hin.
      apply bool_decide_eq_true in Hloop. tauto.
Qed.

(** X21: The initial loop variables unpack to the initial outputs and the
    initial states.  A layer has an initial output in them when its previous
    frame is needed and it stays in the loop, and an initial state when it
    stays in the loop and has extra outputs; for every other layer
    [get_layer_rec_var_from_loop_vars] raises [KeyError]. *)
Theorem initial_loop_vars_unpack :
  unpack get_init_loop_vars = Ok (_initial_outputs, _initial_extra_outputs)
  ∧ (∀ k, _initial_outputs !! k
          = if decide (k ∈ prev_layers_needed
                       ∧ (k ∉ input_layers_moved_out ++ output_layers_moved_out))
            then Some (_get_init_output k) else None)
  ∧ (∀ k, get_layer_rec_var_from_loop_vars get_init_loop_vars k
          = if decide (k ∈ layer_data_templates
                       ∧ (k ∉ input_layers_moved_out ++ output_layers_moved_out)
                       ∧ _get_init_extra_outputs k ≠ ∅)
            then Ok (_get_init_extra_outputs k) else Raise (KeyError k)).
Proof.
  assert (unpack get_init_loop_vars = Ok (_initial_outputs, _initial_extra_outputs)) as Hunpack.
  { unfold unpack, get_init_loop_vars.
    rewrite <- (Forall2_length _ _ _ (sorted_values_Forall2 _initial_outputs)).
    rewrite length_fmap.
    rewrite <- (Forall2_length _ _ _ (sorted_values_Forall2 _initial_extra_outputs)).
    rewrite !length_sorted_keys, !Nat.eqb_refl. cbn [negb].
    destruct (prev_extra_from_spec _initial_extra_outputs
                (sorted_keys _initial_extra_outputs)
                (sorted_values_from_dict <$> sorted_values_from_dict _initial_extra_outputs) ∅)
      as (prev_extra & -> & Hlookup).
    { apply Forall2_fmap_r.
      eapply Forall2_impl; [apply sorted_values_Forall2|]. intros k d Hd. simpl.
      by exists d, d. }
    cbn [result_bind]. f_equal. f_equal.
    - apply list_to_map_zip; [apply NoDup_sorted_keys|apply elem_of_sorted_keys|
                              apply sorted_values_Forall2].
    - apply map_eq. intros k. rewrite Hlookup.
      destruct (decide (k ∈ sorted_keys _initial_extra_outputs)) as [Hin|Hnin]; [done|].
      rewrite lookup_empty. symmetry. apply not_elem_of_dom.
      by rewrite <- elem_of_sorted_keys. }
  split; [exact Hunpack|]. split; [apply initial_outputs_lookup|].
  intros k. unfold get_layer_rec_var_from_loop_vars. rewrite Hunpack. cbn [result_bind snd].
  rewrite initial_extra_outputs_lookup.
  by destruct (decide _).
Qed.

End Cell.

(** A decoder with an LSTM ["s"] that has a state, and an output layer
    that was moved out of the loop. *)
Definition example_init_extra (k : string) : gmap string Z :=
  if String.eqb k "s" then {["h" := 0%Z; "c" := 1%Z]} else ∅.

Definition example_layers : gmap string (Layer Z Z) :=
  {["s" := {| output := 10%Z; rec_vars_outputs := {["c" := 11%Z; "h" := 12%Z]};
              is_prev_step_layer := false; get_search_choices := None |};
    "end" := {| output := 20%Z; rec_vars_outputs := ∅;
                is_prev_step_layer := false; get_search_choices := None |};
    "prob" := {| output := 30%Z; rec_vars_outputs := ∅;
                 is_prev_step_layer := false; get_search_choices := None |}]}.

Lemma example_loop_vars :
  get_init_loop_vars Z {["s"; "end"]} {["s"; "end"; "prob"; "output"]} [] ["output"]
    (λ _, 0%Z) example_init_extra
  = ([0%Z; 0%Z], [[1%Z; 0%Z]])
  ∧ next_net_vars Z Z false (λ _ _, Ok (SameLayer Z Z)) (λ out _, Ok out)
      {["s"; "end"]} {["s"; "end"; "prob"; "output"]} [] ["output"]
      (λ _, 0%Z) example_init_extra example_layers
    = Ok ([20%Z; 10%Z], [[11%Z; 12%Z]])
  ∧ get_layer_rec_var_from_loop_vars Z {["s"; "end"]} {["s"; "end"; "prob"; "output"]}
      [] ["output"] (λ _, 0%Z) example_init_extra ([20%Z; 10%Z], [[11%Z; 12%Z]]) "s"
    = Ok {["c" := 11%Z; "h" := 12%Z]}
  ∧ get_layer_rec_var_from_loop_vars Z {["s"; "end"]} {["s"; "end"; "prob"; "output"]}
      [] ["output"] (λ _, 0%Z) example_init_extra ([20%Z; 10%Z], [[11%Z; 12%Z]]) "end"
    = Raise (KeyError "end").
Proof. vm_compute. done. Qed.

(** Under search, the state ["s"] has the choices of "prev:output": the
    layer carried to the next frame is the one that the choices of
    ["output"] of this frame select, here with the tensors negated. *)
Definition example_search_layers : gmap string (Layer Z Z) :=
  {["s" := {| output := 10%Z; rec_vars_outputs := {["c" := 11%Z; "h" := 12%Z]};
              is_prev_step_layer := false;
              get_search_choices :=
                Some {| owner_name := "prev:output"; owner_is_prev_step_layer := true |} |};
    "output" := {| output := 20%Z; rec_vars_outputs := ∅;
                   is_prev_step_layer := false;
                   get_search_choices :=
                     Some {| owner_name := "output"; owner_is_prev_step_layer := false |} |}]}.

Definition example_translate (cur layer : Layer Z Z) : result (translated Z Z) :=
  Ok (SelectSearchSources Z Z
        {| output := (- output Z Z layer)%Z;
           rec_vars_outputs := Z.opp <$> rec_vars_outputs Z Z layer;
           is_prev_step_layer := false;
           get_search_choices := get_search_choices Z Z cur |}).

Lemma example_search_loop_vars :
  next_net_vars Z Z true example_translate (λ out _, Ok out)
    {["s"; "output"]} {["s"; "output"]} [] []
    (λ _, 0%Z) example_init_extra example_search_layers
  = Ok ([20%Z; (-10)%Z], [[(-11)%Z; (-12)%Z]]).
Proof. vm_compute. done. Qed.

End LoopVars.

(** ** Resolving the accumulated output to the final search choices
    (the loop of [_SubnetworkRecCell._opt_search_resolve]) *)

Module SearchResolve.

Import Masking RelativePositions.

(** [tf.gather_nd(x, nd_indices(choice_beams))] for [x] of shape
    [(batch, beam)] and indices of shape [(batch, beam_out)]: the entry
    [(b, k)] is [x[b, choice_beams[b, k]]].  An index out of range is an
    error, as on CPU. *)
Fixpoint gather_beams {A : Type} (x : list (list A)) (choice_beams : list (list Z))
  : option (list (list A)) :=
  match choice_beams with
  | [] => Some []
  | idxs :: rest =>
      match x with
      | [] => None
      | row :: x' =>
          out ← mapM (λ k, if (k <? 0)%Z then None else row !! Z.to_nat k) idxs;
          outs ← gather_beams x' rest;
          Some (out :: outs)
      end
  end.

(** [tf.reshape(x, [rows, cols])] of a vector: an error if the number of
    entries is not [rows * cols]. *)
Definition tf_reshape {A : Type} (x : list A) (rows cols : nat) : option (list (list A)) :=
  if length x =? rows * cols then Some (reshape rows cols x) else None.

Section Resolve.

(** An entry of the output of the layer, for one batch entry and one beam
    (with the feature axes inside). *)
Variable X : Type.

(** The accumulated output of the layer: one tensor [(batch * beam, ...)]
    per frame. *)
Variable acc_ta : list (list X).

(** [self.final_acc_tas_dict["choice_%s" % name]]: for each choice layer the
    source beams [(batch, beam)] of every frame. *)
Variable final_acc_tas_dict : string → option (list (list (list Z))).

Variable batch_dim : nat.
(** [layer_choice.output.beam.beam_size] *)
Variable layer_beam_size : nat.
(** [latest_layer_choice.output.beam.beam_size] *)
Variable latest_beam_size : nat.
(** The names of [choice_seq_in_frame], from the latest choice of a frame to
    its first, and the name of [layer_choice]. *)
Variable choice_seq_in_frame : list string.
Variable layer_choice : string.
Variable is_prev_choice : bool.

(** A [tf.TensorArray] of fixed size: what was written at each index. *)
Definition ta_write {A : Type} (ta : list (option A)) (i : nat) (value : A)
  : option (list (option A)) :=
  match ta !! i with
  | Some None => Some (<[i := Some value]> ta)
  | _ => None            (* out of range, or written before *)
  end.

(** [transform(i, idxs_exp, new_acc_output_ta_)] *)
Definition transform (i : nat) (choice_beams : list (list Z)) (new_acc_output_ta_ : list (option (list X)))
  : option (list (option (list X))) :=
  output_ ← acc_ta !! i;
  output_ ← tf_reshape output_ batch_dim layer_beam_size;
  output_ ← gather_beams output_ choice_beams;
  let beam_par := match choice_beams with [] => 0 | idxs :: _ => length idxs end in
  if length (concat output_) =? batch_dim * beam_par
  then ta_write new_acc_output_ta_ i (concat output_)
  else None.

(** The loop over [choice_seq_in_frame] in [search_resolve_body]. *)
Fixpoint frame_choices (choices : list string) (i : nat) (choice_beams : list (list Z))
    (new_acc_output_ta_ : option (list (option (list X))))
  : option (list (list Z) * option (list (option (list X)))) :=
  match choices with
  | [] => Some (choice_beams, new_acc_output_ta_)
  | choice_ :: rest =>
      ta ← final_acc_tas_dict choice_;
      src_choice_beams ← ta !! i;
      src_choice_beams ← gather_beams src_choice_beams choice_beams;
      new_ta ← match new_acc_output_ta_ with
               | Some ta_ =>
                   if String.eqb choice_ layer_choice
                   then Some <$> transform (if is_prev_choice then i + 1 else i) choice_beams ta_
                   else Some new_acc_output_ta_
               | None => Some None
               end;
      frame_choices rest i src_choice_beams new_ta
  end.

(** [search_resolve_body(i, choice_beams, new_acc_output_ta_)], without the
    new [i]. *)
Definition search_resolve_body (i : nat) (choice_beams : list (list Z))
    (new_acc_output_ta_ : option (list (option (list X))))
  : option (list (list Z) * option (list (option (list X)))) :=
  match choice_seq_in_frame with
  | [] => None            (* [src_choice_beams] is not bound *)
  | _ => frame_choices choice_seq_in_frame i choice_beams new_acc_output_ta_
  end.

(** [tf.while_loop(cond=search_resolve_cond, body=search_resolve_body, ...)]
    from [i = n - 1] down to [0]. *)
Fixpoint search_resolve_loop (n : nat) (choice_beams : list (list Z))
    (new_acc_output_ta_ : option (list (option (list X))))
  : option (list (list Z) * option (list (option (list X)))) :=
  match n with
  | O => Some (choice_beams, new_acc_output_ta_)
  | S i =>
      r ← search_resolve_body i choice_beams new_acc_output_ta_;
      search_resolve_loop i r.1 r.2
  end.

(** The part of [_opt_search_resolve] from [max_seq_len = acc_ta.size()] to
    the new accumulated output. *)
Definition search_resolve : option (list (option (list X))) :=
  let max_seq_len := length acc_ta in
  let initial_beam_choices : list (list Z) :=
    replicate batch_dim (Z.of_nat <$> seq 0 latest_beam_size) in
  let new_acc_output_ta : list (option (list X)) := replicate max_seq_len None in
  start ← (if is_prev_choice then
             match max_seq_len with
             | O => Some (O, initial_beam_choices)
             | S initial_i =>
                 r ← search_resolve_body initial_i initial_beam_choices None;
                 Some (initial_i, r.1)
             end
           else Some (max_seq_len, initial_beam_choices));
  r ← search_resolve_loop start.1 start.2 (Some new_acc_output_ta);
  new_acc_output_ta ← r.2;
  if is_prev_choice then
    let beam_choices := map (map (λ _, 0%Z)) r.1 in
    if 0 <? max_seq_len then transform 0 beam_choices new_acc_output_ta
    else Some new_acc_output_ta
  else Some new_acc_output_ta.

(** *** The history of a hypothesis *)

(** The source beams of the frames, for one choice layer. *)
Definition src_beams_ta : list (list (list Z)) :=
  default [] (final_acc_tas_dict layer_choice).

(** The outputs of the layer along the way of the hypothesis that is in
    beam [x] of batch entry [b] after [n] frames: the history of the
    hypothesis in the source beam of [x], and then the output of [x]. *)
Fixpoint hypothesis (n : nat) (b x : nat) : option (list X) :=
  match n with
  | O => Some []
  | S i =>
      flat ← acc_ta !! i;
      o ← flat !! (b * layer_beam_size + x);
      src ← src_beams_ta !! i;
      s ← entry src b x;
      h ← hypothesis i b (Z.to_nat s);
      Some (h ++ [o])
  end.

End Resolve.

Lemma gather_beams_spec {A : Type} (x : list (list A)) (idxs : list (list Z))
    (batch B K : nat) :
  shaped x batch B → shaped idxs batch K →
  (∀ b k s, entry idxs b k = Some s → (0 ≤ s < Z.of_nat B)%Z) →
  ∃ out, gather_beams x idxs = Some out
    ∧ shaped out batch K
    ∧ ∀ b k s, entry idxs b k = Some s →
        is_Some (entry out b k) ∧ entry out b k = entry x b (Z.to_nat s).
Proof.
  intros [Hxl Hxr] [Hil Hir] Hrange. revert batch idxs Hxl Hil Hir Hrange.
  induction Hxr as [|row x Hrow _ IH]; intros batch idxs Hxl Hil Hir Hrange.
  { simpl in Hxl. subst batch. destruct idxs; [|done]. exists [].
    split; [done|]. split; [done|].
    intros b k s Hs. unfold entry in Hs. by rewrite lookup_nil in Hs. }
  destruct idxs as [|irow idxs]; [simpl in *; lia|].
  apply Forall_cons in Hir as [Hirow Hir]. simpl in Hxl, Hil.
  destruct (IH (batch - 1) idxs ltac:(lia) ltac:(lia) Hir) as (outs & Houts & [Hol Hor] & He).
  { intros b k s Hs. apply (Hrange (S b) k s). exact Hs. }
  assert (∀ k s, irow !! k = Some s → (0 ≤ s < Z.of_nat B)%Z) as Hr0.
  { intros k s Hs. apply (Hrange 0 k s). unfold entry. simpl. exact Hs. }
  destruct (mapM_is_Some_2 (λ k, if (k <? 0)%Z then None else row !! Z.to_nat k) irow)
    as [out Hout].
  { apply Forall_lookup. intros k s Hs. simpl. specialize (Hr0 k s Hs).
    rewrite (proj2 (Z.ltb_ge _ _)) by lia. apply lookup_lt_is_Some. lia. }
  exists (out :: outs). cbn [gather_beams]. rewrite Hout, Houts. split; [done|].
  apply mapM_Some in Hout.
  split.
  { split; [simpl; lia|]. constructor; [|done]. by rewrite <- (Forall2_length _ _ _ Hout). }
  intros [|b] k s Hs.
  - unfold entry in *. simpl in *.
    destruct (Forall2_lookup_l _ _ _ _ _ Hout Hs) as (y & Hy & Hrowy).
    specialize (Hr0 k s Hs). rewrite (proj2 (Z.ltb_ge _ _)) in Hrowy by lia.
    rewrite Hy, Hrowy. split; [by eexists|done].
  - unfold entry in *. simpl in *. by apply He.
Qed.

Lemma concat_shaped_entry {A : Type} (m : list (list A)) (batch K b k : nat) :
  shaped m batch K →
  length (concat m) = batch * K
  ∧ (b < batch → k < K → concat m !! (b * K + k) = entry m b k).
Proof.
  intros [Hl Hr]. revert batch Hl b. induction Hr as [|row m Hrow _ IH]; intros batch Hl b.
  { simpl in Hl. subst batch. split; [done|lia]. }
  simpl in Hl. destruct (IH (batch - 1) ltac:(lia) (b - 1)) as [IHl IHe].
  split; [cbn [concat]; rewrite length_app, IHl; nia|].
  intros Hb Hk. cbn [concat]. destruct b as [|b].
  - rewrite lookup_app_l by lia. unfold entry. done.
  - rewrite lookup_app_r by nia. replace (S b * K + k - length row) with (b * K + k) by nia.
    replace (S b - 1) with b in IHe by lia. rewrite IHe by lia. done.
Qed.

Section SingleChoice.

(** One choice layer in a frame, and a layer that depends on the choice of
    its own frame: the beams of the layer are the beams of the choice. *)
Variable X : Type.
Variable acc_ta : list (list X).
Variable final_acc_tas_dict : string → option (list (list (list Z))).
Variable batch_dim beam_size : nat.
Variable layer_choice : string.
Variable src_ta : list (list (list Z)).

Hypothesis choice_accumulated : final_acc_tas_dict layer_choice = Some src_ta.
Hypothesis src_frames : length src_ta = length acc_ta.
Hypothesis acc_shape : Forall (λ flat, length flat = batch_dim * beam_size) acc_ta.
Hypothesis src_shape : Forall (λ src, shaped src batch_dim beam_size) src_ta.
Hypothesis src_range : ∀ i src b k s,
  0 < i → src_ta !! i = Some src → entry src b k = Some s → (0 ≤ s < Z.of_nat beam_size)%Z.

Lemma search_resolve_body_spec (i : nat) (choice_beams : list (list Z))
    (ta : list (option (list X))) flat src :
  acc_ta !! i = Some flat → src_ta !! i = Some src →
  shaped choice_beams batch_dim beam_size →
  (∀ b k s, entry choice_beams b k = Some s → (0 ≤ s < Z.of_nat beam_size)%Z) →
  ta !! i = Some None →
  ∃ src_choice_beams frame,
    search_resolve_body X acc_ta final_acc_tas_dict batch_dim beam_size [layer_choice]
      layer_choice false i choice_beams (Some ta)
    = Some (src_choice_beams, Some (<[i := Some frame]> ta))
    ∧ shaped src_choice_beams batch_dim beam_size
    ∧ length frame = batch_dim * beam_size
    ∧ ∀ b k s, entry choice_beams b k = Some s →
        entry src_choice_beams b k = entry src b (Z.to_nat s)
        ∧ is_Some (entry src_choice_beams b k)
        ∧ (b < batch_dim → k < beam_size →
           frame !! (b * beam_size + k) = flat !! (b * beam_size + Z.to_nat s)).
Proof.
  intros Hflat Hsrc Hbeams Hrange Hta.
  pose proof (proj1 (Forall_lookup _ _) acc_shape _ _ Hflat) as Hflat_len.
  pose proof (proj1 (Forall_lookup _ _) src_shape _ _ Hsrc) as Hsrc_sh.
  destruct (gather_beams_spec src choice_beams batch_dim beam_size beam_size Hsrc_sh Hbeams Hrange)
    as (src_choice_beams & Hg1 & Hsh1 & He1).
  pose proof (CudnnConvert.reshape_shaped batch_dim beam_size flat Hflat_len) as Hresh.
  destruct (gather_beams_spec (reshape batch_dim beam_size flat) choice_beams
              batch_dim beam_size beam_size Hresh Hbeams Hrange)
    as (output_ & Hg2 & Hsh2 & He2).
  exists src_choice_beams, (concat output_).
  destruct (concat_shaped_entry output_ batch_dim beam_size 0 0 Hsh2) as [Hclen _].
  split.
  { unfold search_resolve_body. cbn [frame_choices]. rewrite choice_accumulated.
    cbn [mbind option_bind]. rewrite Hsrc. cbn [mbind option_bind]. rewrite Hg1.
    cbn [mbind option_bind]. rewrite String.eqb_refl. unfold transform.
    rewrite Hflat. cbn [mbind option_bind]. unfold tf_reshape.
    rewrite Hflat_len, Nat.eqb_refl. cbn [mbind option_bind]. rewrite Hg2.
    cbn [mbind option_bind]. rewrite Hclen.
    assert (match choice_beams with [] => 0 | idxs :: _ => length idxs end = beam_size
            ∨ batch_dim = 0) as [->| ->].
    { destruct Hbeams as [Hl Hr]. destruct choice_beams as [|idxs rest]; [right; by simpl in Hl|].
      left. by apply Forall_cons in Hr as [Hr _]. }
    - rewrite Nat.eqb_refl. unfold ta_write. rewrite Hta. done.
    - simpl. unfold ta_write. rewrite Hta. done. }
  split; [done|]. split; [done|].
  intros b k s Hs. destruct (He1 b k s Hs) as [Hsome1 Heq1].
  split; [done|]. split; [done|]. intros Hb Hk.
  destruct (concat_shaped_entry output_ batch_dim beam_size b k Hsh2) as [_ Hce].
  rewrite Hce by done. destruct (He2 b k s Hs) as [_ ->].
  specialize (Hrange b k s Hs).
  rewrite (CudnnConvert.reshape_entry batch_dim beam_size flat b (Z.to_nat s)); [done|done|done|lia].
Qed.

(** The loop, from frame [n - 1] down: the frames below [n] are written,
    and the column of a beam holds the history of the hypothesis that the
    beam stands for. *)
Lemma search_resolve_loop_spec (n : nat) (choice_beams : list (list Z))
    (ta : list (option (list X))) :
  n ≤ length acc_ta → length ta = length acc_ta →
  (∀ j, j < n → ta !! j = Some None) →
  shaped choice_beams batch_dim beam_size →
  (0 < n → ∀ b k s, entry choice_beams b k = Some s → (0 ≤ s < Z.of_nat beam_size)%Z) →
  ∃ final_beam_choices new_ta,
    search_resolve_loop X acc_ta final_acc_tas_dict batch_dim beam_size [layer_choice]
      layer_choice false n choice_beams (Some ta)
    = Some (final_beam_choices, Some new_ta)
    ∧ length new_ta = length acc_ta
    ∧ (∀ j, n ≤ j → new_ta !! j = ta !! j)
    ∧ ∀ b k, b < batch_dim → k < beam_size →
        ∃ s h, entry choice_beams b k = Some s
          ∧ hypothesis X acc_ta final_acc_tas_dict beam_size layer_choice n b (Z.to_nat s)
            = Some h
          ∧ length h = n
          ∧ ∀ j, j < n →
              ∃ frame, new_ta !! j = Some (Some frame)
                ∧ length frame = batch_dim * beam_size
                ∧ frame !! (b * beam_size + k) = h !! j.
Proof.
  revert choice_beams ta. induction n as [|i IH]; intros choice_beams ta Hn Hta Hfree Hsh Hrange.
  { exists choice_beams, ta. split; [done|]. split; [done|]. split; [done|].
    intros b k Hb Hk. destruct (shaped_entry choice_beams batch_dim beam_size b k Hsh Hb Hk)
      as [s Hs].
    exists s, []. split; [done|]. split; [done|]. split; [done|]. intros j Hj. lia. }
  destruct (lookup_lt_is_Some_2 acc_ta i ltac:(lia)) as [flat Hflat].
  destruct (lookup_lt_is_Some_2 src_ta i ltac:(lia)) as [src Hsrc].
  specialize (Hrange ltac:(lia)).
  destruct (search_resolve_body_spec i choice_beams ta flat src Hflat Hsrc Hsh Hrange
              (Hfree i ltac:(lia)))
    as (beams1 & frame & Hbody & Hsh1 & Hframe & He).
  destruct (IH beams1 (<[i := Some frame]> ta)) as (final & new_ta & Hloop & Hlen & Hkeep & Hhist).
  { lia. }
  { by rewrite length_insert. }
  { intros j Hj. rewrite list_lookup_insert_ne by lia. apply Hfree. lia. }
  { done. }
  { intros Hi b k s Hs.
    assert (b < batch_dim ∧ k < beam_size) as [Hb Hk].
    { unfold entry in Hs. destruct (beams1 !! b) as [row|] eqn:Hrow; [|done]. simpl in Hs.
      destruct Hsh1 as [Hl Hr]. split; [apply lookup_lt_Some in Hrow; lia|].
      apply lookup_lt_Some in Hs. by rewrite (proj1 (Forall_lookup _ _) Hr _ _ Hrow) in Hs. }
    destruct (shaped_entry choice_beams batch_dim beam_size b k Hsh Hb Hk) as [s0 Hs0].
    destruct (He b k s0 Hs0) as (Heq & _ & _). rewrite Heq in Hs.
    by apply (src_range i src b (Z.to_nat s0) s). }
  exists final, new_ta. split.
  { cbn [search_resolve_loop]. rewrite Hbody. cbn [mbind option_bind fst snd]. exact Hloop. }
  split; [done|]. split.
  { intros j Hj. rewrite Hkeep by lia. by rewrite list_lookup_insert_ne by lia. }
  intros b k Hb Hk.
  destruct (shaped_entry choice_beams batch_dim beam_size b k Hsh Hb Hk) as [s Hs].
  destruct (He b k s Hs) as (Heq & [s1 Hs1] & Hfr). specialize (Hfr Hb Hk).
  destruct (Hhist b k Hb Hk) as (s1' & h & Hs1' & Hh & Hhlen & Hcols).
  rewrite Hs1 in Hs1'. injection Hs1' as <-.
  specialize (Hrange b k s Hs).
  assert (is_Some (flat !! (b * beam_size + Z.to_nat s))) as [o Ho].
  { apply lookup_lt_is_Some.
    rewrite (proj1 (Forall_lookup _ _) acc_shape _ _ Hflat). nia. }
  exists s, (h ++ [o]). split; [done|]. split.
  { cbn [hypothesis]. rewrite Hflat. cbn [mbind option_bind]. rewrite Ho.
    cbn [mbind option_bind]. unfold src_beams_ta. rewrite choice_accumulated. simpl.
    rewrite Hsrc. cbn [mbind option_bind]. rewrite <- Heq, Hs1. cbn [mbind option_bind].
    rewrite Hh. done. }
  split; [rewrite length_app; simpl; lia|].
  intros j Hj. destruct (decide (j = i)) as [->|Hne].
  - exists frame. split.
    { rewrite Hkeep by lia. apply list_lookup_insert_eq. lia. }
    split; [done|]. rewrite Hfr, Ho. rewrite lookup_app_r by lia.
    by rewrite Hhlen, Nat.sub_diag.
  - destruct (Hcols j ltac:(lia)) as (fr & Hfrj & Hfrl & Hfre).
    exists fr. split; [done|]. split; [done|]. rewrite Hfre. by rewrite lookup_app_l by lia.
Qed.

(** X22: The resolved output holds, in the column of every beam of the final
    choice, the history of the hypothesis of this beam: its own output in the
    last frame, before it the output of its source beam, and so on back to the
    first frame.  The loop raises nothing and writes every frame once. *)
Theorem resolved_output_is_history :
  ∃ new_ta,
    search_resolve X acc_ta final_acc_tas_dict batch_dim beam_size beam_size [layer_choice]
      layer_choice false
    = Some new_ta
    ∧ length new_ta = length acc_ta
    ∧ ∀ b k, b < batch_dim → k < beam_size →
        ∃ h, hypothesis X acc_ta final_acc_tas_dict beam_size layer_choice
               (length acc_ta) b k = Some h
          ∧ length h = length acc_ta
          ∧ ∀ j, j < length acc_ta →
              ∃ frame, new_ta !! j = Some (Some frame)
                ∧ length frame = batch_dim * beam_size
                ∧ frame !! (b * beam_size + k) = h !! j.
Proof.
  set (initial := replicate batch_dim (Z.of_nat <$> seq 0 beam_size)).
  assert (shaped initial batch_dim beam_size) as Hsh.
  { unfold initial. split; [by rewrite length_replicate|]. apply Forall_replicate.
    by rewrite length_fmap, length_seq. }
  assert (∀ b k s, entry initial b k = Some s → s = Z.of_nat k ∧ k < beam_size) as Hinit.
  { intros b k s Hs. unfold entry, initial in Hs.
    destruct (replicate batch_dim (Z.of_nat <$> seq 0 beam_size) !! b) as [row|] eqn:Hrow;
      [|done].
    apply lookup_replicate in Hrow as [-> _]. simpl in Hs. rewrite list_lookup_fmap in Hs.
    destruct (seq 0 beam_size !! k) as [x|] eqn:Hx; [|done]. apply lookup_seq in Hx as [-> Hk].
    injection Hs as <-. done. }
  destruct (search_resolve_loop_spec (length acc_ta) initial (replicate (length acc_ta) None))
    as (final & new_ta & Hloop & Hlen & _ & Hhist).
  { done. }
  { by rewrite length_replicate. }
  { intros j Hj. by apply lookup_replicate_2. }
  { done. }
  { intros _ b k s Hs. destruct (Hinit b k s Hs) as [-> Hk]. lia. }
  exists new_ta. split.
  { unfold search_resolve. cbn [mbind option_bind fst snd]. fold initial. rewrite Hloop. done. }
  split; [done|]. intros b k Hb Hk.
  destruct (Hhist b k Hb Hk) as (s & h & Hs & Hh & Hhl & Hcols).
  destruct (Hinit b k s Hs) as [-> _]. rewrite Nat2Z.id in Hh. by exists h.
Qed.

End SingleChoice.

(** Two sequences, a beam of two, three frames.  In the first sequence the
    two final hypotheses come from beam 0 of the second frame, which comes
    from beam 1 of the first frame. *)
Definition example_acc_ta : list (list string) :=
  [["a0"; "b0"; "c0"; "d0"]; ["a1"; "b1"; "c1"; "d1"]; ["a2"; "b2"; "c2"; "d2"]].

Definition example_src_ta : list (list (list Z)) :=
  [[[0; 0]; [0; 0]]; [[1; 0]; [0; 0]]; [[0; 0]; [1; 1]]]%Z.

Definition example_dict (name : string) : option (list (list (list Z))) :=
  if String.eqb name "output" then Some example_src_ta else None.

Lemma example_resolved :
  search_resolve string example_acc_ta example_dict 2 2 2 ["output"] "output" false
  = Some [Some ["b0"; "b0"; "c0"; "c0"]; Some ["a1"; "a1"; "d1"; "d1"];
          Some ["a2"; "b2"; "c2"; "d2"]]
  ∧ hypothesis string example_acc_ta example_dict 2 "output" 3 0 1 = Some ["b0"; "a1"; "b2"]
  ∧ hypothesis string example_acc_ta example_dict 2 "output" 3 1 0 = Some ["c0"; "d1"; "c2"].
Proof. vm_compute. done. Qed.

Lemma resolved_output_is_history_witness :
  ∃ new_ta,
    search_resolve string example_acc_ta example_dict 2 2 2 ["output"] "output" false
    = Some new_ta
    ∧ length new_ta = length example_acc_ta
    ∧ ∀ b k, b < 2 → k < 2 →
        ∃ h, hypothesis string example_acc_ta example_dict 2 "output"
               (length example_acc_ta) b k = Some h
          ∧ length h = length example_acc_ta
          ∧ ∀ j, j < length example_acc_ta →
              ∃ frame, new_ta !! j = Some (Some frame)
                ∧ length frame = 2 * 2
                ∧ frame !! (b * 2 + k) = h !! j.
Proof.
  apply (resolved_output_is_history string example_acc_ta example_dict 2 2 "output"
           example_src_ta).
  - reflexivity.
  - reflexivity.
  - repeat constructor.
  - repeat constructor.
  - intros [|[|[|i]]] src b k s Hi Hsrc He; [lia| | |done];
      injection Hsrc as <-;
      destruct b as [|[|b]]; try done;
      destruct k as [|[|k]]; try done;
      injection He as <-; lia.
Defined.

End SearchResolve.

(** ** The dependencies of the cell in the parent network
    ([_SubnetworkRecCell.get_parent_deps]) *)

Module ParentDeps.

Import LoopVars.

Section Deps.

(** Layers are compared by identity; every layer belongs to a network. *)
Context {Layer Network : Type} `{EqDecision Layer} `{EqDecision Network}.
Variable network : Layer → Network.
(** [isinstance(layer, _TemplateLayer)], [layer.dependencies] and
    [layer.get_dep_layers()] *)
Variable is_template : Layer → bool.
Variable dependencies : Layer → list Layer.
Variable get_dep_layers : Layer → list Layer.

Variable parent_net : Network.
(** [self.net.layers] and [self.layer_data_templates] *)
Variable net_layers : gmap string Layer.
Variable layer_data_templates : gmap string Layer.

(** [maybe_add(layer_)], with the list [ls] that it appends to *)
Definition maybe_add (ls : list Layer) (layer_ : Layer) : list Layer :=
  if decide (network layer_ = parent_net) then
    if decide (layer_ ∈ ls) then ls else ls ++ [layer_]
  else ls.

(** The layers that the loop goes through. *)
Definition visited_layers : gmap string Layer :=
  if decide (net_layers = ∅) then layer_data_templates else net_layers.

Definition deps_of (layer : Layer) : list Layer :=
  if is_template layer then dependencies layer else get_dep_layers layer.

(** One round of the loop over [sorted(layers.items())]. *)
Definition visit_layer (ls : list Layer) (name : string) : list Layer :=
  match visited_layers !! name with
  | Some layer => foldl maybe_add (maybe_add ls layer) (deps_of layer)
  | None => ls
  end.

Definition get_parent_deps : list Layer :=
  foldl visit_layer [] (sorted_keys visited_layers).

Lemma maybe_add_spec (ls : list Layer) (layer_ : Layer) :
  (NoDup ls → NoDup (maybe_add ls layer_))
  ∧ ls `prefix_of` maybe_add ls layer_
  ∧ ∀ l, l ∈ maybe_add ls layer_ ↔ l ∈ ls ∨ (l = layer_ ∧ network l = parent_net).
Proof.
  unfold maybe_add. destruct (decide (network layer_ = parent_net)) as [Hnet|Hnet].
  - destruct (decide (layer_ ∈ ls)) as [Hin|Hnin].
    + split; [done|]. split; [done|]. intros l. split; [by left|].
      intros [H| [ -> _]]; done.
    + split.
      { intros Hnd. apply NoDup_app. split; [done|]. split; [|apply NoDup_singleton].
        intros x Hx Hx'. apply list_elem_of_singleton in Hx'. by subst. }
      split; [by apply prefix_app_r|]. intros l. rewrite elem_of_app, list_elem_of_singleton.
      split; [intros [H| ->]; [by left|by right]|intros [H| [ -> _]]; [by left|by right]].
  - split; [done|]. split; [done|]. intros l. split; [by left|].
    intros [H| [ -> H]]; done.
Qed.

Lemma foldl_maybe_add_spec (layers : list Layer) (ls : list Layer) :
  (NoDup ls → NoDup (foldl maybe_add ls layers))
  ∧ ls `prefix_of` foldl maybe_add ls layers
  ∧ ∀ l, l ∈ foldl maybe_add ls layers
         ↔ l ∈ ls ∨ (l ∈ layers ∧ network l = parent_net).
Proof.
  revert ls. induction layers as [|layer layers IH]; intros ls.
  { simpl. split; [done|]. split; [done|]. intros l. split; [by left|].
    intros [H| [H _]]; [done|by apply elem_of_nil in H]. }
  cbn [foldl]. destruct (maybe_add_spec ls layer) as (Hnd1 & Hp1 & He1).
  destruct (IH (maybe_add ls layer)) as (Hnd2 & Hp2 & He2).
  split; [auto|]. split; [by etrans|]. intros l. rewrite He2, He1, elem_of_cons.
  split; [intros [[H| [ -> H]]| [H1 H2]]|intros [H| [[ ->|H1] H2]]]; auto.
Qed.

Lemma foldl_visit_layer_spec (names : list string) (ls : list Layer) :
  (NoDup ls → NoDup (foldl visit_layer ls names))
  ∧ ls `prefix_of` foldl visit_layer ls names
  ∧ ∀ l, l ∈ foldl visit_layer ls names
         ↔ l ∈ ls
           ∨ (network l = parent_net
              ∧ ∃ name layer, name ∈ names ∧ visited_layers !! name = Some layer
                              ∧ (l = layer ∨ l ∈ deps_of layer)).
Proof.
  revert ls. induction names as [|name names IH]; intros ls.
  { simpl. split; [done|]. split; [done|]. intros l. split; [by left|].
    intros [H|(_ & n & layer & H & _)]; [done|by apply elem_of_nil in H]. }
  cbn [foldl]. destruct (IH (visit_layer ls name)) as (Hnd2 & Hp2 & He2).
  assert ((NoDup ls → NoDup (visit_layer ls name))
          ∧ ls `prefix_of` visit_layer ls name
          ∧ ∀ l, l ∈ visit_layer ls name
                 ↔ l ∈ ls ∨ (network l = parent_net
                             ∧ ∃ layer, visited_layers !! name = Some layer
                                        ∧ (l = layer ∨ l ∈ deps_of layer)))
    as (Hnd1 & Hp1 & He1).
  { unfold visit_layer. destruct (visited_layers !! name) as [layer|].
    - destruct (maybe_add_spec ls layer) as (Hnd1 & Hp1 & He1).
      destruct (foldl_maybe_add_spec (deps_of layer) (maybe_add ls layer)) as (Hnd3 & Hp3 & He3).
      split; [auto|]. split; [by etrans|]. intros l. rewrite He3, He1.
      split.
      + intros [[H| [ -> H]]| [H1 H2]]; [by left| |]; right; (split; [done|]); exists layer; auto.
      + intros [H|(Hn & layer' & [= <- ] & [ ->|H])]; auto.
    - split; [done|]. split; [done|]. intros l. split; [by left|].
      intros [H|(_ & layer & H & _)]; done. }
  split; [auto|]. split; [by etrans|]. intros l. rewrite He2, He1.
  split.
  - intros [[H|(Hn & layer & Hl & H)]|(Hn & n & layer & Hin & Hl & H)]; [by left| |];
      right; (split; [done|]).
    + exists name, layer. split; [by left|done].
    + exists n, layer. split; [by right|done].
  - intros [H|(Hn & n & layer & Hin & Hl & H)]; [by left; left|].
    apply elem_of_cons in Hin as [ ->|Hin].
    + left. right. split; [done|]. by exists layer.
    + right. split; [done|]. by exists n, layer.
Qed.

(** X23: [get_parent_deps] lists a layer exactly when it belongs to the parent
    network and is a layer of the net of the cell, or a dependency of one; it
    lists no layer twice.  The layers are those of [self.net], or the
    templates as long as [self.net] is empty. *)
Theorem parent_deps_are_the_parent_layers :
  NoDup get_parent_deps
  ∧ ∀ l, l ∈ get_parent_deps
         ↔ network l = parent_net
           ∧ ∃ name layer, visited_layers !! name = Some layer
                           ∧ (l = layer ∨ l ∈ deps_of layer).
Proof.
  unfold get_parent_deps.
  destruct (foldl_visit_layer_spec (sorted_keys visited_layers) []) as (Hnd & _ & He).
  split; [apply Hnd, NoDup_nil_2|]. intros l. rewrite He. split.
  - intros [H|(Hn & n & layer & _ & Hl & H)]; [by apply elem_of_nil in H|].
    split; [done|]. by exists n, layer.
  - intros (Hn & n & layer & Hl & H). right. split; [done|]. exists n, layer.
    split; [|done]. apply elem_of_sorted_keys, elem_of_dom. by eexists.
Qed.

End Deps.

(** A decoder whose layers read the encoder of the parent network; layers
    are named, the network of a layer is 0 for the parent and 1 for the net of
    the cell. *)
Definition example_network (layer : string) : nat :=
  if String.eqb layer "encoder" || String.eqb layer "enc_ctx" then 0 else 1.

Definition example_deps (layer : string) : list string :=
  if String.eqb layer "att" then ["encoder"; "enc_ctx"; "s"]
  else if String.eqb layer "s" then ["att"; "encoder"]
  else [].

Lemma example_parent_deps :
  get_parent_deps example_network (λ _, true) example_deps (λ _, []) 0
    ∅ {["s" := "s"; "att" := "att"; "output" := "output"]}
  = ["encoder"; "enc_ctx"].
Proof. vm_compute. done. Qed.

End ParentDeps.

(** ** Resolving the output of a layer that depends on the choice of the
    previous frame (the loop of [_SubnetworkRecCell._opt_search_resolve] with
    [is_prev_choice]) *)

Module SearchResolvePrev.

Import Masking RelativePositions SearchResolve.

Section PrevChoice.

(** One choice layer in a frame, and a layer whose search choices are those
    of "prev:" of this choice layer: the beams of the output of the layer in a
    frame are the beams that the choice of the frame before has made. *)
Variable X : Type.
Variable acc_ta : list (list X).
Variable final_acc_tas_dict : string → option (list (list (list Z))).
Variable batch_dim beam_size : nat.
Variable layer_choice : string.
Variable src_ta : list (list (list Z)).

Hypothesis choice_accumulated : final_acc_tas_dict layer_choice = Some src_ta.
Hypothesis src_frames : length src_ta = length acc_ta.
Hypothesis acc_shape : Forall (λ flat, length flat = batch_dim * beam_size) acc_ta.
Hypothesis src_shape : Forall (λ src, shaped src batch_dim beam_size) src_ta.
Hypothesis src_range : ∀ i src b k s,
  0 < i → src_ta !! i = Some src → entry src b k = Some s → (0 ≤ s < Z.of_nat beam_size)%Z.
Hypothesis beam_not_empty : 0 < beam_size.

(** The outputs of the layer in the frames [1] to [n], along the way of the
    hypothesis that is in beam [x] after the choice of frame [n - 1]: the
    output of frame [n] is read at [x], the outputs before it along the source
    beam of [x]. *)
Fixpoint later_frames (n : nat) (b x : nat) : option (list X) :=
  match n with
  | O => Some []
  | S i =>
      flat ← acc_ta !! S i;
      o ← flat !! (b * beam_size + x);
      src ← src_ta !! i;
      s ← entry src b x;
      h ← later_frames i b (Z.to_nat s);
      Some (h ++ [o])
  end.

(** The outputs of the layer along the way of the hypothesis that is in beam
    [k] after the last frame: the first frame is read at beam 0, every later
    frame at the beam that the hypothesis had after the frame before. *)
Definition prev_hypothesis (b k : nat) : option (list X) :=
  match length acc_ta with
  | O => Some []
  | S last =>
      first ← acc_ta !! 0;
      o ← first !! (b * beam_size + 0);
      src ← src_ta !! last;
      s ← entry src b k;
      h ← later_frames last b (Z.to_nat s);
      Some (o :: h)
  end.

Lemma transform_spec (i : nat) (choice_beams : list (list Z)) (ta : list (option (list X)))
    flat :
  acc_ta !! i = Some flat →
  shaped choice_beams batch_dim beam_size →
  (∀ b k s, entry choice_beams b k = Some s → (0 ≤ s < Z.of_nat beam_size)%Z) →
  ta !! i = Some None →
  ∃ frame,
    transform X acc_ta batch_dim beam_size i choice_beams ta = Some (<[i := Some frame]> ta)
    ∧ length frame = batch_dim * beam_size
    ∧ ∀ b k s, entry choice_beams b k = Some s → b < batch_dim → k < beam_size →
        frame !! (b * beam_size + k) = flat !! (b * beam_size + Z.to_nat s).
Proof.
  intros Hflat Hbeams Hrange Hfree.
  pose proof (proj1 (Forall_lookup _ _) acc_shape _ _ Hflat) as Hflat_len.
  pose proof (CudnnConvert.reshape_shaped batch_dim beam_size flat Hflat_len) as Hresh.
  destruct (gather_beams_spec (reshape batch_dim beam_size flat) choice_beams
              batch_dim beam_size beam_size Hresh Hbeams Hrange)
    as (output_ & Hg2 & Hsh2 & He2).
  destruct (concat_shaped_entry output_ batch_dim beam_size 0 0 Hsh2) as [Hclen _].
  exists (concat output_). split.
  { unfold transform. rewrite Hflat. cbn [mbind option_bind]. unfold tf_reshape.
    rewrite Hflat_len, Nat.eqb_refl. cbn [mbind option_bind]. rewrite Hg2.
    cbn [mbind option_bind]. rewrite Hclen.
    assert (match choice_beams with [] => 0 | idxs :: _ => length idxs end = beam_size
            ∨ batch_dim = 0) as [->| ->].
    { destruct Hbeams as [Hl Hr]. destruct choice_beams as [|idxs rest]; [right; by simpl in Hl|].
      left. by apply Forall_cons in Hr as [Hr _]. }
    - rewrite Nat.eqb_refl. unfold ta_write. rewrite Hfree. done.
    - simpl. unfold ta_write. rewrite Hfree. done. }
  split; [done|]. intros b k s Hs Hb Hk.
  destruct (concat_shaped_entry output_ batch_dim beam_size b k Hsh2) as [_ Hce].
  rewrite Hce by done. destruct (He2 b k s Hs) as [_ ->].
  specialize (Hrange b k s Hs).
  rewrite (CudnnConvert.reshape_entry batch_dim beam_size flat b (Z.to_nat s)); [done|done|done|lia].
Qed.

(** The body for the last frame, before the loop: no output is written. *)
Lemma prev_body_first_spec (i : nat) (choice_beams : list (list Z)) src :
  src_ta !! i = Some src →
  shaped choice_beams batch_dim beam_size →
  (∀ b k s, entry choice_beams b k = Some s → (0 ≤ s < Z.of_nat beam_size)%Z) →
  ∃ src_choice_beams,
    search_resolve_body X acc_ta final_acc_tas_dict batch_dim beam_size [layer_choice]
      layer_choice true i choice_beams None
    = Some (src_choice_beams, None)
    ∧ shaped src_choice_beams batch_dim beam_size
    ∧ ∀ b k s, entry choice_beams b k = Some s →
        entry src_choice_beams b k = entry src b (Z.to_nat s)
        ∧ is_Some (entry src_choice_beams b k).
Proof.
  intros Hsrc Hbeams Hrange.
  pose proof (proj1 (Forall_lookup _ _) src_shape _ _ Hsrc) as Hsrc_sh.
  destruct (gather_beams_spec src choice_beams batch_dim beam_size beam_size Hsrc_sh Hbeams Hrange)
    as (src_choice_beams & Hg1 & Hsh1 & He1).
  exists src_choice_beams. split.
  { unfold search_resolve_body. cbn [frame_choices]. rewrite choice_accumulated.
    cbn [mbind option_bind]. rewrite Hsrc. cbn [mbind option_bind]. rewrite Hg1.
    cbn [mbind option_bind]. done. }
  split; [done|]. intros b k s Hs. destruct (He1 b k s Hs) as [Hsome Heq]. done.
Qed.

(** The body inside the loop: the output of the frame after [i] is
    written. *)
Lemma prev_body_spec (i : nat) (choice_beams : list (list Z))
    (ta : list (option (list X))) flat src :
  acc_ta !! S i = Some flat → src_ta !! i = Some src →
  shaped choice_beams batch_dim beam_size →
  (∀ b k s, entry choice_beams b k = Some s → (0 ≤ s < Z.of_nat beam_size)%Z) →
  ta !! S i = Some None →
  ∃ src_choice_beams frame,
    search_resolve_body X acc_ta final_acc_tas_dict batch_dim beam_size [layer_choice]
      layer_choice true i choice_beams (Some ta)
    = Some (src_choice_beams, Some (<[S i := Some frame]> ta))
    ∧ shaped src_choice_beams batch_dim beam_size
    ∧ length frame = batch_dim * beam_size
    ∧ ∀ b k s, entry choice_beams b k = Some s →
        entry src_choice_beams b k = entry src b (Z.to_nat s)
        ∧ is_Some (entry src_choice_beams b k)
        ∧ (b < batch_dim → k < beam_size →
           frame !! (b * beam_size + k) = flat !! (b * beam_size + Z.to_nat s)).
Proof.
  intros Hflat Hsrc Hbeams Hrange Hfree.
  pose proof (proj1 (Forall_lookup _ _) src_shape _ _ Hsrc) as Hsrc_sh.
  destruct (gather_beams_spec src choice_beams batch_dim beam_size beam_size Hsrc_sh Hbeams Hrange)
    as (src_choice_beams & Hg1 & Hsh1 & He1).
  destruct (transform_spec (S i) choice_beams ta flat Hflat Hbeams Hrange Hfree)
    as (frame & Htr & Hframe & Hfr).
  exists src_choice_beams, frame. split.
  { unfold search_resolve_body. cbn [frame_choices]. rewrite choice_accumulated.
    cbn [mbind option_bind]. rewrite Hsrc. cbn [mbind option_bind]. rewrite Hg1.
    cbn [mbind option_bind]. rewrite String.eqb_refl.
    replace (i + 1) with (S i) by lia. rewrite Htr. done. }
  split; [done|]. split; [done|]. intros b k s Hs.
  destruct (He1 b k s Hs) as [Hsome Heq]. split; [done|]. split; [done|].
  intros Hb Hk. by apply Hfr.
Qed.

Lemma shaped_entry_inv {A : Type} (m : list (list A)) (T B b k : nat) x :
  shaped m T B → entry m b k = Some x → b < T ∧ k < B.
Proof.
  intros [Hl Hr] He. unfold entry in He. destruct (m !! b) as [row|] eqn:Hrow; [|done].
  simpl in He. split; [apply lookup_lt_Some in Hrow; lia|].
  apply lookup_lt_Some in He. by rewrite (proj1 (Forall_lookup _ _) Hr _ _ Hrow) in He.
Qed.

(** The loop, from frame [n - 1] down: it writes the frames [n] to [1]. *)
Lemma prev_loop_spec (n : nat) (choice_beams : list (list Z)) (ta : list (option (list X))) :
  S n ≤ length acc_ta → length ta = length acc_ta →
  (∀ j, 1 ≤ j ≤ n → ta !! j = Some None) →
  shaped choice_beams batch_dim beam_size →
  (0 < n → ∀ b k s, entry choice_beams b k = Some s → (0 ≤ s < Z.of_nat beam_size)%Z) →
  ∃ final_beam_choices new_ta,
    search_resolve_loop X acc_ta final_acc_tas_dict batch_dim beam_size [layer_choice]
      layer_choice true n choice_beams (Some ta)
    = Some (final_beam_choices, Some new_ta)
    ∧ length new_ta = length acc_ta
    ∧ shaped final_beam_choices batch_dim beam_size
    ∧ (∀ j, j = 0 ∨ n < j → new_ta !! j = ta !! j)
    ∧ ∀ b k, b < batch_dim → k < beam_size →
        ∃ s h, entry choice_beams b k = Some s
          ∧ later_frames n b (Z.to_nat s) = Some h
          ∧ length h = n
          ∧ ∀ j, j < n →
              ∃ frame, new_ta !! S j = Some (Some frame)
                ∧ length frame = batch_dim * beam_size
                ∧ frame !! (b * beam_size + k) = h !! j.
Proof.
  revert choice_beams ta. induction n as [|i IH]; intros choice_beams ta Hn Hta Hfree Hsh Hrange.
  { exists choice_beams, ta. split; [done|]. split; [done|]. split; [done|]. split; [done|].
    intros b k Hb Hk. destruct (shaped_entry choice_beams batch_dim beam_size b k Hsh Hb Hk)
      as [s Hs].
    exists s, []. split; [done|]. split; [done|]. split; [done|]. intros j Hj. lia. }
  destruct (lookup_lt_is_Some_2 acc_ta (S i) ltac:(lia)) as [flat Hflat].
  destruct (lookup_lt_is_Some_2 src_ta i ltac:(lia)) as [src Hsrc].
  specialize (Hrange ltac:(lia)).
  destruct (prev_body_spec i choice_beams ta flat src Hflat Hsrc Hsh Hrange
              (Hfree (S i) ltac:(lia)))
    as (beams1 & frame & Hbody & Hsh1 & Hframe & He).
  destruct (IH beams1 (<[S i := Some frame]> ta))
    as (final & new_ta & Hloop & Hlen & Hfsh & Hkeep & Hhist).
  { lia. }
  { by rewrite length_insert. }
  { intros j Hj. rewrite list_lookup_insert_ne by lia. apply Hfree. lia. }
  { done. }
  { intros Hi b k s Hs.
    destruct (shaped_entry_inv beams1 batch_dim beam_size b k s Hsh1 Hs) as [Hb Hk].
    destruct (shaped_entry choice_beams batch_dim beam_size b k Hsh Hb Hk) as [s0 Hs0].
    destruct (He b k s0 Hs0) as (Heq & _ & _). rewrite Heq in Hs.
    by apply (src_range i src b (Z.to_nat s0) s). }
  exists final, new_ta. split.
  { cbn [search_resolve_loop]. rewrite Hbody. cbn [mbind option_bind fst snd]. exact Hloop. }
  split; [done|]. split; [done|]. split.
  { intros j Hj. rewrite Hkeep by lia. by rewrite list_lookup_insert_ne by lia. }
  intros b k Hb Hk.
  destruct (shaped_entry choice_beams batch_dim beam_size b k Hsh Hb Hk) as [s Hs].
  destruct (He b k s Hs) as (Heq & [s1 Hs1] & Hfr). specialize (Hfr Hb Hk).
  destruct (Hhist b k Hb Hk) as (s1' & h & Hs1' & Hh & Hhlen & Hcols).
  rewrite Hs1 in Hs1'. injection Hs1' as <-.
  specialize (Hrange b k s Hs).
  assert (is_Some (flat !! (b * beam_size + Z.to_nat s))) as [o Ho].
  { apply lookup_lt_is_Some.
    rewrite (proj1 (Forall_lookup _ _) acc_shape _ _ Hflat). nia. }
  exists s, (h ++ [o]). split; [done|]. split.
  { cbn [later_frames]. rewrite Hflat. cbn [mbind option_bind]. rewrite Ho.
    cbn [mbind option_bind]. rewrite Hsrc. cbn [mbind option_bind].
    rewrite <- Heq, Hs1. cbn [mbind option_bind]. rewrite Hh. done. }
  split; [rewrite length_app; simpl; lia|].
  intros j Hj. destruct (decide (j = i)) as [->|Hne].
  - exists frame. split.
    { rewrite Hkeep by lia. apply list_lookup_insert_eq. lia. }
    split; [done|]. rewrite Hfr, Ho. rewrite lookup_app_r by lia.
    by rewrite Hhlen, Nat.sub_diag.
  - destruct (Hcols j ltac:(lia)) as (fr & Hfrj & Hfrl & Hfre).
    exists fr. split; [done|]. split; [done|]. rewrite Hfre. by rewrite lookup_app_l by lia.
Qed.

(** X24: For a layer on the beams of the previous frame, the resolved output
    holds in the column of every beam of the final choice the outputs along
    the way of this hypothesis: the first frame at beam 0, every later frame
    at the beam that the hypothesis had after the choice of the frame before.
    The loop raises nothing and writes every frame once. *)
Theorem resolved_prev_output_is_history :
  ∃ new_ta,
    search_resolve X acc_ta final_acc_tas_dict batch_dim beam_size beam_size [layer_choice]
      layer_choice true
    = Some new_ta
    ∧ length new_ta = length acc_ta
    ∧ ∀ b k, b < batch_dim → k < beam_size →
        ∃ h, prev_hypothesis b k = Some h
          ∧ length h = length acc_ta
          ∧ ∀ j, j < length acc_ta →
              ∃ frame, new_ta !! j = Some (Some frame)
                ∧ length frame = batch_dim * beam_size
                ∧ frame !! (b * beam_size + k) = h !! j.
Proof.
  set (initial := replicate batch_dim (Z.of_nat <$> seq 0 beam_size)).
  assert (shaped initial batch_dim beam_size) as Hsh.
  { unfold initial. split; [by rewrite length_replicate|]. apply Forall_replicate.
    by rewrite length_fmap, length_seq. }
  assert (∀ b k s, entry initial b k = Some s → s = Z.of_nat k ∧ k < beam_size) as Hinit.
  { intros b k s Hs. unfold entry, initial in Hs.
    destruct (replicate batch_dim (Z.of_nat <$> seq 0 beam_size) !! b) as [row|] eqn:Hrow;
      [|done].
    apply lookup_replicate in Hrow as [-> _]. simpl in Hs. rewrite list_lookup_fmap in Hs.
    destruct (seq 0 beam_size !! k) as [x|] eqn:Hx; [|done]. apply lookup_seq in Hx as [-> Hk].
    injection Hs as <-. done. }
  unfold search_resolve, prev_hypothesis. fold initial.
  destruct (Nat.eq_0_gt_0_cases (length acc_ta)) as [HT|Hpos].
  { rewrite HT. exists []. cbn. split; [done|]. split; [done|]. intros b k Hb Hk. exists [].
    split; [done|]. split; [done|]. intros j Hj. lia. }
  assert (∃ last, length acc_ta = S last) as [last HT].
  { exists (pred (length acc_ta)). lia. }
  rewrite HT.
  destruct (lookup_lt_is_Some_2 src_ta last ltac:(lia)) as [src Hsrc].
  destruct (lookup_lt_is_Some_2 acc_ta 0 ltac:(lia)) as [first Hfirst].
  destruct (prev_body_first_spec last initial src Hsrc Hsh) as (beams1 & Hbody & Hsh1 & He1).
  { intros b k s Hs. destruct (Hinit b k s Hs) as [-> Hk]. lia. }
  destruct (prev_loop_spec last beams1 (replicate (S last) None))
    as (final & ta1 & Hloop & Hlen1 & Hfsh & Hkeep & Hhist).
  { lia. }
  { by rewrite length_replicate. }
  { intros j Hj. apply lookup_replicate_2. lia. }
  { done. }
  { intros Hlast b k s Hs.
    destruct (shaped_entry_inv beams1 batch_dim beam_size b k s Hsh1 Hs) as [Hb Hk].
    destruct (shaped_entry initial batch_dim beam_size b k Hsh Hb Hk) as [s0 Hs0].
    destruct (He1 b k s0 Hs0) as (Heq & _). rewrite Heq in Hs.
    by apply (src_range last src b (Z.to_nat s0) s). }
  set (zeros := map (map (λ _ : Z, 0%Z)) final).
  assert (shaped zeros batch_dim beam_size) as Hzsh by (by apply map_shaped).
  assert (∀ b k s, entry zeros b k = Some s → s = 0%Z) as Hzero.
  { intros b k s Hs. unfold zeros in Hs. rewrite entry_map in Hs.
    destruct (entry final b k); [|done]. by injection Hs as <-. }
  destruct (transform_spec 0 zeros ta1 first Hfirst Hzsh) as (frame0 & Htr & Hfr0l & Hfr0).
  { intros b k s Hs. rewrite (Hzero b k s Hs). lia. }
  { rewrite Hkeep by (by left). apply lookup_replicate_2. lia. }
  exists (<[0 := Some frame0]> ta1). split.
  { rewrite Hbody. cbn [mbind option_bind fst snd]. rewrite Hloop.
    cbn [mbind option_bind fst snd]. fold zeros. cbn [Nat.ltb Nat.leb]. exact Htr. }
  split; [rewrite length_insert; lia|]. intros b k Hb Hk.
  destruct (shaped_entry initial batch_dim beam_size b k Hsh Hb Hk) as [s0 Hs0].
  destruct (Hinit b k s0 Hs0) as [-> _].
  destruct (He1 b k _ Hs0) as (Heq & [s1 Hs1]). rewrite Nat2Z.id in Heq.
  destruct (Hhist b k Hb Hk) as (s1' & h & Hs1' & Hh & Hhlen & Hcols).
  rewrite Hs1 in Hs1'. injection Hs1' as <-.
  destruct (shaped_entry zeros batch_dim beam_size b k Hzsh Hb Hk) as [z Hz].
  pose proof (Hfr0 b k z Hz Hb Hk) as Hf0. rewrite (Hzero b k z Hz) in Hf0.
  change (Z.to_nat 0) with 0 in Hf0.
  assert (is_Some (first !! (b * beam_size + 0))) as [o Ho].
  { apply lookup_lt_is_Some. rewrite (proj1 (Forall_lookup _ _) acc_shape _ _ Hfirst). nia. }
  exists (o :: h). split.
  { rewrite Hfirst. cbn [mbind option_bind]. rewrite Ho. cbn [mbind option_bind].
    rewrite Hsrc. cbn [mbind option_bind]. rewrite <- Heq, Hs1. cbn [mbind option_bind].
    rewrite Hh. done. }
  split; [simpl; lia|]. intros [|j] Hj.
  - exists frame0. split; [apply list_lookup_insert_eq; lia|]. split; [done|].
    simpl. rewrite Hf0. exact Ho.
  - destruct (Hcols j ltac:(lia)) as (fr & Hfrj & Hfrl & Hfre).
    exists fr. split; [by rewrite list_lookup_insert_ne by lia|]. done.
Qed.

End PrevChoice.

Lemma example_resolved_prev :
  search_resolve string example_acc_ta example_dict 2 2 2 ["output"] "output" true
  = Some [Some ["a0"; "a0"; "c0"; "c0"]; Some ["b1"; "b1"; "c1"; "c1"];
          Some ["a2"; "a2"; "d2"; "d2"]]
  ∧ prev_hypothesis string example_acc_ta 2 example_src_ta 0 1 = Some ["a0"; "b1"; "a2"]
  ∧ prev_hypothesis string example_acc_ta 2 example_src_ta 1 0 = Some ["c0"; "c1"; "d2"].
Proof. vm_compute. done. Qed.

Lemma resolved_prev_output_is_history_witness :
  ∃ new_ta,
    search_resolve string example_acc_ta example_dict 2 2 2 ["output"] "output" true
    = Some new_ta
    ∧ length new_ta = length example_acc_ta
    ∧ ∀ b k, b < 2 → k < 2 →
        ∃ h, prev_hypothesis string example_acc_ta 2 example_src_ta b k = Some h
          ∧ length h = length example_acc_ta
          ∧ ∀ j, j < length example_acc_ta →
              ∃ frame, new_ta !! j = Some (Some frame)
                ∧ length frame = 2 * 2
                ∧ frame !! (b * 2 + k) = h !! j.
Proof.
  apply (resolved_prev_output_is_history string example_acc_ta example_dict 2 2 "output"
           example_src_ta).
  - reflexivity.
  - reflexivity.
  - repeat constructor.
  - repeat constructor.
  - intros [|[|[|i]]] src b k s Hi Hsrc He; [lia| | |done];
      injection Hsrc as <-;
      destruct b as [|[|b]]; try done;
      destruct k as [|[|k]]; try done;
      injection He as <-; lia.
  - lia.
Defined.

End SearchResolvePrev.
